(* ===== verification/_CoqProject ===== *)
-Q . S2P
Prelude.v
Effects.v
Loop.v
Text.v
Json.v
Sql.v
Uint256.v
Hex.v
Event.v
Rlp.v
Transaction.v
Signer.v
Abi.v
RpcTypes.v
RpcEndpoints.v
RpcClient.v
Metrics.v
Failover.v
IndexerTypes.v
StateProjector.v
Indexer.v
IndexerSync.v
PostgresStore.v
PostgresRefinement.v
Outbox.v
JetStream.v
IndexerProperties.v
IndexerSafety.v
RpcChainClient.v
RpcProperties.v
RiskCalculator.v
RiskEngine.v
PostgresRiskRepository.v
RiskWorker.v
RiskProperties.v
ApiStore.v
ApiChain.v
ApiService.v
ApiProperties.v
HttpServer.v
TxManager.v
TxRefinement.v
PostgresTransactionStore.v
TxProperties.v
TxSteps.v
TxLedger.v
TxHistory.v
TransactionRpc.v
LiquidationChain.v
Liquidator.v
Environment.v
LiquidationJobs.v
LiquidationProperties.v
Services.v
ServiceProperties.v
Pipeline.v
Startup.v
Mains.v
IndexerProcess.v
Reports.v
OptionPricing.v
PricerMain.v
