(* ===== verification/Prelude.v ===== *)
(** * A verification of the services of the lending protocol

    The C++ services under [src/cpp/] follow a lending pool on an Ethereum chain: they index
    its logs, evaluate the health of its positions, liquidate those that fall below their
    threshold, and serve the state over HTTP.  This library models them and proves what
    they promise, each one alone and, where one feeds another, together.

    ** How the program works

    The indexer ([indexer/]) asks a node for blocks and logs, projects the logs to the state of
    the market and its positions, and stores blocks, logs and state in Postgres, rewinding
    when the chain reorganises; with each block it writes an event to an outbox table.  The
    outbox publisher ([messaging/]) moves these events to a NATS stream.  The risk worker
    ([risk-engine/]) takes them from there, evaluates the stored positions and writes the
    candidates for liquidation to the same outbox, from which they reach the liquidator
    ([liquidator/]).  It queues them, prepares a call against the current state of the
    chain and inserts a transaction job, which the transaction manager ([tx-manager/]) signs,
    broadcasts, replaces and follows to finality.  The API server ([api-server/]) answers from
    the tables.  All share the library [common/]: integers, encodings and the RPC client.

    ** How it is modelled

    A C++ function without effects is a function to [result], whose [Throw] carries the
    exception ([Prelude]).  A function with effects is a [prog] over the state of the objects it
    reaches ([Effects]): it returns a value or an exception with the state it leaves.  A
    machine integer is a [Z] with its wrap-around written out ([u64], [u32]); [Uint256] is a
    [Z] with a proof of its range.  An interface class of the sources is a type class of
    operations; where its users rely on more than the types, a class of laws states it and
    the instance for the real implementation proves it.  A table is the list of its rows and a SQL
    statement a function over it ([Sql]); a transaction that throws changes nothing.

    Services run at the same time.  A service sees a database that other services commit
    to between its own transactions as a [World] ([Sql]): the foreign commits come in any order the
    theorem allows.  Row locks and [SKIP LOCKED] are not modelled as such: transactions
    are taken in the order of their commits.  A node, an endpoint or a broker is a state with
    functions, and answers what it likes except for what a theorem assumes of it.

    ** The files

    - [Prelude], [Effects], [Loop], [Text], [Json], [Sql]: exceptions, bytes, sorting as
      [std::sort] leaves it; programs, weakest preconditions and invariants of programs; the
      loop of the mains; characters and digits; JSON values; tables and transactions.
    - [common/]: [Uint256] ([Uint256.cpp], [Uint256Math.cpp]), [Hex] ([Hex.cpp], [Address.cpp]),
      [Rlp], [Transaction], [Signer] (both [Transaction.cpp]), [Abi] ([Abi.cpp], [ProtocolAbi.cpp]), [RpcTypes] and
      [RpcClient] ([RpcClient.cpp]), [RpcEndpoints].
    - [messaging/]: [Event], [Outbox], [JetStream].
    - [indexer/]: [IndexerTypes] (with [EventDecoder.cpp]), [StateProjector], [Indexer],
      [PostgresStore], [RpcChainClient] (on [Failover]).  Proofs: [IndexerSync] (the
      indexer against the interface of its store), [PostgresRefinement] (the tables implement the
      interface), [IndexerProperties] (both together), [IndexerSafety] (a chain that moves),
      [RpcProperties] (a node behind HTTP).
    - [risk-engine/]: [RiskCalculator], [RiskEngine], [PostgresRiskRepository], [RiskWorker];
      proofs in [RiskProperties].
    - [api-server/]: [ApiStore], [ApiChain], [ApiService], [HttpServer]; proofs in
      [ApiProperties].
    - [tx-manager/]: [TxManager], [PostgresTransactionStore], [TransactionRpc]; proofs in
      [TxRefinement], [TxProperties] (one pass), [TxSteps] (the calls of a pass one by one, and the
      life of the service), [TxLedger] and [TxHistory] (what holds over that life).
    - [liquidator/]: [LiquidationChain], [Liquidator], [LiquidationJobs]; proofs in
      [LiquidationProperties].
    - [observability/]: [Metrics] ([Metrics.cpp], [RpcMetrics.cpp]).
    - The mains: [Environment] (their settings), [Services] (the loops of the consumers; those
      of the indexer and the transaction manager are in [IndexerSafety] and [TxSteps]), [Startup]
      (their setups and ends), [Mains] (their iterations with what they report; without the
      reports they are those of [Services], by [Reports]);
      proofs in [ServiceProperties], [Mains] and [IndexerProcess] (the indexer from its settings to its
      tables).
    - [tools/metal-option-pricer/]: [OptionPricing] ([OptionPricing.cpp], [MetalMonteCarlo.mm]), [PricerMain]
      ([Main.cpp]).
    - [Pipeline]: the risk worker, the publisher and the liquidator running together.

    ** What the theorems show

    - The indexer.  From any fork the store holds, [SyncToHead] ends with exactly the chain
      ([SyncToHead_converges], [synced_database]); while the chain moves and calls fail, the
      store holds one segment of one chain, and recovers ([indexer_recovers]), but for the logs
      of a block that is replaced while it is fetched ([replaced_block_loses_logs]); also
      through failing endpoints ([failover_converges], [failover_checked]), which are decoded
      over HTTP ([answers_decoded]); and the process as a whole, from its environment over HTTP to its
      tables ([indexer_process_converges]).  The SQL implements the store ([postgres_store_refines]).
      The projection conserves the pool and its totals, in any order of the logs
      ([equity_conserved], [Rebuild_totals], [Rebuild_order_independent]).
    - What is read from its tables: a scan and the API answer for exactly the logs of the chain
      ([scan_after_sync], [api_after_sync]); every request gets a well-formed answer
      ([every_request_answered]) within the rate ([rate_limited]).
    - Risk: the evaluation is exact, candidates are bounded, and they are what the contract
      computes ([Evaluate_exact], [BuildCandidate_safe], [candidate_matches_contract]).
    - Messages: every event is published at least once and in order, whichever connections of the
      publisher fail, and the outbox drains ([outbox_at_least_once], [outbox_drained]); a message leaves the stream only
      when its work is committed ([events_not_lost], [candidates_not_lost]); a candidate arrives
      as it was sent ([candidate_pipeline]); and over all three services together none is lost
      between its scan and its job ([candidate_never_lost]).
    - Liquidation: jobs move along one automaton, are submitted at most once and only by the
      holder of the newest token ([job_life], [submitted_once], [Submit_fenced]); what is
      submitted is profitable on the current chain and approved by the transaction manager
      ([Prepare_submission], [submission_approved]).
    - Transactions: every pass keeps to an automaton of the calls it may make
      ([RunOnce_contract]), and over the life of the service no loaded job lacks what it is
      dereferenced for ([RunOnce_defined]); what is sent was approved and saved first, a nonce
      belongs to one job, a replacement raises the fees ([broadcast_authorised],
      [sent_nonce_exclusive], [replacement_same_nonce_higher_fees], [signing_payload_round_trip],
      [transaction_table_refines], and the lemma [Broadcast_exact]); it carries the operator's
      signature of the members of the job, and a node that recovers its sender finds the operator, unless
      the recovery id was 2 or 3, which the encoding does not keep ([sent_by_operator]).
    - The processes: a service is ready when its setup has succeeded, and its exit code is that of its
      end ([services_start_safely]); what it reports is exact ([indexer_gauges_exact], and the lemma
      [calls_counted]); counting changes nothing else ([liquidator_loop_safe], [risk_loop_safe]).
    - The option pricer: the lemmas [Payoff_parity], [Price_bounded], [Price_errors_sign],
      [HandleRequest_answers], [price_command].
    - What the sources do not mean to do: [replaced_block_loses_logs],
      [interrupted_replacement_abandoned], and the lemmas [candidate_the_contract_rejects],
      [returning_block_is_silent], [uncertain_broadcast_abandoned], [negative_setting_accepted],
      [metrics_port_wraps], [committed_block_uncounted], [api_ready_before_listening],
      [malformed_body_ends_server], [nan_contract_accepted].

    ** Fuel and bounds

    [SyncToHead] takes fuel for its [while(true)]; more than the blocks from the start to the
    head, and two, is enough, and it never runs out ([SyncToHead_converges]).  A store is
    assumed to have room for two more writes per unit of fuel: its version counters are
    [BIGINT]s.  The digit loops have as much fuel as an integer of their width has digits (78
    decimal, 64 hexadecimal, 8 bytes of a length), shown enough by the round trips; loops over
    a text have its length.  [service_loop] runs as many iterations as come before the signal.

    ** Parameters

    Keccak-256 and secp256k1 ([LawfulSecp256k1]: a signature, with its recovery id from 0 to 3, shows its key); the text of JSON
    values ([JsonText]: what is dumped parses back), and its values with fractions ([PricerJson]); the HTTP transport, listening ([Sockets]) and
    what a request reads; the NATS library ([LawfulNats]: a message stays until it is acknowledged;
    [LawfulStream]: what is accepted is stored, under its id); the registry of prometheus
    ([LawfulPrometheus]); the collation of the database ([TextOrder]); [getenv]; [std::stod], and the
    functions of [Libm]; the Metal device; the clocks, which
    [rate_limited] takes not to go backwards.

    ** Not modelled

    Logging, signals and pauses; the constructors and destructors of handles, and what is
    forwarded to a private implementation; accepting connections and the thread pool of the HTTP
    server, whose requests run one after another, as do the calls of the API that share the
    endpoints under a mutex; the counters of the RPC calls in the passes of the mains, which
    [Metrics] shows for the calls of a client; JSON numbers with a fraction in the services, which
    never write them; the overflow of a lease beyond the range of a timestamp; the shader of the
    option pricer, which a device runs; connections to the database that fail and commits in
    doubt, but for those of the outbox ([Unreliable] in [Sql]); a database whose collation orders job
    ids otherwise than by their bytes ([LoadActive]); the dump of an audit record that is not
    UTF-8, which throws; the clock of the rate limiter, read before its mutex is taken, so that readings
    might change places; messages of exceptions beyond ASCII; the contracts, of which only the liquidation
    arithmetic is stated as a reference ([RiskCalculator], [scaledDebtBurn]); the oracle coordinator, the frontend
    and the deployment.

    This file holds the exceptions, the bytes and arrays, the machine words, the sort
    and the generic lemmas and tactics of the library. *)

From Stdlib Require Export ZArith Lia Bool.
From Stdlib Require Import StrictProp.
From Stdlib Require Export Strings.Byte.
From stdpp Require Export base list gmap strings sorting.

Set Default Goal Selector "!".
#[global] Open Scope Z_scope.

(** ** Exceptions and fallible computations *)

(** [RpcErrorKind] of [RpcClient.hpp]. *)
Inductive RpcErrorKind :=
| InvalidEndpoint | Transport | Http | Protocol | Remote | InvalidResponse.

(** The C++ exception classes the sources throw or catch.  The string is the
    argument of the [throw]; [BoostOverflow] is the [std::overflow_error] that a
    checked Boost integer raises itself.  [Undefined] is not an exception: it marks the
    executions whose behaviour C++ does not define (the dereference of an empty
    optional), so that theorems can exclude them. *)
Inductive exn :=
| InvalidArgument (msg : string)
| OverflowError (msg : string)
| DomainError (msg : string)
| RuntimeError (msg : string)
| BoostOverflow
| OutOfRange
| BadVariantAccess
| Undefined
| JsonException (msg : string)
| SqlError (msg : string)
| SystemError (msg : string)
| RpcException (kind : RpcErrorKind) (msg : string).

#[global] Instance RpcErrorKind_eq_dec : EqDecision RpcErrorKind.
Proof. solve_decision. Defined.
#[global] Instance exn_eq_dec : EqDecision exn.
Proof. solve_decision. Defined.

(** A C++ function that returns a value or throws. *)
Inductive result (A : Type) :=
| Ok (a : A)
| Throw (e : exn).
Arguments Ok {A} a.
Arguments Throw {A} e.

#[global] Instance result_ret : MRet result := fun A a => Ok a.
#[global] Instance result_bind : MBind result := fun A B f m =>
  match m with Ok a => f a | Throw e => Throw e end.
#[global] Instance result_fmap : FMap result := fun A B f m =>
  match m with Ok a => Ok (f a) | Throw e => Throw e end.

(** [result_of o e]: the value, or the exception [e] when there is none. *)
Definition result_of {A} (o : option A) (e : exn) : result A :=
  match o with Some a => Ok a | None => Throw e end.

Definition is_ok {A} (r : result A) : bool :=
  match r with Ok _ => true | Throw _ => false end.

(** A loop over a container whose body may throw. *)
Fixpoint fold_result {A S} (f : S -> A -> result S) (s : S) (l : list A) : result S :=
  match l with
  | [] => Ok s
  | a :: l' => s' ← f s a; fold_result f s' l'
  end.

Fixpoint map_result {A B} (f : A -> result B) (l : list A) : result (list B) :=
  match l with
  | [] => Ok []
  | a :: l' => b ← f a; bs ← map_result f l'; Ok (b :: bs)
  end.

Lemma bind_Ok {A B} (a : A) (f : A -> result B) : (x ← Ok a; f x) = f a.
Proof. reflexivity. Qed.

Lemma bind_Throw {A B} e (f : A -> result B) : (x ← Throw e; f x) = Throw e.
Proof. reflexivity. Qed.

Lemma Ok_inj {A} (a b : A) : Ok a = Ok b -> a = b.
Proof. by intros [= ->]. Qed.

Lemma bind_Ok_inv {A B} (m : result A) (f : A -> result B) b :
  (x ← m; f x) = Ok b -> exists a, m = Ok a /\ f a = Ok b.
Proof. destruct m; simpl; [eauto | discriminate]. Qed.

Lemma bind_assoc {A B C} (m : result A) (f : A -> result B) (g : B -> result C) :
  (y ← (x ← m; f x); g y) = (x ← m; y ← f x; g y).
Proof. by destruct m. Qed.

Lemma fold_result_app {A S} (f : S -> A -> result S) s l1 l2 :
  fold_result f s (l1 ++ l2) = (s' ← fold_result f s l1; fold_result f s' l2).
Proof.
  revert s; induction l1 as [|a l1 IH]; intros s; simpl; [done|].
  destruct (f s a); simpl; auto.
Qed.

Lemma fold_result_snoc {A S} (f : S -> A -> result S) s l a :
  fold_result f s (l ++ [a]) = (s' ← fold_result f s l; f s' a).
Proof.
  rewrite fold_result_app. destruct (fold_result f s l) as [s'|e]; [|done].
  simpl. by destruct (f s' a).
Qed.

Lemma fold_result_invariant {A S} (P : S -> Prop) (f : S -> A -> result S) l :
  (forall s a s', a ∈ l -> P s -> f s a = Ok s' -> P s') ->
  forall s s', P s -> fold_result f s l = Ok s' -> P s'.
Proof.
  induction l as [|a l IH]; simpl; intros Hf s s' HP H; [by simplify_eq|].
  apply bind_Ok_inv in H as (s1 & H1 & H2).
  eapply (IH ltac:(intros; eapply Hf; eauto; set_solver) s1); [|done].
  eapply Hf; eauto. set_solver.
Qed.

Lemma map_result_Forall2 {A B} (f : A -> result B) l l' :
  map_result f l = Ok l' <-> Forall2 (fun a b => f a = Ok b) l l'.
Proof.
  split.
  - revert l'. induction l as [|a l IH]; simpl; intros l' H; [by simplify_eq|].
    apply bind_Ok_inv in H as (b & Hb & H). apply bind_Ok_inv in H as (bs & Hbs & H).
    simplify_eq. constructor; auto.
  - induction 1 as [|a b l l' Hab _ IH]; simpl; [done|]. by rewrite Hab; simpl; rewrite IH.
Qed.

Lemma map_result_fmap {A B C} (f : A -> result B) (g : C -> A) (h : C -> B) l :
  (forall c, f (g c) = Ok (h c)) -> map_result f (g <$> l) = Ok (h <$> l).
Proof.
  intros H. induction l as [|c l IH]; [done|].
  rewrite !fmap_cons. simpl. rewrite H. simpl. by rewrite IH.
Qed.

Lemma map_result_fmap_in {A B C} (f : A -> result B) (g : C -> A) (h : C -> B) l :
  (forall c, c ∈ l -> f (g c) = Ok (h c)) -> map_result f (g <$> l) = Ok (h <$> l).
Proof.
  induction l as [|c l IH]; intros H; [done|]. rewrite !fmap_cons. cbn [map_result].
  rewrite H by apply list_elem_of_here. rewrite bind_Ok, IH; [done|].
  intros c' Hc. by apply H, list_elem_of_further.
Qed.

Lemma map_result_app {A B} (f : A -> result B) l1 l2 :
  map_result f (l1 ++ l2) = (r1 ← map_result f l1; r2 ← map_result f l2; Ok (r1 ++ r2)).
Proof.
  induction l1 as [|a l1 IH]; cbn [app map_result].
  - rewrite bind_Ok. by destruct (map_result f l2).
  - rewrite bind_assoc. destruct (f a) as [b|e]; [|done]. rewrite !bind_Ok, IH, !bind_assoc.
    destruct (map_result f l1); [|done]. rewrite !bind_Ok, bind_assoc. by destruct (map_result f l2).
Qed.

(** ** Exceptions that are thrown *)

(** Every exception of a computation satisfies [P]. *)
Definition throws {A} (P : exn -> Prop) (r : result A) : Prop := forall e, r = Throw e -> P e.

Lemma throws_Ok {A} P (a : A) : throws P (Ok a).
Proof. by intros e. Qed.

Lemma throws_Throw {A} (P : exn -> Prop) e : P e -> throws P (@Throw A e).
Proof. by intros He e' [= <-]. Qed.

Lemma throws_bind {A B} P (r : result A) (k : A -> result B) :
  throws P r -> (forall a, throws P (k a)) -> throws P (a ← r; k a).
Proof. intros Hr Hk e. destruct r as [a|e']; [apply Hk|]. intros [= <-]. by apply Hr. Qed.

Lemma throws_fold {A S} P (f : S -> A -> result S) l s :
  (forall s a, throws P (f s a)) -> throws P (fold_result f s l).
Proof.
  intros Hf. revert s. induction l as [|a l IH]; intros s; cbn [fold_result]; [apply throws_Ok|].
  apply throws_bind; [apply Hf|intros; apply IH].
Qed.

Lemma throws_map {A B} P (f : A -> result B) l : (forall a, throws P (f a)) -> throws P (map_result f l).
Proof.
  intros Hf. induction l as [|a l IH]; cbn [map_result]; [apply throws_Ok|].
  apply throws_bind; [apply Hf|]. intros b. apply throws_bind; [exact IH|]. intros bs. apply throws_Ok.
Qed.

Lemma throws_fmap {A B} P (f : A -> B) (r : result A) : throws P r -> throws P (f <$> r).
Proof. intros Hr e. destruct r as [a|e']; [done|]. intros [= <-]. by apply Hr. Qed.

Lemma throws_weaken {A} (P Q : exn -> Prop) (r : result A) : throws P r -> (forall e, P e -> Q e) -> throws Q r.
Proof. unfold throws. auto. Qed.

Create HintDb throws.
#[export] Hint Resolve throws_Ok throws_bind throws_map throws_fmap : throws.

(** Follows the sequence of a computation. *)
Ltac throwing := repeat (apply throws_bind; [solve [auto with throws]|intros ?]); auto with throws.

(** Induction two elements at a time. *)
Lemma list_pair_ind {A} (P : list A -> Prop) :
  P [] -> (forall a, P [a]) -> (forall a b l, P l -> P (a :: b :: l)) -> forall l, P l.
Proof.
  intros H0 H1 H2 l. enough (P l /\ forall a, P (a :: l)) by tauto.
  induction l as [|b l [IH1 IH2]]; auto.
Qed.

Lemma list_filter_all {A} (P : A -> Prop) `{forall x, Decision (P x)} l : Forall P l -> filter P l = l.
Proof.
  induction 1 as [|x l Hx _ IH]; [done|]. by rewrite filter_cons_True, IH.
Qed.

Lemma list_filter_none {A} (P : A -> Prop) `{forall x, Decision (P x)} l :
  Forall (fun x => ~ P x) l -> filter P l = [].
Proof.
  induction 1 as [|x l Hx _ IH]; [done|]. by rewrite filter_cons_False, IH.
Qed.

Lemma list_filter_fmap {A B} (f : A -> B) (P : B -> Prop) (Q : A -> Prop)
    `{forall x, Decision (P x)} `{forall x, Decision (Q x)} (l : list A) :
  (forall x, P (f x) <-> Q x) -> filter P (f <$> l) = f <$> filter Q l.
Proof.
  intros HPQ. induction l as [|x l IH]; [done|]. rewrite fmap_cons.
  destruct (decide (Q x)).
  - rewrite (filter_cons_True P) by by apply HPQ. rewrite (filter_cons_True Q) by done. simpl. by rewrite IH.
  - rewrite (filter_cons_False P), (filter_cons_False Q) by (rewrite ?HPQ; done). done.
Qed.

Lemma filter_key {K A} `{Countable K} (m : gmap K A) (k : K) :
  filter (fun entry => entry.1 = k) (map_to_list m) = match m !! k with Some a => [(k, a)] | None => [] end.
Proof.
  rewrite <-(list_to_map_to_list (M := gmap K) m) at 2. pose proof (NoDup_fst_map_to_list m) as Hnd. revert Hnd.
  generalize (map_to_list m) as l. intros l. induction l as [|[k' a] l IH]; cbn [fmap list_fmap fst].
  - intros _. cbn [list_to_map foldr]. by rewrite lookup_empty.
  - rewrite NoDup_cons. intros [Hk Hl]. rewrite filter_cons, IH by done. cbn [list_to_map foldr fst].
    destruct (decide (k' = k)) as [->|Hne].
    + rewrite lookup_insert_eq. apply not_elem_of_list_to_map_1 in Hk. change (foldr _ _ l) with (list_to_map l : gmap K A).
      by rewrite Hk.
    + rewrite lookup_insert_ne by done. done.
Qed.

Lemma list_omap_fmap {A B C} (g : A -> B) (f : B -> option C) (h : A -> option C) (l : list A) :
  (forall x, f (g x) = h x) -> omap f (g <$> l) = omap h l.
Proof.
  intros Hfh. induction l as [|a l IH]; [done|]. csimpl. rewrite Hfh. destruct (h a); by rewrite IH.
Qed.

Lemma NoDup_fmap_eq {A B} (f : A -> B) l x y : NoDup (f <$> l) -> x ∈ l -> y ∈ l -> f x = f y -> x = y.
Proof.
  intros Hnd [i Hi]%list_elem_of_lookup_1 [j Hj]%list_elem_of_lookup_1 E.
  assert (i = j) as ->; [|congruence].
  apply (NoDup_lookup _ i j (f x) Hnd); rewrite list_lookup_fmap; [by rewrite Hi|by rewrite Hj, E].
Qed.

Lemma existsb_false {A} (f : A -> bool) l : existsb f l = false <-> forall x, x ∈ l -> f x = false.
Proof.
  induction l as [|a l IH]; simpl.
  - split; [|done]. intros _ x Hx. by apply not_elem_of_nil in Hx.
  - rewrite orb_false_iff, IH. split.
    + intros [Ha Hl] x Hx. apply elem_of_cons in Hx as [->|Hx]; auto.
    + intros Hl. split; [|intros x Hx]; apply Hl; [apply list_elem_of_here|by apply list_elem_of_further].
Qed.

Lemma existsb_true {A} (f : A -> bool) l : existsb f l = true <-> exists x, x ∈ l /\ f x = true.
Proof.
  rewrite existsb_exists. split; intros (x & Hx & Hf); exists x; split; auto; by apply list_elem_of_In.
Qed.

Lemma mjoin_nil {A} : mjoin ([] : list (list A)) = [].
Proof. reflexivity. Qed.

Lemma mjoin_cons {A} (x : list A) l : mjoin (x :: l) = x ++ mjoin l.
Proof. reflexivity. Qed.

Lemma mjoin_app {A} (l1 l2 : list (list A)) : mjoin (l1 ++ l2) = mjoin l1 ++ mjoin l2.
Proof.
  induction l1 as [|x l1 IH]; [done|]. simpl app. by rewrite !mjoin_cons, IH, app_assoc.
Qed.

(** ** Tactics *)

(** Turns [(x ← m; f x) = Ok b] into [m = Ok a] and [f a = Ok b], repeatedly. *)
Ltac invert_bind :=
  repeat match goal with
  | H : mbind _ _ = Ok _ |- _ =>
      let a := fresh "a" in let H1 := fresh "Hb" in
      apply bind_Ok_inv in H as (a & H1 & H)
  | H : Ok _ = Ok _ |- _ => injection H as H; subst
  | H : Throw _ = Ok _ |- _ => discriminate H
  | H : Ok _ = Throw _ |- _ => discriminate H
  | H : mret _ = Ok _ |- _ => unfold mret, result_ret in H
  end.

(** Reduces the monad operations and nothing else. *)
Ltac msimpl :=
  cbn [mbind result_bind option_bind mret result_ret option_ret fmap result_fmap] in *.

(** Runs the first computation of a sequence, in the goal, when it is known to return or
    to throw: by rewriting, so that the rest of the sequence is not compared. *)
Ltac mstep := rewrite ?bind_Ok, ?bind_Throw.

(** Case analysis on the tests of the code: every [if] and [match] whose
    scrutinee is a boolean or a decision, in the goal or a hypothesis. *)
Ltac split_ifs :=
  repeat match goal with
  | |- context [if ?b then _ else _] => destruct b eqn:?
  | H : context [if ?b then _ else _] |- _ => destruct b eqn:?
  end.

Ltac boolify :=
  repeat match goal with
  | H : (_ && _)%bool = true |- _ => apply andb_true_iff in H as [? ?]
  | H : (_ || _)%bool = false |- _ => apply orb_false_iff in H as [? ?]
  | H : negb _ = true |- _ => apply negb_true_iff in H
  | H : negb _ = false |- _ => apply negb_false_iff in H
  | H : bool_decide _ = true |- _ => apply bool_decide_eq_true in H
  | H : bool_decide _ = false |- _ => apply bool_decide_eq_false in H
  | H : (_ =? _) = true |- _ => apply Z.eqb_eq in H
  | H : (_ =? _) = false |- _ => apply Z.eqb_neq in H
  | H : (_ <? _) = true |- _ => apply Z.ltb_lt in H
  | H : (_ <? _) = false |- _ => apply Z.ltb_ge in H
  | H : (_ <=? _) = true |- _ => apply Z.leb_le in H
  | H : (_ <=? _) = false |- _ => apply Z.leb_gt in H
  end.

(** ** Proofs of boolean side conditions kept in [SProp], so that two values of a
    constrained type with the same data are convertible. *)
Definition STrue (b : bool) : SProp := if b then sUnit else sEmpty.

Lemma STrue_intro (b : bool) : b = true -> STrue b.
Proof. intros ->. exact stt. Qed.

Lemma STrue_elim (b : bool) : STrue b -> b = true.
Proof. destruct b; simpl; [reflexivity | intros []]. Qed.

(** ** Machine integers *)

Definition u64 (z : Z) : Z := z mod 2 ^ 64.
Definition u32 (z : Z) : Z := z mod 2 ^ 32.

Lemma u64_small z : 0 <= z < 2 ^ 64 -> u64 z = z.
Proof. apply Z.mod_small. Qed.

Lemma u64_range z : 0 <= u64 z < 2 ^ 64.
Proof. apply Z.mod_pos_bound. lia. Qed.

(** ** Bytes

    [std::uint8_t] is [Byte.byte]; [b2z] is its value and [z2b] the conversion
    [static_cast<std::uint8_t>], which keeps the low eight bits. *)
Definition b2z (b : byte) : Z := Z.of_N (Byte.to_N b).
Definition z2b (z : Z) : byte :=
  match Byte.of_N (Z.to_N (z mod 256)) with Some b => b | None => x00 end.

Lemma b2z_range b : 0 <= b2z b < 256.
Proof. unfold b2z. pose proof (Byte.to_N_bounded b). lia. Qed.

Lemma z2b_b2z b : z2b (b2z b) = b.
Proof.
  unfold z2b. pose proof (b2z_range b). rewrite Z.mod_small by lia.
  unfold b2z. rewrite N2Z.id. by rewrite Byte.of_to_N.
Qed.

Lemma b2z_z2b z : b2z (z2b z) = z mod 256.
Proof.
  unfold z2b. pose proof (Z.mod_pos_bound z 256 ltac:(lia)).
  destruct (Byte.of_N _) as [b|] eqn:E.
  - apply Byte.to_of_N in E. unfold b2z. rewrite E. rewrite Z2N.id; lia.
  - apply Byte.of_N_None_iff in E. lia.
Qed.

Lemma b2z_inj b1 b2 : b2z b1 = b2z b2 -> b1 = b2.
Proof. intros H. rewrite <-(z2b_b2z b1), H. apply z2b_b2z. Qed.

#[global] Instance byte_eq_dec : EqDecision byte := Byte.byte_eq_dec.
#[global] Instance byte_countable : Countable byte.
Proof.
  refine (inj_countable Byte.to_N Byte.of_N _). intros x. apply Byte.of_to_N.
Defined.
#[global] Instance byte_inhabited : Inhabited byte := populate x00.

(** ** Fixed-size byte arrays: [std::array<std::uint8_t, n>] *)
Record array (n : nat) := MkArray {
  array_list : list byte;
  array_size : STrue (bool_decide (length array_list = n))
}.
Arguments MkArray {n} _ _.
Arguments array_list {n} _.

Lemma array_length {n} (a : array n) : length (array_list a) = n.
Proof. exact (bool_decide_eq_true_1 _ (STrue_elim _ (array_size n a))). Qed.

Lemma array_eq {n} (a b : array n) : array_list a = array_list b -> a = b.
Proof. destruct a, b; simpl. intros ->. reflexivity. Qed.

(** The array with the given bytes, when there are [n] of them. *)
Definition mk_array (n : nat) (l : list byte) : option (array n) :=
  match decide (length l = n) with
  | left H => Some (MkArray l (STrue_intro _ (bool_decide_eq_true_2 _ H)))
  | right _ => None
  end.

Lemma mk_array_list {n} (a : array n) : mk_array n (array_list a) = Some a.
Proof.
  unfold mk_array. pose proof (array_length a).
  destruct (decide _) as [E|E]; [|done]. f_equal. by apply array_eq.
Qed.

Lemma mk_array_Some n l a : mk_array n l = Some a <-> array_list a = l.
Proof.
  unfold mk_array. destruct (decide _) as [E|E]; split; intros H; simplify_eq; auto.
  - f_equal. by apply array_eq.
  - by rewrite array_length in E.
Qed.

Lemma mk_array_is_Some n l : length l = n -> exists a, mk_array n l = Some a.
Proof. intros H. unfold mk_array. destruct (decide _); eauto; done. Qed.

(** [std::copy] into a zero-initialised array: the first [n] bytes of [l], padded
    with zeros at the end. *)
Definition array_copy (n : nat) (l : list byte) : array n.
Proof.
  refine (MkArray (take n (l ++ replicate n x00)) (STrue_intro _ (bool_decide_eq_true_2 _ _))).
  abstract (rewrite length_take, length_app, length_replicate; lia).
Defined.

Lemma array_copy_list n l : length l = n -> array_list (array_copy n l) = l.
Proof. intros H. simpl. rewrite take_app_le by lia. apply take_ge. lia. Qed.

Lemma array_copy_id {n} (a : array n) : array_copy n (array_list a) = a.
Proof. apply array_eq, array_copy_list, array_length. Qed.

#[global] Instance array_eq_dec n : EqDecision (array n).
Proof.
  refine (fun a b => match decide (array_list a = array_list b) with
    | left H => left (array_eq a b H)
    | right H => right (fun E => H (f_equal array_list E)) end).
Defined.
#[global] Instance array_countable n : Countable (array n).
Proof. refine (inj_countable array_list (mk_array n) _). apply mk_array_list. Defined.
#[global] Instance array_inhabited n : Inhabited (array n) := populate (array_copy n []).

(** ** Big-endian numbers

    [be_value l] is the value of the digit loop [r = (r << 8) + byte] over [l], and
    [be_bytes n z] the [n] bytes the loop [*--it = z & 0xff; z >>= 8] writes. *)
Definition be_value (l : list byte) : Z :=
  foldl (fun r b => Z.shiftl r 8 + b2z b) 0 l.

Fixpoint be_bytes (n : nat) (z : Z) : list byte :=
  match n with
  | O => []
  | S n' => be_bytes n' (Z.shiftr z 8) ++ [z2b (Z.land z 255)]
  end.

Lemma be_value_snoc l b : be_value (l ++ [b]) = be_value l * 256 + b2z b.
Proof. unfold be_value. rewrite foldl_app. simpl. by rewrite Z.shiftl_mul_pow2. Qed.

Lemma be_value_cons b l : be_value (b :: l) = b2z b * 256 ^ Z.of_nat (length l) + be_value l.
Proof.
  induction l as [|c l IH] using rev_ind.
  - change [b] with ([] ++ [b]). rewrite be_value_snoc. unfold be_value. simpl. lia.
  - change (b :: l ++ [c]) with ((b :: l) ++ [c]). rewrite !be_value_snoc, IH, length_app.
    simpl. rewrite Nat2Z.inj_add, Z.pow_add_r by lia. change (256 ^ Z.of_nat 1) with 256. ring.
Qed.

Lemma be_value_range l : 0 <= be_value l < 256 ^ Z.of_nat (length l).
Proof.
  induction l as [|b l IH]; [unfold be_value; simpl; lia|].
  rewrite be_value_cons. simpl length. rewrite Nat2Z.inj_succ, Z.pow_succ_r by lia.
  pose proof (b2z_range b). nia.
Qed.

Lemma be_value_app l1 l2 :
  be_value (l1 ++ l2) = be_value l1 * 256 ^ Z.of_nat (length l2) + be_value l2.
Proof.
  induction l1 as [|b l1 IH]; [unfold be_value at 2; simpl; lia|].
  simpl. rewrite !be_value_cons, IH, length_app, Nat2Z.inj_add, Z.pow_add_r by lia. ring.
Qed.

Lemma be_bytes_length n z : length (be_bytes n z) = n.
Proof. revert z; induction n as [|n IH]; intros z; simpl; [done|]. rewrite length_app, IH. simpl. lia. Qed.

Lemma z2b_land_255 z : z2b (Z.land z 255) = z2b z.
Proof.
  change 255 with (Z.ones 8). rewrite Z.land_ones by lia. unfold z2b.
  change (2 ^ 8) with 256. by rewrite Z.mod_mod by lia.
Qed.

Lemma be_value_be_bytes n z : be_value (be_bytes n z) = z mod 256 ^ Z.of_nat n.
Proof.
  revert z; induction n as [|n IH]; intros z.
  - simpl. rewrite Z.mod_1_r. reflexivity.
  - simpl be_bytes. rewrite be_value_snoc, IH, z2b_land_255, b2z_z2b.
    rewrite Z.shiftr_div_pow2 by lia. change (2 ^ 8) with 256.
    rewrite Nat2Z.inj_succ, Z.pow_succ_r by lia.
    rewrite (Z.rem_mul_r z 256) by lia. ring.
Qed.

Lemma be_bytes_be_value l : be_bytes (length l) (be_value l) = l.
Proof.
  induction l as [|b l IH] using rev_ind; [done|].
  rewrite length_app, Nat.add_comm. simpl. pose proof (b2z_range b).
  rewrite be_value_snoc, z2b_land_255, Z.shiftr_div_pow2 by lia. change (2 ^ 8) with 256.
  rewrite Z.div_add_l, Z.div_small, Z.add_0_r, IH by lia. f_equal. f_equal.
  apply b2z_inj. rewrite b2z_z2b, Z.add_comm, Z.mod_add, Z.mod_small; lia.
Qed.

Lemma be_value_inj l1 l2 : length l1 = length l2 -> be_value l1 = be_value l2 -> l1 = l2.
Proof. intros HL HV. rewrite <-(be_bytes_be_value l1), HL, HV. apply be_bytes_be_value. Qed.

Lemma be_bytes_value_id n z : 0 <= z < 256 ^ Z.of_nat n -> be_value (be_bytes n z) = z.
Proof. intros. rewrite be_value_be_bytes. by apply Z.mod_small. Qed.

#[global] Arguments be_bytes : simpl never.
#[global] Arguments array_copy : simpl never.
#[global] Arguments z2b : simpl never.

(** ** Sorting

    [std::sort] with a strict comparison [lt] returns a permutation of the range in
    which no element is [lt] an earlier one; the order of equivalent elements is not
    specified, and [std_sort] picks one.  Where no two elements are equivalent the
    result is unique ([std_sort_unique]). *)
Section Sorting.
Context {A : Type} (lt : A -> A -> bool).

Definition sort_le (x y : A) : Prop := lt y x = false.

#[global] Instance sort_le_dec : RelDecision sort_le.
Proof. intros x y. unfold sort_le. apply _. Defined.

Definition std_sort (l : list A) : list A := merge_sort sort_le l.

(** What [std::sort] requires of its comparison (a strict weak ordering), in the
    form the proofs use. *)
Definition strict_weak : Prop :=
  (forall x y, sort_le x y \/ sort_le y x)
  /\ (forall x y z, sort_le x y -> sort_le y z -> sort_le x z).

Lemma std_sort_perm l : std_sort l ≡ₚ l.
Proof. apply merge_sort_Permutation. Qed.

Lemma std_sort_sorted l : strict_weak -> StronglySorted sort_le (std_sort l).
Proof.
  intros [Ht Htr]. apply StronglySorted_merge_sort; [exact Htr | exact Ht].
Qed.

Lemma sorted_perm_unique l1 l2 :
  (forall x y, x ∈ l1 -> y ∈ l1 -> sort_le x y -> sort_le y x -> x = y) ->
  StronglySorted sort_le l1 -> StronglySorted sort_le l2 -> l1 ≡ₚ l2 -> l1 = l2.
Proof.
  intros Ha H1 H2 Hp. eapply (StronglySorted_unique_strong sort_le); eauto.
  intros x y Hx Hy. apply Ha; [done|]. by rewrite Hp.
Qed.

Lemma std_sort_unique l l' :
  strict_weak ->
  (forall x y, x ∈ l -> y ∈ l -> sort_le x y -> sort_le y x -> x = y) ->
  l ≡ₚ l' -> std_sort l = std_sort l'.
Proof.
  intros Hs Ha Hp. apply sorted_perm_unique; auto using std_sort_sorted.
  - intros x y. rewrite !std_sort_perm. apply Ha.
  - by rewrite !std_sort_perm.
Qed.

Lemma std_sort_id l :
  strict_weak ->
  (forall x y, x ∈ l -> y ∈ l -> sort_le x y -> sort_le y x -> x = y) ->
  StronglySorted sort_le l -> std_sort l = l.
Proof.
  intros Hs Ha Hl. symmetry. apply sorted_perm_unique; auto using std_sort_sorted.
  by rewrite std_sort_perm.
Qed.

Lemma StronglySorted_cases (R : A -> A -> Prop) l x y :
  StronglySorted R l -> x ∈ l -> y ∈ l -> x = y \/ R x y \/ R y x.
Proof.
  induction 1 as [|a l HS IH Ha]; [by intros ?%not_elem_of_nil|]. rewrite list.Forall_forall in Ha.
  rewrite !elem_of_cons. intros [->|Hx] [->|Hy]; auto.
Qed.

(** A list in strictly increasing order is its own sort. *)
Lemma std_sort_strict l :
  strict_weak -> StronglySorted (fun x y => lt x y = true) l -> std_sort l = l.
Proof.
  intros Hs HS. apply std_sort_id; [done| |].
  - unfold sort_le. intros x y Hx Hy Hxy Hyx.
    destruct (StronglySorted_cases _ l x y HS Hx Hy) as [?|[?|?]]; [done|congruence|congruence].
  - induction HS as [|x l HS IH Hx]; constructor; [done|]. eapply Forall_impl; [exact Hx|].
    intros y Hxy. cbn in Hxy. destruct (proj1 Hs x y) as [|Hyx]; [done|]. unfold sort_le in *. congruence.
Qed.
End Sorting.

(** ** Sums over the values of a map *)
Section MapSum.
Context {K : Type} `{Countable K} {V : Type} (f : V -> Z).
Implicit Types m : gmap K V.

Definition map_sum m : Z := map_fold (fun _ v acc => f v + acc) 0 m.

Lemma map_sum_empty : map_sum ∅ = 0.
Proof. apply map_fold_empty. Qed.

Lemma map_sum_insert_None m k v : m !! k = None -> map_sum (<[k:=v]> m) = f v + map_sum m.
Proof. intros Hk. unfold map_sum. rewrite map_fold_insert_L; [done| |done]. intros. lia. Qed.

Lemma map_sum_delete_Some m k v : m !! k = Some v -> map_sum m = f v + map_sum (delete k m).
Proof. intros Hk. unfold map_sum. rewrite (map_fold_delete_L _ _ k v); [done| |done]. intros. lia. Qed.

Lemma map_sum_delete m k : map_sum (delete k m) = map_sum m - from_option f 0 (m !! k).
Proof.
  destruct (m !! k) as [v|] eqn:E; simpl.
  - rewrite (map_sum_delete_Some m k v E). lia.
  - rewrite delete_id by done. lia.
Qed.

Lemma map_sum_insert m k v :
  map_sum (<[k:=v]> m) = map_sum m - from_option f 0 (m !! k) + f v.
Proof.
  rewrite <-insert_delete_eq, map_sum_insert_None by apply lookup_delete_eq.
  rewrite map_sum_delete. lia.
Qed.

Lemma map_sum_nonneg m : (forall v, 0 <= f v) -> 0 <= map_sum m.
Proof.
  intros Hf. induction m as [|k v m Hk IH] using map_ind.
  - by rewrite map_sum_empty.
  - rewrite map_sum_insert_None by done. specialize (Hf v). lia.
Qed.

Lemma map_sum_lookup_le m k v :
  (forall v, 0 <= f v) -> m !! k = Some v -> f v <= map_sum m.
Proof.
  intros Hf Hk. rewrite (map_sum_delete_Some m k v Hk).
  pose proof (map_sum_nonneg (delete k m) Hf). lia.
Qed.
End MapSum.
