(* ===== verification/Effects.v ===== *)
(** * Effects: programs with state and exceptions

    A C++ member function that changes objects or calls a database, a node or a queue is a
    [prog St A]: it takes the state of the objects it can reach and returns a value or an
    exception with the state it leaves.  An exception does not undo changes.  Properties of
    such programs are proved with weakest preconditions; an external call is a function of
    the state of the outside world, so a property that holds for every such function holds
    whatever the outside does. *)

From S2P Require Import Prelude.
Set Default Goal Selector "!".

Definition prog (St A : Type) : Type := St -> result A * St.

#[global] Instance prog_ret {St} : MRet (prog St) := fun A a s => (Ok a, s).
#[global] Instance prog_bind {St} : MBind (prog St) := fun A B f m s =>
  match m s with
  | (Ok a, s') => f a s'
  | (Throw e, s') => (Throw e, s')
  end.

Section Programs.
Context {St : Type}.
Implicit Types s : St.

Definition throw {A} (e : exn) : prog St A := fun s => (Throw e, s).
Definition get : prog St St := fun s => (Ok s, s).
Definition modify (f : St -> St) : prog St unit := fun s => (Ok tt, f s).
(** A computation without effects that may throw. *)
Definition lift {A} (r : result A) : prog St A := fun s => (r, s).
(** [if(c) m] *)
Definition when (c : bool) (m : prog St unit) : prog St unit := if c then m else mret tt.
(** [try { m } catch(const RpcException& e) { h }] *)
Definition catch_rpc (m : prog St unit) (h : RpcErrorKind -> string -> prog St unit) : prog St unit :=
  fun s => match m s with
           | (Throw (RpcException k msg), s') => h k msg s'
           | o => o
           end.
(** [try { m } catch(...) { h }] *)
Definition catch_all {A} (m : prog St A) (h : exn -> prog St A) : prog St A :=
  fun s => match m s with
           | (Throw e, s') => h e s'
           | o => o
           end.
(** [for(auto& x : l) f(x)] *)
Fixpoint for_each {A} (f : A -> prog St unit) (l : list A) : prog St unit :=
  match l with
  | [] => mret tt
  | a :: l' => f a ≫= fun _ => for_each f l'
  end.

(** [wp m Q E s]: run from [s], [m] ends in a state that satisfies [Q] with its value,
    or [E] with its exception. *)
Definition wp {A} (m : prog St A) (Q : A -> St -> Prop) (E : exn -> St -> Prop) s : Prop :=
  match m s with
  | (Ok a, s') => Q a s'
  | (Throw e, s') => E e s'
  end.

Lemma wp_mono {A} (m : prog St A) (Q Q' : A -> St -> Prop) (E E' : exn -> St -> Prop) s :
  wp m Q E s -> (forall a s', Q a s' -> Q' a s') -> (forall e s', E e s' -> E' e s') -> wp m Q' E' s.
Proof using. unfold wp. destruct (m s) as [[a|e] s']; auto. Qed.

Lemma wp_any {A} (m : prog St A) s : wp m (fun _ _ => True) (fun _ _ => True) s.
Proof using. unfold wp. by destruct (m s) as [[a|e] s']. Qed.

Lemma wp_ret {A} (a : A) (Q : A -> St -> Prop) E s : Q a s -> wp (mret a) Q E s.
Proof using. done. Qed.

Lemma wp_bind {A B} (m : prog St A) (f : A -> prog St B) Q E s :
  wp m (fun a s' => wp (f a) Q E s') E s -> wp (m ≫= f) Q E s.
Proof using. unfold wp, mbind, prog_bind. by destruct (m s) as [[a|e] s']. Qed.

Lemma wp_throw {A} e (Q : A -> St -> Prop) (E : exn -> St -> Prop) s : E e s -> wp (throw e) Q E s.
Proof using. done. Qed.

Lemma wp_get (Q : St -> St -> Prop) E s : Q s s -> wp get Q E s.
Proof using. done. Qed.

Lemma wp_modify f (Q : unit -> St -> Prop) E s : Q tt (f s) -> wp (modify f) Q E s.
Proof using. done. Qed.

Lemma wp_lift {A} (r : result A) (Q : A -> St -> Prop) (E : exn -> St -> Prop) s :
  (forall a, r = Ok a -> Q a s) -> (forall e, r = Throw e -> E e s) -> wp (lift r) Q E s.
Proof using. unfold wp, lift. destruct r; auto. Qed.

Lemma wp_when c m (Q : unit -> St -> Prop) E s :
  (c = true -> wp m Q E s) -> (c = false -> Q tt s) -> wp (when c m) Q E s.
Proof using. destruct c; unfold when; [auto|]. intros _ H. by apply wp_ret, H. Qed.

Lemma wp_if {A} (c : bool) (m1 m2 : prog St A) Q E s :
  (c = true -> wp m1 Q E s) -> (c = false -> wp m2 Q E s) -> wp (if c then m1 else m2) Q E s.
Proof using. destruct c; auto. Qed.

Lemma wp_catch_rpc m h (Q : unit -> St -> Prop) E s :
  wp m Q (fun e s' => match e with RpcException k msg => wp (h k msg) Q E s' | _ => E e s' end) s ->
  wp (catch_rpc m h) Q E s.
Proof using. unfold wp, catch_rpc. destruct (m s) as [[a|[]] s']; auto. Qed.

Lemma wp_catch_all {A} (m : prog St A) h Q E s :
  wp m Q (fun e s' => wp (h e) Q E s') s -> wp (catch_all m h) Q E s.
Proof using. unfold wp, catch_all. destruct (m s) as [[a|e] s']; auto. Qed.

(** Programs that keep a property of the state, whether they return or throw. *)
Definition preserves {A} (P : St -> Prop) (m : prog St A) : Prop :=
  forall s, P s -> wp m (fun _ => P) (fun _ => P) s.

Lemma preserves_ret {A} P (a : A) : preserves P (mret a).
Proof using. by intros s HP. Qed.
Lemma preserves_throw {A} P e : preserves P (throw e : prog St A).
Proof using. by intros s HP. Qed.
Lemma preserves_lift {A} P (r : result A) : preserves P (lift r).
Proof using. intros s HP. by apply wp_lift. Qed.
Lemma preserves_get P : preserves P get.
Proof using. by intros s HP. Qed.
Lemma preserves_modify (P : St -> Prop) f : (forall s, P s -> P (f s)) -> preserves P (modify f).
Proof using. intros Hf s HP. by apply Hf. Qed.
Lemma preserves_bind {A B} P (m : prog St A) (k : A -> prog St B) :
  preserves P m -> (forall a, preserves P (k a)) -> preserves P (m ≫= k).
Proof using.
  intros Hm Hk s HP. apply wp_bind. eapply wp_mono; [by apply Hm| |done]. intros a s' HP'. by apply Hk.
Qed.
Lemma preserves_when P c m : preserves P m -> preserves P (when c m).
Proof using. destruct c; [done|]. intros _. apply preserves_ret. Qed.
Lemma preserves_catch_rpc P m h :
  preserves P m -> (forall k msg, preserves P (h k msg)) -> preserves P (catch_rpc m h).
Proof using.
  intros Hm Hh s HP. apply wp_catch_rpc. eapply wp_mono; [by apply Hm|done|].
  intros [] s' HP'; try done. by apply Hh.
Qed.

(** Running a sequence whose first part returns. *)
Lemma bind_run {A B} (m : prog St A) (k : A -> prog St B) s a s' :
  m s = (Ok a, s') -> (m ≫= k) s = k a s'.
Proof using. intros E. unfold mbind, prog_bind. by rewrite E. Qed.

(** A sequence that returns: both parts did. *)
Lemma bind_run_inv {A B} (m : prog St A) (k : A -> prog St B) s b s' :
  (m ≫= k) s = (Ok b, s') -> exists a s1, m s = (Ok a, s1) /\ k a s1 = (Ok b, s').
Proof using. unfold mbind, prog_bind. destruct (m s) as [[a|e] s1]; [eauto|done]. Qed.

Lemma lift_run_inv {A} (r : result A) s a s' : lift r s = (Ok a, s') -> r = Ok a /\ s' = s.
Proof using. unfold lift. by intros [= -> ->]. Qed.

Lemma get_run {B} (k : St -> prog St B) s : (get ≫= k) s = k s s.
Proof using. done. Qed.
Lemma modify_run {B} f (k : unit -> prog St B) s : (modify f ≫= k) s = k tt (f s).
Proof using. done. Qed.

Lemma for_each_app {A} (f : A -> prog St unit) l1 l2 s :
  for_each f (l1 ++ l2) s = (for_each f l1 ≫= fun _ => for_each f l2) s.
Proof using.
  revert s. induction l1 as [|a l1 IH]; intros s; [done|]. cbn [app for_each].
  unfold mbind, prog_bind in *. destruct (f a s) as [[[]|e] s']; [|done]. by rewrite IH.
Qed.

(** A loop in which every body returns: its effect is the fold of theirs. *)
Lemma for_each_run {A} (f : A -> prog St unit) (g : St -> A -> St) (I : list A -> St -> Prop) l s :
  (forall done a s, done ++ [a] `prefix_of` l -> I done s -> f a s = (Ok tt, g s a) /\ I (done ++ [a]) (g s a)) ->
  I [] s -> for_each f l s = (Ok tt, foldl g s l) /\ I l (foldl g s l).
Proof using.
  intros Hf HI. cut (forall done rest s, done ++ rest = l -> I done s ->
    for_each f rest s = (Ok tt, foldl g s rest) /\ I l (foldl g s rest)); [intros H; by apply (H [])|].
  clear s HI. intros done rest. revert done. induction rest as [|a rest IH]; intros done s E HI.
  - rewrite app_nil_r in E. by subst.
  - destruct (Hf done a s) as [Ef HI']; [exists rest; by rewrite <-app_assoc|done|].
    cbn [for_each foldl]. rewrite (bind_run _ _ _ _ _ Ef). apply (IH (done ++ [a])); [by rewrite <-app_assoc|done].
Qed.

(** A loop whose body keeps an invariant. *)
Lemma wp_for_each {A} (f : A -> prog St unit) (I : St -> Prop) (E : exn -> St -> Prop) l s :
  (forall a s, a ∈ l -> I s -> wp (f a) (fun _ => I) E s) -> I s -> wp (for_each f l) (fun _ => I) E s.
Proof using.
  revert s. induction l as [|a l IH]; intros s Hf HI; simpl; [done|]. apply wp_bind.
  eapply wp_mono; [apply Hf; [set_solver|done]| |auto]. intros [] s' HI'.
  apply IH; [|done]. intros. apply Hf; [set_solver|done].
Qed.
End Programs.

(** ** Programs on a part of the state

    From the states with [I], [m] on a state of which [view] shows a part [tracks] a program on that
    part: it ends the same way, with related values, and leaves the part as the other does.  What
    is [unseen] returns and leaves the part as it is.  Both leave a state with [I]. *)
Section Tracking.
Context {St Part : Type} (I : St -> Prop) (view : St -> Part).

Definition tracks {A B} (R : A -> B -> Prop) (m : prog St A) (m' : prog Part B) : Prop := forall s, I s ->
  match m s, m' (view s) with
  | (Ok a, s1), (Ok b, p) => R a b /\ view s1 = p /\ I s1
  | (Throw e, s1), (Throw e', p) => e = e' /\ view s1 = p /\ I s1
  | _, _ => False
  end.
Definition unseen {A} (m : prog St A) : Prop := forall s, I s -> exists a s1, m s = (Ok a, s1) /\ view s1 = view s /\ I s1.

Lemma tracks_ret {A B} (R : A -> B -> Prop) a b : R a b -> tracks R (mret a) (mret b).
Proof using. by intros HR s Hs. Qed.

Lemma tracks_bind {A A' B B' : Type} (R : A -> A' -> Prop) (R' : B -> B' -> Prop) (m : prog St A) (m' : prog Part A')
    (k : A -> prog St B) (k' : A' -> prog Part B') :
  tracks R m m' -> (forall a a', R a a' -> tracks R' (k a) (k' a')) -> tracks R' (m ≫= k) (m' ≫= k').
Proof using.
  intros Hm Hk s Hs. specialize (Hm s Hs). unfold mbind, prog_bind.
  destruct (m s) as [[a|e] s1], (m' (view s)) as [[a'|e'] p]; try done. destruct Hm as (HR & <- & Hs1). by apply Hk.
Qed.

Lemma tracks_unseen {A B B' : Type} (R : B -> B' -> Prop) (m : prog St A) (k : A -> prog St B) (m' : prog Part B') :
  unseen m -> (forall a, tracks R (k a) m') -> tracks R (m ≫= k) m'.
Proof using.
  intros Hm Hk s Hs. destruct (Hm s Hs) as (a & s1 & E & Ev & Hs1). rewrite (bind_run _ _ _ _ _ E).
  specialize (Hk a s1 Hs1). by rewrite Ev in Hk.
Qed.

Lemma tracks_end {A} (m : prog St A) : unseen m -> tracks (fun _ _ => True) m (mret tt).
Proof using. intros Hm s Hs. by destruct (Hm s Hs) as (a & s1 & -> & Ev). Qed.

Lemma tracks_tail {A B C : Type} (R : A -> B -> Prop) (m : prog St A) (k : A -> prog St C) (m' : prog Part B) :
  tracks R m m' -> (forall a, unseen (k a)) -> tracks (fun _ _ => True) (m ≫= k) m'.
Proof using.
  intros Hm Hk s Hs. specialize (Hm s Hs). unfold mbind, prog_bind.
  destruct (m s) as [[a|e] s1], (m' (view s)) as [[b|e'] p]; try done.
  destruct Hm as (_ & Ev & Hs1). destruct (Hk a s1 Hs1) as (c & s2 & -> & Ev' & Hs2). by rewrite Ev'.
Qed.

Lemma tracks_eq {A B} (R : A -> B -> Prop) m m' m'' : (forall p, m' p = m'' p) -> tracks R m m'' -> tracks R m m'.
Proof using. intros E Hm s. rewrite E. apply Hm. Qed.

Lemma tracks_mono {A B} (R R' : A -> B -> Prop) m m' : (forall a b, R a b -> R' a b) -> tracks R m m' -> tracks R' m m'.
Proof using.
  intros HR Hm s Hs. specialize (Hm s Hs). destruct (m s) as [[a|e] s1], (m' (view s)) as [[b|e'] p]; try done.
  destruct Hm as [Ha Ev]. auto.
Qed.

Lemma unseen_ret {A} (a : A) : unseen (mret a).
Proof using. intros s Hs. by exists a, s. Qed.
Lemma unseen_modify f : (forall s, view (f s) = view s) -> (forall s, I s -> I (f s)) -> unseen (modify f).
Proof using. intros Hf Hi s Hs. exists tt, (f s). rewrite Hf. auto. Qed.
Lemma unseen_when c m : unseen m -> unseen (when c m).
Proof using. destruct c; [done|]. intros _. apply unseen_ret. Qed.
End Tracking.

(** Sequencing of a computation whose value is not used. *)
Notation "m ;; k" := (mbind (fun _ => k) m) (at level 100, right associativity) : stdpp_scope.

#[global] Arguments wp : simpl never.

(** Takes a sequence that returned apart. *)
Ltac run_inv :=
  repeat match goal with
  | H : (mbind _ _) ?s = (Ok _, _) |- _ =>
      let a := fresh "a" in let s1 := fresh "s" in let H1 := fresh "Hrun" in
      apply bind_run_inv in H as (a & s1 & H1 & H)
  | H : lift _ _ = (Ok _, _) |- _ =>
      let H1 := fresh "Hret" in apply lift_run_inv in H as [H1 H]; subst
  | H : throw _ _ = (Ok _, _) |- _ => discriminate H
  end.

(** One step of a weakest-precondition proof.  Calls of program-specific primitives are
    left to the caller. *)
Ltac wp_step :=
  lazymatch goal with
  | |- wp (mbind _ _) _ _ _ => apply wp_bind
  | |- wp (mret _) _ _ _ => apply wp_ret
  | |- wp (throw _) _ _ _ => apply wp_throw
  | |- wp get _ _ _ => apply wp_get
  | |- wp (modify _) _ _ _ => apply wp_modify
  | |- wp (lift _) _ _ _ => apply wp_lift; intros ? ?
  | |- wp (when _ _) _ _ _ => apply wp_when; intros ?
  | |- wp (if _ then _ else _) _ _ _ => apply wp_if; intros ?
  | |- wp (let _ := _ in _) _ _ _ => cbv zeta
  | |- wp (match ?x with _ => _ end) _ _ _ => destruct x eqn:?
  end.
