(* ===== verification/Loop.v ===== *)
(** * Loop: the loop of a service

    The mains of the services repeat an iteration until a signal stops them; an iteration that
    throws is logged and the next one starts.  With the argument [--once] there is one
    iteration, and what it throws ends the process. *)

From S2P Require Import Prelude Effects.
Set Default Goal Selector "!".

Section ServiceLoop.
Context {St : Type}.

(** [try { iteration } catch(const std::exception&) { if(runOnce) throw; ... }] *)
Definition guarded (runOnce : bool) (iteration : prog St unit) : prog St unit :=
  catch_all iteration (fun e => match e with
    | Undefined => throw e
    | _ => if runOnce then throw e else mret tt
    end).

(** [do ... while(running.load() && !runOnce)]: the signal comes after [further] more iterations. *)
Fixpoint service_loop (runOnce : bool) (iteration : prog St unit) (further : nat) : prog St unit :=
  guarded runOnce iteration;;
  match further with
  | O => mret tt
  | S further => if runOnce then mret tt else service_loop runOnce iteration further
  end.

(** What an iteration leaves whether it throws or not, [guarded] leaves. *)
Lemma wp_guarded runOnce iteration (P : St -> Prop) s :
  wp iteration (fun _ => P) (fun _ => P) s -> wp (guarded runOnce iteration) (fun _ => P) (fun _ => P) s.
Proof using.
  intros Hi. apply wp_catch_all. eapply wp_mono; [exact Hi|done|]. intros e s' HP.
  destruct e; first [by apply wp_throw|destruct runOnce; [by apply wp_throw|by apply wp_ret]].
Qed.

(** An invariant that each iteration keeps at a cost. *)
Lemma wp_service_loop runOnce iteration (cost : nat) (P : nat -> St -> Prop) further budget s :
  (forall k j s, P (k + j)%nat s -> P j s) ->
  (forall budget s, P (cost + budget)%nat s -> wp iteration (fun _ => P budget) (fun _ => P budget) s) ->
  P (cost * S further + budget)%nat s ->
  wp (service_loop runOnce iteration further) (fun _ => P budget) (fun _ => P budget) s.
Proof using.
  intros Hless Hi. revert s. induction further as [|further IH]; intros s HP; cbn [service_loop].
  all: apply wp_bind; eapply wp_mono; [eapply wp_guarded, Hi; rewrite Nat.mul_succ_r, (Nat.add_comm _ cost), <-Nat.add_assoc in HP; exact HP| |
    intros e s' Hs'; eapply Hless, Hs'].
  all: intros [] s' Hs'.
  - apply wp_ret. eapply Hless, Hs'.
  - destruct runOnce; [apply wp_ret; eapply Hless, Hs'|by apply IH].
Qed.
End ServiceLoop.
