(* ===== verification/Text.v ===== *)
(** * Text: characters, digit strings and positional notation

    The character tests and digit loops shared by [Uint256.cpp] (decimal and hex
    parsing and printing) and [Hex.cpp].  A [std::string] is a [string]; loops over
    one run over [chars]. *)

From Stdlib Require Import Ascii.
From S2P Require Import Prelude.
Set Default Goal Selector "!".
#[local] Open Scope Z_scope.

Definition chars (s : string) : list ascii := String.list_ascii_of_string s.
Definition unchars (l : list ascii) : string := String.string_of_list_ascii l.

Lemma chars_unchars l : chars (unchars l) = l.
Proof. apply String.list_ascii_of_string_of_list_ascii. Qed.

Lemma unchars_chars s : unchars (chars s) = s.
Proof. apply String.string_of_list_ascii_of_string. Qed.

Lemma unchars_inj l1 l2 : unchars l1 = unchars l2 -> l1 = l2.
Proof. intros H. by rewrite <-(chars_unchars l1), H, chars_unchars. Qed.

(** The value of a [char] as an integer. *)
Definition ascii_z (c : ascii) : Z := Z.of_N (N_of_ascii c).

(** [DIGITS[i]] for [DIGITS = "0123456789abcdef"]. *)
Definition hex_char (i : Z) : ascii :=
  match chars "0123456789abcdef" !! Z.to_nat i with Some c => c | None => "0"%char end.

(** The body of the two functions [DecodeNibble], which differ in the message. *)
Definition decode_nibble (msg : string) (value : ascii) : result Z :=
  let v := ascii_z value in
  if (ascii_z "0" <=? v) && (v <=? ascii_z "9") then Ok (v - ascii_z "0")
  else if (ascii_z "a" <=? v) && (v <=? ascii_z "f") then Ok (v - ascii_z "a" + 10)
  else if (ascii_z "A" <=? v) && (v <=? ascii_z "F") then Ok (v - ascii_z "A" + 10)
  else Throw (InvalidArgument msg).

(** [value.size() >= 2 && value[0] == '0' && (value[1] == 'x' || value[1] == 'X')],
    then [remove_prefix(2)]. *)
Definition strip_0x (l : list ascii) : list ascii :=
  match l with
  | c0 :: c1 :: l' =>
      if bool_decide (c0 = "0"%char) && (bool_decide (c1 = "x"%char) || bool_decide (c1 = "X"%char))
      then l' else l
  | _ => l
  end.

Lemma hex_char_decode msg i : 0 <= i < 16 -> decode_nibble msg (hex_char i) = Ok i.
Proof.
  intros H. assert (i = 0 \/ i = 1 \/ i = 2 \/ i = 3 \/ i = 4 \/ i = 5 \/ i = 6 \/ i = 7 \/
    i = 8 \/ i = 9 \/ i = 10 \/ i = 11 \/ i = 12 \/ i = 13 \/ i = 14 \/ i = 15) as Hi by lia.
  repeat destruct Hi as [-> | Hi]; subst; reflexivity.
Qed.

Lemma decode_nibble_range msg c i : decode_nibble msg c = Ok i -> 0 <= i < 16.
Proof.
  unfold decode_nibble. change (ascii_z "0") with 48. change (ascii_z "9") with 57.
  change (ascii_z "a") with 97. change (ascii_z "f") with 102.
  change (ascii_z "A") with 65. change (ascii_z "F") with 70.
  intros H. split_ifs; simplify_eq; boolify; lia.
Qed.

Lemma decode_nibble_throw msg c e : decode_nibble msg c = Throw e -> e = InvalidArgument msg.
Proof. unfold decode_nibble. intros H. split_ifs; by simplify_eq. Qed.

(** No digit is an [x], so a digit string is never taken for a prefixed one. *)
Lemma hex_char_not_x i : 0 <= i < 16 -> hex_char i <> "x"%char /\ hex_char i <> "X"%char.
Proof.
  intros H. pose proof (hex_char_decode "" i H) as E.
  split; intros Hx; rewrite Hx in E; discriminate.
Qed.

Lemma strip_0x_digits ds :
  Forall (fun i => 0 <= i < 16) ds -> strip_0x (hex_char <$> ds) = hex_char <$> ds.
Proof.
  intros H. destruct H as [|a l Ha H]; [done|]. destruct H as [|b l Hb H]; [done|].
  rewrite !fmap_cons. unfold strip_0x. destruct (hex_char_not_x b Hb) as [H1 H2].
  rewrite (bool_decide_eq_false_2 (hex_char b = "x"%char)) by done.
  rewrite (bool_decide_eq_false_2 (hex_char b = "X"%char)) by done.
  by rewrite andb_false_r.
Qed.

Lemma strip_0x_prefixed l : strip_0x ("0"%char :: "x"%char :: l) = l.
Proof. reflexivity. Qed.

(** ** Positional notation in base [b] *)
Section Digits.
Context (b : Z) (Hb : 1 < b).

(** Most significant digit first: the loop [r = r * b + digit]. *)
Definition digits_value (ds : list Z) : Z := foldl (fun r d => r * b + d) 0 ds.

(** Least significant digit first, by repeated division; [fuel] bounds the number
    of digits. *)
Fixpoint digits_rev (fuel : nat) (z : Z) : list Z :=
  match fuel with
  | O => []
  | S fuel' => if z =? 0 then [] else z mod b :: digits_rev fuel' (z / b)
  end.

Lemma digits_value_snoc ds d : digits_value (ds ++ [d]) = digits_value ds * b + d.
Proof. unfold digits_value. by rewrite foldl_app. Qed.

Lemma digits_rev_value fuel z :
  0 <= z < b ^ Z.of_nat fuel -> digits_value (reverse (digits_rev fuel z)) = z.
Proof using Hb.
  revert z; induction fuel as [|fuel IH]; intros z Hz.
  - change (b ^ Z.of_nat 0) with 1 in Hz. simpl. unfold digits_value. simpl. lia.
  - simpl. destruct (Z.eqb_spec z 0) as [->|Hn]; [done|].
    rewrite Nat2Z.inj_succ, Z.pow_succ_r in Hz by lia.
    rewrite reverse_cons, digits_value_snoc, IH.
    + pose proof (Z.div_mod z b). lia.
    + split; [apply Z.div_pos; lia | apply Z.div_lt_upper_bound; lia].
Qed.

Lemma digits_rev_range fuel z : Forall (fun d => 0 <= d < b) (digits_rev fuel z).
Proof using Hb.
  revert z; induction fuel as [|fuel IH]; intros z; simpl; [constructor|].
  destruct (_ =? _); constructor; [|apply IH]. apply Z.mod_pos_bound. lia.
Qed.

Lemma digits_rev_length fuel z : (length (digits_rev fuel z) <= fuel)%nat.
Proof using.
  revert z; induction fuel as [|fuel IH]; intros z; simpl; [lia|].
  destruct (_ =? _); simpl; [lia|]. specialize (IH (z / b)). lia.
Qed.

Lemma digits_rev_nonempty fuel z : z <> 0 -> (0 < fuel)%nat -> digits_rev fuel z <> [].
Proof using. intros Hz Hf. destruct fuel; [lia|]. simpl. destruct (Z.eqb_spec z 0); done. Qed.

Lemma digits_value_range ds :
  Forall (fun d => 0 <= d < b) ds -> 0 <= digits_value ds < b ^ Z.of_nat (length ds).
Proof using Hb.
  induction ds as [|d ds IH] using rev_ind; intros H.
  - unfold digits_value. simpl. change (Z.of_nat 0) with 0. rewrite Z.pow_0_r. lia.
  - apply Forall_app in H as [H1 H2]. inversion H2; subst. specialize (IH H1).
    rewrite digits_value_snoc, length_app. simpl. rewrite Nat2Z.inj_add, Z.pow_add_r by lia.
    change (b ^ Z.of_nat 1) with (b ^ 1). rewrite Z.pow_1_r.
    assert (0 <= digits_value ds * b) by (apply Z.mul_nonneg_nonneg; lia).
    assert (digits_value ds * b <= (b ^ Z.of_nat (length ds) - 1) * b)
      by (apply Z.mul_le_mono_nonneg_r; lia). lia.
Qed.
End Digits.

#[global] Arguments hex_char : simpl never.
