(* ===== verification/Json.v ===== *)
(** * Json: what the sources use of [nlohmann::json]

    A value without the floating-point numbers, which the program never writes.  The members of an
    object are listed in the order of its [std::map], that is by key.  The text of a value is the
    library's: [dump] and [parse] are parameters, and the law states that a value in normal form
    reads back from its text. *)

From Stdlib Require Import Ascii.
From S2P Require Import Prelude Text.
Set Default Goal Selector "!".
#[local] Open Scope Z_scope.

#[warnings="-register-all"]
Inductive json :=
| JNull
| JBool (b : bool)
| JNumber (z : Z)
| JString (s : string)
| JArray (l : list json)
| JObject (fields : list (string * json)).

(** [value.get<std::string>()] *)
Definition get_string (value : json) : result string :=
  match value with
  | JString s => Ok s
  | _ => Throw (JsonException "type must be string")
  end.

(** Iterating over a parsed value: the elements of an array, the members of an object, nothing for
    null, the value itself otherwise. *)
Definition json_elements (value : json) : list json :=
  match value with
  | JNull => []
  | JArray l => l
  | JObject fields => snd <$> fields
  | v => [v]
  end.

(** [value.get<std::uint64_t>()]: a number is converted modulo 2^64, a Boolean to 0 or 1. *)
Definition get_uint64 (value : json) : result Z :=
  match value with
  | JNumber z => Ok (u64 z)
  | JBool b => Ok (if b then 1 else 0)
  | _ => Throw (JsonException "type must be number")
  end.

Fixpoint find_member (key : string) (fields : list (string * json)) : option json :=
  match fields with
  | [] => None
  | (k, member) :: fields' => if String.eqb k key then Some member else find_member key fields'
  end.

(** [value.at(key)] *)
Definition json_at (key : string) (value : json) : result json :=
  match value with
  | JObject fields => result_of (find_member key fields) (JsonException "key not found")
  | _ => Throw (JsonException "cannot use at()")
  end.

(** [value.contains(key)] *)
Definition json_contains (key : string) (value : json) : bool :=
  match value with
  | JObject fields => bool_decide (is_Some (find_member key fields))
  | _ => false
  end.

(** ** Normal form *)

(** A text of ASCII characters. *)
Definition plain (s : string) : bool := forallb (fun c => ascii_z c <? 128) (chars s).

Fixpoint keys_sorted (keys : list string) : bool :=
  match keys with
  | k1 :: (k2 :: _) as keys' => String.ltb k1 k2 && keys_sorted keys'
  | _ => true
  end.

Fixpoint json_normal (value : json) : bool :=
  match value with
  | JNull | JBool _ => true
  | JNumber z => (- 2 ^ 63 <=? z) && (z <? 2 ^ 64)
  | JString s => plain s
  | JArray l => forallb json_normal l
  | JObject fields =>
      keys_sorted (fst <$> fields) && forallb (fun field => plain field.1 && json_normal field.2) fields
  end.

(** ** The text of a value *)

Class JsonText := {
  dump : json -> result string;
  parse : string -> result json
}.

Class LawfulJsonText `{JsonText} := {
  parse_dump value : json_normal value = true -> exists text, dump value = Ok text /\ parse text = Ok value
}.

(** ** A concrete text

    An injective coding of every value as a string of binary digits, at which the theorems about
    [JsonText] can be applied. *)

Section Induction.
Context (P : json -> Prop).
Context (Hnull : P JNull) (Hbool : forall b, P (JBool b)) (Hnumber : forall z, P (JNumber z)).
Context (Hstring : forall s, P (JString s)) (Harray : forall l, Forall P l -> P (JArray l)).
Context (Hobject : forall fields, Forall (fun field => P field.2) fields -> P (JObject fields)).

Fixpoint json_nested_ind (value : json) : P value :=
  match value with
  | JNull => Hnull
  | JBool b => Hbool b
  | JNumber z => Hnumber z
  | JString s => Hstring s
  | JArray l => Harray l ((fix go (l : list json) : Forall P l :=
      match l with
      | [] => List.Forall_nil P
      | v :: l' => List.Forall_cons P v l' (json_nested_ind v) (go l')
      end) l)
  | JObject fields => Hobject fields ((fix go (l : list (string * json)) : Forall (fun field => P field.2) l :=
      match l with
      | [] => List.Forall_nil _
      | (k, v) :: l' => List.Forall_cons _ (k, v) l' (json_nested_ind v) (go l')
      end) fields)
  end.
End Induction.

Abbreviation json_tree := (gen_tree (bool + Z + string)).

Fixpoint tree_of_json (value : json) : json_tree :=
  match value with
  | JNull => GenNode 0 []
  | JBool b => GenLeaf (inl (inl b))
  | JNumber z => GenLeaf (inl (inr z))
  | JString s => GenLeaf (inr s)
  | JArray l => GenNode 1 (map tree_of_json l)
  | JObject fields => GenNode 2 (map (fun '(k, v) => GenNode 3 [GenLeaf (inr k); tree_of_json v]) fields)
  end.

Fixpoint json_of_tree (tree : json_tree) : json :=
  match tree with
  | GenLeaf (inl (inl b)) => JBool b
  | GenLeaf (inl (inr z)) => JNumber z
  | GenLeaf (inr s) => JString s
  | GenNode 1 l => JArray (map json_of_tree l)
  | GenNode 2 l => JObject (map (fun field => match field with
      | GenNode _ [GenLeaf (inr k); v] => (k, json_of_tree v)
      | _ => (EmptyString, JNull)
      end) l)
  | GenNode _ _ => JNull
  end.

Lemma json_of_tree_inverse value : json_of_tree (tree_of_json value) = value.
Proof.
  induction value as [| | | |l IH|fields IH] using json_nested_ind; [done..| |]; cbn [tree_of_json json_of_tree];
    f_equal; rewrite map_map; induction IH as [|x l Hx _ IH]; cbn [map]; [done| |done|].
  - by rewrite Hx, IH.
  - rewrite IH. destruct x as [k v]. cbn in *. by rewrite Hx.
Qed.

Fixpoint positive_text (p : positive) : string :=
  match p with
  | xH => EmptyString
  | xO p => String "0" (positive_text p)
  | xI p => String "1" (positive_text p)
  end.

Fixpoint text_positive (s : string) : positive :=
  match s with
  | EmptyString => xH
  | String c s => if bool_decide (c = "0"%char) then xO (text_positive s) else xI (text_positive s)
  end.

Lemma text_positive_inverse p : text_positive (positive_text p) = p.
Proof. induction p as [p IH|p IH|]; cbn; [by rewrite IH..|done]. Qed.

Definition coded_json : JsonText := {|
  dump value := Ok (positive_text (encode (tree_of_json value)));
  parse text := result_of (json_of_tree <$> decode (text_positive text)) (JsonException "parse error")
|}.

Lemma coded_json_total value : exists text, @dump coded_json value = Ok text /\ @parse coded_json text = Ok value.
Proof.
  exists (positive_text (encode (tree_of_json value))). split; [done|]. cbn.
  rewrite text_positive_inverse, decode_encode. cbn. by rewrite json_of_tree_inverse.
Qed.

Lemma coded_json_lawful : @LawfulJsonText coded_json.
Proof. split. intros value _. apply coded_json_total. Qed.
