(* ===== verification/Sql.v ===== *)
(** * Sql: what the stores use of PostgreSQL and pqxx

    A table is the list of its rows.  A [TEXT] or [CHAR] column is a string, a [NUMERIC]
    column the decimal text the code writes and reads, a [BIGINT] column an integer with
    its range check, a [JSONB] column a JSON value (the [dump] and [parse] around it are
    inverse on values).  A statement that violates a constraint throws.  Connections that fail
    are a database with a list of faults ([Unreliable]), which the outbox is run on. *)

From Stdlib Require Import Ascii.
From S2P Require Import Prelude Effects.
Set Default Goal Selector "!".
#[local] Open Scope Z_scope.

(** ** Columns *)

(** The ranges of [INTEGER] and [BIGINT] with their [CHECK (... >= 0)]. *)
Definition sql_integer (z : Z) : bool := (0 <=? z) && (z <? 2 ^ 31).
Definition sql_bigint (z : Z) : bool := (0 <=? z) && (z <? 2 ^ 63).

Lemma sql_bigint_true z : sql_bigint z = true <-> 0 <= z < 2 ^ 63.
Proof. unfold sql_bigint. rewrite andb_true_iff, Z.leb_le, Z.ltb_lt. done. Qed.

(** [as<std::uint64_t>()] *)
Definition uint64_column (z : Z) : result Z :=
  if 0 <=? z then Ok z else Throw (SqlError "could not convert to unsigned").

Lemma uint64_column_Ok z : 0 <= z -> uint64_column z = Ok z.
Proof. intros Hz. unfold uint64_column. by rewrite (proj2 (Z.leb_le 0 z) Hz). Qed.

(** ** Statements *)

(** [INSERT INTO ... ON CONFLICT (key) DO UPDATE SET ...] *)
Definition upsert {R} (same_key : R -> bool) (update : R -> R) (new : R) (rows : list R) : list R :=
  if existsb same_key rows then (fun row => if same_key row then update row else row) <$> rows
  else rows ++ [new].

(** [INSERT INTO ... ON CONFLICT (key) DO NOTHING] *)
Definition insert_unless {R} (same_key : R -> bool) (new : R) (rows : list R) : list R :=
  if existsb same_key rows then rows else rows ++ [new].

(** A [pqxx::work] transaction: committed at its end, rolled back when it is left by an
    exception. *)
Definition transaction {St A} (body : prog St A) : prog St A := fun s =>
  match body s with
  | (Ok a, s') => (Ok a, s')
  | (Throw e, _) => (Throw e, s)
  end.

(** A transaction whose end is reached without [commit] when its body returns [false]. *)
Definition transaction_if {St} (body : prog St bool) : prog St bool := fun s =>
  match body s with
  | (Ok true, s') => (Ok true, s')
  | (Ok false, _) => (Ok false, s)
  | (Throw e, _) => (Throw e, s)
  end.

(** A statement whose row violates a constraint throws. *)
Definition require {St} (condition : bool) (what : string) : prog St unit :=
  if condition then mret tt else throw (SqlError what).

Lemma wp_require {St} c what (Q : unit -> St -> Prop) (E : exn -> St -> Prop) s :
  (c = true -> Q tt s) -> (c = false -> E (SqlError what) s) -> wp (require c what) Q E s.
Proof. unfold wp, require. destruct c; cbn; auto. Qed.

(** A transaction ends with the effects of its body, or with none. *)
Lemma wp_transaction {St A} (body : prog St A) (Q : A -> St -> Prop) (E : exn -> St -> Prop) s :
  wp body Q (fun e _ => E e s) s -> wp (transaction body) Q E s.
Proof. unfold wp, transaction. destruct (body s) as [[a|e] s']; auto. Qed.

Lemma transaction_Ok {St A} (body : prog St A) s a s' : body s = (Ok a, s') -> transaction body s = (Ok a, s').
Proof. intros E. unfold transaction. by rewrite E. Qed.

Ltac sql_step :=
  first [ progress cbv beta iota | wp_step
        | lazymatch goal with |- wp (require _ _) _ _ _ => apply wp_require; intros ? end ].

(** ** Interleaving

    Several processes share the database.  What the others commit before the next transactions
    of this process is a list of changes, arbitrary in the theorems that need no more. *)

Record World (Db : Type) := MkWorld {
  w_db : Db;
  w_others : list (Db -> Db)
}.
Arguments MkWorld {Db} _ _.
Arguments w_db {Db} _.
Arguments w_others {Db} _.

Section Interleaving.
Context {Db : Type}.

Definition settle (w : World Db) : World Db :=
  match w_others w with
  | [] => w
  | change :: others => MkWorld (change (w_db w)) others
  end.

(** A query in a transaction of its own. *)
Definition query {A} (q : Db -> result A) : prog (World Db) A := fun w =>
  (q (w_db (settle w)), settle w).

(** A transaction that writes. *)
Definition execute {A} (m : prog Db A) : prog (World Db) A := fun w =>
  let '(r, db') := m (w_db (settle w)) in (r, MkWorld db' (w_others (settle w))).

Lemma query_quiet {A} (q : Db -> result A) db : query q (MkWorld db []) = (q db, MkWorld db []).
Proof. done. Qed.

Lemma execute_quiet {A} (m : prog Db A) db r db' :
  m db = (r, db') -> execute m (MkWorld db []) = (r, MkWorld db' []).
Proof. intros E. unfold execute. cbn. by rewrite E. Qed.
End Interleaving.

(** ** Connections that fail

    A statement or a transaction opens a connection of its own.  What becomes of each of them is
    a list: it works; it cannot be opened, or breaks before the commit; or it breaks while the
    answer to the commit is awaited, and the client sees an exception although the changes are
    in the database. *)

Inductive Fault := Works | Breaks | InDoubt.

Record Unreliable (Db : Type) := MkUnreliable {
  un_db : Db;
  un_faults : list Fault
}.
Arguments MkUnreliable {Db} _ _.
Arguments un_db {Db} _.
Arguments un_faults {Db} _.

Definition connected {Db A} (m : prog Db A) : prog (Unreliable Db) A := fun w =>
  let faults := tail (un_faults w) in
  let '(r, db') := m (un_db w) in
  match un_faults w with
  | Breaks :: _ => (Throw (SqlError "broken connection"), MkUnreliable (un_db w) faults)
  | InDoubt :: _ => (Throw (SqlError "commit in doubt"), MkUnreliable db' faults)
  | _ => (r, MkUnreliable db' faults)
  end.

(** What holds of the database after the statement, or before it if it may not have run. *)
Lemma wp_connected {Db A} (m : prog Db A) (Q : A -> Db -> Prop) (E : Db -> Prop) w :
  wp m Q (fun _ => E) (un_db w) -> E (un_db w) -> (forall a db, Q a db -> E db) ->
  wp (connected m) (fun a w' => Q a (un_db w')) (fun _ w' => E (un_db w')) w.
Proof.
  unfold wp, connected. intros Hm He HQ. destruct (m (un_db w)) as [[a|e] db'], (un_faults w) as [|[| |] faults]; cbn; eauto.
Qed.

(** ** The order of texts

    [ORDER BY] on a text column follows the collation of the database: a parameter, of which the
    proofs use that it is a strict total order, as deterministic collations are. *)

Class TextOrder := { text_before : string -> string -> bool }.

Class LawfulTextOrder `{TextOrder} := {
  text_asymmetric s t : text_before s t = true -> text_before t s = false;
  text_transitive s t u : text_before s t = true -> text_before t u = true -> text_before s u = true;
  text_total s t : text_before s t = true \/ s = t \/ text_before t s = true
}.

(** [ORDER BY] a time, then a text. *)
Definition time_text_before `{TextOrder} (x y : Z * string) : bool :=
  if x.1 =? y.1 then text_before x.2 y.2 else x.1 <? y.1.

Lemma time_text_strict_weak `{LawfulTextOrder} {A} (key : A -> Z * string) :
  strict_weak (fun x y => time_text_before (key x) (key y)).
Proof.
  assert (forall s, text_before s s = false) as Hirr.
  { intros s. destruct (text_before s s) eqn:E; [|done]. by rewrite (text_asymmetric s s E) in E. }
  unfold strict_weak, sort_le, time_text_before. split.
  - intros x y. destruct (Z.eqb_spec (key y).1 (key x).1) as [E|E];
      destruct (Z.eqb_spec (key x).1 (key y).1) as [E'|E']; try lia.
    destruct (text_total (key x).2 (key y).2) as [Ht|[->|Ht]]; [left|left|right];
      auto using text_asymmetric.
  - intros x y z. destruct (Z.eqb_spec (key y).1 (key x).1), (Z.eqb_spec (key z).1 (key y).1),
      (Z.eqb_spec (key z).1 (key x).1); try lia.
    intros Hyx Hzy. destruct (text_before (key z).2 (key x).2) eqn:Hzx; [|done].
    destruct (text_total (key x).2 (key y).2) as [Ht|[E|Ht]]; [|congruence..].
    by rewrite (text_transitive _ _ _ Hzx Ht) in Hzy.
Qed.

Lemma time_text_equal `{LawfulTextOrder} {A} (key : A -> Z * string) x y :
  sort_le (fun x y => time_text_before (key x) (key y)) x y ->
  sort_le (fun x y => time_text_before (key x) (key y)) y x -> key x = key y.
Proof.
  unfold sort_le, time_text_before. destruct (key x) as [t1 s1], (key y) as [t2 s2]. cbn [fst snd].
  destruct (Z.eqb_spec t2 t1), (Z.eqb_spec t1 t2); try lia. intros H1 H2.
  destruct (text_total s1 s2) as [Ht|[->|Ht]]; [congruence|by subst|congruence].
Qed.

(** The order of the bytes, as under the collation [C]. *)
Definition byte_order : TextOrder := {| text_before := String.ltb |}.

Lemma string_compare_trans s t u :
  String.compare s t = Lt -> String.compare t u = Lt -> String.compare s u = Lt.
Proof.
  revert t u. induction s as [|a s IH]; intros [|b t] [|c u]; cbn; try done.
  unfold Ascii.compare. destruct (N.compare_spec (N_of_ascii a) (N_of_ascii b));
    destruct (N.compare_spec (N_of_ascii b) (N_of_ascii c));
    destruct (N.compare_spec (N_of_ascii a) (N_of_ascii c)); try done; try lia. apply IH.
Qed.

Lemma byte_order_lawful : @LawfulTextOrder byte_order.
Proof.
  split; cbn; unfold String.ltb; intros s t.
  - rewrite (String.compare_antisym t s). by destruct (String.compare s t).
  - intros u. destruct (String.compare s t) eqn:E1, (String.compare t u) eqn:E2; try done.
    by rewrite (string_compare_trans s t u).
  - rewrite (String.compare_antisym t s). destruct (String.compare s t) eqn:E; cbn; auto.
    right. left. by apply String.compare_eq_iff.
Qed.
