(* ===== verification/Uint256.v ===== *)
(** * Uint256: checked 256-bit integers ([Uint256.cpp]) and full-precision
    multiplication and division ([Uint256Math.cpp])

    The private member [value_] is a Boost [checked_uint256_t]: an integer in
    [0, 2^256) whose operations are exact or raise [std::overflow_error]
    ([storage]).  The range is part of the type, as in the class. *)

From Stdlib Require Import Ascii.
From S2P Require Import Prelude Text.
Set Default Goal Selector "!".
#[local] Open Scope Z_scope.

Definition u256_in_range (z : Z) : bool := (0 <=? z) && (z <? 2 ^ 256).

Record Uint256 := MkUint256 {
  value_ : Z;
  value_range : STrue (u256_in_range value_)
}.

Lemma uval_range (x : Uint256) : 0 <= value_ x < 2 ^ 256.
Proof.
  pose proof (STrue_elim _ (value_range x)) as H. unfold u256_in_range in H. boolify. lia.
Qed.

Lemma uval_inj (x y : Uint256) : value_ x = value_ y -> x = y.
Proof. destruct x, y; simpl. intros ->. reflexivity. Qed.

#[global] Instance Uint256_eq_dec : EqDecision Uint256.
Proof.
  refine (fun x y => match decide (value_ x = value_ y) with
    | left H => left (uval_inj x y H)
    | right H => right (fun E => H (f_equal value_ E)) end).
Defined.

(** The value of a Boost expression stored into a [checked_uint256_t]. *)
Definition u256 (z : Z) : option Uint256 :=
  match decide (u256_in_range z = true) with
  | left H => Some (MkUint256 z (STrue_intro _ H))
  | right _ => None
  end.
Definition storage (z : Z) : result Uint256 := result_of (u256 z) BoostOverflow.
Arguments u256 : simpl never.
Arguments storage : simpl never.

Lemma u256_Some z x : u256 z = Some x <-> value_ x = z.
Proof.
  unfold u256. split.
  - destruct (decide _); intros; by simplify_eq.
  - intros <-. destruct (decide _) as [E|E].
    + f_equal. by apply uval_inj.
    + exfalso. apply E. pose proof (uval_range x). unfold u256_in_range. lia.
Qed.

Lemma u256_None z : u256 z = None <-> ~ (0 <= z < 2 ^ 256).
Proof.
  unfold u256. destruct (decide _) as [E|E]; unfold u256_in_range in E; split; try done; lia.
Qed.

Lemma storage_Ok z x : storage z = Ok x <-> value_ x = z.
Proof.
  unfold storage, result_of. rewrite <-u256_Some. destruct (u256 z); split; intros; by simplify_eq.
Qed.

Lemma storage_Throw z e : storage z = Throw e <-> e = BoostOverflow /\ ~ (0 <= z < 2 ^ 256).
Proof.
  unfold storage, result_of. rewrite <-u256_None. destruct (u256 z); split; [done| |by intros [= <-]|]; intros []; [done|congruence].
Qed.

(** The constructor from [std::uint64_t] is exact; other constants of the sources
    are also written [U z]. *)
Definition u256_zero : Uint256 := MkUint256 0 (STrue_intro _ eq_refl).
Definition U (z : Z) : Uint256 := default u256_zero (u256 z).
Arguments U : simpl never.

Lemma U_value z : 0 <= z < 2 ^ 256 -> value_ (U z) = z.
Proof.
  intros H. unfold U. destruct (u256 z) as [x|] eqn:E; simpl.
  - by apply u256_Some in E.
  - by apply u256_None in E.
Qed.

Lemma U_of_value x : U (value_ x) = x.
Proof. apply uval_inj, U_value, uval_range. Qed.

#[global] Instance Uint256_inhabited : Inhabited Uint256 := populate (U 0).

(** ** Arithmetic and comparison operators *)

Definition IsZero (x : Uint256) : bool := value_ x =? 0.
Definition add (x y : Uint256) : result Uint256 := storage (value_ x + value_ y).
Definition sub (x y : Uint256) : result Uint256 :=
  if value_ x <? value_ y then Throw (OverflowError "uint256 subtraction underflow")
  else storage (value_ x - value_ y).
Definition mul (x y : Uint256) : result Uint256 := storage (value_ x * value_ y).
Definition div (x y : Uint256) : result Uint256 :=
  if IsZero y then Throw (DomainError "uint256 division by zero")
  else storage (value_ x / value_ y).

Definition u_eqb (x y : Uint256) : bool := value_ x =? value_ y.
Definition u_neb (x y : Uint256) : bool := negb (u_eqb x y).
Definition u_ltb (x y : Uint256) : bool := value_ x <? value_ y.
Definition u_leb (x y : Uint256) : bool := value_ x <=? value_ y.
Definition u_gtb (x y : Uint256) : bool := value_ y <? value_ x.
Definition u_geb (x y : Uint256) : bool := value_ y <=? value_ x.

Definition ToUint64 (x : Uint256) : result Z :=
  if 2 ^ 64 - 1 <? value_ x then Throw (OverflowError "uint256 value does not fit in uint64")
  else Ok (value_ x).

Declare Scope u256_scope.
Delimit Scope u256_scope with u256.
Infix "+!" := add (at level 50, left associativity) : u256_scope.
Infix "-!" := sub (at level 50, left associativity) : u256_scope.
Infix "*!" := mul (at level 40, left associativity) : u256_scope.

(** ** Bytes *)

Definition Bytes32 := array 32.

Definition FromBytes (bytes : Bytes32) : result Uint256 :=
  fold_result (fun r byte => r1 ← storage (Z.shiftl (value_ r) 8); storage (value_ r1 + b2z byte))
    (U 0) (array_list bytes).

Definition ToBytes (x : Uint256) : Bytes32 := array_copy 32 (be_bytes 32 (value_ x)).

(** ** Text *)

Definition DecodeNibble : ascii -> result Z :=
  decode_nibble "uint256 hex string contains an invalid character".

Definition FromHex (value : string) : result Uint256 :=
  let value := strip_0x (chars value) in
  if bool_decide (value = []) then Throw (InvalidArgument "uint256 hex string is empty")
  else if (32 * 2 <? Z.of_nat (length value))
  then Throw (OverflowError "uint256 hex string exceeds 256 bits")
  else fold_result (fun r digit =>
         r1 ← storage (Z.shiftl (value_ r) 4); d ← DecodeNibble digit; storage (value_ r1 + d))
         (U 0) value.

Definition FromDecimal (value : string) : result Uint256 :=
  if bool_decide (value = EmptyString) then Throw (InvalidArgument "uint256 decimal string is empty")
  else fold_result (fun r digit =>
         if (ascii_z digit <? ascii_z "0") || (ascii_z "9" <? ascii_z digit)
         then Throw (InvalidArgument "uint256 decimal string contains an invalid character")
         else r1 ← storage (value_ r * 10); storage (value_ r1 + (ascii_z digit - ascii_z "0")))
         (U 0) (chars value).

(** [value_.str()]: the decimal digits without leading zeros; 78 digits are enough
    for any 256-bit value ([ToDecimal_digits]). *)
Definition ToDecimal (x : Uint256) : string :=
  if IsZero x then "0" else unchars (hex_char <$> reverse (digits_rev 10 78 (value_ x))).

(** The [while(remaining != 0)] loop of [ToQuantity], which appends the low digit and
    shifts; a 256-bit value takes at most 64 rounds. *)
Fixpoint quantity_loop (fuel : nat) (remaining : Z) (digits : list ascii) : list ascii :=
  match fuel with
  | O => digits
  | S fuel' =>
      if remaining =? 0 then digits
      else quantity_loop fuel' (Z.shiftr remaining 4) (digits ++ [hex_char (Z.land remaining 15)])
  end.

Definition ToQuantity (x : Uint256) : string :=
  if IsZero x then "0x0" else String.append "0x" (unchars (reverse (quantity_loop 64 (value_ x) []))).

(** ** [Uint256Math]

    [WideInteger] is Boost's unchecked [uint512_t]: arithmetic modulo 2^512. *)
Module Math.

Definition wide (z : Z) : Z := z mod 2 ^ 512.

Definition ToWide (x : Uint256) : Z :=
foldl (fun r byte => wide (wide (Z.shiftl r 8) + b2z byte)) 0 (array_list (ToBytes x)).

Definition FromWide (value : Z) : result Uint256 :=
let maximum := wide (wide (Z.shiftl 1 256) - 1) in
if maximum <? value then Throw (OverflowError "mulDiv result exceeds uint256")
else FromBytes (array_copy 32 (be_bytes 32 value)).

Definition MulDivDown (left right denominator : Uint256) : result Uint256 :=
if IsZero denominator then Throw (DomainError "mulDiv denominator is zero")
else FromWide (wide (ToWide left * ToWide right) / ToWide denominator).

Definition MulDivUp (left right denominator : Uint256) : result Uint256 :=
if IsZero denominator then Throw (DomainError "mulDiv denominator is zero")
else
  let product := wide (ToWide left * ToWide right) in
  let divisor := ToWide denominator in
  let quotient := product / divisor in
  FromWide (wide (quotient + (if product mod divisor =? 0 then 0 else 1))).

End Math.

#[global] Arguments FromBytes : simpl never.
#[global] Arguments ToBytes : simpl never.
#[global] Arguments FromHex : simpl never.
#[global] Arguments FromDecimal : simpl never.
#[global] Arguments ToDecimal : simpl never.
#[global] Arguments ToQuantity : simpl never.
#[global] Arguments Math.MulDivDown : simpl never.
#[global] Arguments Math.MulDivUp : simpl never.
#[global] Arguments add : simpl never.
#[global] Arguments sub : simpl never.
#[global] Arguments mul : simpl never.
#[global] Arguments div : simpl never.

(** ** Lemmas *)

Lemma U_inj z1 z2 : 0 <= z1 < 2 ^ 256 -> 0 <= z2 < 2 ^ 256 -> U z1 = U z2 -> z1 = z2.
Proof. intros H1 H2 H. by rewrite <-(U_value z1), H, U_value. Qed.

Lemma storage_in_range z : 0 <= z < 2 ^ 256 -> storage z = Ok (U z).
Proof. intros H. apply storage_Ok. by apply U_value. Qed.

Lemma storage_out_of_range z : ~ (0 <= z < 2 ^ 256) -> storage z = Throw BoostOverflow.
Proof. intros H. by apply storage_Throw. Qed.

Lemma storage_value x : storage (value_ x) = Ok x.
Proof. by apply storage_Ok. Qed.

(** A successful checked operation is exact. *)
Lemma add_Ok x y z : add x y = Ok z <-> value_ z = value_ x + value_ y.
Proof. apply storage_Ok. Qed.

Lemma mul_Ok x y z : mul x y = Ok z <-> value_ z = value_ x * value_ y.
Proof. apply storage_Ok. Qed.

Lemma sub_Ok x y z : sub x y = Ok z <-> value_ z = value_ x - value_ y.
Proof.
  unfold sub. pose proof (uval_range z). destruct (Z.ltb_spec (value_ x) (value_ y)).
  - split; [done | lia].
  - apply storage_Ok.
Qed.

Lemma sub_le x y : value_ y <= value_ x -> sub x y = Ok (U (value_ x - value_ y)).
Proof.
  intros H. apply sub_Ok, U_value. pose proof (uval_range x). pose proof (uval_range y). lia.
Qed.

Lemma sub_lt x y :
  value_ x < value_ y -> sub x y = Throw (OverflowError "uint256 subtraction underflow").
Proof. intros H. unfold sub. by destruct (Z.ltb_spec (value_ x) (value_ y)); [|lia]. Qed.

Lemma div_Ok x y z : div x y = Ok z <-> value_ y <> 0 /\ value_ z = value_ x / value_ y.
Proof.
  unfold div, IsZero. destruct (Z.eqb_spec (value_ y) 0); [split; [done|by intros []]|].
  rewrite storage_Ok. tauto.
Qed.

(** *** Bytes *)

Lemma FromBytes_loop l :
  (length l <= 32)%nat ->
  fold_result (fun r byte => r1 ← storage (Z.shiftl (value_ r) 8); storage (value_ r1 + b2z byte))
    (U 0) l = Ok (U (be_value l)).
Proof.
  induction l as [|b l IH] using rev_ind; intros H; [done|].
  rewrite length_app in H; simpl in H.
  rewrite fold_result_snoc, IH by lia. simpl. pose proof (be_value_range (l ++ [b])) as Hr.
  rewrite be_value_snoc in *. rewrite length_app in Hr. simpl in Hr.
  assert (256 ^ Z.of_nat (length l + 1) <= 256 ^ 32) by (apply Z.pow_le_mono_r; lia).
  change (256 ^ 32) with (2 ^ 256) in *.
  pose proof (be_value_range l). pose proof (b2z_range b).
  rewrite U_value by lia. rewrite Z.shiftl_mul_pow2 by lia. change (2 ^ 8) with 256.
  rewrite storage_in_range by lia. simpl. rewrite U_value by lia.
  by rewrite storage_in_range by lia.
Qed.

Lemma FromBytes_value (bytes : Bytes32) : FromBytes bytes = Ok (U (be_value (array_list bytes))).
Proof. apply FromBytes_loop. by rewrite array_length. Qed.

Lemma bytes32_value_range (bytes : Bytes32) : 0 <= be_value (array_list bytes) < 2 ^ 256.
Proof. pose proof (be_value_range (array_list bytes)) as H. by rewrite array_length in H. Qed.

Lemma ToBytes_list x : array_list (ToBytes x) = be_bytes 32 (value_ x).
Proof. apply array_copy_list, be_bytes_length. Qed.

Lemma ToBytes_value x : be_value (array_list (ToBytes x)) = value_ x.
Proof. rewrite ToBytes_list. apply be_bytes_value_id, uval_range. Qed.

Lemma FromBytes_ToBytes x : FromBytes (ToBytes x) = Ok x.
Proof. by rewrite FromBytes_value, ToBytes_value, U_of_value. Qed.

Lemma ToBytes_U_be_value (bytes : Bytes32) : ToBytes (U (be_value (array_list bytes))) = bytes.
Proof.
  apply array_eq. rewrite ToBytes_list, U_value by apply bytes32_value_range.
  rewrite <-(array_length bytes) at 1. apply be_bytes_be_value.
Qed.

Lemma ToBytes_inj x y : ToBytes x = ToBytes y -> x = y.
Proof. intros H. apply uval_inj. by rewrite <-(ToBytes_value x), H, ToBytes_value. Qed.

(** *** Text *)

Lemma FromHex_loop l ds :
  Forall2 (fun c d => DecodeNibble c = Ok d) l ds -> (length l <= 64)%nat ->
  fold_result (fun r digit =>
    r1 ← storage (Z.shiftl (value_ r) 4); d ← DecodeNibble digit; storage (value_ r1 + d))
    (U 0) l = Ok (U (digits_value 16 ds)).
Proof.
  revert ds. induction l as [|c l IH] using rev_ind; intros ds H HL.
  - by apply Forall2_nil_inv_l in H as ->.
  - apply Forall2_app_inv_l in H as (ds' & k & H & Hk & ->).
    apply Forall2_cons_inv_l in Hk as (d & ? & Hd & ->%Forall2_nil_inv_l & ->).
    rewrite length_app in HL; simpl in HL.
    assert (Forall (fun d => 0 <= d < 16) ds') as Hr.
    { eapply Forall2_Forall_r; [exact H|]. apply Forall_true. intros x y.
      apply decode_nibble_range. }
    rewrite fold_result_snoc, (IH ds') by (done || lia). simpl.
    rewrite digits_value_snoc.
    pose proof (digits_value_range 16 ltac:(lia) ds' Hr) as Hv.
    rewrite <-(Forall2_length _ _ _ H) in Hv. pose proof (decode_nibble_range _ _ _ Hd).
    assert (16 ^ Z.of_nat (length l) <= 16 ^ 63) by (apply Z.pow_le_mono_r; lia).
    change (2 ^ 256) with (16 ^ 64) in *. assert (16 ^ 64 = 16 * 16 ^ 63) by reflexivity.
    rewrite U_value, Z.shiftl_mul_pow2 by lia. change (2 ^ 4) with 16.
    rewrite storage_in_range by lia. simpl. rewrite Hd. simpl.
    rewrite U_value by lia. by rewrite storage_in_range by lia.
Qed.

Definition is_digit (c : ascii) : Prop := 48 <= ascii_z c <= 57.
Definition decimal_value (l : list ascii) : Z :=
  digits_value 10 ((fun c => ascii_z c - ascii_z "0") <$> l).

Lemma decimal_value_snoc l c : decimal_value (l ++ [c]) = decimal_value l * 10 + (ascii_z c - 48).
Proof. unfold decimal_value. rewrite fmap_app. apply digits_value_snoc. Qed.

Lemma decimal_value_nonneg l : Forall is_digit l -> 0 <= decimal_value l.
Proof.
  intros H. apply (digits_value_range 10 ltac:(lia)). apply Forall_fmap.
  eapply Forall_impl; [exact H|]. unfold is_digit. intros c Hc. change (ascii_z "0") with 48.
  simpl. lia.
Qed.

Lemma FromDecimal_loop l x :
  fold_result (fun r digit =>
    if (ascii_z digit <? ascii_z "0") || (ascii_z "9" <? ascii_z digit)
    then Throw (InvalidArgument "uint256 decimal string contains an invalid character")
    else r1 ← storage (value_ r * 10); storage (value_ r1 + (ascii_z digit - ascii_z "0")))
    (U 0) l = Ok x <-> Forall is_digit l /\ value_ x = decimal_value l.
Proof.
  revert x. induction l as [|c l IH] using rev_ind; intros x.
  - simpl. split.
    + intros [= <-]. by split; [constructor|].
    + intros [_ H]. f_equal. by apply uval_inj.
  - rewrite fold_result_snoc, Forall_app, Forall_singleton, decimal_value_snoc. simpl.
    unfold is_digit at 2. assert (ascii_z "0" = 48 /\ ascii_z "9" = 57) as [E0 E9] by done.
    split.
    + intros H. invert_bind. apply IH in Hb as [Hl Hv].
      destruct (_ || _) eqn:E; [done|]. invert_bind.
      apply storage_Ok in Hb. apply storage_Ok in H. boolify.
      split; [split; [done|lia]|]. lia.
    + intros [[Hl Hc] Hv]. pose proof (uval_range x) as Hx.
      pose proof (decimal_value_nonneg l Hl).
      rewrite (proj2 (IH (U (decimal_value l)))) by (split; [done|apply U_value; lia]).
      simpl. destruct (_ || _) eqn:E; [lia|].
      rewrite U_value by lia. rewrite storage_in_range by lia. simpl.
      rewrite U_value by lia. by apply storage_Ok.
Qed.

Lemma hex_char_digit d : 0 <= d < 10 -> ascii_z (hex_char d) = 48 + d.
Proof.
  intros H. assert (d = 0 \/ d = 1 \/ d = 2 \/ d = 3 \/ d = 4 \/ d = 5 \/ d = 6 \/ d = 7 \/
    d = 8 \/ d = 9) as Hd by lia. repeat destruct Hd as [-> | Hd]; subst; reflexivity.
Qed.

Lemma decimal_value_digits ds :
  Forall (fun d => 0 <= d < 10) ds -> decimal_value (hex_char <$> ds) = digits_value 10 ds.
Proof.
  intros H. unfold decimal_value. f_equal. induction H as [|d ds Hd _ IH]; [done|].
  rewrite !fmap_cons, IH, hex_char_digit by done. f_equal.
  assert (ascii_z "0" = 48) by done. lia.
Qed.

Lemma digits_are_digits ds : Forall (fun d => 0 <= d < 10) ds -> Forall is_digit (hex_char <$> ds).
Proof.
  intros H. apply Forall_fmap. eapply Forall_impl; [exact H|]. intros d Hd. unfold is_digit. simpl in *.
  rewrite hex_char_digit by done. lia.
Qed.

(** What [ToDecimal] prints: digits only, at least one, with the value of the number. *)
Lemma ToDecimal_digits x :
  ToDecimal x <> EmptyString /\ Forall is_digit (chars (ToDecimal x))
  /\ decimal_value (chars (ToDecimal x)) = value_ x.
Proof.
  unfold ToDecimal, IsZero. destruct (Z.eqb_spec (value_ x) 0) as [E|E].
  - rewrite E. repeat split; [done|]. repeat constructor; unfold is_digit; vm_compute; done.
  - pose proof (uval_range x). set (ds := digits_rev 10 78 (value_ x)).
    assert (Forall (fun d => 0 <= d < 10) (reverse ds)) as Hd.
    { apply Forall_reverse, digits_rev_range. lia. }
    rewrite chars_unchars. repeat split.
    + intros H0. change EmptyString with (unchars []) in H0. apply unchars_inj in H0.
      apply fmap_nil_inv in H0. apply (f_equal reverse) in H0. rewrite reverse_involutive in H0.
      by apply (digits_rev_nonempty 10 78 (value_ x)) in H0; [| |lia].
    + by apply digits_are_digits.
    + rewrite decimal_value_digits by done. apply digits_rev_value; [lia|].
      assert (2 ^ 256 < 10 ^ 78) by reflexivity. change (Z.of_nat 78) with 78. lia.
Qed.

Lemma quantity_loop_digits fuel r acc :
  0 <= r -> quantity_loop fuel r acc = acc ++ (hex_char <$> digits_rev 16 fuel r).
Proof.
  revert r acc. induction fuel as [|fuel IH]; intros r acc H; simpl; [by rewrite app_nil_r|].
  destruct (Z.eqb_spec r 0); [by rewrite app_nil_r|].
  rewrite Z.shiftr_div_pow2 by lia. change (2 ^ 4) with 16.
  rewrite IH by (apply Z.div_pos; lia). rewrite <-app_assoc. simpl. do 2 f_equal.
  change 15 with (Z.ones 4). rewrite Z.land_ones by lia. done.
Qed.

Lemma FromDecimal_Ok s x :
  FromDecimal s = Ok x
  <-> s <> EmptyString /\ Forall is_digit (chars s) /\ value_ x = decimal_value (chars s).
Proof.
  unfold FromDecimal. case_bool_decide as E; [split; [done|by intros []]|].
  rewrite FromDecimal_loop. tauto.
Qed.

Lemma FromDecimal_ToDecimal x : FromDecimal (ToDecimal x) = Ok x.
Proof.
  apply FromDecimal_Ok. destruct (ToDecimal_digits x) as (H1 & H2 & H3). by rewrite H3.
Qed.

(** The value of a [NUMERIC] column of the database, given as its text. *)
Definition numeric (text : string) : Z := decimal_value (chars text).

Lemma numeric_ToDecimal x : numeric (ToDecimal x) = value_ x.
Proof. unfold numeric. by destruct (ToDecimal_digits x) as (_ & _ & ->). Qed.

Lemma ToDecimal_inj x y : ToDecimal x = ToDecimal y -> x = y.
Proof.
  intros H. assert (FromDecimal (ToDecimal x) = Ok y) as E by (rewrite H; apply FromDecimal_ToDecimal).
  rewrite FromDecimal_ToDecimal in E. by injection E.
Qed.

Lemma FromHex_digits ds :
  Forall (fun d => 0 <= d < 16) ds -> ds <> [] -> (length ds <= 64)%nat ->
  FromHex (String.append "0x" (unchars (hex_char <$> ds))) = Ok (U (digits_value 16 ds)).
Proof.
  intros Hd Hn HL. unfold FromHex.
  change (chars (String.append "0x" (unchars (hex_char <$> ds))))
    with ("0"%char :: "x"%char :: chars (unchars (hex_char <$> ds))).
  rewrite strip_0x_prefixed, chars_unchars.
  rewrite bool_decide_eq_false_2 by (intros H; by apply fmap_nil_inv in H).
  rewrite length_fmap. destruct (Z.ltb_spec (32 * 2) (Z.of_nat (length ds))); [lia|].
  apply FromHex_loop; [|by rewrite length_fmap].
  clear Hn HL H. induction Hd as [|d ds Hd _ IH]; rewrite ?fmap_cons; constructor; [|done].
  by apply hex_char_decode.
Qed.

Lemma FromHex_ToQuantity x : FromHex (ToQuantity x) = Ok x.
Proof.
  unfold ToQuantity, IsZero. pose proof (uval_range x).
  destruct (Z.eqb_spec (value_ x) 0) as [E|E].
  - rewrite <-(U_of_value x), E. reflexivity.
  - rewrite quantity_loop_digits by lia. rewrite app_nil_l. rewrite <-fmap_reverse. rewrite FromHex_digits.
    + rewrite digits_rev_value; [by rewrite U_of_value|lia|].
      change (16 ^ Z.of_nat 64) with (2 ^ 256). lia.
    + apply Forall_reverse, digits_rev_range. lia.
    + intros H0. apply (f_equal reverse) in H0. rewrite reverse_involutive in H0.
      by apply (digits_rev_nonempty 16 64 (value_ x)) in H0; [| |lia].
    + rewrite length_reverse. apply digits_rev_length.
Qed.

Module MathLemmas.
Import Math.

Lemma ToWide_value x : ToWide x = value_ x.
Proof.
unfold ToWide. rewrite <-(ToBytes_value x). pose proof (array_length (ToBytes x)) as HL.
unfold Bytes32 in *. revert HL. generalize (array_list (ToBytes x)) as l.
enough (forall l, (length l <= 32)%nat ->
  foldl (fun r byte => wide (wide (Z.shiftl r 8) + b2z byte)) 0 l = be_value l) as Hl
  by (intros l HL; apply Hl; lia).
induction l as [|b l IH] using rev_ind; intros HL; [done|].
rewrite length_app in HL; simpl in HL. rewrite foldl_app. simpl. rewrite IH, be_value_snoc by lia.
pose proof (be_value_range l). pose proof (b2z_range b).
assert (256 ^ Z.of_nat (length l) <= 256 ^ 31) by (apply Z.pow_le_mono_r; lia).
assert (256 * 256 ^ 31 + 256 < 2 ^ 512) by reflexivity.
rewrite Z.shiftl_mul_pow2 by lia. change (2 ^ 8) with 256. unfold wide.
rewrite (Z.mod_small (be_value l * 256)) by lia. apply Z.mod_small. lia.
Qed.

Lemma FromWide_spec v :
0 <= v < 2 ^ 512 ->
FromWide v = if v <? 2 ^ 256 then Ok (U v)
             else Throw (OverflowError "mulDiv result exceeds uint256").
Proof.
intros H. unfold FromWide.
change (wide (wide (Z.shiftl 1 256) - 1)) with (2 ^ 256 - 1).
destruct (Z.ltb_spec (2 ^ 256 - 1) v), (Z.ltb_spec v (2 ^ 256)); try lia; [done|].
rewrite FromBytes_value, array_copy_list by apply be_bytes_length.
rewrite be_bytes_value_id; [done|]. change (256 ^ Z.of_nat 32) with (2 ^ 256). lia.
Qed.

(** The intermediate product fits in 512 bits. *)
Lemma wide_product x y : wide (ToWide x * ToWide y) = value_ x * value_ y.
Proof.
rewrite !ToWide_value. pose proof (uval_range x). pose proof (uval_range y).
apply Z.mod_small. split; [nia|].
assert (value_ x * value_ y <= (2 ^ 256 - 1) * (2 ^ 256 - 1))
  by (apply Z.mul_le_mono_nonneg; lia).
assert ((2 ^ 256 - 1) * (2 ^ 256 - 1) < 2 ^ 512) by reflexivity. lia.
Qed.

Lemma product_range x y : 0 <= value_ x * value_ y < 2 ^ 512 - 1.
Proof.
pose proof (uval_range x). pose proof (uval_range y). split; [nia|].
assert (value_ x * value_ y <= (2 ^ 256 - 1) * (2 ^ 256 - 1))
  by (apply Z.mul_le_mono_nonneg; lia).
assert ((2 ^ 256 - 1) * (2 ^ 256 - 1) < 2 ^ 512 - 1) by reflexivity. lia.
Qed.

Lemma quotient_range x y d : 0 < d -> 0 <= value_ x * value_ y / d < 2 ^ 512 - 1.
Proof.
intros Hd. pose proof (product_range x y). split; [apply Z.div_pos; lia|].
apply Z.le_lt_trans with (value_ x * value_ y); [|lia]. apply Z.div_le_upper_bound; nia.
Qed.

(** Floor of the exact quotient, or an exception. *)
Lemma MulDivDown_eq x y d :
MulDivDown x y d =
  if value_ d =? 0 then Throw (DomainError "mulDiv denominator is zero")
  else if value_ x * value_ y / value_ d <? 2 ^ 256 then Ok (U (value_ x * value_ y / value_ d))
  else Throw (OverflowError "mulDiv result exceeds uint256").
Proof.
unfold MulDivDown, IsZero. pose proof (uval_range d). destruct (Z.eqb_spec (value_ d) 0); [done|].
rewrite wide_product, ToWide_value. apply FromWide_spec.
pose proof (quotient_range x y (value_ d) ltac:(lia)). lia.
Qed.

(** Ceiling of the exact quotient, or an exception. *)
Definition cdiv (a b : Z) : Z := (a + b - 1) / b.

Lemma cdiv_quotient a b : 0 < b -> a / b + (if a mod b =? 0 then 0 else 1) = cdiv a b.
Proof.
intros Hb. unfold cdiv. pose proof (Z.div_mod a b ltac:(lia)). pose proof (Z.mod_pos_bound a b Hb).
destruct (Z.eqb_spec (a mod b) 0); eapply Z.div_unique.
- instantiate (1 := b - 1). lia.
- lia.
- instantiate (1 := a mod b - 1). lia.
- lia.
Qed.

Lemma MulDivUp_eq x y d :
MulDivUp x y d =
  if value_ d =? 0 then Throw (DomainError "mulDiv denominator is zero")
  else if cdiv (value_ x * value_ y) (value_ d) <? 2 ^ 256
  then Ok (U (cdiv (value_ x * value_ y) (value_ d)))
  else Throw (OverflowError "mulDiv result exceeds uint256").
Proof.
unfold MulDivUp, IsZero. pose proof (uval_range d). destruct (Z.eqb_spec (value_ d) 0); [done|].
rewrite wide_product, ToWide_value. rewrite cdiv_quotient by lia.
pose proof (quotient_range x y (value_ d) ltac:(lia)) as Hq.
pose proof (cdiv_quotient (value_ x * value_ y) (value_ d) ltac:(lia)) as Hc.
unfold wide. rewrite Z.mod_small by (destruct (_ =? 0) in Hc; lia).
apply FromWide_spec. destruct (_ =? 0) in Hc; lia.
Qed.

Lemma MulDivDown_Ok x y d q :
MulDivDown x y d = Ok q <-> value_ d <> 0 /\ value_ q = value_ x * value_ y / value_ d.
Proof.
rewrite MulDivDown_eq. pose proof (uval_range q). pose proof (uval_range d).
destruct (Z.eqb_spec (value_ d) 0); [split; [done|by intros []]|].
pose proof (quotient_range x y (value_ d) ltac:(lia)).
destruct (Z.ltb_spec (value_ x * value_ y / value_ d) (2 ^ 256)); split.
- intros [= <-]. rewrite U_value by lia. done.
- intros [_ E]. rewrite <-E. by rewrite U_of_value.
- done.
- lia.
Qed.

Lemma cdiv_bounds a b : 0 < b -> 0 <= a -> a <= cdiv a b * b < a + b /\ a / b <= cdiv a b <= a / b + 1.
Proof.
intros Hb Ha. rewrite <-cdiv_quotient by lia. pose proof (Z.div_mod a b ltac:(lia)).
pose proof (Z.mod_pos_bound a b Hb). destruct (Z.eqb_spec (a mod b) 0); nia.
Qed.

Lemma MulDivUp_Ok x y d q :
MulDivUp x y d = Ok q <-> value_ d <> 0 /\ value_ q = cdiv (value_ x * value_ y) (value_ d).
Proof.
rewrite MulDivUp_eq. pose proof (uval_range q). pose proof (uval_range d).
destruct (Z.eqb_spec (value_ d) 0); [split; [done|by intros []]|].
pose proof (quotient_range x y (value_ d) ltac:(lia)). pose proof (product_range x y).
pose proof (cdiv_bounds (value_ x * value_ y) (value_ d) ltac:(lia) ltac:(lia)).
destruct (Z.ltb_spec (cdiv (value_ x * value_ y) (value_ d)) (2 ^ 256)); split.
- intros [= <-]. rewrite U_value by lia. done.
- intros [_ E]. rewrite <-E. by rewrite U_of_value.
- done.
- lia.
Qed.

End MathLemmas.

Lemma ToUint64_Ok x n : ToUint64 x = Ok n <-> n = value_ x /\ value_ x < 2 ^ 64.
Proof.
  unfold ToUint64. destruct (Z.ltb_spec (2 ^ 64 - 1) (value_ x)) as [Hx|Hx].
  - split; [done|]. intros [_ H]. lia.
  - split; [intros [= <-]; lia|]. by intros [-> _].
Qed.

(** Operations whose result is known to fit. *)
Lemma add_fits x y : value_ x + value_ y < 2 ^ 256 ->
  exists z, add x y = Ok z /\ value_ z = value_ x + value_ y.
Proof.
  intros H. pose proof (uval_range x). pose proof (uval_range y). exists (U (value_ x + value_ y)).
  rewrite add_Ok, U_value by lia. done.
Qed.

Lemma mul_fits x y : value_ x * value_ y < 2 ^ 256 ->
  exists z, mul x y = Ok z /\ value_ z = value_ x * value_ y.
Proof.
  intros H. pose proof (uval_range x). pose proof (uval_range y). exists (U (value_ x * value_ y)).
  rewrite mul_Ok, U_value by nia. done.
Qed.

Lemma sub_fits x y : value_ y <= value_ x ->
  exists z, sub x y = Ok z /\ value_ z = value_ x - value_ y.
Proof.
  intros H. pose proof (uval_range x). pose proof (uval_range y). exists (U (value_ x - value_ y)).
  rewrite sub_Ok, U_value by lia. done.
Qed.

Lemma MulDivDown_fits x y d : value_ d <> 0 -> value_ x * value_ y / value_ d < 2 ^ 256 ->
  exists z, Math.MulDivDown x y d = Ok z /\ value_ z = value_ x * value_ y / value_ d.
Proof.
  intros Hd H. pose proof (uval_range d).
  pose proof (MathLemmas.quotient_range x y (value_ d) ltac:(lia)).
  exists (U (value_ x * value_ y / value_ d)). rewrite MathLemmas.MulDivDown_Ok, U_value by lia. done.
Qed.

(** Replaces every successful operation of the context by the equation of its value. *)
Ltac exact_values :=
  repeat match goal with
  | H : add _ _ = Ok _ |- _ => apply add_Ok in H
  | H : sub _ _ = Ok _ |- _ => apply sub_Ok in H
  | H : mul _ _ = Ok _ |- _ => apply mul_Ok in H
  | H : div _ _ = Ok _ |- _ => apply div_Ok in H as [? H]
  | H : Math.MulDivDown _ _ _ = Ok _ |- _ => apply MathLemmas.MulDivDown_Ok in H as [? H]
  | H : Math.MulDivUp _ _ _ = Ok _ |- _ => apply MathLemmas.MulDivUp_Ok in H as [? H]
  | H : u_eqb _ _ = true |- _ => apply Z.eqb_eq in H
  | H : u_eqb _ _ = false |- _ => apply Z.eqb_neq in H
  | H : u_neb _ _ = true |- _ => apply negb_true_iff, Z.eqb_neq in H
  | H : u_neb _ _ = false |- _ => apply negb_false_iff, Z.eqb_eq in H
  | H : u_ltb _ _ = true |- _ => apply Z.ltb_lt in H
  | H : u_ltb _ _ = false |- _ => apply Z.ltb_ge in H
  | H : u_leb _ _ = true |- _ => apply Z.leb_le in H
  | H : u_leb _ _ = false |- _ => apply Z.leb_gt in H
  | H : u_gtb _ _ = true |- _ => apply Z.ltb_lt in H
  | H : u_gtb _ _ = false |- _ => apply Z.ltb_ge in H
  | H : u_geb _ _ = true |- _ => apply Z.leb_le in H
  | H : u_geb _ _ = false |- _ => apply Z.leb_gt in H
  | H : IsZero _ = true |- _ => apply Z.eqb_eq in H
  | H : IsZero _ = false |- _ => apply Z.eqb_neq in H
  end.

(** ** Properties *)

(** The four checked operators return the exact mathematical result when it is
    a 256-bit value and throw otherwise: addition and multiplication raise the overflow
    error of the Boost integer, subtraction [std::overflow_error] exactly on a negative
    difference, division [std::domain_error] exactly on a zero divisor. *)
Theorem checked_arithmetic x y :
  add x y = (if value_ x + value_ y <? 2 ^ 256 then Ok (U (value_ x + value_ y)) else Throw BoostOverflow)
  /\ mul x y = (if value_ x * value_ y <? 2 ^ 256 then Ok (U (value_ x * value_ y)) else Throw BoostOverflow)
  /\ sub x y = (if value_ y <=? value_ x then Ok (U (value_ x - value_ y))
                else Throw (OverflowError "uint256 subtraction underflow"))
  /\ div x y = (if value_ y =? 0 then Throw (DomainError "uint256 division by zero")
                else Ok (U (value_ x / value_ y))).
Proof.
  pose proof (uval_range x). pose proof (uval_range y). repeat split.
  - unfold add. destruct (Z.ltb_spec (value_ x + value_ y) (2 ^ 256)).
    + apply storage_in_range. lia.
    + apply storage_out_of_range. lia.
  - unfold mul. destruct (Z.ltb_spec (value_ x * value_ y) (2 ^ 256)).
    + apply storage_in_range. nia.
    + apply storage_out_of_range. lia.
  - destruct (Z.leb_spec (value_ y) (value_ x)); [by apply sub_le | by apply sub_lt].
  - unfold div, IsZero. destruct (Z.eqb_spec (value_ y) 0); [done|]. apply storage_in_range.
    pose proof (Z.div_pos (value_ x) (value_ y) ltac:(lia) ltac:(lia)).
    pose proof (Z.div_le_upper_bound (value_ x) (value_ y) (value_ x) ltac:(lia) ltac:(nia)). lia.
Qed.

(** Every textual and binary form of a number reads back as that number:
    [FromBytes] inverts [ToBytes] and is inverted by it, [FromDecimal] inverts
    [ToDecimal], [FromHex] inverts [ToQuantity]. *)
Theorem uint256_round_trips x (bytes : Bytes32) :
  FromBytes (ToBytes x) = Ok x
  /\ (exists y, FromBytes bytes = Ok y /\ ToBytes y = bytes)
  /\ FromDecimal (ToDecimal x) = Ok x
  /\ FromHex (ToQuantity x) = Ok x.
Proof.
  split; [apply FromBytes_ToBytes|]. split; [|split].
  - exists (U (be_value (array_list bytes))).
    split; [apply FromBytes_value | apply ToBytes_U_be_value].
  - apply FromDecimal_ToDecimal.
  - apply FromHex_ToQuantity.
Qed.

(** [FromDecimal] accepts exactly the non-empty strings of decimal digits whose
    value is below 2^256, and returns that value; what it throws otherwise is
    [std::invalid_argument] or the overflow error. *)
Theorem FromDecimal_correct s :
  match FromDecimal s with
  | Ok x => s <> EmptyString /\ Forall is_digit (chars s) /\ value_ x = decimal_value (chars s)
  | Throw e => (s = EmptyString \/ ~ Forall is_digit (chars s) \/ 2 ^ 256 <= decimal_value (chars s))
  end.
Proof.
  destruct (FromDecimal s) as [x|e] eqn:E; [by apply FromDecimal_Ok|].
  destruct (decide (s = EmptyString)) as [|Hn]; [by left|]. right.
  destruct (Z.lt_ge_cases (decimal_value (chars s)) (2 ^ 256)) as [Hlt|]; [|by right]. left.
  intros Hd. enough (FromDecimal s = Ok (U (decimal_value (chars s)))) by congruence.
  apply FromDecimal_Ok. repeat split; auto. apply U_value. split; [|done].
  by apply decimal_value_nonneg.
Qed.

(** [MulDivDown] is the floor and [MulDivUp] the ceiling of the exact 512-bit
    quotient; they throw [std::domain_error] exactly when the denominator is zero and
    [std::overflow_error] exactly when the quotient exceeds 256 bits. *)
Theorem MulDiv_exact x y d :
  let p := value_ x * value_ y in
  Math.MulDivDown x y d =
    (if value_ d =? 0 then Throw (DomainError "mulDiv denominator is zero")
     else if p / value_ d <? 2 ^ 256 then Ok (U (p / value_ d))
     else Throw (OverflowError "mulDiv result exceeds uint256"))
  /\ Math.MulDivUp x y d =
    (if value_ d =? 0 then Throw (DomainError "mulDiv denominator is zero")
     else if (p + value_ d - 1) / value_ d <? 2 ^ 256 then Ok (U ((p + value_ d - 1) / value_ d))
     else Throw (OverflowError "mulDiv result exceeds uint256")).
Proof. split; [apply MathLemmas.MulDivDown_eq | apply MathLemmas.MulDivUp_eq]. Qed.
