(* ===== verification/Hex.v ===== *)
(** * Hex: byte strings in hexadecimal ([Hex.cpp]) and Ethereum addresses
    ([Address.cpp]) *)

From Stdlib Require Import Ascii.
From S2P Require Import Prelude Text.
Set Default Goal Selector "!".
#[local] Open Scope Z_scope.

Abbreviation Bytes := (list byte).

(** A 32-byte hash, [Keccak.hpp]. *)
Abbreviation Hash256 := (array 32).

Definition DecodeNibble : ascii -> result Z :=
  decode_nibble "hex string contains an invalid character".

(** The loop of [Decode] over pairs of digits.  The length is even there, so the
    single-digit case is never reached. *)
Fixpoint decode_pairs (value : list ascii) : result Bytes :=
  match value with
  | c0 :: c1 :: value' =>
      high ← DecodeNibble c0;
      low ← DecodeNibble c1;
      rest ← decode_pairs value';
      Ok (z2b (Z.lor (Z.shiftl high 4) low) :: rest)
  | _ => Ok []
  end.

Definition Decode (value : string) : result Bytes :=
  let value := strip_0x (chars value) in
  if negb (Z.of_nat (length value) mod 2 =? 0)
  then Throw (InvalidArgument "hex byte strings must contain an even number of digits")
  else decode_pairs value.

(** The two digits pushed for a byte. *)
Definition byte_digits (b : byte) : list ascii :=
  [hex_char (Z.shiftr (b2z b) 4); hex_char (Z.land (b2z b) 15)].

Definition EncodeBuffer (data : Bytes) (includePrefix : bool) : string :=
  String.append (if includePrefix then "0x" else "") (unchars (mjoin (byte_digits <$> data))).

Definition Encode (data : Bytes) (includePrefix : bool) : string := EncodeBuffer data includePrefix.

(** [Hex::Encode] on an array. *)
Definition EncodeArray {n} (data : array n) (includePrefix : bool) : string :=
  EncodeBuffer (array_list data) includePrefix.

(** The functions [ParseHash] of the stores and parsers: decode, require 32 bytes,
    copy.  They differ in the message. *)
Definition parse_hash (msg : string) (value : string) : result Hash256 :=
  bytes ← Decode value;
  if negb (bool_decide (length bytes = 32%nat)) then Throw (InvalidArgument msg)
  else Ok (array_copy 32 bytes).

(** ** [Address] *)

Definition Address := array 20.
#[global] Instance Address_eq_dec : EqDecision Address := array_eq_dec 20.
#[global] Instance Address_countable : Countable Address := array_countable 20.
#[global] Instance Address_inhabited : Inhabited Address := array_inhabited 20.

Definition AddressFromHex (value : string) : result Address :=
  decoded ← Decode value;
  if negb (bool_decide (length decoded = 20%nat))
  then Throw (InvalidArgument "Ethereum addresses must contain exactly 20 bytes")
  else Ok (array_copy 20 decoded).

Definition AddressToHex (a : Address) (includePrefix : bool) : string := EncodeArray a includePrefix.

Definition AddressIsZero (a : Address) : bool := forallb (fun b => b2z b =? 0) (array_list a).

(** ** Lemmas *)

Lemma byte_nibbles b :
  let hi := Z.shiftr (b2z b) 4 in let lo := Z.land (b2z b) 15 in
  0 <= hi < 16 /\ 0 <= lo < 16 /\ z2b (Z.lor (Z.shiftl hi 4) lo) = b.
Proof.
  simpl. pose proof (b2z_range b). rewrite Z.shiftr_div_pow2, Z.shiftl_mul_pow2 by lia.
  change 15 with (Z.ones 4). rewrite Z.land_ones by lia. change (2 ^ 4) with 16.
  split; [Z.div_mod_to_equations; lia|]. split; [apply Z.mod_pos_bound; lia|].
  rewrite <-(z2b_b2z b) at 3. f_equal.
  assert (Z.land (b2z b / 16 * 16) (b2z b mod 16) = 0) as E.
  { apply Z.bits_inj'. intros n Hn. rewrite Z.land_spec, Z.bits_0. change 16 with (2 ^ 4).
    destruct (Z.lt_ge_cases n 4).
    - by rewrite Z.mul_pow2_bits_low by lia.
    - rewrite Z.mod_pow2_bits_high by lia. apply andb_false_r. }
  rewrite <-Z.lxor_lor, <-Z.add_nocarry_lxor by done. Z.div_mod_to_equations; lia.
Qed.

Lemma decode_pairs_digits data : decode_pairs (mjoin (byte_digits <$> data)) = Ok data.
Proof.
  induction data as [|b data IH]; [done|]. destruct (byte_nibbles b) as (Hh & Hl & Hb).
  rewrite fmap_cons. simpl. unfold DecodeNibble.
  rewrite (hex_char_decode _ _ Hh), (hex_char_decode _ _ Hl). simpl. rewrite IH. simpl. by rewrite Hb.
Qed.

Lemma digits_length data : length (mjoin (byte_digits <$> data)) = (2 * length data)%nat.
Proof. induction data as [|b data IH]; [done|]. rewrite fmap_cons. simpl. rewrite IH. lia. Qed.

Lemma strip_0x_byte_digits data :
  strip_0x (mjoin (byte_digits <$> data)) = mjoin (byte_digits <$> data).
Proof.
  destruct data as [|b data]; [done|]. rewrite fmap_cons. destruct (byte_nibbles b) as (_ & Hl & _).
  destruct (hex_char_not_x _ Hl) as [H1 H2]. simpl.
  rewrite (bool_decide_eq_false_2 (_ = "x"%char)), (bool_decide_eq_false_2 (_ = "X"%char)) by done.
  by rewrite andb_false_r.
Qed.

Lemma Encode_chars data p :
  strip_0x (chars (EncodeBuffer data p)) = mjoin (byte_digits <$> data).
Proof.
  unfold EncodeBuffer. destruct p.
  - change (chars (String.append "0x" ?s)) with ("0"%char :: "x"%char :: chars s).
    by rewrite strip_0x_prefixed, chars_unchars.
  - change (String.append "" ?s) with s. by rewrite chars_unchars, strip_0x_byte_digits.
Qed.

Lemma Decode_EncodeBuffer data p : Decode (EncodeBuffer data p) = Ok data.
Proof.
  unfold Decode. rewrite Encode_chars, digits_length.
  replace (Z.of_nat (2 * length data) mod 2) with 0; [apply decode_pairs_digits|].
  rewrite Nat2Z.inj_mul, Z.mul_comm. by rewrite Z.mod_mul.
Qed.

Lemma Decode_Encode data p : Decode (Encode data p) = Ok data.
Proof. apply Decode_EncodeBuffer. Qed.

Lemma Encode_inj d1 d2 p : Encode d1 p = Encode d2 p -> d1 = d2.
Proof.
  intros H. assert (Decode (Encode d1 p) = Ok d2) as E by (rewrite H; apply Decode_Encode).
  rewrite Decode_Encode in E. by injection E.
Qed.

Lemma parse_hash_Encode msg (h : Hash256) p : parse_hash msg (EncodeArray h p) = Ok h.
Proof.
  unfold parse_hash, EncodeArray. rewrite Decode_EncodeBuffer. simpl.
  rewrite array_length. rewrite bool_decide_eq_true_2 by done. simpl. by rewrite array_copy_id.
Qed.

Lemma AddressFromHex_ToHex a p : AddressFromHex (AddressToHex a p) = Ok a.
Proof.
  unfold AddressFromHex, AddressToHex, EncodeArray. rewrite Decode_EncodeBuffer. simpl.
  rewrite array_length. rewrite bool_decide_eq_true_2 by done. simpl. by rewrite array_copy_id.
Qed.

Lemma AddressToHex_inj a b p : AddressToHex a p = AddressToHex b p -> a = b.
Proof. intros H. apply array_eq. by apply (Encode_inj _ _ p). Qed.

(** Whether every character is a hexadecimal digit. *)
Definition is_hex (c : ascii) : Prop := exists i, DecodeNibble c = Ok i.

Lemma decode_pairs_Ok l :
  Forall is_hex l -> exists bytes, decode_pairs l = Ok bytes /\ length bytes = (length l / 2)%nat.
Proof.
  induction l as [|c|c d l IH] using list_pair_ind; intros H; [by exists []|by exists []|].
  apply Forall_cons in H as [[i Hi] H]. apply Forall_cons in H as [[j Hj] H].
  destruct (IH H) as (bytes & Hb & HL).
  exists (z2b (Z.lor (Z.shiftl i 4) j) :: bytes). split.
  - simpl. rewrite Hi, Hj. simpl. by rewrite Hb.
  - change (length (c :: d :: l)) with (1 * 2 + length l)%nat.
    rewrite Nat.div_add_l, <-HL by lia. done.
Qed.

Lemma decode_pairs_inv l bytes :
  Nat.Even (length l) -> decode_pairs l = Ok bytes -> Forall is_hex l.
Proof.
  revert bytes. induction l as [|c|c d l IH] using list_pair_ind; intros bytes He H; [done|..].
  - destruct He as [n Hn]. simpl in Hn. lia.
  - simpl in H. invert_bind. repeat constructor; [by eexists|by eexists|].
    eapply IH; [|done]. destruct He as [n Hn]. simpl in Hn. exists (n - 1)%nat. lia.
Qed.

(** ** Properties *)

(** Decoding inverts encoding for every byte string, with or without the prefix;
    and [Decode] succeeds exactly when what follows an optional [0x] is an even number
    of hexadecimal digits, giving one byte per two digits. *)
Theorem hex_round_trip (data : Bytes) (p : bool) (s : string) :
  Decode (Encode data p) = Ok data
  /\ (is_ok (Decode s) = true <->
        Nat.Even (length (strip_0x (chars s))) /\ Forall is_hex (strip_0x (chars s)))
  /\ (forall bytes, Decode s = Ok bytes -> length bytes = (length (strip_0x (chars s)) / 2)%nat).
Proof.
  split; [apply Decode_Encode|]. unfold Decode. set (l := strip_0x (chars s)).
  destruct (Z.eqb_spec (Z.of_nat (length l) mod 2) 0) as [E|E]; simpl.
  - assert (Nat.Even (length l)) as He.
    { exists (length l / 2)%nat. apply Z.div_exact in E; [|done]. apply Nat2Z.inj.
      by rewrite Nat2Z.inj_mul, Nat2Z.inj_div. }
    split.
    + split; [|intros [_ H]; by destruct (decode_pairs_Ok l H) as (b & -> & _)].
      destruct (decode_pairs l) eqn:D; [|done]. intros _. split; [done|].
      by eapply decode_pairs_inv.
    + intros bytes D. destruct (decode_pairs_Ok l) as (b & D' & HL).
      { by eapply decode_pairs_inv. } rewrite D in D'. by injection D' as <-.
  - split; [|done]. split; [done|]. intros [[n Hn] _]. exfalso. apply E. rewrite Hn.
    rewrite Nat2Z.inj_mul, Z.mul_comm. by rewrite Z.mod_mul.
Qed.

(** An address read back from its text is that address, two addresses with the same
    text are equal, and [AddressFromHex] accepts only 20-byte strings. *)
Theorem address_round_trip (a b : Address) (p : bool) (s : string) :
  AddressFromHex (AddressToHex a p) = Ok a
  /\ (AddressToHex a p = AddressToHex b p -> a = b)
  /\ (forall c, AddressFromHex s = Ok c -> Decode s = Ok (array_list c)).
Proof.
  split; [apply AddressFromHex_ToHex|]. split; [apply AddressToHex_inj|].
  intros c. unfold AddressFromHex. destruct (Decode s) as [l|]; [|done]. simpl.
  case_bool_decide as E; simpl; [|done]. intros [= <-]. by rewrite array_copy_list.
Qed.
