(* ===== verification/Event.v ===== *)
(** * Event: the envelope of the events on the queue ([Event.hpp], [Event.cpp])

    [Serialize] and [Deserialize] around the text of a JSON value.  Every event the services
    write has ASCII texts and a payload in normal form; such an event reads back as it was. *)

From Stdlib Require Import Ascii.
From S2P Require Import Prelude Text Json Uint256 Hex.
Set Default Goal Selector "!".
#[local] Open Scope Z_scope.

Definition CHAIN_BLOCK_PROCESSED : string := "chain.block.processed".
Definition CHAIN_REORG : string := "chain.reorg".
Definition RISK_LIQUIDATION_DETECTED : string := "risk.liquidation.detected".

Record EventEnvelope := MkEventEnvelope {
  ee_eventId : string;
  ee_eventType : string;
  ee_aggregateId : string;
  ee_chainId : Uint256;
  ee_blockNumber : Z;
  ee_blockHash : Hash256;
  ee_transactionHash : option Hash256;
  ee_logIndex : option Z;
  ee_canonicalVersion : Z;
  ee_createdAt : Z;
  ee_payload : json
}.

Definition EventParseHash (value : string) : result Hash256 :=
  parse_hash "event hash must contain 32 bytes" value.

(** The object [Serialize] builds. *)
Definition event_json (event : EventEnvelope) : json := JObject (
  [("aggregateId", JString (ee_aggregateId event));
   ("blockHash", JString (EncodeArray (ee_blockHash event) true));
   ("blockNumber", JNumber (ee_blockNumber event));
   ("canonicalVersion", JNumber (ee_canonicalVersion event));
   ("chainId", JString (ToDecimal (ee_chainId event)));
   ("createdAt", JNumber (ee_createdAt event));
   ("eventId", JString (ee_eventId event));
   ("eventType", JString (ee_eventType event))]
  ++ match ee_logIndex event with Some i => [("logIndex", JNumber i)] | None => [] end
  ++ [("payload", ee_payload event)]
  ++ match ee_transactionHash event with
     | Some h => [("transactionHash", JString (EncodeArray h true))]
     | None => []
     end).

(** [json.at(key).get<std::string>()] and [json.at(key).get<std::uint64_t>()] *)
Definition string_member (key : string) (value : json) : result string :=
  member ← json_at key value; get_string member.
Definition uint64_member (key : string) (value : json) : result Z :=
  member ← json_at key value; get_uint64 member.

Definition hash_member (key : string) (value : json) : result Hash256 :=
  text ← string_member key value; EventParseHash text.

Section Text.
Context `{JsonText}.

Definition Serialize (event : EventEnvelope) : result string := dump (event_json event).

Definition event_of_json (value : json) : result EventEnvelope :=
  eventId ← string_member "eventId" value;
  eventType ← string_member "eventType" value;
  aggregateId ← string_member "aggregateId" value;
  chainText ← string_member "chainId" value;
  chainId ← FromDecimal chainText;
  blockNumber ← uint64_member "blockNumber" value;
  blockHash ← hash_member "blockHash" value;
  canonicalVersion ← uint64_member "canonicalVersion" value;
  createdAt ← uint64_member "createdAt" value;
  payload ← json_at "payload" value;
  transactionHash ← (if json_contains "transactionHash" value
                     then Some <$> hash_member "transactionHash" value else Ok None);
  logIndex ← (if json_contains "logIndex" value
              then Some <$> uint64_member "logIndex" value else Ok None);
  Ok (MkEventEnvelope eventId eventType aggregateId chainId blockNumber blockHash transactionHash
        logIndex canonicalVersion createdAt payload).

Definition Deserialize (text : string) : result EventEnvelope :=
  value ← parse text; event_of_json value.
End Text.

(** ** Plain texts *)

Lemma plain_app s1 s2 : plain (s1 +:+ s2) = plain s1 && plain s2.
Proof.
  unfold plain, chars. induction s1 as [|c s1 IH]; [done|].
  change (String c s1 +:+ s2) with (String c (s1 +:+ s2)). cbn [String.list_ascii_of_string forallb].
  by rewrite IH, andb_assoc.
Qed.

Lemma plain_unchars l : Forall (fun c => ascii_z c < 128) l -> plain (unchars l) = true.
Proof.
  intros Hl. unfold plain. rewrite chars_unchars. apply forallb_forall. intros c Hc%list_elem_of_In.
  rewrite list.Forall_forall in Hl. apply Z.ltb_lt. by apply Hl.
Qed.

Lemma hex_char_plain i : ascii_z (hex_char i) < 128.
Proof.
  unfold hex_char. destruct (_ !! _) as [c|] eqn:E; [|done].
  apply list_elem_of_lookup_2 in E. revert c E. apply list.Forall_forall. by repeat constructor.
Qed.

Lemma plain_Encode data p : plain (EncodeBuffer data p) = true.
Proof.
  unfold EncodeBuffer. change String.append with String.app. rewrite plain_app.
  apply andb_true_intro. split; [by destruct p|]. apply plain_unchars.
  induction data as [|b data IH]; [constructor|]. rewrite fmap_cons. cbn [mjoin list_join].
  unfold byte_digits at 1. cbn [app]. repeat constructor; [apply hex_char_plain..|exact IH].
Qed.

Lemma plain_ToDecimal x : plain (ToDecimal x) = true.
Proof.
  destruct (ToDecimal_digits x) as (_ & H & _). rewrite <-(unchars_chars (ToDecimal x)).
  apply plain_unchars. eapply Forall_impl; [exact H|]. unfold is_digit. intros c. simpl. lia.
Qed.

(** ** Round trip *)

Definition uint64 (z : Z) : Prop := 0 <= z < 2 ^ 64.

(** An event with ASCII texts, members of their widths and a payload in normal form. *)
Record event_wf (e : EventEnvelope) : Prop := {
  wf_eventId : plain (ee_eventId e) = true;
  wf_eventType : plain (ee_eventType e) = true;
  wf_aggregateId : plain (ee_aggregateId e) = true;
  wf_blockNumber : uint64 (ee_blockNumber e);
  wf_logIndex : forall i, ee_logIndex e = Some i -> uint64 i;
  wf_canonicalVersion : uint64 (ee_canonicalVersion e);
  wf_createdAt : uint64 (ee_createdAt e);
  wf_payload : json_normal (ee_payload e) = true
}.

Lemma number_normal z : uint64 z -> json_normal (JNumber z) = true.
Proof. unfold uint64. cbn [json_normal]. intros ?. apply andb_true_intro. lia. Qed.

Lemma event_json_normal e : event_wf e -> json_normal (event_json e) = true.
Proof.
  intros []. unfold event_json. cbn [json_normal]. apply andb_true_intro. split.
  { by destruct (ee_logIndex e), (ee_transactionHash e). }
  rewrite !forallb_app. cbn [forallb fst snd].
  rewrite !number_normal by done. cbn [json_normal].
  rewrite wf_eventId0, wf_eventType0, wf_aggregateId0, wf_payload0, plain_ToDecimal.
  unfold EncodeArray. rewrite plain_Encode.
  destruct (ee_logIndex e), (ee_transactionHash e); cbn [forallb fst snd]; rewrite ?number_normal by eauto;
    cbn [json_normal]; rewrite ?plain_Encode; done.
Qed.

Lemma u64_uint64 z : uint64 z -> u64 z = z.
Proof. apply u64_small. Qed.

Lemma event_of_json_inverse e : event_wf e -> event_of_json (event_json e) = Ok e.
Proof.
  intros []. unfold event_of_json, string_member, uint64_member, hash_member, string_member, event_json.
  destruct e as [eid ety agg cid bn bh th li cv ca pl]. cbn in *.
  destruct li as [i|], th as [h|]; cbn -[ToDecimal EncodeArray EventParseHash u64];
    rewrite FromDecimal_ToDecimal; cbn -[ToDecimal EncodeArray EventParseHash u64];
    unfold EventParseHash; rewrite !parse_hash_Encode; cbn -[u64];
    rewrite !u64_uint64 by eauto; done.
Qed.

(** An event with ASCII texts, members that fit in their types and a payload in normal
    form has a serialisation, and [Deserialize] gives the event back from it. *)
Theorem event_round_trip `{LawfulJsonText} (e : EventEnvelope) :
  event_wf e -> exists text, Serialize e = Ok text /\ Deserialize text = Ok e.
Proof.
  intros Hwf. destruct (parse_dump (event_json e) (event_json_normal e Hwf)) as (text & Ed & Ep).
  exists text. split; [done|]. unfold Deserialize. rewrite Ep. mstep. by apply event_of_json_inverse.
Qed.

(** A reorganisation event with a transaction hash and a log index. *)
Definition sample_event : EventEnvelope := MkEventEnvelope "chain.reorg:1:7" CHAIN_REORG "chain:1" (U 1) 12
  (array_copy 32 (be_bytes 32 12)) (Some (array_copy 32 (be_bytes 32 5))) (Some 3) 7 1700000000
  (JObject [("ancestorBlockHash", JArray [JNull]); ("ancestorBlockNumber", JNumber 0)]).

Lemma sample_event_wf : event_wf sample_event.
Proof. split; try reflexivity; unfold uint64; cbn; try lia. intros i [= <-]. lia. Qed.

Lemma event_round_trip_witness :
  exists text, @Serialize coded_json sample_event = Ok text /\ @Deserialize coded_json text = Ok sample_event.
Proof. exact (@event_round_trip coded_json coded_json_lawful sample_event sample_event_wf). Defined.
