(* ===== verification/Rlp.v ===== *)
(** * Rlp: recursive length prefix encoding ([Rlp.cpp])

    The encoder of the sources and a reader of the format, which shows that an encoding
    determines what was encoded even when other bytes follow it. *)

From S2P Require Import Prelude Text Uint256 Hex.
Set Default Goal Selector "!".
#[local] Open Scope Z_scope.

(** The [while(length != 0U)] loop of [LengthBytes]; a [std::size_t] has eight bytes. *)
Fixpoint length_loop (fuel : nat) (length : Z) (result : Bytes) : Bytes :=
  match fuel with
  | O => result
  | S fuel' =>
      if length =? 0 then result
      else length_loop fuel' (Z.shiftr length 8) (result ++ [z2b (Z.land length 255)])
  end.

Definition LengthBytes (length : Z) : Bytes := reverse (length_loop 8 length []).

Definition EncodePayload (payload : Bytes) (shortOffset longOffset : Z) : Bytes :=
  let size := Z.of_nat (length payload) in
  if size <=? 55 then z2b (shortOffset + size) :: payload
  else
    let len := LengthBytes size in
    z2b (longOffset + Z.of_nat (length len)) :: len ++ payload.

Definition EncodeBytes (value : Bytes) : Bytes :=
  match value with
  | [b] => if b2z b <? 128 then [b] else EncodePayload value 128 183
  | _ => EncodePayload value 128 183
  end.

(** [std::find_if] for the first non-zero byte, up to the end of the array. *)
Fixpoint from_first_nonzero (l : Bytes) : Bytes :=
  match l with
  | [] => []
  | b :: l' => if negb (b2z b =? 0) then l else from_first_nonzero l'
  end.

Definition EncodeUint256 (value : Uint256) : Bytes :=
  if IsZero value then EncodeBytes []
  else EncodeBytes (from_first_nonzero (array_list (ToBytes value))).

Definition EncodeList (encodedItems : list Bytes) : Bytes :=
  EncodePayload (mjoin encodedItems) 192 247.

(** ** Reading the format *)

(** Splits off [n] bytes. *)
Definition split_bytes (n : Z) (l : Bytes) : option (Bytes * Bytes) :=
  if Z.of_nat (length l) <? n then None else Some (take (Z.to_nat n) l, drop (Z.to_nat n) l).

(** A prefix at [shortOffset], [longOffset]: the payload and what follows it. *)
Definition read_payload (shortOffset longOffset : Z) (l : Bytes) : option (Bytes * Bytes) :=
  match l with
  | [] => None
  | b :: l' =>
      let p := b2z b in
      if (shortOffset <=? p) && (p <=? shortOffset + 55) then split_bytes (p - shortOffset) l'
      else if (longOffset <? p) && (p <=? longOffset + 8) then
        '(len, l'') ← split_bytes (p - longOffset) l'; split_bytes (be_value len) l''
      else None
  end.

Definition read_bytes (l : Bytes) : option (Bytes * Bytes) :=
  match l with
  | [] => None
  | b :: l' => if b2z b <? 128 then Some ([b], l') else read_payload 128 183 l
  end.

Definition read_list (l : Bytes) : option (Bytes * Bytes) := read_payload 192 247 l.

Definition read_uint256 (l : Bytes) : option (Uint256 * Bytes) :=
  '(v, l') ← read_bytes l; x ← u256 (be_value v); Some (x, l').

(** ** Lemmas *)

Lemma split_bytes_app a b : split_bytes (Z.of_nat (length a)) (a ++ b) = Some (a, b).
Proof.
  unfold split_bytes. rewrite length_app.
  destruct (Z.ltb_spec (Z.of_nat (length a + length b)) (Z.of_nat (length a))); [lia|].
  rewrite Nat2Z.id. by rewrite take_app_length, drop_app_length.
Qed.

Lemma length_loop_digits fuel n acc :
  0 <= n -> length_loop fuel n acc = acc ++ (z2b <$> digits_rev 256 fuel n).
Proof.
  revert n acc. induction fuel as [|fuel IH]; intros n acc H; simpl; [by rewrite app_nil_r|].
  destruct (Z.eqb_spec n 0); [by rewrite app_nil_r|].
  rewrite Z.shiftr_div_pow2 by lia. change (2 ^ 8) with 256.
  rewrite IH by (apply Z.div_pos; lia). rewrite <-app_assoc. simpl. do 2 f_equal.
  change 255 with (Z.ones 8). by rewrite Z.land_ones by lia.
Qed.

Lemma be_value_digits ds :
  Forall (fun d => 0 <= d < 256) ds -> be_value (z2b <$> ds) = digits_value 256 ds.
Proof.
  induction ds as [|d ds IH] using rev_ind; intros H; [done|].
  apply Forall_app in H as [H1 H2]. inversion H2; subst.
  rewrite fmap_app. simpl. rewrite be_value_snoc, digits_value_snoc, IH, b2z_z2b by done.
  by rewrite Z.mod_small.
Qed.

Lemma LengthBytes_spec n :
  0 < n < 2 ^ 64 -> be_value (LengthBytes n) = n /\ 1 <= Z.of_nat (length (LengthBytes n)) <= 8.
Proof.
  intros H. unfold LengthBytes. rewrite length_loop_digits, app_nil_l, <-fmap_reverse by lia. split.
  - rewrite be_value_digits by (apply Forall_reverse, digits_rev_range; lia).
    apply digits_rev_value; [lia|]. change (256 ^ Z.of_nat 8) with (2 ^ 64). lia.
  - rewrite length_fmap, length_reverse. pose proof (digits_rev_length 256 8 n).
    destruct (digits_rev 256 8 n) eqn:E; [|simpl in *; lia].
    by apply digits_rev_nonempty in E; [|lia|lia].
Qed.

Lemma z2b_in_range z : 0 <= z < 256 -> b2z (z2b z) = z.
Proof. intros. rewrite b2z_z2b. by apply Z.mod_small. Qed.

(** Reading undoes [EncodePayload], whatever follows. *)
Lemma read_EncodePayload payload so lo rest :
  Z.of_nat (length payload) < 2 ^ 64 -> 0 <= so -> lo = so + 55 -> lo + 8 < 256 ->
  read_payload so lo (EncodePayload payload so lo ++ rest) = Some (payload, rest).
Proof.
  intros HL Hs -> Hb. unfold EncodePayload. destruct (Z.leb_spec (Z.of_nat (length payload)) 55).
  - simpl. rewrite z2b_in_range by lia.
    destruct (_ && _) eqn:E; [|lia].
    replace (so + Z.of_nat (length payload) - so) with (Z.of_nat (length payload)) by lia.
    apply split_bytes_app.
  - destruct (LengthBytes_spec (Z.of_nat (length payload)) ltac:(lia)) as [Hv Hl].
    simpl. rewrite z2b_in_range by lia.
    destruct ((so <=? _) && _) eqn:E; [lia|]. clear E.
    destruct ((so + 55 <? _) && _) eqn:E; [|lia]. clear E.
    replace (so + 55 + Z.of_nat (length (LengthBytes (Z.of_nat (length payload)))) - (so + 55))
      with (Z.of_nat (length (LengthBytes (Z.of_nat (length payload))))) by lia.
    rewrite <-app_assoc, split_bytes_app. simpl. rewrite Hv. apply split_bytes_app.
Qed.

Lemma EncodePayload_first payload so lo rest :
  Z.of_nat (length payload) < 2 ^ 64 -> 0 <= so -> lo = so + 55 -> lo + 8 < 256 ->
  exists b l, EncodePayload payload so lo ++ rest = b :: l /\ so <= b2z b <= lo + 8.
Proof.
  intros HL Hs -> Hb. unfold EncodePayload. destruct (Z.leb_spec (Z.of_nat (length payload)) 55).
  - do 2 eexists. split; [done|]. rewrite z2b_in_range by lia. lia.
  - destruct (LengthBytes_spec (Z.of_nat (length payload)) ltac:(lia)) as [Hv Hl].
    do 2 eexists. split; [done|]. rewrite z2b_in_range by lia. lia.
Qed.

Lemma read_EncodeBytes v rest :
  Z.of_nat (length v) < 2 ^ 64 -> read_bytes (EncodeBytes v ++ rest) = Some (v, rest).
Proof.
  intros HL.
  assert (read_bytes (EncodePayload v 128 183 ++ rest) = Some (v, rest)) as HP.
  { destruct (EncodePayload_first v 128 183 rest) as (b & l & E & Hr); [lia..|].
    rewrite E. unfold read_bytes. destruct (Z.ltb_spec (b2z b) 128); [lia|].
    rewrite <-E. apply read_EncodePayload; lia. }
  unfold EncodeBytes. destruct v as [|b [|]]; try done.
  destruct (Z.ltb_spec (b2z b) 128); [|done]. simpl.
  by destruct (Z.ltb_spec (b2z b) 128); [|lia].
Qed.

Lemma read_EncodeList items rest :
  Z.of_nat (length (mjoin items)) < 2 ^ 64 ->
  read_list (EncodeList items ++ rest) = Some (mjoin items, rest).
Proof. intros. apply read_EncodePayload; lia. Qed.

Lemma from_first_nonzero_value l : be_value (from_first_nonzero l) = be_value l.
Proof.
  induction l as [|b l IH]; [done|]. simpl. destruct (Z.eqb_spec (b2z b) 0) as [E|]; simpl; [|done].
  by rewrite IH, be_value_cons, E.
Qed.

Lemma from_first_nonzero_length l : (length (from_first_nonzero l) <= length l)%nat.
Proof. induction l as [|b l IH]; simpl; [lia|]. destruct (_ =? _); simpl; lia. Qed.

Lemma read_EncodeUint256 x rest : read_uint256 (EncodeUint256 x ++ rest) = Some (x, rest).
Proof.
  unfold read_uint256, EncodeUint256, IsZero. destruct (Z.eqb_spec (value_ x) 0) as [E|E].
  - rewrite read_EncodeBytes by done. simpl. do 2 f_equal. apply uval_inj. by rewrite E.
  - pose proof (from_first_nonzero_length (array_list (ToBytes x))) as HL.
    rewrite array_length in HL. rewrite read_EncodeBytes by lia. cbn [mbind option_bind].
    rewrite from_first_nonzero_value, ToBytes_value.
    by rewrite (proj2 (u256_Some (value_ x) x) eq_refl).
Qed.

Lemma EncodeBytes_length v :
  Z.of_nat (length v) < 2 ^ 64 -> (length (EncodeBytes v) <= 9 + length v)%nat.
Proof.
  intros HL. assert (length (EncodePayload v 128 183) <= 9 + length v)%nat as HP.
  { unfold EncodePayload. destruct (Z.leb_spec (Z.of_nat (length v)) 55); simpl; [lia|].
    rewrite length_app. pose proof (LengthBytes_spec (Z.of_nat (length v)) ltac:(lia)). lia. }
  unfold EncodeBytes. destruct v as [|b [|]]; try done. destruct (_ <? _); simpl in *; lia.
Qed.

Lemma EncodeUint256_length x : (length (EncodeUint256 x) <= 41)%nat.
Proof.
  unfold EncodeUint256. destruct (IsZero x); [vm_compute; lia|].
  pose proof (from_first_nonzero_length (array_list (ToBytes x))) as HL.
  rewrite array_length in HL.
  pose proof (EncodeBytes_length (from_first_nonzero (array_list (ToBytes x))) ltac:(lia)). lia.
Qed.

(** ** Properties *)

(** RLP encodings are self-delimiting: a byte string, an integer or a list (of
    less than 2^64 bytes) encoded by the sources is read back exactly, and the bytes
    that follow it are left untouched. *)
Theorem rlp_self_delimiting v x items rest :
  Z.of_nat (length v) < 2 ^ 64 -> Z.of_nat (length (mjoin items)) < 2 ^ 64 ->
  read_bytes (EncodeBytes v ++ rest) = Some (v, rest)
  /\ read_uint256 (EncodeUint256 x ++ rest) = Some (x, rest)
  /\ read_list (EncodeList items ++ rest) = Some (mjoin items, rest).
Proof.
  intros Hv Hi. split; [by apply read_EncodeBytes|].
  split; [apply read_EncodeUint256 | by apply read_EncodeList].
Qed.

Lemma rlp_self_delimiting_witness :
  read_bytes (EncodeBytes (replicate 60 x07) ++ [x01]) = Some (replicate 60 x07, [x01])
  /\ read_uint256 (EncodeUint256 (U 1024) ++ [x01]) = Some (U 1024, [x01])
  /\ read_list (EncodeList [EncodeBytes [x05]; EncodeBytes []] ++ [x01]) = Some ([x05; x80], [x01]).
Proof.
  exact (rlp_self_delimiting (replicate 60 x07) (U 1024) [EncodeBytes [x05]; EncodeBytes []] [x01]
           eq_refl eq_refl).
Defined.
