(* ===== verification/Transaction.v ===== *)
(** * Transaction: EIP-1559 encoding and signing ([Transaction.cpp])

    Keccak-256 and the secp256k1 library are parameters; the encoder, the split of the
    compact signature and the composition of [SignTransaction] are the sources'. *)

From S2P Require Import Prelude Text Uint256 Hex Rlp.
Set Default Goal Selector "!".
#[local] Open Scope Z_scope.

Record Eip1559Transaction := MkEip1559Transaction {
  tx_chainId : Uint256;
  tx_nonce : Uint256;
  tx_maxPriorityFeePerGas : Uint256;
  tx_maxFeePerGas : Uint256;
  tx_gasLimit : Uint256;
  tx_to : option Address;
  tx_value : Uint256;
  tx_data : Bytes
}.

Record Eip1559Signature := MkEip1559Signature {
  sig_yParity : Uint256;
  sig_r : Uint256;
  sig_s : Uint256
}.

Definition AddressBytes (address : option Address) : Bytes :=
  match address with None => [] | Some a => array_list a end.

Definition UnsignedItems (transaction : Eip1559Transaction) : list Bytes :=
  [ EncodeUint256 (tx_chainId transaction);
    EncodeUint256 (tx_nonce transaction);
    EncodeUint256 (tx_maxPriorityFeePerGas transaction);
    EncodeUint256 (tx_maxFeePerGas transaction);
    EncodeUint256 (tx_gasLimit transaction);
    EncodeBytes (AddressBytes (tx_to transaction));
    EncodeUint256 (tx_value transaction);
    EncodeBytes (tx_data transaction);
    EncodeList [] ].

Definition TypedPayload (items : list Bytes) : Bytes := x02 :: EncodeList items.

Definition EncodeSigningPayload (transaction : Eip1559Transaction) : Bytes :=
  TypedPayload (UnsignedItems transaction).

Definition EncodeSigned (transaction : Eip1559Transaction) (signature : Eip1559Signature) : Bytes :=
  TypedPayload (UnsignedItems transaction ++
    [EncodeUint256 (sig_yParity signature); EncodeUint256 (sig_r signature);
     EncodeUint256 (sig_s signature)]).

(** [std::copy_n] of 32 bytes of the compact signature, then [FromBytes]. *)
Definition Uint256FromSignaturePart (bytes : Bytes) : result Uint256 :=
  FromBytes (array_copy 32 (take 32 bytes)).

Section Signing.
Context (keccak : Bytes -> Hash256).
(** [secp256k1_ecdsa_sign_recoverable] and its compact serialisation: the 64 bytes and the
    recovery id, or failure. *)
Context (sign_recoverable : Hash256 -> option (array 64 * Z)).

Definition SigningHash (transaction : Eip1559Transaction) : Hash256 :=
  keccak (EncodeSigningPayload transaction).

Definition TransactionHash (rawTransaction : Bytes) : Hash256 := keccak rawTransaction.

Definition Sign (hash : Hash256) : result Eip1559Signature :=
  match sign_recoverable hash with
  | None => Throw (RuntimeError "failed to sign transaction hash")
  | Some (compact, recoveryId) =>
      r ← Uint256FromSignaturePart (array_list compact);
      s ← Uint256FromSignaturePart (drop 32 (array_list compact));
      Ok (MkEip1559Signature (U (Z.land recoveryId 1)) r s)
  end.

Definition SignTransaction (transaction : Eip1559Transaction) : result Bytes :=
  signature ← Sign (SigningHash transaction);
  Ok (EncodeSigned transaction signature).
End Signing.

(** ** Reading a transaction *)

Definition read_to (l : Bytes) : option (option Address * Bytes) :=
  '(v, l') ← read_bytes l;
  if decide (v = []) then Some (None, l')
  else a ← mk_array 20 v; Some (Some (a : Address), l').

(** The nine fields of [UnsignedItems], in order. *)
Definition read_fields (l : Bytes) : option (Eip1559Transaction * Bytes) :=
  '(chainId, l) ← read_uint256 l;
  '(nonce, l) ← read_uint256 l;
  '(priority, l) ← read_uint256 l;
  '(maxFee, l) ← read_uint256 l;
  '(gas, l) ← read_uint256 l;
  '(to, l) ← read_to l;
  '(value, l) ← read_uint256 l;
  '(data, l) ← read_bytes l;
  '(_, l) ← read_list l;
  Some (MkEip1559Transaction chainId nonce priority maxFee gas to value data, l).

(** A typed payload: the type byte, one list, nothing after it. *)
Definition read_typed (l : Bytes) : option Bytes :=
  match l with
  | b :: l' => if decide (b = x02) then '(items, rest) ← read_list l';
                 if decide (rest = []) then Some items else None
               else None
  | [] => None
  end.

Definition read_signing_payload (l : Bytes) : option Eip1559Transaction :=
  items ← read_typed l;
  '(tx, rest) ← read_fields items;
  if decide (rest = []) then Some tx else None.

Definition read_signed (l : Bytes) : option (Eip1559Transaction * Eip1559Signature) :=
  items ← read_typed l;
  '(tx, items) ← read_fields items;
  '(y, items) ← read_uint256 items;
  '(r, items) ← read_uint256 items;
  '(s, items) ← read_uint256 items;
  if decide (items = []) then Some (tx, MkEip1559Signature y r s) else None.

(** ** Lemmas *)

Lemma read_to_encoded to rest : read_to (EncodeBytes (AddressBytes to) ++ rest) = Some (to, rest).
Proof.
  unfold read_to. destruct to as [a|]; cbn [AddressBytes].
  - rewrite read_EncodeBytes by (rewrite array_length; lia). cbn [mbind option_bind].
    destruct (decide (array_list a = [])) as [E|_].
    { pose proof (array_length a) as H. rewrite E in H. discriminate. }
    by rewrite mk_array_list.
  - by rewrite read_EncodeBytes.
Qed.

Lemma read_fields_encoded tx rest :
  Z.of_nat (length (tx_data tx)) < 2 ^ 64 ->
  read_fields (mjoin (UnsignedItems tx) ++ rest) = Some (tx, rest).
Proof.
  intros HL. unfold read_fields, UnsignedItems.
  rewrite !mjoin_cons, mjoin_nil, app_nil_r, <-!app_assoc.
  do 5 (rewrite read_EncodeUint256; cbn [mbind option_bind]).
  rewrite read_to_encoded. cbn [mbind option_bind].
  rewrite read_EncodeUint256. cbn [mbind option_bind].
  rewrite read_EncodeBytes by done. cbn [mbind option_bind].
  rewrite read_EncodeList by done. cbn [mbind option_bind]. by destruct tx.
Qed.

Lemma UnsignedItems_length tx :
  Z.of_nat (length (tx_data tx)) < 2 ^ 64 ->
  (length (mjoin (UnsignedItems tx)) <= 300 + length (tx_data tx))%nat.
Proof.
  intros HL. unfold UnsignedItems. rewrite !mjoin_cons, mjoin_nil, !length_app.
  pose proof (EncodeUint256_length (tx_chainId tx)). pose proof (EncodeUint256_length (tx_nonce tx)).
  pose proof (EncodeUint256_length (tx_maxPriorityFeePerGas tx)).
  pose proof (EncodeUint256_length (tx_maxFeePerGas tx)).
  pose proof (EncodeUint256_length (tx_gasLimit tx)). pose proof (EncodeUint256_length (tx_value tx)).
  pose proof (EncodeBytes_length (tx_data tx) HL).
  assert (length (EncodeBytes (AddressBytes (tx_to tx))) <= 29)%nat.
  { destruct (tx_to tx) as [a|]; simpl; [|vm_compute; lia].
    pose proof (EncodeBytes_length (array_list a)) as H'. rewrite array_length in H'. lia. }
  assert (length (EncodeList []) = 1)%nat by done. simpl. lia.
Qed.

Lemma read_typed_encoded items :
  Z.of_nat (length (mjoin items)) < 2 ^ 64 -> read_typed (TypedPayload items) = Some (mjoin items).
Proof.
  intros HL. unfold read_typed, TypedPayload. rewrite decide_True by done.
  rewrite <-(app_nil_r (EncodeList items)), read_EncodeList by done. by cbn.
Qed.

Lemma read_signing_payload_encoded tx :
  Z.of_nat (length (tx_data tx)) < 2 ^ 63 ->
  read_signing_payload (EncodeSigningPayload tx) = Some tx.
Proof.
  intros HL. pose proof (UnsignedItems_length tx ltac:(lia)).
  unfold read_signing_payload, EncodeSigningPayload.
  rewrite read_typed_encoded by lia. cbn [mbind option_bind].
  rewrite <-(app_nil_r (mjoin _)), read_fields_encoded by lia. by cbn.
Qed.

Lemma read_signed_encoded tx sg :
  Z.of_nat (length (tx_data tx)) < 2 ^ 63 -> read_signed (EncodeSigned tx sg) = Some (tx, sg).
Proof.
  intros HL. pose proof (UnsignedItems_length tx ltac:(lia)).
  pose proof (EncodeUint256_length (sig_yParity sg)). pose proof (EncodeUint256_length (sig_r sg)).
  pose proof (EncodeUint256_length (sig_s sg)).
  unfold read_signed, EncodeSigned. rewrite read_typed_encoded.
  2: { rewrite mjoin_app, !mjoin_cons, mjoin_nil, app_nil_r, !length_app. lia. }
  cbn [mbind option_bind]. rewrite mjoin_app, read_fields_encoded by lia. cbn [mbind option_bind].
  rewrite !mjoin_cons, mjoin_nil. do 3 (rewrite read_EncodeUint256; cbn [mbind option_bind]). by destruct sg.
Qed.

(** ** Properties *)

(** Claim C36: the payload that is hashed and signed, and the signed transaction, both
    determine the transaction: every field (and the signature) is recovered from the
    bytes.  Hence two different transactions never share a signing payload. *)
Theorem signing_payload_round_trip tx sg tx' :
  Z.of_nat (length (tx_data tx)) < 2 ^ 63 -> Z.of_nat (length (tx_data tx')) < 2 ^ 63 ->
  read_signing_payload (EncodeSigningPayload tx) = Some tx
  /\ read_signed (EncodeSigned tx sg) = Some (tx, sg)
  /\ (EncodeSigningPayload tx = EncodeSigningPayload tx' -> tx = tx').
Proof.
  intros HL HL'. split; [by apply read_signing_payload_encoded|].
  split; [by apply read_signed_encoded|]. intros H.
  assert (Some tx = Some tx') as E; [|by injection E].
  rewrite <-(read_signing_payload_encoded tx HL), H. by apply read_signing_payload_encoded.
Qed.

Definition sample_transaction : Eip1559Transaction :=
  MkEip1559Transaction (U 31337) (U 7) (U 1) (U (2 * 10 ^ 9)) (U 100000)
    (Some (array_copy 20 [x01; x02])) (U 0) [x01; x02; x03; x04].

Lemma signing_payload_round_trip_witness :
  read_signing_payload (EncodeSigningPayload sample_transaction) = Some sample_transaction
  /\ read_signed (EncodeSigned sample_transaction (MkEip1559Signature (U 1) (U 2) (U 3)))
     = Some (sample_transaction, MkEip1559Signature (U 1) (U 2) (U 3))
  /\ (EncodeSigningPayload sample_transaction = EncodeSigningPayload sample_transaction ->
      sample_transaction = sample_transaction).
Proof.
  exact (signing_payload_round_trip sample_transaction (MkEip1559Signature (U 1) (U 2) (U 3))
           sample_transaction eq_refl eq_refl).
Defined.
