(* ===== verification/Signer.v ===== *)
(** * Signer: the key of the operator ([Transaction.cpp], class [Secp256k1Signer])

    The functions of libsecp256k1 are the class [Secp256k1]; what the signer relies on is that
    a public key is recovered from a signature ([LawfulSecp256k1]).  The recovery is what every node does
    with a transaction: it finds the address of the signer, unless the recovery id is 2 or 3,
    of which [Sign] keeps the parity only. *)

From S2P Require Import Prelude Text Uint256 Hex Rlp Transaction.
Set Default Goal Selector "!".
#[local] Open Scope Z_scope.

(** ** The library *)

Class Secp256k1 := {
  secp256k1_pubkey : Type;
  ec_seckey_verify : array 32 -> bool;
  ec_pubkey_create : array 32 -> option secp256k1_pubkey;
  (** [ec_pubkey_serialize] with [SECP256K1_EC_UNCOMPRESSED] *)
  ec_pubkey_serialize : secp256k1_pubkey -> option (array 65);
  (** [ecdsa_sign_recoverable] and [serialize_compact]: 64 bytes and the recovery id *)
  ecdsa_sign_recoverable : Hash256 -> array 32 -> option (array 64 * Z);
  ecdsa_recover : Hash256 -> array 64 -> Z -> option secp256k1_pubkey
}.

Class LawfulSecp256k1 `{Secp256k1} := {
  law_recover hash key public compact id :
    ec_pubkey_create key = Some public -> ecdsa_sign_recoverable hash key = Some (compact, id) ->
    ecdsa_recover hash compact id = Some public;
  law_recovery_id hash key compact id : ecdsa_sign_recoverable hash key = Some (compact, id) -> 0 <= id < 4
}.

Section Signer.
Context `{Secp256k1} (keccak : Bytes -> Hash256).

(** ** The code *)

Record Secp256k1Signer := MkSecp256k1Signer {
  privateKey_ : array 32;
  address_ : Address
}.

(** The last twenty bytes of the hash of the key, without the byte in front of it. *)
Definition public_key_address (serialized : array 65) : Address :=
  let publicKeyBody := drop 1 (array_list serialized) in
  let hash := array_list (keccak publicKeyBody) in
  array_copy 20 (drop (length hash - 20) hash).

(** The constructor. *)
Definition CreateSigner (privateKeyHex : string) : result Secp256k1Signer :=
  decoded ← Decode privateKeyHex;
  if negb (bool_decide (length decoded = 32%nat))
  then Throw (InvalidArgument "private key must contain exactly 32 bytes")
  else
    let privateKey := array_copy 32 decoded in
    if negb (ec_seckey_verify privateKey)
    then Throw (InvalidArgument "private key is outside the secp256k1 scalar range")
    else
      publicKey ← result_of (ec_pubkey_create privateKey) (RuntimeError "failed to derive secp256k1 public key");
      serialized ← result_of (ec_pubkey_serialize publicKey) (RuntimeError "failed to serialize secp256k1 public key");
      Ok (MkSecp256k1Signer privateKey (public_key_address serialized)).

Definition GetAddress (signer : Secp256k1Signer) : Address := address_ signer.

Definition SignerSign (signer : Secp256k1Signer) (hash : Hash256) : result Eip1559Signature :=
  Sign (fun hash => ecdsa_sign_recoverable hash (privateKey_ signer)) hash.

Definition SignerSignTransaction (signer : Secp256k1Signer) (transaction : Eip1559Transaction) : result Bytes :=
  SignTransaction keccak (fun hash => ecdsa_sign_recoverable hash (privateKey_ signer)) transaction.

(** ** The sender of a transaction, as a node computes it *)

Definition compact_signature (signature : Eip1559Signature) : option (array 64) :=
  mk_array 64 (array_list (ToBytes (sig_r signature)) ++ array_list (ToBytes (sig_s signature))).

(** The owner of a compact signature of the transaction with the recovery id [id]. *)
Definition recovered_sender (transaction : Eip1559Transaction) (compact : array 64) (id : Z) : option (Address * Eip1559Transaction) :=
  publicKey ← ecdsa_recover (SigningHash keccak transaction) compact id;
  serialized ← ec_pubkey_serialize publicKey;
  Some (public_key_address serialized, transaction).

Definition sender (raw : Bytes) : option (Address * Eip1559Transaction) :=
  '(transaction, signature) ← read_signed raw;
  compact ← compact_signature signature;
  recovered_sender transaction compact (value_ (sig_yParity signature)).

(** ** Properties *)

Lemma split_signature (compact : array 64) id r s :
  Uint256FromSignaturePart (array_list compact) = Ok r ->
  Uint256FromSignaturePart (drop 32 (array_list compact)) = Ok s ->
  compact_signature (MkEip1559Signature id r s) = Some compact.
Proof using.
  pose proof (array_length compact) as HL. unfold Uint256FromSignaturePart. rewrite !FromBytes_value. intros Er Es.
  apply Ok_inj in Er as <-. apply Ok_inj in Es as <-.
  unfold compact_signature. cbn [sig_r sig_s]. rewrite !ToBytes_U_be_value, !array_copy_list.
  - apply mk_array_Some. rewrite (take_ge (drop 32 _)), take_drop; [done|]. rewrite length_drop. lia.
  - rewrite length_take, length_drop. lia.
  - rewrite length_take. lia.
Qed.

Lemma signer_key text signer : CreateSigner text = Ok signer ->
  exists public serialized, ec_pubkey_create (privateKey_ signer) = Some public
    /\ ec_pubkey_serialize public = Some serialized /\ address_ signer = public_key_address serialized.
Proof using.
  unfold CreateSigner, result_of. intros E. apply bind_Ok_inv in E as (decoded & _ & E).
  case_bool_decide; [|done]. cbn [negb] in E. destruct (ec_seckey_verify _); [|done]. cbn [negb] in E.
  destruct (ec_pubkey_create _) as [public|] eqn:Ep; [|done]. rewrite bind_Ok in E.
  destruct (ec_pubkey_serialize public) as [serialized|] eqn:Es; [|done]. rewrite bind_Ok in E. injection E as <-.
  by exists public, serialized.
Qed.

(** A signed transaction carries a signature of its signing hash under the key; the sender is
    recovered with the parity of the recovery id. *)
Lemma sender_signed `{!LawfulSecp256k1} text signer transaction raw :
  CreateSigner text = Ok signer -> Z.of_nat (length (tx_data transaction)) < 2 ^ 63 ->
  SignerSignTransaction signer transaction = Ok raw ->
  exists compact id, ecdsa_sign_recoverable (SigningHash keccak transaction) (privateKey_ signer) = Some (compact, id)
    /\ 0 <= id < 4
    /\ sender raw = if id <? 2 then Some (GetAddress signer, transaction) else recovered_sender transaction compact (id - 2).
Proof using.
  intros (public & serialized & Ep & Es & Ea)%signer_key HL E. unfold SignerSignTransaction, SignTransaction in E.
  apply bind_Ok_inv in E as (sg & Esg & E). injection E as <-. unfold Sign in Esg.
  destruct (ecdsa_sign_recoverable _ _) as [[compact id]|] eqn:Ec; [|done].
  apply bind_Ok_inv in Esg as (r & Er & Esg). apply bind_Ok_inv in Esg as (s & Es' & Esg). injection Esg as <-.
  pose proof (law_recovery_id _ _ _ _ Ec). exists compact, id. split; [done|]. split; [done|].
  unfold sender. rewrite read_signed_encoded by done. cbn [mbind option_bind].
  rewrite (split_signature compact _ r s Er Es'). cbn [mbind option_bind sig_yParity]. destruct (Z.ltb_spec id 2).
  - assert (value_ (U (Z.land id 1)) = id) as ->.
    { assert (id = 0 \/ id = 1) as [-> | ->] by lia; by rewrite U_value. }
    unfold recovered_sender. rewrite (law_recover _ _ _ _ _ Ep Ec). cbn [mbind option_bind]. rewrite Es.
    cbn [mbind option_bind]. unfold GetAddress. by rewrite Ea.
  - assert (value_ (U (Z.land id 1)) = id - 2) as ->; [|done].
    assert (id = 2 \/ id = 3) as [-> | ->] by lia; by rewrite U_value.
Qed.
End Signer.

(** ** A library for the witnesses: the signature shows the key *)

Definition glass_secp256k1 : Secp256k1 := {|
  secp256k1_pubkey := array 32;
  ec_seckey_verify _ := true;
  ec_pubkey_create := Some;
  ec_pubkey_serialize public := Some (array_copy 65 (x04 :: array_list public));
  ecdsa_sign_recoverable hash key := Some (array_copy 64 (array_list key ++ array_list hash), 1);
  ecdsa_recover hash compact id := Some (array_copy 32 (array_list compact))
|}.

Lemma shown_key (key hash : array 32) : array_copy 32 (array_list (array_copy 64 (array_list key ++ array_list hash))) = key.
Proof.
  apply array_eq. pose proof (array_length key). pose proof (array_length hash).
  rewrite (array_copy_list 64) by (rewrite length_app; lia).
  unfold array_copy. cbn [array_list]. rewrite <-app_assoc, take_app_le by lia. apply take_ge. lia.
Qed.

Lemma glass_lawful : @LawfulSecp256k1 glass_secp256k1.
Proof.
  split.
  - intros hash key public compact id [= <-] [= <- <-]. cbn [ecdsa_recover glass_secp256k1]. by rewrite shown_key.
  - intros hash key compact id [= <- <-]. lia.
Qed.

(** The same library, but for a recovery id of 2, under which alone the key is found: a lawful
    library, by which the operator's transaction is another's. *)
Definition overflow_secp256k1 : Secp256k1 := {|
  secp256k1_pubkey := array 32;
  ec_seckey_verify _ := true;
  ec_pubkey_create := Some;
  ec_pubkey_serialize public := Some (array_copy 65 (x04 :: array_list public));
  ecdsa_sign_recoverable hash key := Some (array_copy 64 (array_list key ++ array_list hash), 2);
  ecdsa_recover hash compact id := Some (array_copy 32 (if id =? 2 then array_list compact else []))
|}.

Lemma overflow_lawful : @LawfulSecp256k1 overflow_secp256k1.
Proof.
  split.
  - intros hash key public compact id [= <-] [= <- <-]. cbn [ecdsa_recover overflow_secp256k1 Z.eqb Pos.eqb]. by rewrite shown_key.
  - intros hash key compact id [= <- <-]. lia.
Qed.

Lemma overflow_sender : exists signer raw,
  @CreateSigner overflow_secp256k1 (array_copy 32) "0x0102030405060708090a0b0c0d0e0f101112131415161718191a1b1c1d1e1f20" = Ok signer
  /\ @SignerSignTransaction overflow_secp256k1 (array_copy 32) signer sample_transaction = Ok raw
  /\ fst <$> @sender overflow_secp256k1 (array_copy 32) raw <> Some (GetAddress signer).
Proof.
  eexists _, _. split; [vm_compute; reflexivity|]. split; [vm_compute; reflexivity|]. vm_compute. discriminate.
Qed.
