(* ===== verification/Abi.v ===== *)
(** * Abi: contract ABI words, calls and events ([Abi.cpp]) and the table of protocol
    events ([ProtocolAbi.cpp])

    Keccak-256 is a parameter of the functions that hash a signature. *)

From Stdlib Require Import Ascii.
From S2P Require Import Prelude Text Uint256 Hex.
Set Default Goal Selector "!".
#[local] Open Scope Z_scope.

Inductive AbiType := TAddress | TUint256 | TBytes32.

Record AbiParameter := MkAbiParameter { param_type : AbiType; param_indexed : bool }.

(** [std::variant<Address, Uint256, Hash256>] *)
Inductive AbiValue :=
| VAddress (a : Address)
| VUint256 (x : Uint256)
| VBytes32 (h : Hash256).

Definition FunctionSelector := array 4.
Definition ABI_WORD_SIZE : nat := 32.

(** The bytes of a string, as [Keccak::Hash(std::string_view)] passes them on. *)
Definition string_bytes (s : string) : Bytes := (fun c => z2b (ascii_z c)) <$> chars s.

Definition EncodeWord (value : AbiValue) : Hash256 :=
  match value with
  | VAddress a => array_copy 32 (replicate 12 x00 ++ array_list a)
  | VUint256 x => array_copy 32 (array_list (ToBytes x))
  | VBytes32 h => array_copy 32 (array_list h)
  end.

Definition DecodeWord (type : AbiType) (word : Hash256) : result AbiValue :=
  match type with
  | TAddress =>
      if existsb (fun value => negb (b2z value =? 0)) (take 12 (array_list word))
      then Throw (InvalidArgument "ABI address contains non-zero padding")
      else Ok (VAddress (array_copy 20 (drop 12 (array_list word))))
  | TUint256 => x ← FromBytes (array_copy 32 (array_list word)); Ok (VUint256 x)
  | TBytes32 => Ok (VBytes32 word)
  end.

Section Hashing.
Context (keccak : Bytes -> Hash256).

Definition GetFunctionSelector (signature : string) : FunctionSelector :=
  array_copy 4 (take 4 (array_list (keccak (string_bytes signature)))).

Definition GetEventTopic (signature : string) : Hash256 := keccak (string_bytes signature).

Definition EncodeFunction (signature : string) (arguments : list AbiValue) : Bytes :=
  foldl (fun result argument => result ++ array_list (EncodeWord argument))
    (array_list (GetFunctionSelector signature)) arguments.

(** One round of the loop over the parameters; the state is [topicIndex], [dataOffset]
    and [result]. *)
Definition decode_parameter (topics : list Hash256) (data : Bytes)
    (st : nat * nat * list AbiValue) (parameter : AbiParameter)
    : result (nat * nat * list AbiValue) :=
  let '(topicIndex, dataOffset, res) := st in
  if param_indexed parameter then
    match topics !! topicIndex with
    | Some topic =>
        v ← DecodeWord (param_type parameter) topic; Ok (S topicIndex, dataOffset, res ++ [v])
    | None => Throw OutOfRange
    end
  else
    v ← DecodeWord (param_type parameter) (array_copy 32 (take ABI_WORD_SIZE (drop dataOffset data)));
    Ok (topicIndex, (dataOffset + ABI_WORD_SIZE)%nat, res ++ [v]).

Definition indexed_count (parameters : list AbiParameter) : nat :=
  length (filter (fun p => param_indexed p = true) parameters).

Definition DecodeEvent (signature : string) (parameters : list AbiParameter)
    (topics : list Hash256) (data : Bytes) : result (list AbiValue) :=
  let indexedCount := indexed_count parameters in
  if negb (bool_decide (length topics = (indexedCount + 1)%nat))
  then Throw (InvalidArgument "event topic count does not match its ABI")
  else if negb (bool_decide (head topics = Some (GetEventTopic signature)))
  then Throw (InvalidArgument "event signature topic does not match its ABI")
  else if negb (bool_decide (length data = ((length parameters - indexedCount) * ABI_WORD_SIZE)%nat))
  then Throw (InvalidArgument "event data size does not match its ABI")
  else
    st ← fold_result (decode_parameter topics data) (1%nat, 0%nat, []) parameters;
    Ok (snd st).
End Hashing.

(** ** [ProtocolAbi] *)

Inductive ProtocolEventKind :=
| Supplied | Withdrawn | Borrowed | Repaid | InterestAccrued | Liquidated
| BadDebtRecognized | AssetRegistered | PriceUpdated.

#[global] Instance ProtocolEventKind_eq_dec : EqDecision ProtocolEventKind.
Proof. solve_decision. Defined.

Record EventDefinition := MkEventDefinition {
  ev_kind : ProtocolEventKind;
  ev_signature : string;
  ev_parameters : list AbiParameter;
  ev_topic : Hash256
}.

Section ProtocolAbi.
Context (keccak : Bytes -> Hash256).

Definition DefineEvent (kind : ProtocolEventKind) (signature : string)
    (parameters : list AbiParameter) : EventDefinition :=
  MkEventDefinition kind signature parameters (GetEventTopic keccak signature).

Definition GetEvents : list EventDefinition :=
  let idx t := MkAbiParameter t true in
  let dat t := MkAbiParameter t false in
  [ DefineEvent Supplied "Supplied(address,address,uint256)"
      [idx TAddress; idx TAddress; dat TUint256];
    DefineEvent Withdrawn "Withdrawn(address,address,uint256)"
      [idx TAddress; idx TAddress; dat TUint256];
    DefineEvent Borrowed "Borrowed(address,address,uint256)"
      [idx TAddress; idx TAddress; dat TUint256];
    DefineEvent Repaid "Repaid(address,address,uint256,uint256)"
      [idx TAddress; idx TAddress; dat TUint256; dat TUint256];
    DefineEvent InterestAccrued "InterestAccrued(uint256,uint256,uint256,uint256)"
      [idx TUint256; dat TUint256; dat TUint256; dat TUint256];
    DefineEvent Liquidated "Liquidated(address,address,address,address,uint256,uint256)"
      [idx TAddress; idx TAddress; idx TAddress; dat TAddress; dat TUint256; dat TUint256];
    DefineEvent BadDebtRecognized "BadDebtRecognized(address,uint256)"
      [idx TAddress; dat TUint256];
    DefineEvent AssetRegistered "AssetRegistered(address,uint256)"
      [idx TAddress; dat TUint256];
    DefineEvent PriceUpdated "PriceUpdated(address,uint256,uint256)"
      [idx TAddress; dat TUint256; dat TUint256] ].

Definition GetEvent (kind : ProtocolEventKind) : result EventDefinition :=
  match List.find (fun event => bool_decide (ev_kind event = kind)) GetEvents with
  | Some event => Ok event
  | None => Throw (InvalidArgument "unknown protocol event kind")
  end.

Definition MatchEvent (topic : Hash256) : option ProtocolEventKind :=
  match List.find (fun event => bool_decide (ev_topic event = topic)) GetEvents with
  | Some event => Some (ev_kind event)
  | None => None
  end.
End ProtocolAbi.

(** ** Words *)

Definition value_type (v : AbiValue) : AbiType :=
  match v with VAddress _ => TAddress | VUint256 _ => TUint256 | VBytes32 _ => TBytes32 end.

Lemma address_word_length (a : Address) : length (replicate 12 x00 ++ array_list a) = 32%nat.
Proof. rewrite length_app, length_replicate, array_length. done. Qed.

Lemma DecodeWord_EncodeWord v : DecodeWord (value_type v) (EncodeWord v) = Ok v.
Proof.
  destruct v as [a|x|h]; cbn [value_type EncodeWord DecodeWord].
  - rewrite array_copy_list by apply address_word_length.
    rewrite take_app_length', drop_app_length' by done. simpl. by rewrite array_copy_id.
  - rewrite !array_copy_id, FromBytes_ToBytes. done.
  - by rewrite array_copy_id.
Qed.

Lemma all_zero_bytes l :
  existsb (fun value => negb (b2z value =? 0)) l = false -> l = replicate (length l) x00.
Proof.
  induction l as [|b l IH]; simpl; [done|]. intros H. boolify. f_equal; [|auto].
  apply b2z_inj. done.
Qed.

Lemma EncodeWord_DecodeWord t w v :
  DecodeWord t w = Ok v -> value_type v = t /\ EncodeWord v = w.
Proof.
  pose proof (array_length w) as HL. destruct t; cbn [DecodeWord].
  - destruct (existsb _ _) eqn:E; [done|]. intros [= <-]. split; [done|].
    apply all_zero_bytes in E. rewrite length_take_le in E by lia.
    cbn [EncodeWord]. rewrite array_copy_list by (rewrite length_drop; lia).
    rewrite <-E, take_drop. apply array_copy_id.
  - intros H. invert_bind. split; [done|]. cbn [EncodeWord]. rewrite array_copy_id in Hb.
    rewrite FromBytes_value in Hb. injection Hb as <-. by rewrite ToBytes_U_be_value, array_copy_id.
  - intros [= <-]. split; [done|]. apply array_copy_id.
Qed.

(** ** Calls *)

Lemma EncodeFunction_app keccak signature arguments :
  EncodeFunction keccak signature arguments =
  array_list (GetFunctionSelector keccak signature)
    ++ mjoin ((fun v => array_list (EncodeWord v)) <$> arguments).
Proof.
  unfold EncodeFunction. generalize (array_list (GetFunctionSelector keccak signature)) as acc.
  induction arguments as [|v l IH]; intros acc; [by rewrite app_nil_r|].
  cbn [foldl]. by rewrite IH, fmap_cons, mjoin_cons, app_assoc.
Qed.

Lemma words_length (l : list AbiValue) :
  length (mjoin ((fun v => array_list (EncodeWord v)) <$> l)) = (32 * length l)%nat.
Proof.
  induction l as [|v l IH]; [done|]. rewrite fmap_cons, mjoin_cons, length_app, IH, array_length.
  simpl. lia.
Qed.

Lemma EncodeFunction_length keccak signature arguments :
  length (EncodeFunction keccak signature arguments) = (4 + 32 * length arguments)%nat.
Proof. by rewrite EncodeFunction_app, length_app, words_length, array_length. Qed.

Lemma EncodeFunction_selector keccak signature arguments :
  take 4 (EncodeFunction keccak signature arguments)
  = array_list (GetFunctionSelector keccak signature).
Proof. rewrite EncodeFunction_app. by rewrite take_app_length' by by rewrite array_length. Qed.

(** ** Events

    The log a contract emits for the values of the parameters: the signature topic and a
    topic per indexed parameter, a word of data per other parameter. *)
Definition typed (p : AbiParameter) (v : AbiValue) : Prop := value_type v = param_type p.

Fixpoint event_topics (ps : list AbiParameter) (vs : list AbiValue) : list Hash256 :=
  match ps, vs with
  | p :: ps', v :: vs' =>
      if param_indexed p then EncodeWord v :: event_topics ps' vs' else event_topics ps' vs'
  | _, _ => []
  end.

Fixpoint event_data (ps : list AbiParameter) (vs : list AbiValue) : Bytes :=
  match ps, vs with
  | p :: ps', v :: vs' =>
      if param_indexed p then event_data ps' vs' else array_list (EncodeWord v) ++ event_data ps' vs'
  | _, _ => []
  end.

(** The decoding loop, with the topics and data still to be read as its state. *)
Fixpoint decode_rest (ps : list AbiParameter) (topics : list Hash256) (data : Bytes)
    : result (list AbiValue) :=
  match ps with
  | [] => Ok []
  | p :: ps' =>
      if param_indexed p then
        match topics with
        | t :: ts => v ← DecodeWord (param_type p) t; vs ← decode_rest ps' ts data; Ok (v :: vs)
        | [] => Throw OutOfRange
        end
      else v ← DecodeWord (param_type p) (array_copy 32 (take 32 data));
           vs ← decode_rest ps' topics (drop 32 data); Ok (v :: vs)
  end.

Lemma decode_loop_rest ps topics data ti off res :
  (st ← fold_result (decode_parameter topics data) (ti, off, res) ps; Ok (snd st))
  = (vs ← decode_rest ps (drop ti topics) (drop off data); Ok (res ++ vs)).
Proof.
  revert ti off res. induction ps as [|p ps IH]; intros ti off res.
  - cbn. by rewrite app_nil_r.
  - cbn [fold_result decode_rest decode_parameter]. destruct (param_indexed p) eqn:Ei.
    + destruct (topics !! ti) as [t|] eqn:Et.
      * rewrite (drop_S topics t ti Et).
        destruct (DecodeWord (param_type p) t) as [v|e]; msimpl; [|done].
        rewrite IH. destruct (decode_rest ps _ _); msimpl; [|done]. by rewrite <-app_assoc.
      * apply lookup_ge_None in Et. by rewrite drop_ge by done.
    + destruct (DecodeWord _ _) as [v|e]; msimpl; [|done].
      rewrite IH, drop_drop. unfold ABI_WORD_SIZE. destruct (decode_rest ps _ _); msimpl; [|done].
      by rewrite <-app_assoc.
Qed.

Lemma decode_rest_encoded ps vs :
  Forall2 typed ps vs -> decode_rest ps (event_topics ps vs) (event_data ps vs) = Ok vs.
Proof.
  unfold typed. induction 1 as [|p v ps vs Hp _ IH]; [done|].
  cbn [decode_rest event_topics event_data]. destruct (param_indexed p); rewrite <-Hp.
  - rewrite DecodeWord_EncodeWord. msimpl. by rewrite IH.
  - rewrite take_app_length', drop_app_length', array_copy_id by by rewrite array_length.
    rewrite DecodeWord_EncodeWord. msimpl. by rewrite IH.
Qed.

Lemma decode_rest_inv ps topics data vs :
  length topics = indexed_count ps ->
  length data = ((length ps - indexed_count ps) * 32)%nat ->
  decode_rest ps topics data = Ok vs ->
  Forall2 typed ps vs /\ topics = event_topics ps vs /\ data = event_data ps vs.
Proof.
  unfold indexed_count, typed. revert topics data vs.
  assert (forall ps, length (filter (fun p => param_indexed p = true) ps) <= length ps)%nat as Hle
    by (intros; apply length_filter).
  induction ps as [|p ps IH]; intros topics data vs HT HD H.
  - apply nil_length_inv in HT, HD. cbn in H. invert_bind. done.
  - specialize (Hle ps). cbn [decode_rest] in H. rewrite filter_cons in HT, HD. destruct (param_indexed p) eqn:Ei.
    + rewrite decide_True in HT, HD by done. destruct topics as [|t ts]; [done|].
      invert_bind. apply EncodeWord_DecodeWord in Hb as [Hty <-].
      destruct (IH ts data a0) as (H1 & -> & H3); [simpl in *; lia..|done|].
      cbn [event_topics event_data]. rewrite Ei. auto.
    + rewrite decide_False in HT, HD by congruence. invert_bind.
      apply EncodeWord_DecodeWord in Hb as [Hty Hw]. cbn [length] in HD.
      destruct (IH topics (drop 32 data) a0) as (H1 & -> & H3); [done|rewrite length_drop; lia|done|].
      cbn [event_topics event_data]. rewrite Ei. split; [by constructor|]. split; [done|].
      rewrite <-H3, Hw, array_copy_list by (rewrite length_take; lia). by rewrite take_drop.
Qed.

Lemma event_topics_length ps vs :
  Forall2 typed ps vs -> length (event_topics ps vs) = indexed_count ps.
Proof.
  unfold indexed_count. induction 1 as [|p v ps vs _ _ IH]; [done|].
  cbn [event_topics]. rewrite filter_cons.
  destruct (param_indexed p); [rewrite decide_True by done | rewrite decide_False by done];
    cbn [length]; auto.
Qed.

Lemma event_data_length ps vs :
  Forall2 typed ps vs -> length (event_data ps vs) = ((length ps - indexed_count ps) * 32)%nat.
Proof.
  unfold indexed_count. induction 1 as [|p v ps vs _ _ IH]; [done|].
  cbn [event_data]. rewrite filter_cons.
  pose proof (length_filter (fun p => param_indexed p = true) ps).
  destruct (param_indexed p); [rewrite decide_True by done | rewrite decide_False by done];
    cbn [length]; rewrite ?length_app, ?array_length, IH; lia.
Qed.

Lemma DecodeEvent_Ok keccak signature ps topics data vs :
  DecodeEvent keccak signature ps topics data = Ok vs <->
  Forall2 typed ps vs /\ topics = GetEventTopic keccak signature :: event_topics ps vs
  /\ data = event_data ps vs.
Proof.
  unfold DecodeEvent, ABI_WORD_SIZE. split.
  - case_bool_decide as H1; [cbn [negb]|done]. case_bool_decide as H2; [cbn [negb]|done].
    case_bool_decide as H3; [cbn [negb]|done]. rewrite decode_loop_rest, drop_0.
    destruct topics as [|t ts]; [done|]. cbn in H2. injection H2 as ->. cbn [drop]. rewrite drop_0.
    destruct (decode_rest ps ts data) as [vs'|] eqn:E; msimpl; [|discriminate]. intros [= <-].
    destruct (decode_rest_inv ps ts data vs') as (H4 & -> & ->); auto.
    cbn [length] in H1. lia.
  - intros (HF & -> & ->). pose proof (event_topics_length _ _ HF). pose proof (event_data_length _ _ HF).
    rewrite !bool_decide_eq_true_2 by (cbn [length]; first [done | lia]). cbn [negb].
    rewrite decode_loop_rest. cbn [drop]. rewrite !drop_0. by rewrite decode_rest_encoded.
Qed.

(** ** The event table *)

(** The nine signatures have different topics: the collision resistance that the table's
    lookup by topic relies on. *)
Definition distinct_topics (keccak : Bytes -> Hash256) : Prop :=
  NoDup (ev_topic <$> GetEvents keccak).

Lemma GetEvent_kind keccak kind : exists d, GetEvent keccak kind = Ok d /\ ev_kind d = kind
  /\ ev_topic d = GetEventTopic keccak (ev_signature d) /\ d ∈ GetEvents keccak.
Proof.
  destruct kind; unfold GetEvent, GetEvents; cbn [List.find];
    repeat (rewrite bool_decide_eq_false_2 by done); rewrite bool_decide_eq_true_2 by done;
    eexists; (split; [reflexivity|]); (split; [reflexivity|]); (split; [reflexivity|]);
    repeat first [apply list_elem_of_here | apply list_elem_of_further].
Qed.

Lemma MatchEvent_Some keccak topic kind :
  MatchEvent keccak topic = Some kind ->
  exists d, d ∈ GetEvents keccak /\ ev_kind d = kind /\ ev_topic d = topic.
Proof.
  unfold MatchEvent. destruct (List.find _ _) as [d|] eqn:E; [|done]. intros [= <-].
  apply List.find_some in E as [Hin Ht]. boolify. exists d. split; [|done]. by apply list_elem_of_In.
Qed.

Lemma find_topic l d :
  NoDup (ev_topic <$> l) -> d ∈ l ->
  List.find (fun event => bool_decide (ev_topic event = ev_topic d)) l = Some d.
Proof.
  induction l as [|e l IH]; intros HN Hd; [by apply not_elem_of_nil in Hd|].
  rewrite fmap_cons in HN. apply NoDup_cons in HN as [Hn HN]. cbn [List.find].
  apply elem_of_cons in Hd as [->|Hd]; [by rewrite bool_decide_eq_true_2|].
  rewrite bool_decide_eq_false_2; [auto|]. intros E. apply Hn. rewrite E.
  by apply list_elem_of_fmap_2.
Qed.

Lemma MatchEvent_GetEvent keccak kind d :
  distinct_topics keccak -> GetEvent keccak kind = Ok d -> MatchEvent keccak (ev_topic d) = Some kind.
Proof.
  intros HN Hd. destruct (GetEvent_kind keccak kind) as (d' & Hd' & Hk & _ & Hin).
  rewrite Hd in Hd'. injection Hd' as <-. unfold MatchEvent. by rewrite (find_topic _ d), Hk.
Qed.

(** ** Properties *)

(** [DecodeEvent] returns values exactly for the logs a contract emits for them:
    the first topic is the signature's, the indexed values are the other topics and the
    remaining values are the data, word by word.  Any other log is rejected. *)
Theorem event_decoding_exact keccak signature ps topics data vs :
  DecodeEvent keccak signature ps topics data = Ok vs <->
  Forall2 typed ps vs /\ topics = GetEventTopic keccak signature :: event_topics ps vs
  /\ data = event_data ps vs.
Proof. apply DecodeEvent_Ok. Qed.
