(* ===== verification/RpcTypes.v ===== *)
(** * RpcTypes: the interface to a node ([RpcClient.hpp])

    What is asked of a node and what it answers, and the class of its calls, against which the
    users of [RpcClient] are modelled.  Every call may change the state of the outside and may
    throw. *)

From S2P Require Import Prelude Effects Uint256 Hex.
Set Default Goal Selector "!".
#[local] Open Scope Z_scope.

Record BlockHeader := MkBlockHeader {
  bh_number : Uint256;
  bh_hash : Hash256;
  bh_parentHash : Hash256;
  bh_timestamp : Uint256;
  bh_baseFeePerGas : option Uint256
}.

Record TransactionReceipt := MkTransactionReceipt {
  rc_transactionHash : Hash256;
  rc_blockNumber : Uint256;
  rc_blockHash : Hash256;
  rc_succeeded : bool;
  rc_gasUsed : Uint256;
  rc_effectiveGasPrice : Uint256
}.

Record TransactionCall := MkTransactionCall {
  tc_from : option Address;
  tc_to : Address;
  tc_data : Bytes;
  tc_value : Uint256
}.

Record RpcLog := MkRpcLog {
  lg_address : Address;
  lg_topics : list Hash256;
  lg_data : Bytes;
  lg_blockNumber : Uint256;
  lg_blockHash : Hash256;
  lg_transactionHash : Hash256;
  lg_transactionIndex : Uint256;
  lg_logIndex : Uint256;
  lg_removed : bool
}.

Record LogFilter := MkLogFilter {
  lf_fromBlock : option Uint256;
  lf_toBlock : option Uint256;
  lf_address : option Address;
  lf_topics : list (option Hash256)
}.

(** The members of [RpcClient]. *)
Class RpcCalls (N : Type) := {
  client_GetChainId : prog N Uint256;
  client_GetBlockNumber : prog N Uint256;
  client_GetBlockByNumber : Uint256 -> prog N (option BlockHeader);
  client_GetLogs : LogFilter -> prog N (list RpcLog);
  client_EthCall : TransactionCall -> string -> prog N Bytes;
  client_EstimateGas : TransactionCall -> prog N Uint256;
  client_GetTransactionCount : Address -> string -> prog N Uint256;
  client_GetMaxPriorityFeePerGas : prog N Uint256;
  client_SendRawTransaction : Bytes -> prog N Hash256;
  client_GetTransactionReceipt : Hash256 -> prog N (option TransactionReceipt)
}.
