(* ===== verification/RpcEndpoints.v ===== *)
(** * RpcEndpoints: lists of endpoints in the configuration ([RpcEndpoints.hpp], [RpcEndpoints.cpp])

    A [std::string_view] is the list of its characters. *)

From Stdlib Require Import Ascii.
From S2P Require Import Prelude Text.
Set Default Goal Selector "!".
#[local] Open Scope Z_scope.

(** ** Definitions *)

(** [std::isspace] in the C locale. *)
Definition is_space (c : ascii) : bool := (ascii_z c =? 32) || ((9 <=? ascii_z c) && (ascii_z c <=? 13)).

(** [std::find_if_not(begin, end, isSpace) - begin] *)
Fixpoint leading_spaces (l : list ascii) : nat :=
  match l with
  | c :: l' => if is_space c then S (leading_spaces l') else O
  | [] => O
  end.

Definition Trim (value : list ascii) : list ascii :=
  let first := leading_spaces value in
  let last := (length value - leading_spaces (reverse value))%nat in
  if (first <? last)%nat then take (last - first) (drop first value) else [].

(** [value.find(c)]; [std::string_view::npos] is [None]. *)
Fixpoint find_char (c : ascii) (l : list ascii) : option nat :=
  match l with
  | [] => None
  | d :: l' => if bool_decide (d = c) then Some O else S <$> find_char c l'
  end.

(** The loop of [ParseRpcEndpoints].  Every iteration but the last removes a separator, so the
    length of the text is fuel enough. *)
Fixpoint parse_loop (fuel : nat) (endpoints : list ascii) (result : list string) : list string :=
  match fuel, endpoints with
  | O, _ | _, [] => result
  | S fuel, _ =>
      let separator := find_char "," endpoints in
      let endpoint := Trim (match separator with Some n => take n endpoints | None => endpoints end) in
      let result := match endpoint with [] => result | _ => result ++ [unchars endpoint] end in
      match separator with
      | None => result
      | Some n => parse_loop fuel (drop (S n) endpoints) result
      end
  end.

Definition ParseRpcEndpoints (endpoints : string) : list string :=
  parse_loop (length (chars endpoints)) (chars endpoints) [].

(** The body of the loop of [MergeRpcEndpoints]. *)
Definition merge_endpoint (result : list string) (endpoint : string) : list string :=
  if bool_decide (endpoint ∈ result) then result else result ++ [endpoint].

Definition MergeRpcEndpoints (primary : string) (additional : list string) : list string :=
  foldl merge_endpoint [primary] additional.

(** ** Trimming *)

Lemma leading_spaces_spec l :
  exists spaces rest, l = spaces ++ rest /\ length spaces = leading_spaces l
    /\ Forall (fun c => is_space c = true) spaces /\ forall c rest', rest = c :: rest' -> is_space c = false.
Proof.
  induction l as [|c l (spaces & rest & -> & El & Hs & Hr)]; cbn [leading_spaces].
  - exists [], []. repeat split; [constructor|done].
  - destruct (is_space c) eqn:Ec.
    + exists (c :: spaces), rest. cbn. rewrite El. split; [done|]. split; [done|]. split; [by constructor|done].
    + exists [], (c :: spaces ++ rest). repeat split; [constructor|]. by intros ? ? [= <- _].
Qed.

(** The text between the spaces. *)
Definition trimmed (l : list ascii) : Prop :=
  (forall c l', l = c :: l' -> is_space c = false) /\ (forall c l', l = l' ++ [c] -> is_space c = false).

Lemma leading_spaces_app spaces rest :
  Forall (fun c => is_space c = true) spaces -> (forall c rest', rest = c :: rest' -> is_space c = false) ->
  leading_spaces (spaces ++ rest) = length spaces.
Proof.
  intros Hs Hr. induction Hs as [|c l Hc _ IH]; cbn [app leading_spaces length].
  - destruct rest as [|c rest]; [done|]. cbn. by rewrite (Hr c rest eq_refl).
  - by rewrite Hc, IH.
Qed.

Lemma Trim_spec before middle after :
  Forall (fun c => is_space c = true) before -> Forall (fun c => is_space c = true) after -> trimmed middle ->
  Trim (before ++ middle ++ after) = middle.
Proof.
  intros Hb Ha [Hf Hl]. unfold Trim. destruct middle as [|c middle].
  - cbn [app]. assert (leading_spaces (before ++ after) = length (before ++ after)) as ->.
    { rewrite <-(app_nil_r (before ++ after)) at 1. apply leading_spaces_app; [by apply Forall_app|done]. }
    assert (leading_spaces (reverse (before ++ after)) = length (before ++ after)) as ->.
    { rewrite <-(app_nil_r (reverse (before ++ after))).
      rewrite leading_spaces_app; [by rewrite length_reverse| |done].
      apply Forall_reverse. by apply Forall_app. }
    by rewrite Nat.sub_diag, (proj2 (Nat.ltb_ge _ _)) by lia.
  - rewrite leading_spaces_app; [|done|intros d r [= <- _]; by apply (Hf c middle)].
    assert (leading_spaces (reverse (before ++ (c :: middle) ++ after)) = length after) as ->.
    { rewrite !reverse_app, <-app_assoc, leading_spaces_app; [by rewrite length_reverse|by apply Forall_reverse|].
      intros d r E. apply (f_equal reverse) in E. rewrite reverse_app, !reverse_involutive, reverse_cons in E.
      assert (exists m, c :: middle = m ++ [d]) as [m Em]; [|by apply (Hl d m)].
      destruct (exists_last (l := c :: middle)) as (m & x & Em); [done|]. rewrite Em, app_assoc in E.
      apply app_inj_tail in E as [_ ->]. by exists m. }
    rewrite !length_app. cbn [length]. destruct (_ <? _)%nat eqn:E; [|apply Nat.ltb_ge in E; lia].
    rewrite drop_app_length, take_app_le by (cbn; lia). apply take_ge. cbn. lia.
Qed.

Lemma Trim_split value : exists before after,
  value = before ++ Trim value ++ after /\ Forall (fun c => is_space c = true) before
  /\ Forall (fun c => is_space c = true) after /\ trimmed (Trim value).
Proof.
  destruct (leading_spaces_spec value) as (before & rest & -> & _ & Hb & Hr).
  destruct (leading_spaces_spec (reverse rest)) as (after & middle & E & _ & Ha & Hm).
  assert (rest = reverse middle ++ reverse after) as ->.
  { by rewrite <-reverse_app, <-E, reverse_involutive. }
  assert (trimmed (reverse middle)) as Ht.
  { split.
    - intros c l E'. rewrite E' in Hr. by apply (Hr c (l ++ reverse after)).
    - intros c l E'. apply (Hm c (reverse l)). by rewrite <-(reverse_involutive middle), E', reverse_app. }
  exists before, (reverse after). rewrite Trim_spec; [|done|by apply Forall_reverse|done].
  split; [done|]. split; [done|]. split; [by apply Forall_reverse|done].
Qed.

(** ** Searching *)

Lemma find_char_None c l : find_char c l = None <-> c ∉ l.
Proof.
  induction l as [|d l IH]; cbn [find_char].
  - split; [intros _; apply not_elem_of_nil|done].
  - rewrite not_elem_of_cons. case_bool_decide as Ed.
    + split; [done|]. intros [Hc _]. by destruct Hc.
    + rewrite fmap_None, IH. split; [auto|tauto].
Qed.

Lemma find_char_Some c l n :
  find_char c l = Some n <-> exists before after, l = before ++ (c :: after) /\ (c ∉ before) /\ n = length before.
Proof.
  split.
  - revert n. induction l as [|d l IH]; intros n; cbn [find_char]; [done|]. case_bool_decide as Ed.
    + intros [= <-]. subst d. exists [], l. split; [done|]. split; [apply not_elem_of_nil|done].
    + intros (m & Hm & ->)%fmap_Some. destruct (IH m Hm) as (before & after & -> & Hb & ->).
      exists (d :: before), after. split; [done|]. rewrite not_elem_of_cons. auto.
  - intros (before & after & -> & Hb & ->). induction before as [|d before IH]; cbn [app find_char length].
    + by rewrite bool_decide_eq_true_2.
    + apply not_elem_of_cons in Hb as [Hd Hb]. by rewrite bool_decide_eq_false_2, IH by auto.
Qed.

Lemma find_char_app c before after : c ∉ before -> find_char c (before ++ (c :: after)) = Some (length before).
Proof. intros Hb. apply find_char_Some. eauto. Qed.

(** ** Splitting *)

(** The parts of a text between its commas. *)
Fixpoint split_commas (l : list ascii) : list (list ascii) :=
  match l with
  | [] => [[]]
  | c :: l' =>
      if bool_decide (c = ","%char) then [] :: split_commas l'
      else match split_commas l' with
           | part :: parts => (c :: part) :: parts
           | [] => [[c]]
           end
  end.

(** The endpoints a text lists. *)
Definition listed (l : list ascii) : list string :=
  unchars <$> filter (fun part => part <> []) (Trim <$> split_commas l).

Lemma split_commas_find l :
  split_commas l = match find_char "," l with
                   | Some n => take n l :: split_commas (drop (S n) l)
                   | None => [l]
                   end.
Proof.
  induction l as [|c l IH]; [done|]. cbn [split_commas find_char]. case_bool_decide; [done|].
  rewrite IH. by destruct (find_char "," l).
Qed.

Lemma parse_loop_listed fuel l result :
  (length l <= fuel)%nat -> parse_loop fuel l result = result ++ listed l.
Proof.
  revert l result. induction fuel as [|fuel IH]; intros l result Hl.
  - destruct l; [|cbn in Hl; lia]. cbn. by rewrite app_nil_r.
  - destruct l as [|c l]; [cbn; by rewrite app_nil_r|]. cbn [parse_loop].
    unfold listed. rewrite split_commas_find. destruct (find_char "," (c :: l)) as [n|] eqn:En.
    + rewrite IH by (cbn [drop]; rewrite length_drop; cbn in Hl; lia). cbn [fmap list_fmap].
      fold (listed (drop (S n) (c :: l))). rewrite filter_cons. destruct (Trim (take n (c :: l))) as [|d e].
      * by rewrite decide_False by (intros Hx; by apply Hx).
      * by rewrite decide_True, fmap_cons, <-app_assoc by done.
    + cbn [fmap list_fmap]. rewrite filter_cons, filter_nil. destruct (Trim (c :: l)) as [|d e].
      * by rewrite decide_False, app_nil_r by (intros Hx; by apply Hx).
      * by rewrite decide_True by done.
Qed.

Lemma split_commas_parts l : Forall (fun part => ","%char ∉ part) (split_commas l) /\ split_commas l <> [].
Proof.
  induction l as [|c l [IH Hn]]; cbn [split_commas].
  - split; [|done]. repeat constructor. by apply not_elem_of_nil.
  - case_bool_decide as Ec.
    + split; [|done]. constructor; [by apply not_elem_of_nil|done].
    + destruct (split_commas l) as [|part parts]; [done|]. apply Forall_cons in IH as [Hp IH].
      split; [|done]. constructor; [|done]. rewrite not_elem_of_cons. auto.
Qed.

Lemma split_commas_app part l :
  ","%char ∉ part -> split_commas (part ++ ","%char :: l) = part :: split_commas l.
Proof.
  induction part as [|c part IH]; cbn [app split_commas]; [done|]. rewrite not_elem_of_cons. intros [Hc Hp].
  by rewrite bool_decide_eq_false_2, IH by auto.
Qed.

Lemma split_commas_one part : ","%char ∉ part -> split_commas part = [part].
Proof.
  induction part as [|c part IH]; [done|]. rewrite not_elem_of_cons. intros [Hc Hp]. cbn [split_commas].
  by rewrite bool_decide_eq_false_2, IH by auto.
Qed.

(** A text [ParseRpcEndpoints] can return. *)
Definition endpoint_text (s : string) : Prop := chars s <> [] /\ trimmed (chars s) /\ ","%char ∉ chars s.

Lemma listed_clean l : Forall endpoint_text (listed l).
Proof.
  unfold listed. apply Forall_fmap, list.Forall_forall. intros part [Hn Hp]%list_elem_of_filter.
  apply list_elem_of_fmap in Hp as (whole & -> & Hw). unfold endpoint_text, compose. rewrite chars_unchars.
  destruct (Trim_split whole) as (before & after & E & _ & _ & Ht). split; [done|]. split; [done|].
  destruct (split_commas_parts l) as [Hs _]. rewrite list.Forall_forall in Hs. specialize (Hs whole Hw).
  rewrite E in Hs. intros Hc. apply Hs. apply elem_of_app. right. apply elem_of_app. by left.
Qed.

(** Merging: the primary endpoint first, then the others at their first occurrence. *)
Lemma merge_endpoints_spec additional result :
  NoDup result ->
  NoDup (foldl merge_endpoint result additional) /\ (result `prefix_of` foldl merge_endpoint result additional)
  /\ forall e, e ∈ foldl merge_endpoint result additional <-> e ∈ result \/ e ∈ additional.
Proof.
  revert result. induction additional as [|a additional IH]; intros result Hnd; cbn [foldl].
  - split; [done|]. split; [done|]. intros e. rewrite elem_of_nil. tauto.
  - assert (NoDup (merge_endpoint result a)) as Hnd1.
    { unfold merge_endpoint. case_bool_decide; [done|]. apply NoDup_app. split; [done|].
      split; [|apply NoDup_singleton]. intros e He Ha%list_elem_of_singleton. by subst. }
    destruct (IH _ Hnd1) as (H1 & H2 & H3). split; [done|].
    unfold merge_endpoint in H2, H3 |- *. case_bool_decide as Ea.
    + split; [done|]. intros e. rewrite H3, elem_of_cons. split; [tauto|]. intros [He | [-> | He]]; auto.
    + split; [by eapply prefix_app_l|]. intros e. rewrite H3, elem_of_app, list_elem_of_singleton, elem_of_cons. tauto.
Qed.

(** ** Properties *)

(** The endpoints of a service: [ParseRpcEndpoints] returns the parts of the text between the commas,
    without the white space around them and without the empty ones; none of them holds a comma or
    outer space; and [MergeRpcEndpoints] puts the primary endpoint first and lists each of
    the others once. *)
Theorem endpoints_exact primary text :
  ParseRpcEndpoints text = listed (chars text) /\ Forall endpoint_text (ParseRpcEndpoints text)
  /\ let endpoints := MergeRpcEndpoints primary (ParseRpcEndpoints text) in
     NoDup endpoints /\ [primary] `prefix_of` endpoints
     /\ forall e, e ∈ endpoints <-> e = primary \/ e ∈ ParseRpcEndpoints text.
Proof.
  assert (ParseRpcEndpoints text = listed (chars text)) as Ep by (by apply (parse_loop_listed _ _ [])).
  split; [done|]. split; [rewrite Ep; apply listed_clean|].
  destruct (merge_endpoints_spec (ParseRpcEndpoints text) [primary] (NoDup_singleton primary)) as (H1 & H2 & H3).
  split; [exact H1|]. split; [exact H2|]. intros e. unfold MergeRpcEndpoints. by rewrite H3, list_elem_of_singleton.
Qed.

Example ParseRpcEndpoints_sample : ParseRpcEndpoints " http://a:1 ,,http://b ," = ["http://a:1"; "http://b"].
Proof. reflexivity. Qed.
