(* ===== verification/RpcClient.v ===== *)
(** * RpcClient: JSON-RPC over HTTP ([RpcClient.hpp], [RpcClient.cpp])

    One client owns an endpoint and a counter of requests.  A call writes a request, reads the
    response and checks its envelope; the members decode the result.  The HTTP transport
    (Boost.Asio and Boost.Beast) and the text of JSON values are parameters; the observer of
    the calls is in [Metrics], but for the conversion it forces on [GetBlockNumber]. *)

From Stdlib Require Import Ascii.
From S2P Require Import Prelude Effects Text Json Uint256 Hex Event RpcTypes RpcEndpoints.
Set Default Goal Selector "!".
#[local] Open Scope Z_scope.

(** ** Endpoints *)

Record ParsedEndpoint := MkParsedEndpoint { pe_host : string; pe_port : string; pe_target : string }.

#[global] Instance ParsedEndpoint_eq_dec : EqDecision ParsedEndpoint.
Proof. solve_decision. Defined.

(** [value.rfind(c)] *)
Definition rfind_char (c : ascii) (l : list ascii) : option nat :=
  (fun n => (length l - S n)%nat) <$> find_char c (reverse l).

(** [std::isdigit] *)
Definition is_digit (c : ascii) : bool := (48 <=? ascii_z c) && (ascii_z c <=? 57).

Definition ParseEndpoint (endpoint : string) : result ParsedEndpoint :=
  let endpoint := chars endpoint in
  if negb (bool_decide (take 7 endpoint = chars "http://"))
  then Throw (RpcException InvalidEndpoint "RPC endpoint must use http://")
  else
    let endpoint := drop 7 endpoint in
    let pathPosition := find_char "/" endpoint in
    let authority := match pathPosition with Some n => take n endpoint | None => endpoint end in
    let target := match pathPosition with Some n => drop n endpoint | None => chars "/" end in
    if bool_decide (authority = []) then Throw (RpcException InvalidEndpoint "RPC endpoint host is empty")
    else
      let portPosition := rfind_char ":" authority in
      let host := match portPosition with Some n => take n authority | None => authority end in
      let port := match portPosition with Some n => drop (S n) authority | None => chars "80" end in
      if bool_decide (host = []) || bool_decide (port = []) || negb (forallb is_digit port)
      then Throw (RpcException InvalidEndpoint "RPC endpoint host or port is invalid")
      else Ok (MkParsedEndpoint (unchars host) (unchars port) (unchars target)).

(** The constructor; [timeout] in milliseconds. *)
Definition new_client (endpoint : string) (timeout : Z) : result ParsedEndpoint :=
  endpoint_ ← ParseEndpoint endpoint;
  if timeout <=? 0 then Throw (RpcException InvalidEndpoint "RPC timeout must be positive") else Ok endpoint_.

(** ** Requests and responses *)

(** An [http::request] and the part of an [http::response] that is looked at. *)
Record HttpRequest := MkHttpRequest {
  rq_target : string;
  rq_host : string;
  rq_content_type : string;
  rq_user_agent : string;
  rq_body : string
}.
Record HttpResponse := MkHttpResponse { rs_status : Z; rs_body : string }.

(** The asynchronous operations of a connection, each completed or timed out: they change the outside
    world and end with a value or with the message of their error code. *)
Class HttpTransport (N : Type) := {
  http_connect : string -> string -> Z -> N -> (string + unit) * N;
  http_write : HttpRequest -> Z -> N -> (string + unit) * N;
  http_read : Z -> N -> (string + HttpResponse) * N
}.

(** The request counters of the clients of a process, 1 for one that has not called, and the
    outside world. *)
Record RpcNet (N : Type) := MkRpcNet { rn_nextRequestId : gmap nat Z; rn_net : N }.
Arguments MkRpcNet {N} _ _.
Arguments rn_nextRequestId {N} _.
Arguments rn_net {N} _.

Definition payload (requestId : Z) (method : string) (parameters : json) : json :=
  JObject [("id", JNumber requestId); ("jsonrpc", JString "2.0"); ("method", JString method); ("params", parameters)].

Definition invalid_response {A} (msg : string) : result A := Throw (RpcException InvalidResponse msg).

(** [object.value(key, fallback)] for a text. *)
Definition json_value (key : string) (fallback : string) (object : json) : result string :=
  match object with
  | JObject fields => match find_member key fields with Some member => get_string member | None => Ok fallback end
  | _ => Throw (JsonException "cannot use value()")
  end.

Definition is_null (value : json) : bool := match value with JNull => true | _ => false end.
Definition is_object (value : json) : bool := match value with JObject _ => true | _ => false end.

(** [object.find(key)], of which anything but an object has no member. *)
Definition json_find (key : string) (object : json) : option json :=
  match object with JObject fields => find_member key fields | _ => None end.

(** [decoded["id"] == requestId]: the library compares an integer and an unsigned one modulo 2^64. *)
Definition id_matches (id : json) (requestId : Z) : bool :=
  match id with JNumber z => u64 z =? requestId | _ => false end.

(** The tests of [Call] on the body of the response. *)
Definition check_response `{JsonText} (requestId : Z) (body : string) : result json :=
  match parse body with
  | Ok (JObject fields as decoded) =>
      version ← json_value "jsonrpc" "" decoded;
      if negb (bool_decide (version = "2.0"))
      then Throw (RpcException Protocol "RPC response has an invalid JSON-RPC version")
      else match json_find "id" decoded with
      | None => Throw (RpcException Protocol "RPC response ID does not match the request")
      | Some id =>
          if negb (id_matches id requestId)
          then Throw (RpcException Protocol "RPC response ID does not match the request")
          else
            match json_find "error" decoded with
            | Some error =>
                if negb (is_null error)
                then message ← json_value "message" "unknown RPC error" error; Throw (RpcException Remote message)
                else Ok tt
            | None => Ok tt
            end ≫= fun _ =>
            match json_find "result" decoded with
            | None => invalid_response "RPC response does not contain a result"
            | Some r => Ok r
            end
      end
  | _ => invalid_response "RPC response is not a JSON object"
  end.

(** ** Decoding of results *)

Section Decoding.
(** The message of an exception of Boost. *)
Context (boost_what : exn -> string).

(** [exception.what()] *)
Definition what (e : exn) : string :=
  match e with
  | InvalidArgument m | OverflowError m | DomainError m | RuntimeError m | JsonException m | SqlError m | SystemError m
  | RpcException _ m => m
  | e => boost_what e
  end.

(** [try { r } catch(const RpcException&) { throw; } catch(const std::exception& e) { throw RpcException(...); }] *)
Definition invalid_as {A} (msg : string) (r : result A) : result A :=
  match r with
  | Ok a => Ok a
  | Throw (RpcException kind m) => Throw (RpcException kind m)
  | Throw Undefined => Throw Undefined
  | Throw e => invalid_response (msg +:+ what e)
  end.

Definition RequireString (object : json) (field : string) : result string :=
  match json_find field object with
  | Some (JString s) => Ok s
  | _ => invalid_response ("RPC response field is missing or has the wrong type: " +:+ field)
  end.

Definition ParseQuantity (object : json) (field : string) : result Uint256 :=
  invalid_as ("invalid Ethereum quantity in field " +:+ field +:+ ": ") (s ← RequireString object field; FromHex s).

Definition ParseHash (object : json) (field : string) : result Hash256 :=
  invalid_as ("invalid Ethereum hash in field " +:+ field +:+ ": ")
    (s ← RequireString object field; parse_hash "hash must contain exactly 32 bytes" s).

Definition ParseAddress (object : json) (field : string) : result Address :=
  invalid_as ("invalid Ethereum address in field " +:+ field +:+ ": ")
    (s ← RequireString object field; AddressFromHex s).

(** [Json{{"result", result}}] *)
Definition wrapped (field : string) (value : json) : json := JObject [(field, value)].

Definition ParseBytesResult (value : json) (method : string) : result Bytes :=
  match value with
  | JString s => invalid_as (method +:+ " returned invalid hex data: ") (Decode s)
  | _ => invalid_response (method +:+ " result is not a hex string")
  end.

(** What [GetBlockByNumber] makes of the result. *)
Definition block_of_result (value : json) : result (option BlockHeader) :=
  if is_null value then Ok None
  else if negb (is_object value) then invalid_response "eth_getBlockByNumber result is not an object"
  else
    number ← ParseQuantity value "number";
    hash ← ParseHash value "hash";
    parentHash ← ParseHash value "parentHash";
    timestamp ← ParseQuantity value "timestamp";
    baseFeePerGas ← match json_find "baseFeePerGas" value with
                    | Some member =>
                        if negb (is_null member) then Some <$> ParseQuantity value "baseFeePerGas" else Ok None
                    | None => Ok None
                    end;
    Ok (Some (MkBlockHeader number hash parentHash timestamp baseFeePerGas)).

(** The body of the loop of [GetLogs]. *)
Definition log_of_json (encodedLog : json) : result RpcLog :=
  if negb (is_object encodedLog) then invalid_response "eth_getLogs returned a non-object entry"
  else
    topics ← match json_find "topics" encodedLog with
             | Some (JArray encodedTopics) =>
                 map_result (fun topic => ParseHash (wrapped "topic" topic) "topic") encodedTopics
             | _ => invalid_response "RPC log topics are missing or invalid"
             end;
    data ← invalid_as "invalid RPC log data: " (s ← RequireString encodedLog "data"; Decode s);
    removed ← match json_find "removed" encodedLog with
              | Some (JBool b) => Ok b
              | _ => invalid_response "RPC log removed flag is missing or invalid"
              end;
    address ← ParseAddress encodedLog "address";
    blockNumber ← ParseQuantity encodedLog "blockNumber";
    blockHash ← ParseHash encodedLog "blockHash";
    transactionHash ← ParseHash encodedLog "transactionHash";
    transactionIndex ← ParseQuantity encodedLog "transactionIndex";
    logIndex ← ParseQuantity encodedLog "logIndex";
    Ok (MkRpcLog address topics data blockNumber blockHash transactionHash transactionIndex logIndex removed).

Definition logs_of_result (value : json) : result (list RpcLog) :=
  match value with
  | JArray logs => map_result log_of_json logs
  | _ => invalid_response "eth_getLogs result is not an array"
  end.

(** What [GetTransactionReceipt] makes of the result. *)
Definition receipt_of_result (value : json) : result (option TransactionReceipt) :=
  if is_null value then Ok None
  else if negb (is_object value) then invalid_response "eth_getTransactionReceipt result is not an object"
  else
    transactionHash ← ParseHash value "transactionHash";
    blockNumber ← ParseQuantity value "blockNumber";
    blockHash ← ParseHash value "blockHash";
    status ← ParseQuantity value "status";
    gasUsed ← ParseQuantity value "gasUsed";
    effectiveGasPrice ← ParseQuantity value "effectiveGasPrice";
    Ok (Some (MkTransactionReceipt transactionHash blockNumber blockHash (negb (IsZero status)) gasUsed effectiveGasPrice)).
End Decoding.

(** ** Encoding of parameters *)

(** The members in the order of their keys. *)
Definition EncodeCall (call : TransactionCall) : json :=
  JObject ([("data", JString (Encode (tc_data call) true))]
    ++ match tc_from call with Some from => [("from", JString (AddressToHex from true))] | None => [] end
    ++ [("to", JString (AddressToHex (tc_to call) true))]
    ++ if negb (IsZero (tc_value call)) then [("value", JString (ToQuantity (tc_value call)))] else []).

Definition HashToHex (hash : Hash256) : string := EncodeArray hash true.

Definition optional_member (field : string) (value : option string) : list (string * json) :=
  match value with Some s => [(field, JString s)] | None => [] end.

(** [encodedFilter] of [GetLogs]. *)
Definition EncodeFilter (filter : LogFilter) : json :=
  JObject (optional_member "address" ((fun a => AddressToHex a true) <$> lf_address filter)
    ++ optional_member "fromBlock" (ToQuantity <$> lf_fromBlock filter)
    ++ optional_member "toBlock" (ToQuantity <$> lf_toBlock filter)
    ++ match lf_topics filter with
       | [] => []
       | topics => [("topics", JArray ((fun topic => match topic with
           | Some t => JString (HashToHex t)
           | None => JNull
           end) <$> topics))]
       end).

(** ** The client *)

Section Client.
Context {N : Type} `{HttpTransport N} `{JsonText} (boost_what : exn -> string).
(** [observer]: an observer is installed.  [client]: the position of the client's counter. *)
Context (observer : bool) (client : nat) (endpoint_ : ParsedEndpoint) (timeout_ : Z).

Abbreviation M := (prog (RpcNet N)).

Definition RunTimedOperation {A} (operation : N -> (string + A) * N) : M A := fun st =>
  let '(r, net) := operation (rn_net st) in
  let st' := MkRpcNet (rn_nextRequestId st) net in
  match r with inl message => (Throw (SystemError message), st') | inr a => (Ok a, st') end.

(** [nextRequestId_] and [nextRequestId_.fetch_add(1)] *)
Definition next_id (st : RpcNet N) : Z := default 1 (rn_nextRequestId st !! client).
Definition fetch_add : M Z := fun st =>
  let id := next_id st in
  (Ok id, MkRpcNet (<[client := u64 (id + 1)]> (rn_nextRequestId st)) (rn_net st)).

(** The [catch] clauses of [Call]. *)
Definition call_exception (e : exn) : exn :=
  match e with
  | SystemError message => RpcException Transport ("RPC transport failed: " +:+ message)
  | JsonException message => RpcException InvalidResponse ("RPC JSON handling failed: " +:+ message)
  | e => e
  end.

(** The block of the [try] in [Call]. *)
Definition exchange (requestId : Z) (request : json) : M json :=
  RunTimedOperation (http_connect (pe_host endpoint_) (pe_port endpoint_) timeout_);;
  body ← lift (dump request);
  RunTimedOperation (http_write (MkHttpRequest (pe_target endpoint_) (pe_host endpoint_ +:+ ":" +:+ pe_port endpoint_)
    "application/json" "dlp-cpp-rpc/1.0" body) timeout_);;
  response ← RunTimedOperation (http_read timeout_);
  if negb (rs_status response =? 200)
  then throw (RpcException Http ("RPC HTTP request failed with status " +:+ ToDecimal (U (rs_status response))))
  else lift (check_response requestId (rs_body response)).

Definition Call (method : string) (parameters : json) : M json :=
  requestId ← fetch_add;
  catch_all (exchange requestId (payload requestId method parameters)) (fun e => throw (call_exception e)).

Definition GetChainId : M Uint256 :=
  r ← Call "eth_chainId" (JArray []); lift (ParseQuantity boost_what (wrapped "result" r) "result").

Definition GetBlockNumber : M Uint256 :=
  r ← Call "eth_blockNumber" (JArray []);
  blockNumber ← lift (ParseQuantity boost_what (wrapped "result" r) "result");
  (if observer then lift (ToUint64 blockNumber);; mret tt else mret tt);;
  mret blockNumber.

Definition GetBlockByNumber (number : Uint256) : M (option BlockHeader) :=
  r ← Call "eth_getBlockByNumber" (JArray [JString (ToQuantity number); JBool false]);
  lift (block_of_result boost_what r).

Definition GetLogs (filter : LogFilter) : M (list RpcLog) :=
  r ← Call "eth_getLogs" (JArray [EncodeFilter filter]); lift (logs_of_result boost_what r).

Definition EthCall (call : TransactionCall) (block : string) : M Bytes :=
  r ← Call "eth_call" (JArray [EncodeCall call; JString block]); lift (ParseBytesResult boost_what r "eth_call").

Definition EstimateGas (call : TransactionCall) : M Uint256 :=
  r ← Call "eth_estimateGas" (JArray [EncodeCall call]);
  lift (ParseQuantity boost_what (wrapped "result" r) "result").

Definition GetTransactionCount (address : Address) (block : string) : M Uint256 :=
  r ← Call "eth_getTransactionCount" (JArray [JString (AddressToHex address true); JString block]);
  lift (ParseQuantity boost_what (wrapped "result" r) "result").

Definition GetMaxPriorityFeePerGas : M Uint256 :=
  r ← Call "eth_maxPriorityFeePerGas" (JArray []); lift (ParseQuantity boost_what (wrapped "result" r) "result").

Definition SendRawTransaction (rawTransaction : Bytes) : M Hash256 :=
  r ← Call "eth_sendRawTransaction" (JArray [JString (Encode rawTransaction true)]);
  lift (ParseHash boost_what (wrapped "result" r) "result").

Definition GetTransactionReceipt (transactionHash : Hash256) : M (option TransactionReceipt) :=
  r ← Call "eth_getTransactionReceipt" (JArray [JString (HashToHex transactionHash)]);
  lift (receipt_of_result boost_what r).

Definition rpc_client : RpcCalls (RpcNet N) := {|
  client_GetChainId := GetChainId;
  client_GetBlockNumber := GetBlockNumber;
  client_GetBlockByNumber := GetBlockByNumber;
  client_GetLogs := GetLogs;
  client_EthCall := EthCall;
  client_EstimateGas := EstimateGas;
  client_GetTransactionCount := GetTransactionCount;
  client_GetMaxPriorityFeePerGas := GetMaxPriorityFeePerGas;
  client_SendRawTransaction := SendRawTransaction;
  client_GetTransactionReceipt := GetTransactionReceipt
|}.
End Client.

(** ** Endpoints that parse *)

Lemma rfind_char_None c l : rfind_char c l = None <-> c ∉ l.
Proof. unfold rfind_char. by rewrite fmap_None, find_char_None, elem_of_reverse. Qed.

Lemma rfind_char_app c before after : c ∉ after -> rfind_char c (before ++ c :: after) = Some (length before).
Proof.
  intros Ha. unfold rfind_char. rewrite reverse_app, reverse_cons, <-app_assoc. cbn [app].
  rewrite find_char_app by by rewrite elem_of_reverse. cbn [fmap option_fmap option_map].
  rewrite length_app, length_reverse. cbn [length]. f_equal. lia.
Qed.

Lemma rfind_char_Some c l n :
  rfind_char c l = Some n -> exists before after, l = before ++ c :: after /\ (c ∉ after) /\ n = length before.
Proof.
  unfold rfind_char. intros (m & (before & after & E & Hb & ->)%find_char_Some & ->)%fmap_Some.
  exists (reverse after), (reverse before). rewrite <-(reverse_involutive l), E, reverse_app, reverse_cons, <-app_assoc.
  split; [done|]. rewrite elem_of_reverse. split; [done|].
  rewrite !length_app, !length_reverse. cbn [length]. lia.
Qed.

Lemma digits_no_colon port : forallb is_digit port = true -> ":"%char ∉ port.
Proof.
  intros Hd Hc. rewrite forallb_forall in Hd. apply list_elem_of_In in Hc. by specialize (Hd _ Hc).
Qed.

(** The host and the port of an authority. *)
Definition authority_of (host port authority : list ascii) : Prop :=
  host <> [] /\ (authority = host ++ ":"%char :: port /\ port <> [] /\ forallb is_digit port = true
    \/ authority = host /\ (":"%char ∉ host) /\ port = chars "80").

(** The target of the rest of an endpoint. *)
Definition target_of (target path : list ascii) : Prop :=
  path = [] /\ target = chars "/" \/ path = target /\ exists rest, target = "/"%char :: rest.

Definition endpoint_spec (endpoint : string) (p : ParsedEndpoint) : Prop := exists authority path,
  chars endpoint = chars "http://" ++ authority ++ path /\ ("/"%char ∉ authority)
  /\ authority_of (chars (pe_host p)) (chars (pe_port p)) authority /\ target_of (chars (pe_target p)) path.

(** The tests on the authority. *)
Lemma authority_split authority :
  let portPosition := rfind_char ":" authority in
  let host := match portPosition with Some n => take n authority | None => authority end in
  let port := match portPosition with Some n => drop (S n) authority | None => chars "80" end in
  bool_decide (host = []) || bool_decide (port = []) || negb (forallb is_digit port) = false ->
  authority_of host port authority.
Proof.
  cbn zeta. destruct (rfind_char ":" authority) as [n|] eqn:En.
  - apply rfind_char_Some in En as (host & port & -> & Hp & ->).
    rewrite take_app_length, drop_app_ge, Nat.sub_succ_l, Nat.sub_diag by lia. cbn [drop]. intros Hb. boolify.
    split; [done|]. by left.
  - apply rfind_char_None in En. intros Hb. boolify. split; [done|]. by right.
Qed.

Lemma authority_join host port authority :
  authority_of host port authority ->
  let portPosition := rfind_char ":" authority in
  (match portPosition with Some n => take n authority | None => authority end) = host
  /\ (match portPosition with Some n => drop (S n) authority | None => chars "80" end) = port
  /\ bool_decide (host = []) || bool_decide (port = []) || negb (forallb is_digit port) = false.
Proof.
  intros [Hh [(-> & Hp & Hd) | (-> & Hc & ->)]]; cbn zeta; rewrite (bool_decide_eq_false_2 (host = [])) by done.
  - rewrite rfind_char_app by by apply digits_no_colon.
    rewrite take_app_length, drop_app_ge, Nat.sub_succ_l, Nat.sub_diag by lia. cbn [drop].
    by rewrite bool_decide_eq_false_2, Hd by done.
  - by rewrite (proj2 (rfind_char_None _ _)).
Qed.

(** The endpoints the client accepts are exactly those of the form
    [http://host[:port][/path]] with a non-empty host and a decimal port: such a text is split into
    its parts, with port 80 and path [/] by default, and any other is refused with an
    [InvalidEndpoint] error. *)
Theorem ParseEndpoint_exact endpoint :
  (forall p, ParseEndpoint endpoint = Ok p <-> endpoint_spec endpoint p)
  /\ (forall e, ParseEndpoint endpoint = Throw e -> exists message, e = RpcException InvalidEndpoint message).
Proof.
  unfold ParseEndpoint, endpoint_spec. split.
  - intros p. split.
    + destruct (negb _) eqn:Ep; [done|]. boolify.
      assert (chars endpoint = chars "http://" ++ drop 7 (chars endpoint)) as Ec by by rewrite <-Ep, take_drop.
      set (rest := drop 7 (chars endpoint)). fold rest in Ec. cbn zeta. intros Hok. rewrite Ec.
      clear Ec Ep. clearbody rest. revert Hok. destruct (find_char "/" rest) as [n|] eqn:En.
      * apply find_char_Some in En as (authority & path & Er & Ha & ->). rewrite Er, take_app_length, drop_app_length.
        destruct (bool_decide (authority = [])); [done|]. destruct (_ || _ || _) eqn:Eb; [done|].
        apply authority_split in Eb. intros [= <-]. cbn [pe_host pe_port pe_target]. rewrite !chars_unchars.
        exists authority, ("/"%char :: path). split; [done|]. split; [done|]. split; [done|]. right.
        assert (chars (String "/" (unchars path)) = "/"%char :: path) as -> by exact (chars_unchars (_ :: path)). eauto.
      * apply find_char_None in En. destruct (bool_decide (rest = [])); [done|]. destruct (_ || _ || _) eqn:Eb; [done|].
        apply authority_split in Eb. intros [= <-]. cbn [pe_host pe_port pe_target]. rewrite !chars_unchars.
        exists rest, []. rewrite app_nil_r. split; [done|]. split; [done|]. split; [done|]. by left.
    + intros (authority & path & E & Hs & Ha & Ht). rewrite E. change 7%nat with (length (chars "http://")).
      rewrite take_app_length, drop_app_length, bool_decide_eq_true_2 by done. cbn [negb].
      assert (match find_char "/" (authority ++ path) with Some n => take n (authority ++ path) | None => authority ++ path end
          = authority /\ match find_char "/" (authority ++ path) with Some n => drop n (authority ++ path) | None => chars "/" end
          = chars (pe_target p)) as [-> ->].
      { destruct Ht as [[-> ->] | [-> [rest Er]]].
        - by rewrite app_nil_r, (proj2 (find_char_None _ _)).
        - by rewrite Er, find_char_app, take_app_length, drop_app_length. }
      destruct (authority_join _ _ _ Ha) as (-> & -> & Eb). rewrite Eb, !unchars_chars.
      rewrite bool_decide_eq_false_2; [by destruct p|]. destruct Ha as [Hh [(-> & _) | (-> & _)]]; [|done].
      by destruct (chars (pe_host p)).
  - intros e. repeat match goal with |- context [if ?b then _ else _] => destruct b end; intros [= <-]; eauto.
Qed.

(** ** Exceptions *)

Definition is_rpc (e : exn) : Prop := exists kind msg, e = RpcException kind msg.

Lemma invalid_response_throws {A} msg : throws is_rpc (@invalid_response A msg).
Proof. apply throws_Throw. by exists InvalidResponse, msg. Qed.

#[local] Hint Resolve invalid_response_throws : throws.

Definition regular (e : exn) : Prop := e <> Undefined.

Lemma storage_regular z : throws regular (storage z).
Proof. intros e [-> _]%storage_Throw. done. Qed.

Lemma nibble_regular msg c : throws regular (decode_nibble msg c).
Proof. by intros e ->%decode_nibble_throw. Qed.

Lemma FromHex_regular s : throws regular (FromHex s).
Proof.
  unfold FromHex. case_bool_decide; [by apply throws_Throw|]. destruct (_ <? _); [by apply throws_Throw|].
  apply throws_fold. intros r c. apply throws_bind; [apply storage_regular|]. intros r1.
  apply throws_bind; [apply nibble_regular|]. intros d. apply storage_regular.
Qed.

Lemma Decode_regular s : throws regular (Decode s).
Proof.
  unfold Decode. destruct (negb _); [by apply throws_Throw|].
  induction (strip_0x (chars s)) as [| |c0 c1 l IH] using list_pair_ind; cbn [decode_pairs]; [apply throws_Ok..|].
  apply throws_bind; [apply nibble_regular|]. intros d0. apply throws_bind; [apply nibble_regular|]. intros d1.
  apply throws_bind; [exact IH|]. intros rest. apply throws_Ok.
Qed.

Lemma parse_hash_regular msg s : throws regular (parse_hash msg s).
Proof.
  unfold parse_hash. apply throws_bind; [apply Decode_regular|]. intros bytes.
  destruct (negb _); [by apply throws_Throw|apply throws_Ok].
Qed.

Lemma AddressFromHex_regular s : throws regular (AddressFromHex s).
Proof.
  unfold AddressFromHex. apply throws_bind; [apply Decode_regular|]. intros bytes.
  destruct (negb _); [by apply throws_Throw|apply throws_Ok].
Qed.

Section DecodingThrows.
Context (boost_what : exn -> string).

(** A regular exception leaves a decoder as an [RpcException]. *)
Lemma invalid_as_throws {A} msg (r : result A) : throws regular r -> throws is_rpc (invalid_as boost_what msg r).
Proof using.
  intros Hr e. destruct r as [a|e']; [done|]. specialize (Hr e' eq_refl). unfold is_rpc.
  destruct e'; cbn [invalid_as]; first [by destruct Hr|intros [= <-]; eauto].
Qed.

Lemma RequireString_regular value field : throws regular (RequireString value field).
Proof using.
  unfold RequireString. destruct (json_find field value) as [[]|]; first [apply throws_Ok|by apply throws_Throw].
Qed.

Lemma ParseQuantity_throws value field : throws is_rpc (ParseQuantity boost_what value field).
Proof using.
  apply invalid_as_throws, throws_bind; [apply RequireString_regular|]. intros s. apply FromHex_regular.
Qed.

Lemma ParseHash_throws value field : throws is_rpc (ParseHash boost_what value field).
Proof using.
  apply invalid_as_throws, throws_bind; [apply RequireString_regular|]. intros s. apply parse_hash_regular.
Qed.

Lemma ParseAddress_throws value field : throws is_rpc (ParseAddress boost_what value field).
Proof using.
  apply invalid_as_throws, throws_bind; [apply RequireString_regular|]. intros s. apply AddressFromHex_regular.
Qed.

Hint Resolve ParseQuantity_throws ParseHash_throws ParseAddress_throws : throws.

Lemma ParseBytesResult_throws value method : throws is_rpc (ParseBytesResult boost_what value method).
Proof using.
  unfold ParseBytesResult. destruct value; try apply invalid_response_throws.
  apply invalid_as_throws, Decode_regular.
Qed.

Lemma block_of_result_throws value : throws is_rpc (block_of_result boost_what value).
Proof using.
  unfold block_of_result. destruct (is_null value); [apply throws_Ok|].
  destruct (negb (is_object value)); [apply invalid_response_throws|]. throwing.
  destruct (json_find _ _) as [member|]; [|auto with throws]. destruct (negb _); auto with throws.
Qed.

Lemma log_of_json_throws value : throws is_rpc (log_of_json boost_what value).
Proof using.
  unfold log_of_json. destruct (negb (is_object value)); [apply invalid_response_throws|].
  apply throws_bind; [destruct (json_find _ _) as [[]|]; auto with throws|]. intros topics.
  apply throws_bind; [apply invalid_as_throws, throws_bind; [apply RequireString_regular|apply Decode_regular]|]. intros data.
  apply throws_bind; [destruct (json_find _ _) as [[]|]; auto with throws|]. intros removed. throwing.
Qed.

Lemma logs_of_result_throws value : throws is_rpc (logs_of_result boost_what value).
Proof using.
  unfold logs_of_result. destruct value; try apply invalid_response_throws. apply throws_map, log_of_json_throws.
Qed.

Lemma receipt_of_result_throws value : throws is_rpc (receipt_of_result boost_what value).
Proof using.
  unfold receipt_of_result. destruct (is_null value); [apply throws_Ok|].
  destruct (negb (is_object value)); [apply invalid_response_throws|]. throwing.
Qed.
End DecodingThrows.

(** ** Calls *)

(** The response to request [requestId] that carries the result [r]. *)
Definition is_answer (requestId : Z) (r : json) (response : json) : Prop := exists fields id,
  response = JObject fields /\ find_member "jsonrpc" fields = Some (JString "2.0")
  /\ find_member "id" fields = Some (JNumber id) /\ u64 id = requestId
  /\ (forall error, find_member "error" fields = Some error -> error = JNull)
  /\ find_member "result" fields = Some r.

Lemma is_null_true value : is_null value = true <-> value = JNull.
Proof. by destruct value. Qed.

Lemma check_response_Ok `{JsonText} requestId body r :
  check_response requestId body = Ok r <-> exists response, parse body = Ok response /\ is_answer requestId r response.
Proof.
  unfold check_response, is_answer. split.
  - destruct (parse body) as [[| | | | |fields]|]; try discriminate. cbn [json_value json_find].
    destruct (find_member "jsonrpc" fields) as [[| | |version| |]|] eqn:Ev; try discriminate. cbn [get_string]. rewrite bind_Ok.
    case_bool_decide as Hv; cbn [negb]; [|discriminate]. subst version.
    destruct (find_member "id" fields) as [[| |id| | |]|] eqn:Ei; try discriminate. cbn [id_matches].
    destruct (u64 id =? requestId) eqn:Eid; cbn [negb]; [|discriminate]. apply Z.eqb_eq in Eid.
    destruct (find_member "error" fields) as [error|] eqn:Ee.
    + destruct (is_null error) eqn:En; cbn [negb]; [|intros Hx; apply bind_Ok_inv in Hx as ([] & Hx & _); by apply bind_Ok_inv in Hx as (? & _ & ?)].
      apply is_null_true in En as ->. rewrite bind_Ok. destruct (find_member "result" fields) eqn:Er; intros [= ->].
      exists (JObject fields). split; [done|]. exists fields, id. repeat split; try done. congruence.
    + rewrite bind_Ok. destruct (find_member "result" fields) eqn:Er; intros [= ->].
      exists (JObject fields). split; [done|]. exists fields, id. repeat split; try done. congruence.
  - intros (response & -> & fields & id & -> & Ev & Ei & Eid & Ee & Er). cbn [json_value json_find].
    rewrite Ev. cbn [get_string]. rewrite bind_Ok, Ei, Er, bool_decide_eq_true_2 by done. cbn [id_matches]. cbn [negb].
    rewrite Eid, Z.eqb_refl. cbn [negb].
    destruct (find_member "error" fields) as [error|]; [rewrite (Ee error eq_refl); cbn [is_null negb]|]; by rewrite bind_Ok.
Qed.

Lemma json_value_throws key fallback object : throws (fun e => exists m, e = JsonException m) (json_value key fallback object).
Proof.
  unfold json_value. destruct object; try (apply throws_Throw; eauto).
  destruct (find_member key fields) as [[]|]; first [apply throws_Ok|apply throws_Throw; eauto].
Qed.

Definition rpc_or_json (e : exn) : Prop := is_rpc e \/ exists m, e = JsonException m.

Lemma check_response_throws `{JsonText} requestId body : throws rpc_or_json (check_response requestId body).
Proof.
  assert (forall A kind msg, throws rpc_or_json (@Throw A (RpcException kind msg))) as Hrpc.
  { intros A kind msg. apply throws_Throw. left. by exists kind, msg. }
  assert (forall key fallback object, throws rpc_or_json (json_value key fallback object)) as Hvalue.
  { intros. eapply throws_weaken; [apply json_value_throws|]. by right. }
  unfold check_response, invalid_response. destruct (parse body) as [[| | | | |fields]|]; auto.
  apply throws_bind; [done|]. intros version. destruct (negb _); [done|]. destruct (json_find "id" _) as [id|]; [|done].
  destruct (negb _); [done|]. apply throws_bind.
  - destruct (json_find "error" _) as [error|]; [|apply throws_Ok]. destruct (negb _); [|apply throws_Ok].
    by apply throws_bind.
  - intros _. destruct (json_find "result" _); [apply throws_Ok|done].
Qed.

Section Calls.
Context {N : Type} `{HttpTransport N} `{JsonText} (boost_what : exn -> string).
Context (client : nat) (endpoint : ParsedEndpoint) (timeout : Z).

(** The texts [dump] refuses. *)
Definition dump_throws_json : Prop := forall value, throws (fun e => exists m, e = JsonException m) (dump value).

(** No other exception leaves a call. *)
Definition only_rpc {A} (m : prog (RpcNet N) A) : Prop := forall st, wp m (fun _ _ => True) (fun e _ => is_rpc e) st.

Lemma wp_RunTimedOperation {A} (operation : N -> (string + A) * N) Q E st :
  (forall a net, operation (rn_net st) = (inr a, net) -> Q a (MkRpcNet (rn_nextRequestId st) net)) ->
  (forall message net, operation (rn_net st) = (inl message, net) ->
     E (SystemError message) (MkRpcNet (rn_nextRequestId st) net)) ->
  wp (RunTimedOperation operation) Q E st.
Proof using. unfold wp, RunTimedOperation. destruct (operation (rn_net st)) as [[message|a] net]; auto. Qed.

Lemma exchange_throws requestId request st :
  dump_throws_json ->
  wp (exchange endpoint timeout requestId request) (fun _ _ => True)
    (fun e _ => rpc_or_json e \/ exists message, e = SystemError message) st.
Proof using.
  intros Hd. unfold exchange. apply wp_bind, wp_RunTimedOperation; [|by eauto]. intros [] net1 _.
  apply wp_bind, wp_lift; [|intros e He; left; right; by eapply Hd]. intros body _.
  apply wp_bind, wp_RunTimedOperation; [|by eauto]. intros [] net2 _.
  apply wp_bind, wp_RunTimedOperation; [|by eauto]. intros response net3 _.
  apply wp_if; intros _.
  - apply wp_throw. left. left. unfold is_rpc. eauto.
  - apply wp_lift; [done|]. intros e He. left. by eapply check_response_throws.
Qed.

Lemma Call_throws method parameters : dump_throws_json -> only_rpc (Call client endpoint timeout method parameters).
Proof using.
  intros Hd st. unfold Call. apply wp_bind. unfold wp at 1. cbn [fetch_add]. apply wp_catch_all.
  eapply wp_mono; [by apply exchange_throws|done|]. intros e st' He. apply wp_throw. unfold is_rpc.
  destruct He as [[(kind & msg & ->) | (m & ->)] | (m & ->)]; cbn [call_exception]; eauto.
Qed.

Lemma only_rpc_lift {A B} (m : prog (RpcNet N) A) (k : A -> result B) :
  only_rpc m -> (forall a, throws is_rpc (k a)) -> only_rpc (a ← m; lift (k a)).
Proof using.
  intros Hm Hk st. apply wp_bind. eapply wp_mono; [apply Hm| |done]. intros a st' _.
  apply wp_lift; [done|]. intros e He. by eapply Hk.
Qed.
End Calls.

(** The exceptions of the client: over any transport, answering anything, a call of a client returns or
    throws an [RpcException], provided that [dump] throws only the library's exceptions;
    the one exception to this is the overflow error of [GetBlockNumber] while an
    observer is installed.  A failed connection, write or read is a [Transport] error. *)
Theorem calls_throw_rpc {N} `{HttpTransport N} `{JsonText} boost_what observer client endpoint timeout :
  dump_throws_json ->
  let calls := @rpc_client N _ _ boost_what observer client endpoint timeout in
  only_rpc (@client_GetChainId _ calls)
  /\ (forall st, wp (@client_GetBlockNumber _ calls) (fun _ _ => True) (fun e _ => is_rpc e
        \/ observer = true /\ e = OverflowError "uint256 value does not fit in uint64") st)
  /\ (forall number, only_rpc (@client_GetBlockByNumber _ calls number))
  /\ (forall filter, only_rpc (@client_GetLogs _ calls filter))
  /\ (forall call block, only_rpc (@client_EthCall _ calls call block))
  /\ (forall call, only_rpc (@client_EstimateGas _ calls call))
  /\ (forall address block, only_rpc (@client_GetTransactionCount _ calls address block))
  /\ only_rpc (@client_GetMaxPriorityFeePerGas _ calls)
  /\ (forall raw, only_rpc (@client_SendRawTransaction _ calls raw))
  /\ (forall hash, only_rpc (@client_GetTransactionReceipt _ calls hash)).
Proof.
  intros Hd calls. assert (forall method parameters, only_rpc (Call client endpoint timeout method parameters)) as Hcall
    by (intros; by apply Call_throws).
  split; [|split]; [| |repeat split; intros].
  - apply only_rpc_lift; auto using ParseQuantity_throws.
  - intros st. cbn. unfold GetBlockNumber. apply wp_bind. eapply wp_mono; [apply Hcall| |by auto]. intros r st' _.
    apply wp_bind, wp_lift; [|intros e He; left; by eapply ParseQuantity_throws]. intros number _.
    apply wp_bind, wp_if; [|by intros _; apply wp_ret]. intros ->. apply wp_bind, wp_lift; [done|].
    unfold ToUint64. intros e He. right. by destruct (_ <? _); simplify_eq.
  - apply only_rpc_lift; auto using block_of_result_throws.
  - apply only_rpc_lift; auto using logs_of_result_throws.
  - apply only_rpc_lift; auto using ParseBytesResult_throws.
  - apply only_rpc_lift; auto using ParseQuantity_throws.
  - apply only_rpc_lift; auto using ParseQuantity_throws.
  - apply only_rpc_lift; auto using ParseQuantity_throws.
  - apply only_rpc_lift; auto using ParseHash_throws.
  - apply only_rpc_lift; auto using receipt_of_result_throws.
Qed.

(** A transport on which nothing listens. *)
Definition dead_transport : HttpTransport unit := {|
  http_connect host port timeout net := (inl "Connection refused", net);
  http_write request timeout net := (inl "not connected", net);
  http_read timeout net := (inl "not connected", net)
|}.

Lemma calls_throw_rpc_witness :
  let calls := @rpc_client unit dead_transport coded_json (fun _ => "") false 0 (MkParsedEndpoint "node" "80" "/") 5000 in
  only_rpc (@client_GetChainId _ calls)
  /\ fst (@client_GetChainId _ calls (MkRpcNet ∅ tt))
     = Throw (RpcException Transport "RPC transport failed: Connection refused").
Proof.
  split; [|reflexivity].
  apply (@calls_throw_rpc unit dead_transport coded_json). by intros value e [=].
Defined.

(** The exchange behind a result: what was sent for the call and what came back. *)
Definition exchanged {N} `{HttpTransport N} `{JsonText} endpoint timeout requestId method parameters (net : N) r (net' : N) : Prop :=
  exists net1 net2 text request response value,
    http_connect (pe_host endpoint) (pe_port endpoint) timeout net = (inr tt, net1)
    /\ dump (payload requestId method parameters) = Ok text
    /\ rq_body request = text /\ rq_target request = pe_target endpoint
    /\ http_write request timeout net1 = (inr tt, net2)
    /\ http_read timeout net2 = (inr response, net')
    /\ rs_status response = 200 /\ parse (rs_body response) = Ok value /\ is_answer requestId r value.

(** A result answers its request: when a call returns a result, the node was sent the method with its
    parameters under the client's next request number, and answered with status 200 and a
    JSON-RPC 2.0 object of that number, without an error, that carries this result.  The
    number is used up. *)
Theorem result_answers_request {N} `{HttpTransport N} `{JsonText} client endpoint timeout method parameters (st : RpcNet N) :
  wp (Call client endpoint timeout method parameters)
    (fun r st' => next_id client st' = u64 (next_id client st + 1)
      /\ exchanged endpoint timeout (next_id client st) method parameters (rn_net st) r (rn_net st'))
    (fun _ st' => next_id client st' = u64 (next_id client st + 1)) st.
Proof.
  assert (default 1 (<[client := u64 (next_id client st + 1)]> (rn_nextRequestId st) !! client)
    = u64 (next_id client st + 1)) as Hid by by rewrite lookup_insert_eq.
  unfold Call. apply wp_bind. unfold wp at 1. cbn [fetch_add]. apply wp_catch_all. unfold exchange.
  apply wp_bind, wp_RunTimedOperation; [|intros; apply wp_throw, Hid]. intros [] net1 E1.
  apply wp_bind, wp_lift; [|intros; apply wp_throw, Hid]. intros text Et.
  apply wp_bind, wp_RunTimedOperation; [|intros; apply wp_throw, Hid]. intros [] net2 E2.
  apply wp_bind, wp_RunTimedOperation; [|intros; apply wp_throw, Hid]. intros response net3 E3.
  apply wp_if; intros Hs; [apply wp_throw, wp_throw, Hid|]. boolify. apply wp_lift; [|intros; apply wp_throw, Hid].
  intros r (value & Ep & Ha)%check_response_Ok. split; [apply Hid|].
  match type of E2 with http_write ?request _ _ = _ => by exists net1, net2, text, request, response, value end.
Qed.
