(* ===== verification/Metrics.v ===== *)
(** * Metrics: what a service shows of itself ([Metrics.hpp], [Metrics.cpp], [RpcMetrics.cpp])

    The registry of the prometheus library is the class [Prometheus].  A service serves it over
    HTTP, with its health and whether it is ready; the handler is modelled from the request
    that was read to the response that is written.  [RpcMetrics] is the observer of the
    calls of [RpcClient]. *)

From S2P Require Import Prelude Effects Text Json Uint256 Hex RpcTypes RpcEndpoints RpcClient.
Set Default Goal Selector "!".
#[local] Open Scope Z_scope.

(** ** The library *)

Inductive MetricKind := Counter | Gauge | Histogram.

(** A registry of metrics under their names; its values are doubles.  [register] is the builder of a metric, with its
    name and its help. *)
Class Prometheus (P : Type) := {
  register : MetricKind -> string -> string -> P -> P;
  double : Type;
  (** [static_cast<double>] of a [std::uint64_t] *)
  double_of : Z -> double;
  double_eqb : double -> double -> bool;
  counter_Increment : string -> double -> P -> P;
  counter_Value : string -> P -> double;
  gauge_Set : string -> double -> P -> P;
  gauge_Value : string -> P -> double;
  histogram_Observe : string -> double -> P -> P;
  TextSerializer : P -> string
}.

(** A gauge holds what was set last; the other operations leave it. *)
Class LawfulPrometheus (P : Type) `{Prometheus P} := {
  law_gauge_register kind name help name' p : gauge_Value name' (register kind name help p) = gauge_Value name' p;
  law_gauge name value p : gauge_Value name (gauge_Set name value p) = value;
  law_gauge_other name name' value p : name' <> name -> gauge_Value name' (gauge_Set name value p) = gauge_Value name' p;
  law_gauge_increment name name' value p : gauge_Value name' (counter_Increment name value p) = gauge_Value name' p;
  law_gauge_observe name name' value p : gauge_Value name' (histogram_Observe name value p) = gauge_Value name' p;
  law_counter_set name name' value p : counter_Value name' (gauge_Set name value p) = counter_Value name' p;
  law_counter_observe name name' value p : counter_Value name' (histogram_Observe name value p) = counter_Value name' p;
  law_counter_other name name' value p : name' <> name -> counter_Value name' (counter_Increment name value p) = counter_Value name' p;
  (** Below 2^53 a double counts exactly. *)
  law_counter name n value p : 0 <= n -> 0 <= value -> n + value < 2 ^ 53 -> counter_Value name p = double_of n ->
    counter_Value name (counter_Increment name (double_of value) p) = double_of (n + value);
  law_ready : double_eqb (double_of 1) (double_of 1) = true;
  law_not_ready : double_eqb (double_of 0) (double_of 1) = false
}.

Section Metrics.
Context {P : Type} `{Prometheus P}.

(** ** [ServiceMetrics] *)

(** [AddCounter], [AddGauge] and [AddHistogram], one after the other. *)
Definition add_metrics (metrics : list (MetricKind * string * string)) (p : P) : P :=
  foldl (fun p '(kind, name, help) => register kind name help p) p metrics.

(** The constructor, once the port is bound. *)
Definition new_registry (p : P) : P :=
  gauge_Set "service_health" (double_of 1) (add_metrics [
    (Gauge, "service_health", "Whether the service process is healthy");
    (Gauge, "service_ready", "Whether the service has completed initialization")] p).
Definition SetReady (ready : bool) : P -> P := gauge_Set "service_ready" (double_of (if ready then 1 else 0)).
Definition is_ready (p : P) : bool := double_eqb (gauge_Value "service_ready" p) (double_of 1).

(** The request as it is read, with its version; [None] for an error. *)
Record MetricsRequest := MkMetricsRequest { mq_get : bool; mq_target : string; mq_version : Z }.
Record MetricsResponse := MkMetricsResponse {
  mr_status : Z;
  mr_version : Z;
  mr_content_type : string;
  mr_body : string
}.

(** A body [{"status":"..."}] *)
Definition quotation : string := String (Ascii.ascii_of_nat 34) "".
Definition status_body (status : string) : string :=
  "{" +:+ quotation +:+ "status" +:+ quotation +:+ ":" +:+ quotation +:+ status +:+ quotation +:+ "}".
Definition line (text : string) : string := text +:+ String (Ascii.ascii_of_nat 10) "".

Definition Serve (request : option MetricsRequest) (p : P) : option MetricsResponse :=
  match request with
  | None => None
  | Some (MkMetricsRequest get target version) =>
      Some (
        if negb get then MkMetricsResponse 405 version "text/plain" (line "method not allowed")
        else if bool_decide (target = "/metrics") then
          MkMetricsResponse 200 version "text/plain; version=0.0.4; charset=utf-8" (TextSerializer p)
        else if bool_decide (target = "/health") then
          MkMetricsResponse 200 version "application/json" (status_body "healthy")
        else if bool_decide (target = "/ready") then
          let ready := is_ready p in
          MkMetricsResponse (if ready then 200 else 503) version "application/json"
            (status_body (if ready then "ready" else "starting"))
        else MkMetricsResponse 404 version "text/plain" (line "not found"))
  end.

(** ** [RpcMetrics] *)

(** The constructor. *)
Definition RpcMetrics : P -> P := add_metrics [
  (Counter, "rpc_requests_total", "Total Ethereum RPC requests");
  (Counter, "rpc_errors_total", "Total failed Ethereum RPC requests");
  (Histogram, "rpc_request_duration_seconds", "Ethereum RPC request duration in seconds");
  (Gauge, "rpc_block_height", "Latest Ethereum block height returned by RPC");
  (Counter, "rpc_failovers_total", "Total successful RPC endpoint failovers");
  (Counter, "rpc_broadcast_success_total", "Total transactions successfully broadcast to at least one RPC endpoint")].

Definition Observe (duration : double) (succeeded : bool) (p : P) : P :=
  let p := counter_Increment "rpc_requests_total" (double_of 1) p in
  let p := if negb succeeded then counter_Increment "rpc_errors_total" (double_of 1) p else p in
  histogram_Observe "rpc_request_duration_seconds" duration p.
Definition ObserveBlockHeight (blockHeight : Z) : P -> P := gauge_Set "rpc_block_height" (double_of blockHeight).
Definition ObserveFailover : P -> P := counter_Increment "rpc_failovers_total" (double_of 1).
Definition ObserveBroadcastSuccess : P -> P := counter_Increment "rpc_broadcast_success_total" (double_of 1).

(** ** The observed client *)

(** [Call] with its [RpcObservation]: the observer is told when the call is left, that it succeeded
    when it returned.  [duration] is what the clock measured. *)
Definition observed_Call {N} `{HttpTransport N} `{JsonText} (client : nat) (endpoint : ParsedEndpoint) (timeout : Z)
    (duration : double) (method : string) (parameters : json) : prog (RpcNet N * P) json := fun '(net, p) =>
  let '(r, net) := Call client endpoint timeout method parameters net in
  (r, (net, Observe duration (is_ok r) p)).

(** [GetBlockNumber], which reports the height. *)
Definition observed_GetBlockNumber {N} `{HttpTransport N} `{JsonText} (boost_what : exn -> string) (client : nat)
    (endpoint : ParsedEndpoint) (timeout : Z) (duration : double) : prog (RpcNet N * P) Uint256 :=
  r ← observed_Call client endpoint timeout duration "eth_blockNumber" (JArray []);
  blockNumber ← lift (ParseQuantity boost_what (wrapped "result" r) "result");
  height ← lift (ToUint64 blockNumber);
  modify (fun '(net, p) => (net, ObserveBlockHeight height p));;
  mret blockNumber.
End Metrics.

(** ** Properties *)

Section Properties.
Context {P : Type} `{LawfulPrometheus P}.

Lemma is_ready_SetReady ready p : is_ready (SetReady ready p) = ready.
Proof using H0. unfold is_ready, SetReady. rewrite law_gauge. destruct ready; [apply law_ready|apply law_not_ready]. Qed.

Lemma gauge_add_metrics name metrics (p : P) : gauge_Value name (add_metrics metrics p) = gauge_Value name p.
Proof using H0.
  unfold add_metrics. revert p. induction metrics as [|[[kind n] help] metrics IH]; intros p; [done|]. cbn [foldl].
  by rewrite IH, law_gauge_register.
Qed.

(** The registry with these totals of requests and errors. *)
Definition totals (requests errors : Z) (p : P) : Prop :=
  counter_Value "rpc_requests_total" p = double_of requests /\ counter_Value "rpc_errors_total" p = double_of errors.

Lemma totals_Observe requests errors duration succeeded p :
  0 <= requests -> 0 <= errors -> requests + 1 < 2 ^ 53 -> errors + 1 < 2 ^ 53 -> totals requests errors p ->
  totals (requests + 1) (errors + if (succeeded : bool) then 0 else 1) (Observe duration succeeded p).
Proof using H0.
  intros Hr He Hr' He' [Er Ee]. unfold Observe, totals. rewrite !law_counter_observe.
  destruct succeeded; cbn [negb]; rewrite ?Z.add_0_r; repeat first [rewrite law_counter_other by done | split].
  - by apply law_counter.
  - exact Ee.
  - by apply law_counter.
  - apply law_counter; [done|done|done|]. by rewrite law_counter_other.
Qed.
End Properties.

(** ** Histories of calls *)

Section Histories.
Context {P N : Type} `{LawfulPrometheus P} `{HttpTransport N} `{JsonText}.
Context (client : nat) (endpoint : ParsedEndpoint) (timeout : Z).

(** The results of these calls, whether they return or throw, and the state they leave; without and with
    the observer. *)
Fixpoint plain_calls (calls : list (string * json)) (net : RpcNet N) : list (result json) * RpcNet N :=
  match calls with
  | [] => ([], net)
  | (method, parameters) :: calls =>
      let '(r, net) := Call client endpoint timeout method parameters net in
      let '(results, net) := plain_calls calls net in (r :: results, net)
  end.
Fixpoint observed_calls (calls : list (string * json * double)) (st : RpcNet N * P) : list (result json) * (RpcNet N * P) :=
  match calls with
  | [] => ([], st)
  | (method, parameters, duration) :: calls =>
      let '(r, st) := observed_Call client endpoint timeout duration method parameters st in
      let '(results, st) := observed_calls calls st in (r :: results, st)
  end.

(** How many of these results are exceptions. *)
Definition failures (results : list (result json)) : Z := Z.of_nat (length (filter (fun r => is_ok r = false) results)).

Lemma failures_cons r results : failures (r :: results) = (if is_ok r then 0 else 1) + failures results.
Proof using.
  unfold failures. rewrite filter_cons. destruct (decide (is_ok r = false)) as [->|Hn]; [cbn [length]; lia|].
  by destruct (is_ok r).
Qed.

Lemma failures_nonnegative results : 0 <= failures results.
Proof using. unfold failures. lia. Qed.

Lemma observed_calls_spec calls net p requests errors results net' :
  plain_calls (calls.*1) net = (results, net') -> 0 <= requests -> 0 <= errors ->
  requests + Z.of_nat (length calls) < 2 ^ 53 -> errors + Z.of_nat (length calls) < 2 ^ 53 -> totals requests errors p ->
  exists p', observed_calls calls (net, p) = (results, (net', p'))
    /\ totals (requests + Z.of_nat (length calls)) (errors + failures results) p'.
Proof using H0.
  revert net p requests errors results net'. induction calls as [|[[method parameters] duration] calls IH];
    intros net p requests errors results net' E Hr He Hr' He' Ht; cbn [fmap list_fmap plain_calls fst observed_calls length] in *.
  { injection E as <- <-. exists p. by rewrite !Z.add_0_r. }
  unfold observed_Call. destruct (Call client endpoint timeout method parameters net) as [r net1].
  destruct (plain_calls (calls.*1) net1) as [results1 net2] eqn:E1. injection E as <- <-.
  pose proof (totals_Observe requests errors duration (is_ok r) p Hr He ltac:(lia) ltac:(lia) Ht) as Ht1.
  destruct (IH net1 (Observe duration (is_ok r) p) (requests + 1) (errors + if is_ok r then 0 else 1) results1 net2) as (p' & -> & Ht');
    [done|lia|destruct (is_ok r); lia|lia|destruct (is_ok r); lia|exact Ht1|].
  exists p'. split; [done|]. rewrite failures_cons.
  by replace (requests + Z.of_nat (S (length calls))) with (requests + 1 + Z.of_nat (length calls)) by lia;
    replace (errors + ((if is_ok r then 0 else 1) + failures results1)) with (errors + (if is_ok r then 0 else 1) + failures results1) by lia.
Qed.
End Histories.

(** Every call of the client is counted, and those that throw are counted as errors, whatever they throw; the
    observer changes neither the results nor the requests that are sent. *)
Theorem calls_counted {P N} `{LawfulPrometheus P} `{HttpTransport N} `{JsonText} client endpoint timeout
    (calls : list (string * json * double)) (net : RpcNet N) (p : P) results net' :
  plain_calls client endpoint timeout (calls.*1) net = (results, net') ->
  Z.of_nat (length calls) < 2 ^ 53 -> totals 0 0 p ->
  exists p', observed_calls client endpoint timeout calls (net, p) = (results, (net', p'))
    /\ totals (Z.of_nat (length results)) (failures results) p'.
Proof.
  intros E Hl Ht. destruct (observed_calls_spec client endpoint timeout calls net p 0 0 results net') as (p' & Eo & Ht');
    [done|lia|lia|lia|lia|done|]. exists p'. split; [done|].
  assert (length results = length calls) as ->; [|exact Ht'].
  clear -E. revert net results net' E. induction calls as [|[[method parameters] duration] calls IH]; intros net results net' E;
    cbn [fmap list_fmap plain_calls fst] in E; [by injection E as <- _|].
  destruct (Call client endpoint timeout method parameters net) as [r net1].
  destruct (plain_calls client endpoint timeout (calls.*1) net1) as [results1 net2] eqn:E1. injection E as <- _.
  cbn [length]. by rewrite (IH _ _ _ E1).
Qed.

(** A registry that is a map, with doubles that are integers. *)
Record DemoRegistry := MkDemoRegistry { dr_counters : gmap string Z; dr_gauges : gmap string Z }.

#[global] Instance demo_prometheus : Prometheus DemoRegistry := {
  register _ _ _ p := p;
  double := Z;
  double_of z := z;
  double_eqb := Z.eqb;
  counter_Increment name value p := MkDemoRegistry (<[name := default 0 (dr_counters p !! name) + value]> (dr_counters p)) (dr_gauges p);
  counter_Value name p := default 0 (dr_counters p !! name);
  gauge_Set name value p := MkDemoRegistry (dr_counters p) (<[name := value]> (dr_gauges p));
  gauge_Value name p := default 0 (dr_gauges p !! name);
  histogram_Observe _ _ p := p;
  TextSerializer _ := ""
}.

Lemma demo_prometheus_lawful : LawfulPrometheus DemoRegistry.
Proof.
  split; cbn; intros; try done.
  - by rewrite lookup_insert_eq.
  - by rewrite lookup_insert_ne.
  - by rewrite lookup_insert_ne.
  - by subst; rewrite lookup_insert_eq; cbn.
Qed.
