(* ===== verification/Failover.v ===== *)
(** * Failover: trying the endpoints in turn

    The loop that [RpcChainClient::Impl::Execute] and [RpcTransactionClient::Impl::ExecuteFrom]
    share: beginning with one endpoint, each is validated and asked until one answers, and that
    one becomes the active endpoint.  An attempt that throws may leave changes behind. *)

From S2P Require Import Prelude Effects.
Set Default Goal Selector "!".
#[local] Open Scope Z_scope.

Section Failover.
Context {St A : Type}.
Context (validate : nat -> prog St unit) (operation : nat -> prog St A) (set_active : nat -> St -> St).

(** The block of the [try]. *)
Definition attempt (index : nat) : prog St A :=
  validate index;;
  result ← operation index;
  modify (set_active index);;
  mret result.

(** The loop over the remaining endpoints; [last] is [lastFailure]. *)
Fixpoint attempts (order : list nat) (last : exn) : prog St A :=
  match order with
  | [] => throw last
  | index :: order => catch_all (attempt index) (attempts order)
  end.

(** The indices [(start + offset) % size]. *)
Definition ring (start size : nat) : list nat := (fun offset => (start + offset) mod size)%nat <$> seq 0 size.

(** Rethrowing the null pointer [lastFailure] starts with is undefined. *)
Definition ExecuteFrom (start size : nat) : prog St A := attempts (ring start size) Undefined.

(** ** Properties *)

(** Attempts that all threw. *)
Inductive tried : list nat -> St -> St -> Prop :=
| tried_nil st : tried [] st st
| tried_cons index order e st st1 st2 :
    attempt index st = (Throw e, st1) -> tried order st1 st2 -> tried (index :: order) st st2.

Lemma attempts_spec order last st :
  match attempts order last st with
  | (Ok a, st') => exists before index after st1,
      order = before ++ index :: after /\ tried before st st1 /\ attempt index st1 = (Ok a, st')
  | (Throw e, st') => tried order st st' /\ (e = last \/ exists index st1 st2, index ∈ order /\ attempt index st1 = (Throw e, st2))
  end.
Proof using.
  revert last st. induction order as [|index order IH]; intros last st; cbn [attempts].
  - cbn. split; [constructor|by left].
  - unfold catch_all. destruct (attempt index st) as [[a|e] st1] eqn:Ea.
    + exists [], index, order, st. split; [done|]. split; [constructor|done].
    + specialize (IH e st1). destruct (attempts order e st1) as [[a|e'] st'].
      * destruct IH as (before & i & after & st2 & -> & Ht & Ei). exists (index :: before), i, after, st2.
        split; [done|]. split; [by econstructor|done].
      * destruct IH as [Ht Hl]. split; [by econstructor|]. right.
        destruct Hl as [-> | (i & s1 & s2 & Hi & Ei)].
        -- exists index, st, st1. split; [apply list_elem_of_here|done].
        -- exists i, s1, s2. split; [by apply list_elem_of_further|done].
Qed.

(** One endpoint that answers is enough, when no attempt leaves the invariant. *)
Lemma attempts_live (J : St -> Prop) (Q : A -> St -> Prop) order last st good :
  good ∈ order -> J st ->
  (forall index st, index ∈ order -> J st -> wp (attempt index) Q (fun _ => J) st) ->
  (forall st, J st -> wp (attempt good) Q (fun _ _ => False) st) ->
  wp (attempts order last) Q (fun _ _ => False) st.
Proof using.
  intros Hg HJ Hall Hgood. revert last st HJ. induction order as [|index order IH]; intros last st HJ.
  { by apply not_elem_of_nil in Hg. }
  cbn [attempts]. apply wp_catch_all. destruct (decide (index = good)) as [->|Hne].
  - eapply wp_mono; [by apply Hgood|done|]. by intros ? ? [].
  - eapply wp_mono; [apply Hall; [apply list_elem_of_here|done]|done|].
    intros e st1 HJ1. apply elem_of_cons in Hg as [->|Hg]; [done|].
    apply IH; [done| |done]. intros i st2 Hi. apply Hall. by apply list_elem_of_further.
Qed.

Lemma elem_of_ring start size index : (index < size)%nat -> (start < size)%nat -> index ∈ ring start size.
Proof using.
  intros Hi Hs. unfold ring. apply list_elem_of_fmap. destruct (decide (start <= index)%nat).
  - exists (index - start)%nat. split; [|apply elem_of_seq; lia].
    replace (start + (index - start))%nat with index by lia. symmetry. by apply Nat.mod_small.
  - exists (size + index - start)%nat. split; [|apply elem_of_seq; lia].
    replace (start + (size + index - start))%nat with (index + 1 * size)%nat by lia.
    rewrite Nat.Div0.mod_add. symmetry. by apply Nat.mod_small.
Qed.

Lemma ring_range start size index : index ∈ ring start size -> (index < size)%nat.
Proof using.
  unfold ring. intros (offset & -> & Ho%elem_of_seq)%list_elem_of_fmap. apply Nat.mod_upper_bound. lia.
Qed.

Lemma ring_head start size : (start < size)%nat -> exists rest, ring start size = start :: rest.
Proof using.
  intros Hs. unfold ring. destruct size as [|size]; [lia|]. cbn [seq fmap list_fmap].
  rewrite Nat.add_0_r, Nat.mod_small by done. eauto.
Qed.

Lemma ExecuteFrom_live (J : St -> Prop) (Q : A -> St -> Prop) start size st good :
  (start < size)%nat -> (good < size)%nat -> J st ->
  (forall index st, (index < size)%nat -> J st -> wp (attempt index) Q (fun _ => J) st) ->
  (forall st, J st -> wp (attempt good) Q (fun _ _ => False) st) ->
  wp (ExecuteFrom start size) Q (fun _ _ => False) st.
Proof using.
  intros Hs Hg HJ Hall Hgood. apply (attempts_live J Q _ _ _ good); [by apply elem_of_ring|done| |done].
  intros index st' Hi. apply Hall. by eapply ring_range.
Qed.
End Failover.
