(* ===== verification/IndexerTypes.v ===== *)
(** * IndexerTypes: the data of the indexer ([IndexerTypes.hpp]) and the event decoder
    ([EventDecoder.cpp]) *)

From S2P Require Import Prelude Text Uint256 Hex Abi.
Set Default Goal Selector "!".
#[local] Open Scope Z_scope.

Record ChainContracts := MkChainContracts {
  cc_pool : Address;
  cc_oracle : Address;
  cc_weth : Address;
  cc_usdc : Address
}.

Record IndexedBlock := MkIndexedBlock {
  ib_chainId : Uint256;
  ib_number : Z;
  ib_hash : Hash256;
  ib_parentHash : Hash256;
  ib_canonical : bool
}.

Record RawLog := MkRawLog {
  rl_chainId : Uint256;
  rl_blockNumber : Z;
  rl_blockHash : Hash256;
  rl_transactionHash : Hash256;
  rl_transactionIndex : Z;
  rl_logIndex : Z;
  rl_contractAddress : Address;
  rl_topics : list Hash256;
  rl_data : Bytes;
  rl_canonical : bool
}.

Record SyncCursor := MkSyncCursor {
  sc_chainId : Uint256;
  sc_blockNumber : Z;
  sc_blockHash : Hash256
}.

Record PositionState := MkPositionState {
  ps_user : Address;
  ps_wethCollateral : Uint256;
  ps_scaledUsdcSupply : Uint256;
  ps_scaledUsdcDebt : Uint256
}.

Record MarketState := MkMarketState {
  ms_contracts : ChainContracts;
  ms_totalWethCollateral : Uint256;
  ms_totalScaledUsdcSupply : Uint256;
  ms_totalScaledUsdcDebt : Uint256;
  ms_availableUsdcLiquidity : Uint256;
  ms_protocolReserve : Uint256;
  ms_badDebt : Uint256;
  ms_borrowIndex : Uint256;
  ms_liquidityIndex : Uint256;
  ms_lastInterestTimestamp : Uint256;
  ms_wethPrice : Uint256;
  ms_wethPriceUpdatedAt : Uint256;
  ms_wethMaxPriceAge : Uint256;
  ms_usdcPrice : Uint256;
  ms_usdcPriceUpdatedAt : Uint256;
  ms_usdcMaxPriceAge : Uint256
}.

Record LiquidationState := MkLiquidationState {
  ls_chainId : Uint256;
  ls_blockNumber : Z;
  ls_blockHash : Hash256;
  ls_transactionHash : Hash256;
  ls_logIndex : Z;
  ls_liquidator : Address;
  ls_borrower : Address;
  ls_debtAsset : Address;
  ls_collateralAsset : Address;
  ls_repaidAmount : Uint256;
  ls_collateralSeized : Uint256
}.

Record DerivedState := MkDerivedState {
  ds_positions : gmap Address PositionState;
  ds_market : MarketState;
  ds_liquidations : list LiquidationState
}.

Record DecodedProtocolEvent := MkDecodedProtocolEvent {
  de_kind : ProtocolEventKind;
  de_values : list AbiValue;
  de_source : RawLog
}.

(** Assignments to one member of a [MarketState]. *)
Definition set_totalWethCollateral (v : Uint256) (m : MarketState) : MarketState := MkMarketState
  (ms_contracts m) v (ms_totalScaledUsdcSupply m) (ms_totalScaledUsdcDebt m)
  (ms_availableUsdcLiquidity m) (ms_protocolReserve m) (ms_badDebt m) (ms_borrowIndex m)
  (ms_liquidityIndex m) (ms_lastInterestTimestamp m) (ms_wethPrice m) (ms_wethPriceUpdatedAt m)
  (ms_wethMaxPriceAge m) (ms_usdcPrice m) (ms_usdcPriceUpdatedAt m) (ms_usdcMaxPriceAge m).
Definition set_totalScaledUsdcSupply (v : Uint256) (m : MarketState) : MarketState :=
  MkMarketState (ms_contracts m) (ms_totalWethCollateral m) v (ms_totalScaledUsdcDebt m)
  (ms_availableUsdcLiquidity m) (ms_protocolReserve m) (ms_badDebt m) (ms_borrowIndex m)
  (ms_liquidityIndex m) (ms_lastInterestTimestamp m) (ms_wethPrice m) (ms_wethPriceUpdatedAt m)
  (ms_wethMaxPriceAge m) (ms_usdcPrice m) (ms_usdcPriceUpdatedAt m) (ms_usdcMaxPriceAge m).
Definition set_totalScaledUsdcDebt (v : Uint256) (m : MarketState) : MarketState := MkMarketState
  (ms_contracts m) (ms_totalWethCollateral m) (ms_totalScaledUsdcSupply m) v
  (ms_availableUsdcLiquidity m) (ms_protocolReserve m) (ms_badDebt m) (ms_borrowIndex m)
  (ms_liquidityIndex m) (ms_lastInterestTimestamp m) (ms_wethPrice m) (ms_wethPriceUpdatedAt m)
  (ms_wethMaxPriceAge m) (ms_usdcPrice m) (ms_usdcPriceUpdatedAt m) (ms_usdcMaxPriceAge m).
Definition set_availableUsdcLiquidity (v : Uint256) (m : MarketState) : MarketState :=
  MkMarketState (ms_contracts m) (ms_totalWethCollateral m) (ms_totalScaledUsdcSupply m)
  (ms_totalScaledUsdcDebt m) v (ms_protocolReserve m) (ms_badDebt m) (ms_borrowIndex m)
  (ms_liquidityIndex m) (ms_lastInterestTimestamp m) (ms_wethPrice m) (ms_wethPriceUpdatedAt m)
  (ms_wethMaxPriceAge m) (ms_usdcPrice m) (ms_usdcPriceUpdatedAt m) (ms_usdcMaxPriceAge m).
Definition set_protocolReserve (v : Uint256) (m : MarketState) : MarketState := MkMarketState
  (ms_contracts m) (ms_totalWethCollateral m) (ms_totalScaledUsdcSupply m) (ms_totalScaledUsdcDebt
  m) (ms_availableUsdcLiquidity m) v (ms_badDebt m) (ms_borrowIndex m) (ms_liquidityIndex m)
  (ms_lastInterestTimestamp m) (ms_wethPrice m) (ms_wethPriceUpdatedAt m) (ms_wethMaxPriceAge m)
  (ms_usdcPrice m) (ms_usdcPriceUpdatedAt m) (ms_usdcMaxPriceAge m).
Definition set_badDebt (v : Uint256) (m : MarketState) : MarketState := MkMarketState
  (ms_contracts m) (ms_totalWethCollateral m) (ms_totalScaledUsdcSupply m) (ms_totalScaledUsdcDebt
  m) (ms_availableUsdcLiquidity m) (ms_protocolReserve m) v (ms_borrowIndex m) (ms_liquidityIndex
  m) (ms_lastInterestTimestamp m) (ms_wethPrice m) (ms_wethPriceUpdatedAt m) (ms_wethMaxPriceAge
  m) (ms_usdcPrice m) (ms_usdcPriceUpdatedAt m) (ms_usdcMaxPriceAge m).
Definition set_borrowIndex (v : Uint256) (m : MarketState) : MarketState := MkMarketState
  (ms_contracts m) (ms_totalWethCollateral m) (ms_totalScaledUsdcSupply m) (ms_totalScaledUsdcDebt
  m) (ms_availableUsdcLiquidity m) (ms_protocolReserve m) (ms_badDebt m) v (ms_liquidityIndex m)
  (ms_lastInterestTimestamp m) (ms_wethPrice m) (ms_wethPriceUpdatedAt m) (ms_wethMaxPriceAge m)
  (ms_usdcPrice m) (ms_usdcPriceUpdatedAt m) (ms_usdcMaxPriceAge m).
Definition set_liquidityIndex (v : Uint256) (m : MarketState) : MarketState := MkMarketState
  (ms_contracts m) (ms_totalWethCollateral m) (ms_totalScaledUsdcSupply m) (ms_totalScaledUsdcDebt
  m) (ms_availableUsdcLiquidity m) (ms_protocolReserve m) (ms_badDebt m) (ms_borrowIndex m) v
  (ms_lastInterestTimestamp m) (ms_wethPrice m) (ms_wethPriceUpdatedAt m) (ms_wethMaxPriceAge m)
  (ms_usdcPrice m) (ms_usdcPriceUpdatedAt m) (ms_usdcMaxPriceAge m).
Definition set_lastInterestTimestamp (v : Uint256) (m : MarketState) : MarketState :=
  MkMarketState (ms_contracts m) (ms_totalWethCollateral m) (ms_totalScaledUsdcSupply m)
  (ms_totalScaledUsdcDebt m) (ms_availableUsdcLiquidity m) (ms_protocolReserve m) (ms_badDebt m)
  (ms_borrowIndex m) (ms_liquidityIndex m) v (ms_wethPrice m) (ms_wethPriceUpdatedAt m)
  (ms_wethMaxPriceAge m) (ms_usdcPrice m) (ms_usdcPriceUpdatedAt m) (ms_usdcMaxPriceAge m).
Definition set_wethPrice (v : Uint256) (m : MarketState) : MarketState := MkMarketState
  (ms_contracts m) (ms_totalWethCollateral m) (ms_totalScaledUsdcSupply m) (ms_totalScaledUsdcDebt
  m) (ms_availableUsdcLiquidity m) (ms_protocolReserve m) (ms_badDebt m) (ms_borrowIndex m)
  (ms_liquidityIndex m) (ms_lastInterestTimestamp m) v (ms_wethPriceUpdatedAt m)
  (ms_wethMaxPriceAge m) (ms_usdcPrice m) (ms_usdcPriceUpdatedAt m) (ms_usdcMaxPriceAge m).
Definition set_wethPriceUpdatedAt (v : Uint256) (m : MarketState) : MarketState := MkMarketState
  (ms_contracts m) (ms_totalWethCollateral m) (ms_totalScaledUsdcSupply m) (ms_totalScaledUsdcDebt
  m) (ms_availableUsdcLiquidity m) (ms_protocolReserve m) (ms_badDebt m) (ms_borrowIndex m)
  (ms_liquidityIndex m) (ms_lastInterestTimestamp m) (ms_wethPrice m) v (ms_wethMaxPriceAge m)
  (ms_usdcPrice m) (ms_usdcPriceUpdatedAt m) (ms_usdcMaxPriceAge m).
Definition set_wethMaxPriceAge (v : Uint256) (m : MarketState) : MarketState := MkMarketState
  (ms_contracts m) (ms_totalWethCollateral m) (ms_totalScaledUsdcSupply m) (ms_totalScaledUsdcDebt
  m) (ms_availableUsdcLiquidity m) (ms_protocolReserve m) (ms_badDebt m) (ms_borrowIndex m)
  (ms_liquidityIndex m) (ms_lastInterestTimestamp m) (ms_wethPrice m) (ms_wethPriceUpdatedAt m) v
  (ms_usdcPrice m) (ms_usdcPriceUpdatedAt m) (ms_usdcMaxPriceAge m).
Definition set_usdcPrice (v : Uint256) (m : MarketState) : MarketState := MkMarketState
  (ms_contracts m) (ms_totalWethCollateral m) (ms_totalScaledUsdcSupply m) (ms_totalScaledUsdcDebt
  m) (ms_availableUsdcLiquidity m) (ms_protocolReserve m) (ms_badDebt m) (ms_borrowIndex m)
  (ms_liquidityIndex m) (ms_lastInterestTimestamp m) (ms_wethPrice m) (ms_wethPriceUpdatedAt m)
  (ms_wethMaxPriceAge m) v (ms_usdcPriceUpdatedAt m) (ms_usdcMaxPriceAge m).
Definition set_usdcPriceUpdatedAt (v : Uint256) (m : MarketState) : MarketState := MkMarketState
  (ms_contracts m) (ms_totalWethCollateral m) (ms_totalScaledUsdcSupply m) (ms_totalScaledUsdcDebt
  m) (ms_availableUsdcLiquidity m) (ms_protocolReserve m) (ms_badDebt m) (ms_borrowIndex m)
  (ms_liquidityIndex m) (ms_lastInterestTimestamp m) (ms_wethPrice m) (ms_wethPriceUpdatedAt m)
  (ms_wethMaxPriceAge m) (ms_usdcPrice m) v (ms_usdcMaxPriceAge m).
Definition set_usdcMaxPriceAge (v : Uint256) (m : MarketState) : MarketState := MkMarketState
  (ms_contracts m) (ms_totalWethCollateral m) (ms_totalScaledUsdcSupply m) (ms_totalScaledUsdcDebt
  m) (ms_availableUsdcLiquidity m) (ms_protocolReserve m) (ms_badDebt m) (ms_borrowIndex m)
  (ms_liquidityIndex m) (ms_lastInterestTimestamp m) (ms_wethPrice m) (ms_wethPriceUpdatedAt m)
  (ms_wethMaxPriceAge m) (ms_usdcPrice m) (ms_usdcPriceUpdatedAt m) v.

(** Assignments to one member of a [PositionState] or a [DerivedState]. *)
Definition set_wethCollateral (v : Uint256) (p : PositionState) : PositionState :=
  MkPositionState (ps_user p) v (ps_scaledUsdcSupply p) (ps_scaledUsdcDebt p).
Definition set_scaledUsdcSupply (v : Uint256) (p : PositionState) : PositionState :=
  MkPositionState (ps_user p) (ps_wethCollateral p) v (ps_scaledUsdcDebt p).
Definition set_scaledUsdcDebt (v : Uint256) (p : PositionState) : PositionState :=
  MkPositionState (ps_user p) (ps_wethCollateral p) (ps_scaledUsdcSupply p) v.
Definition set_positions (v : gmap Address PositionState) (s : DerivedState) : DerivedState :=
  MkDerivedState v (ds_market s) (ds_liquidations s).
Definition set_market (v : MarketState) (s : DerivedState) : DerivedState :=
  MkDerivedState (ds_positions s) v (ds_liquidations s).
Definition set_liquidations (v : list LiquidationState) (s : DerivedState) : DerivedState :=
  MkDerivedState (ds_positions s) (ds_market s) v.

#[global] Instance ChainContracts_eq_dec : EqDecision ChainContracts.
Proof. solve_decision. Defined.
#[global] Instance PositionState_eq_dec : EqDecision PositionState.
Proof. solve_decision. Defined.

(** ** [EventDecoder] *)
Section EventDecoder.
Context (keccak : Bytes -> Hash256) (contracts_ : ChainContracts).

Definition IsExpectedEmitter (kind : ProtocolEventKind) (emitter : Address) : bool :=
  match kind with
  | AssetRegistered | PriceUpdated => bool_decide (emitter = cc_oracle contracts_)
  | Supplied | Withdrawn | Borrowed | Repaid | InterestAccrued | Liquidated | BadDebtRecognized =>
      bool_decide (emitter = cc_pool contracts_)
  end.

Definition DecodeLog (log : RawLog) : result (option DecodedProtocolEvent) :=
  match rl_topics log with
  | [] => Ok None
  | topic :: _ =>
      match MatchEvent keccak topic with
      | None => Ok None
      | Some kind =>
          if negb (IsExpectedEmitter kind (rl_contractAddress log)) then Ok None
          else
            definition ← GetEvent keccak kind;
            values ← DecodeEvent keccak (ev_signature definition) (ev_parameters definition)
                       (rl_topics log) (rl_data log);
            Ok (Some (MkDecodedProtocolEvent kind values log))
      end
  end.

(** The log the protocol emits for an event of [kind] with these values. *)
Definition emits (kind : ProtocolEventKind) (values : list AbiValue) (log : RawLog) : Prop :=
  exists d, GetEvent keccak kind = Ok d
  /\ Forall2 typed (ev_parameters d) values
  /\ IsExpectedEmitter kind (rl_contractAddress log) = true
  /\ rl_topics log = ev_topic d :: event_topics (ev_parameters d) values
  /\ rl_data log = event_data (ev_parameters d) values.

Lemma DecodeLog_emits kind values log :
  distinct_topics keccak -> emits kind values log ->
  DecodeLog log = Ok (Some (MkDecodedProtocolEvent kind values log)).
Proof using.
  intros HN (d & Hd & HF & He & Ht & Hda). unfold DecodeLog. rewrite Ht.
  rewrite (MatchEvent_GetEvent _ kind d HN Hd), He. cbn [negb]. rewrite Hd. msimpl.
  destruct (GetEvent_kind keccak kind) as (d' & Hd' & _ & Htop & _).
  rewrite Hd in Hd'. injection Hd' as <-.
  assert (DecodeEvent keccak (ev_signature d) (ev_parameters d) (rl_topics log) (rl_data log)
          = Ok values) as E by (apply DecodeEvent_Ok; rewrite Ht, Htop; auto).
  rewrite Ht in E. by rewrite E.
Qed.

Lemma DecodeLog_Some log e :
  DecodeLog log = Ok (Some e) ->
  de_source e = log /\ exists d, GetEvent keccak (de_kind e) = Ok d
    /\ Forall2 typed (ev_parameters d) (de_values e)
    /\ IsExpectedEmitter (de_kind e) (rl_contractAddress log) = true
    /\ rl_data log = event_data (ev_parameters d) (de_values e).
Proof using.
  unfold DecodeLog. destruct (rl_topics log) as [|t ts] eqn:Et; [done|].
  destruct (MatchEvent keccak t) as [kind|]; [|done].
  destruct (IsExpectedEmitter _ _) eqn:Ee; cbn [negb]; [|done]. intros H. invert_bind.
  apply DecodeEvent_Ok in Hb0 as (HF & _ & Hdata). cbn. split; [done|]. eauto.
Qed.
End EventDecoder.
