(* ===== verification/StateProjector.v ===== *)
(** * StateProjector: the protocol state reconstructed from events
    ([StateProjector.cpp])

    One definition per event kind; a member updated in place through a reference is an
    insertion in the map.  The C++ functions mutate a state that is dropped when they
    throw, so a thrown exception carries no state here. *)

From Stdlib Require Import Ascii.
From S2P Require Import Prelude Text Uint256 Hex Abi IndexerTypes.
Import Math.
Set Default Goal Selector "!".
#[local] Open Scope Z_scope.
#[local] Open Scope u256_scope.

Definition Ray : Uint256 := U (10 ^ 27).

(** [std::get<Value>(event.values.at(index))] *)
Definition EventAddress (event : DecodedProtocolEvent) (index : nat) : result Address :=
  match de_values event !! index with
  | None => Throw OutOfRange
  | Some (VAddress a) => Ok a
  | Some _ => Throw BadVariantAccess
  end.
Definition EventUint256 (event : DecodedProtocolEvent) (index : nat) : result Uint256 :=
  match de_values event !! index with
  | None => Throw OutOfRange
  | Some (VUint256 x) => Ok x
  | Some _ => Throw BadVariantAccess
  end.

(** [try_emplace]: the position of [user], created empty when there is none. *)
Definition GetPosition (state : DerivedState) (user : Address) : PositionState :=
  default (MkPositionState user (U 0) (U 0) (U 0)) (ds_positions state !! user).

Definition put_position (user : Address) (p : PositionState) (state : DerivedState) : DerivedState :=
  set_positions (<[user := p]> (ds_positions state)) state.

Definition position_empty (p : PositionState) : bool :=
  IsZero (ps_wethCollateral p) && IsZero (ps_scaledUsdcSupply p) && IsZero (ps_scaledUsdcDebt p).

Definition RemoveEmptyPosition (state : DerivedState) (user : Address) : DerivedState :=
  match ds_positions state !! user with
  | Some p => if position_empty p then set_positions (delete user (ds_positions state)) state else state
  | None => state
  end.

Definition SupplyAtIndex (scaledAmount index : Uint256) : result Uint256 :=
  MulDivDown scaledAmount index Ray.

Definition DebtAtIndex (scaledAmount index : Uint256) : result Uint256 :=
  MulDivUp scaledAmount index Ray.

Section Projector.
Context (keccak : Bytes -> Hash256) (contracts_ : ChainContracts).

Definition CreateInitialState : DerivedState :=
  MkDerivedState ∅
    (MkMarketState contracts_ (U 0) (U 0) (U 0) (U 0) (U 0) (U 0) Ray Ray
       (U 0) (U 0) (U 0) (U 0) (U 0) (U 0) (U 0)) [].

Definition apply_Supplied (state : DerivedState) (event : DecodedProtocolEvent) : result DerivedState :=
  user ← EventAddress event 0;
  asset ← EventAddress event 1;
  amount ← EventUint256 event 2;
  let position := GetPosition state user in
  let state := put_position user position state in
  let market := ds_market state in
  if bool_decide (asset = cc_weth contracts_) then
    collateral ← ps_wethCollateral position +! amount;
    total ← ms_totalWethCollateral market +! amount;
    Ok (set_market (set_totalWethCollateral total market)
         (put_position user (set_wethCollateral collateral position) state))
  else if bool_decide (asset = cc_usdc contracts_) then
    supplyBefore ← SupplyAtIndex (ms_totalScaledUsdcSupply market) (ms_liquidityIndex market);
    scaledMint ← MulDivDown amount Ray (ms_liquidityIndex market);
    scaled ← ps_scaledUsdcSupply position +! scaledMint;
    total ← ms_totalScaledUsdcSupply market +! scaledMint;
    supplyAfter ← SupplyAtIndex total (ms_liquidityIndex market);
    minted ← supplyAfter -! supplyBefore;
    rounding ← amount -! minted;
    reserve ← ms_protocolReserve market +! rounding;
    available ← ms_availableUsdcLiquidity market +! amount;
    Ok (set_market
         (set_availableUsdcLiquidity available
           (set_protocolReserve reserve (set_totalScaledUsdcSupply total market)))
         (put_position user (set_scaledUsdcSupply scaled position) state))
  else Ok state.

Definition apply_Withdrawn (state : DerivedState) (event : DecodedProtocolEvent) : result DerivedState :=
  user ← EventAddress event 0;
  asset ← EventAddress event 1;
  amount ← EventUint256 event 2;
  let position := GetPosition state user in
  let state := put_position user position state in
  let market := ds_market state in
  state ←
    (if bool_decide (asset = cc_weth contracts_) then
      collateral ← ps_wethCollateral position -! amount;
      total ← ms_totalWethCollateral market -! amount;
      Ok (set_market (set_totalWethCollateral total market)
           (put_position user (set_wethCollateral collateral position) state))
    else if bool_decide (asset = cc_usdc contracts_) then
      supplied ← SupplyAtIndex (ps_scaledUsdcSupply position) (ms_liquidityIndex market);
      scaledBurn ← (if u_eqb amount supplied then Ok (ps_scaledUsdcSupply position)
                    else MulDivUp amount Ray (ms_liquidityIndex market));
      supplyBefore ← SupplyAtIndex (ms_totalScaledUsdcSupply market) (ms_liquidityIndex market);
      scaled ← ps_scaledUsdcSupply position -! scaledBurn;
      total ← ms_totalScaledUsdcSupply market -! scaledBurn;
      supplyAfter ← SupplyAtIndex total (ms_liquidityIndex market);
      burned ← supplyBefore -! supplyAfter;
      rounding ← burned -! amount;
      reserve ← ms_protocolReserve market +! rounding;
      available ← ms_availableUsdcLiquidity market -! amount;
      Ok (set_market
           (set_availableUsdcLiquidity available
             (set_protocolReserve reserve (set_totalScaledUsdcSupply total market)))
           (put_position user (set_scaledUsdcSupply scaled position) state))
    else Ok state);
  Ok (RemoveEmptyPosition state user).

Definition apply_Borrowed (state : DerivedState) (event : DecodedProtocolEvent) : result DerivedState :=
  user ← EventAddress event 0;
  asset ← EventAddress event 1;
  amount ← EventUint256 event 2;
  if negb (bool_decide (asset = cc_usdc contracts_)) then Ok state
  else
    let position := GetPosition state user in
    let market := ds_market state in
    debtBefore ← DebtAtIndex (ps_scaledUsdcDebt position) (ms_borrowIndex market);
    scaledMint ← MulDivUp amount Ray (ms_borrowIndex market);
    scaled ← ps_scaledUsdcDebt position +! scaledMint;
    total ← ms_totalScaledUsdcDebt market +! scaledMint;
    debtAfter ← DebtAtIndex scaled (ms_borrowIndex market);
    minted ← debtAfter -! debtBefore;
    rounding ← minted -! amount;
    reserve ← ms_protocolReserve market +! rounding;
    available ← ms_availableUsdcLiquidity market -! amount;
    Ok (set_market
         (set_availableUsdcLiquidity available
           (set_protocolReserve reserve (set_totalScaledUsdcDebt total market)))
         (put_position user (set_scaledUsdcDebt scaled position) state)).

Definition apply_Repaid (state : DerivedState) (event : DecodedProtocolEvent) : result DerivedState :=
  user ← EventAddress event 0;
  asset ← EventAddress event 1;
  repaidAmount ← EventUint256 event 2;
  remainingDebt ← EventUint256 event 3;
  if negb (bool_decide (asset = cc_usdc contracts_)) then Ok state
  else
    let position := GetPosition state user in
    let market := ds_market state in
    currentDebt ← DebtAtIndex (ps_scaledUsdcDebt position) (ms_borrowIndex market);
    scaledBurn ← (if IsZero remainingDebt then Ok (ps_scaledUsdcDebt position)
                  else MulDivDown repaidAmount Ray (ms_borrowIndex market));
    scaled ← ps_scaledUsdcDebt position -! scaledBurn;
    total ← ms_totalScaledUsdcDebt market -! scaledBurn;
    projectedRemaining ← DebtAtIndex scaled (ms_borrowIndex market);
    if u_neb projectedRemaining remainingDebt
    then Throw (RuntimeError "Repaid event does not match reconstructed debt")
    else
      reduced ← currentDebt -! remainingDebt;
      rounding ← repaidAmount -! reduced;
      reserve ← ms_protocolReserve market +! rounding;
      available ← ms_availableUsdcLiquidity market +! repaidAmount;
      Ok (RemoveEmptyPosition
           (set_market
             (set_availableUsdcLiquidity available
               (set_protocolReserve reserve (set_totalScaledUsdcDebt total market)))
             (put_position user (set_scaledUsdcDebt scaled position) state)) user).

Definition apply_InterestAccrued (state : DerivedState) (event : DecodedProtocolEvent) : result DerivedState :=
  timestamp ← EventUint256 event 0;
  borrow ← EventUint256 event 1;
  liquidity ← EventUint256 event 2;
  reserved ← EventUint256 event 3;
  let market := ds_market state in
  reserve ← ms_protocolReserve market +! reserved;
  Ok (set_market
       (set_protocolReserve reserve (set_liquidityIndex liquidity
         (set_borrowIndex borrow (set_lastInterestTimestamp timestamp market)))) state).

Definition apply_Liquidated (state : DerivedState) (event : DecodedProtocolEvent) : result DerivedState :=
  liquidator ← EventAddress event 0;
  borrower ← EventAddress event 1;
  debtAsset ← EventAddress event 2;
  collateralAsset ← EventAddress event 3;
  repaidAmount ← EventUint256 event 4;
  collateralSeized ← EventUint256 event 5;
  let position := GetPosition state borrower in
  let market := ds_market state in
  currentDebt ← DebtAtIndex (ps_scaledUsdcDebt position) (ms_borrowIndex market);
  scaledBurn ← (if u_geb repaidAmount currentDebt then Ok (ps_scaledUsdcDebt position)
                else MulDivDown repaidAmount Ray (ms_borrowIndex market));
  scaled ← ps_scaledUsdcDebt position -! scaledBurn;
  total ← ms_totalScaledUsdcDebt market -! scaledBurn;
  remainingDebt ← DebtAtIndex scaled (ms_borrowIndex market);
  reduced ← currentDebt -! remainingDebt;
  rounding ← repaidAmount -! reduced;
  reserve ← ms_protocolReserve market +! rounding;
  available ← ms_availableUsdcLiquidity market +! repaidAmount;
  collateral ← ps_wethCollateral position -! collateralSeized;
  totalCollateral ← ms_totalWethCollateral market -! collateralSeized;
  let source := de_source event in
  let record := MkLiquidationState (rl_chainId source) (rl_blockNumber source) (rl_blockHash source)
    (rl_transactionHash source) (rl_logIndex source) liquidator borrower debtAsset collateralAsset
    repaidAmount collateralSeized in
  Ok (RemoveEmptyPosition
       (set_liquidations (ds_liquidations state ++ [record])
         (set_market
           (set_totalWethCollateral totalCollateral (set_availableUsdcLiquidity available
             (set_protocolReserve reserve (set_totalScaledUsdcDebt total market))))
           (put_position borrower
             (set_wethCollateral collateral (set_scaledUsdcDebt scaled position)) state)))
       borrower).

Definition apply_BadDebtRecognized (state : DerivedState) (event : DecodedProtocolEvent) : result DerivedState :=
  borrower ← EventAddress event 0;
  amount ← EventUint256 event 1;
  let position := GetPosition state borrower in
  let market := ds_market state in
  total ← ms_totalScaledUsdcDebt market -! ps_scaledUsdcDebt position;
  bad ← ms_badDebt market +! amount;
  Ok (RemoveEmptyPosition
       (set_market (set_badDebt bad (set_totalScaledUsdcDebt total market))
         (put_position borrower (set_scaledUsdcDebt (U 0) position) state)) borrower).

Definition apply_PriceUpdated (state : DerivedState) (event : DecodedProtocolEvent) : result DerivedState :=
  asset ← EventAddress event 0;
  price ← EventUint256 event 1;
  updatedAt ← EventUint256 event 2;
  let market := ds_market state in
  if bool_decide (asset = cc_weth contracts_)
  then Ok (set_market (set_wethPriceUpdatedAt updatedAt (set_wethPrice price market)) state)
  else if bool_decide (asset = cc_usdc contracts_)
  then Ok (set_market (set_usdcPriceUpdatedAt updatedAt (set_usdcPrice price market)) state)
  else Ok state.

Definition apply_AssetRegistered (state : DerivedState) (event : DecodedProtocolEvent) : result DerivedState :=
  asset ← EventAddress event 0;
  maxPriceAge ← EventUint256 event 1;
  let market := ds_market state in
  if bool_decide (asset = cc_weth contracts_)
  then Ok (set_market (set_wethMaxPriceAge maxPriceAge market) state)
  else if bool_decide (asset = cc_usdc contracts_)
  then Ok (set_market (set_usdcMaxPriceAge maxPriceAge market) state)
  else Ok state.

Definition ApplyEvent (state : DerivedState) (event : DecodedProtocolEvent) : result DerivedState :=
  match de_kind event with
  | Supplied => apply_Supplied state event
  | Withdrawn => apply_Withdrawn state event
  | Borrowed => apply_Borrowed state event
  | Repaid => apply_Repaid state event
  | InterestAccrued => apply_InterestAccrued state event
  | Liquidated => apply_Liquidated state event
  | BadDebtRecognized => apply_BadDebtRecognized state event
  | PriceUpdated => apply_PriceUpdated state event
  | AssetRegistered => apply_AssetRegistered state event
  end.

Definition Apply (state : DerivedState) (log : RawLog) : result DerivedState :=
  event ← DecodeLog keccak contracts_ log;
  match event with
  | Some event => ApplyEvent state event
  | None => Ok state
  end.

(** The comparison of the [std::sort] in [Rebuild]. *)
Definition log_before (left right : RawLog) : bool :=
  if negb (rl_blockNumber left =? rl_blockNumber right)
  then rl_blockNumber left <? rl_blockNumber right
  else if negb (rl_transactionIndex left =? rl_transactionIndex right)
  then rl_transactionIndex left <? rl_transactionIndex right
  else rl_logIndex left <? rl_logIndex right.

Definition Rebuild (logs : list RawLog) : result DerivedState :=
  fold_result Apply CreateInitialState
    (std_sort log_before (filter (fun log => rl_canonical log = true) logs)).
End Projector.

(** ** How an event changes the state *)

Lemma Ray_value : value_ Ray = 10 ^ 27.
Proof. unfold Ray. apply U_value. lia. Qed.

Lemma SupplyAtIndex_Ok x i q :
  SupplyAtIndex x i = Ok q -> value_ q = value_ x * value_ i / 10 ^ 27.
Proof. unfold SupplyAtIndex. intros H. exact_values. by rewrite Ray_value in H. Qed.

Lemma DebtAtIndex_Ok x i q :
  DebtAtIndex x i = Ok q -> value_ q = MathLemmas.cdiv (value_ x * value_ i) (10 ^ 27).
Proof. unfold DebtAtIndex. intros H. exact_values. by rewrite Ray_value in H. Qed.

Lemma U0_value : value_ (U 0) = 0.
Proof. reflexivity. Qed.

(** A quantity of a position that an empty position has none of. *)
Definition measure (f : PositionState -> Z) : Prop :=
  forall p, position_empty p = true -> f p = 0.

(** [s'] is [s] with the position of [u] replaced by [p'] (removed when empty). *)
Definition replaces (s s' : DerivedState) (u : Address) (p' : PositionState) : Prop :=
  ps_user p' = ps_user (GetPosition s u)
  /\ (ds_positions s' = <[u := p']> (ds_positions s)
      \/ (position_empty p' = true /\ ds_positions s' = delete u (ds_positions s))).

Lemma GetPosition_measure f s u :
  measure f -> from_option f 0 (ds_positions s !! u) = f (GetPosition s u).
Proof.
  intros Hf. unfold GetPosition. destruct (ds_positions s !! u); simpl; [done|]. symmetry.
  by apply Hf.
Qed.

Lemma replaces_sum f s s' u p' :
  measure f -> replaces s s' u p' ->
  map_sum f (ds_positions s') = map_sum f (ds_positions s) - f (GetPosition s u) + f p'.
Proof.
  intros Hf [_ [E|[He E]]]; rewrite E, <-(GetPosition_measure f s u Hf).
  - apply map_sum_insert.
  - rewrite map_sum_delete, (Hf p' He). lia.
Qed.

Lemma replaces_measure f s s' u p' : measure f -> replaces s s' u p' -> f (GetPosition s' u) = f p'.
Proof.
  intros Hf [_ [E|[He E]]]; rewrite <-(GetPosition_measure f s' u Hf), E.
  - by rewrite lookup_insert_eq.
  - rewrite lookup_delete_eq. by rewrite (Hf p' He).
Qed.

Definition keyed (s : DerivedState) : Prop :=
  forall u p, ds_positions s !! u = Some p -> ps_user p = u.

Lemma replaces_keyed s s' u p' : keyed s -> replaces s s' u p' -> keyed s'.
Proof.
  intros Hk [Hu Hs] v q Hv. assert (ps_user (GetPosition s u) = u) as Hg.
  { unfold GetPosition. destruct (ds_positions s !! u) eqn:E; simpl; [by apply Hk|done]. }
  destruct Hs as [E|[_ E]]; rewrite E in Hv.
  - apply lookup_insert_Some in Hv as [[-> <-]|[_ Hv]]; [congruence|by apply Hk].
  - apply lookup_delete_Some in Hv as [_ Hv]. by apply Hk.
Qed.

Lemma RemoveEmptyPosition_market s u : ds_market (RemoveEmptyPosition s u) = ds_market s.
Proof. unfold RemoveEmptyPosition. destruct (_ !! u) as [p|]; [|done]. by destruct (position_empty p). Qed.

Lemma RemoveEmptyPosition_liquidations s u :
  ds_liquidations (RemoveEmptyPosition s u) = ds_liquidations s.
Proof. unfold RemoveEmptyPosition. destruct (_ !! u) as [p|]; [|done]. by destruct (position_empty p). Qed.

Lemma replaces_put s s' u p' :
  ds_positions s' = <[u := p']> (ds_positions s) -> ps_user p' = ps_user (GetPosition s u) ->
  replaces s s' u p'.
Proof. split; auto. Qed.

Lemma replaces_put_remove s s' u p' :
  ds_positions s' = <[u := p']> (ds_positions s) -> ps_user p' = ps_user (GetPosition s u) ->
  replaces s (RemoveEmptyPosition s' u) u p'.
Proof.
  intros E Hu. split; [done|]. unfold RemoveEmptyPosition. rewrite E, lookup_insert_eq.
  destruct (position_empty p') eqn:He; [right|by left]. split; [done|]. simpl.
  apply delete_insert_eq.
Qed.

(** The debt of a position, in USDC, at a borrow index. *)
Definition debt_value (index : Uint256) (p : PositionState) : Z :=
  MathLemmas.cdiv (value_ (ps_scaledUsdcDebt p) * value_ index) (10 ^ 27).

(** The part of the books an event may not change: what the pool holds and is owed, less
    what it owes to suppliers and to its reserve, with the losses it has recognised. *)
Definition market_equity (m : MarketState) : Z :=
  value_ (ms_availableUsdcLiquidity m) + value_ (ms_badDebt m) - value_ (ms_protocolReserve m)
  - value_ (ms_totalScaledUsdcSupply m) * value_ (ms_liquidityIndex m) / 10 ^ 27.

(** The totals move with the position, and so do the books of the market with the debt. *)
Definition totals_follow (m m' : MarketState) (p p' : PositionState) : Prop :=
  value_ (ms_totalWethCollateral m') - value_ (ms_totalWethCollateral m)
    = value_ (ps_wethCollateral p') - value_ (ps_wethCollateral p)
  /\ value_ (ms_totalScaledUsdcSupply m') - value_ (ms_totalScaledUsdcSupply m)
    = value_ (ps_scaledUsdcSupply p') - value_ (ps_scaledUsdcSupply p)
  /\ value_ (ms_totalScaledUsdcDebt m') - value_ (ms_totalScaledUsdcDebt m)
    = value_ (ps_scaledUsdcDebt p') - value_ (ps_scaledUsdcDebt p)
  /\ ms_contracts m' = ms_contracts m.

Definition books_follow (m m' : MarketState) (p p' : PositionState) (loss : Z) : Prop :=
  ms_borrowIndex m' = ms_borrowIndex m
  /\ market_equity m' + debt_value (ms_borrowIndex m) p'
     = market_equity m + debt_value (ms_borrowIndex m) p + loss.

(** The loss an event recognises beyond the debt it removes. *)
Definition excess_loss (s : DerivedState) (event : DecodedProtocolEvent) : Z :=
  match de_kind event, de_values event with
  | BadDebtRecognized, VAddress borrower :: VUint256 amount :: _ =>
      value_ amount - debt_value (ms_borrowIndex (ds_market s)) (GetPosition s borrower)
  | _, _ => 0
  end.

Definition effect (s : DerivedState) (event : DecodedProtocolEvent) (s' : DerivedState) : Prop :=
  let m := ds_market s in let m' := ds_market s' in
  (ds_positions s' = ds_positions s /\ (forall p, totals_follow m m' p p)
   /\ (de_kind event <> InterestAccrued -> ms_borrowIndex m' = ms_borrowIndex m
       /\ market_equity m' = market_equity m /\ excess_loss s event = 0))
  \/ exists u p', replaces s s' u p' /\ totals_follow m m' (GetPosition s u) p'
       /\ books_follow m m' (GetPosition s u) p' (excess_loss s event).

(** Reduces the members of a state after assignments, and nothing else. *)
Ltac state_fields :=
  cbn [put_position set_market set_positions set_liquidations set_totalWethCollateral
    set_totalScaledUsdcSupply set_totalScaledUsdcDebt set_availableUsdcLiquidity
    set_protocolReserve set_badDebt set_borrowIndex set_liquidityIndex set_lastInterestTimestamp
    set_wethPrice set_wethPriceUpdatedAt set_wethMaxPriceAge set_usdcPrice
    set_usdcPriceUpdatedAt set_usdcMaxPriceAge set_wethCollateral set_scaledUsdcSupply
    set_scaledUsdcDebt
    ds_positions ds_market ds_liquidations ms_contracts ms_totalWethCollateral
    ms_totalScaledUsdcSupply ms_totalScaledUsdcDebt ms_availableUsdcLiquidity ms_protocolReserve
    ms_badDebt ms_borrowIndex ms_liquidityIndex ms_lastInterestTimestamp ms_wethPrice
    ms_wethPriceUpdatedAt ms_wethMaxPriceAge ms_usdcPrice ms_usdcPriceUpdatedAt
    ms_usdcMaxPriceAge ps_user ps_wethCollateral ps_scaledUsdcSupply ps_scaledUsdcDebt] in *.

Ltac index_values :=
  repeat match goal with
  | H : SupplyAtIndex _ _ = Ok _ |- _ => apply SupplyAtIndex_Ok in H
  | H : DebtAtIndex _ _ = Ok _ |- _ => apply DebtAtIndex_Ok in H
  end.

Ltac books :=
  index_values; exact_values;
  unfold books_follow, totals_follow, market_equity, debt_value;
  rewrite ?RemoveEmptyPosition_market; state_fields; repeat split; lia.

(** The two shapes of an effect: a position replaced, or the market alone. *)
Ltac replaced :=
  right; eexists _, _; split;
  [ lazymatch goal with
    | |- replaces _ (RemoveEmptyPosition _ _) _ _ => apply replaces_put_remove
    | _ => apply replaces_put end;
    [state_fields; rewrite ?insert_insert_eq; reflexivity | reflexivity]
  | split; books ].
Ltac market_only := left; split; [done|]; split; [intros; books | intros; books].

Lemma EventAddress_Ok event i a :
  EventAddress event i = Ok a -> de_values event !! i = Some (VAddress a).
Proof. unfold EventAddress. destruct (_ !! i) as [[]|]; congruence. Qed.

Lemma EventUint256_Ok event i x :
  EventUint256 event i = Ok x -> de_values event !! i = Some (VUint256 x).
Proof. unfold EventUint256. destruct (_ !! i) as [[]|]; congruence. Qed.

Lemma apply_BadDebtRecognized_effect s e s' :
  de_kind e = BadDebtRecognized -> apply_BadDebtRecognized s e = Ok s' -> effect s e s'.
Proof.
  intros Hk H. unfold apply_BadDebtRecognized in H. unfold effect, excess_loss. rewrite Hk.
  invert_bind. apply EventAddress_Ok in Hb. apply EventUint256_Ok in Hb0.
  destruct (de_values e) as [|? [|? ?]]; [done|done|]. simpl in Hb, Hb0. simplify_eq.
  right. exists a, (set_scaledUsdcDebt (U 0) (GetPosition s a)).
  split; [by apply replaces_put_remove|]. split.
  { unfold totals_follow. rewrite RemoveEmptyPosition_market. state_fields. rewrite U0_value. books. }
  assert (debt_value (ms_borrowIndex (ds_market s)) (set_scaledUsdcDebt (U 0) (GetPosition s a)) = 0)
    as E by reflexivity.
  split; [by rewrite RemoveEmptyPosition_market|]. rewrite E. clear E. books.
Qed.

Ltac open_event f := intros Hk H; unfold f in H; unfold effect, excess_loss; rewrite Hk; invert_bind.

Lemma apply_Supplied_effect contracts s e s' :
  de_kind e = Supplied -> apply_Supplied contracts s e = Ok s' -> effect s e s'.
Proof. open_event apply_Supplied. split_ifs; invert_bind; replaced. Qed.

Lemma apply_Withdrawn_effect contracts s e s' :
  de_kind e = Withdrawn -> apply_Withdrawn contracts s e = Ok s' -> effect s e s'.
Proof. open_event apply_Withdrawn. split_ifs; invert_bind; replaced. Qed.

Lemma apply_Borrowed_effect contracts s e s' :
  de_kind e = Borrowed -> apply_Borrowed contracts s e = Ok s' -> effect s e s'.
Proof. open_event apply_Borrowed. split_ifs; invert_bind; [market_only | replaced]. Qed.

Lemma apply_Repaid_effect contracts s e s' :
  de_kind e = Repaid -> apply_Repaid contracts s e = Ok s' -> effect s e s'.
Proof.
  open_event apply_Repaid. split_ifs; invert_bind; [market_only| |];
    split_ifs; invert_bind; replaced.
Qed.

Lemma apply_InterestAccrued_effect s e s' :
  de_kind e = InterestAccrued -> apply_InterestAccrued s e = Ok s' -> effect s e s'.
Proof. open_event apply_InterestAccrued. left. split; [done|]. split; [intros; books|done]. Qed.

Lemma apply_Liquidated_effect s e s' :
  de_kind e = Liquidated -> apply_Liquidated s e = Ok s' -> effect s e s'.
Proof. open_event apply_Liquidated. split_ifs; invert_bind; replaced. Qed.

Lemma apply_PriceUpdated_effect contracts s e s' :
  de_kind e = PriceUpdated -> apply_PriceUpdated contracts s e = Ok s' -> effect s e s'.
Proof. open_event apply_PriceUpdated. split_ifs; invert_bind; market_only. Qed.

Lemma apply_AssetRegistered_effect contracts s e s' :
  de_kind e = AssetRegistered -> apply_AssetRegistered contracts s e = Ok s' -> effect s e s'.
Proof. open_event apply_AssetRegistered. split_ifs; invert_bind; market_only. Qed.

Lemma ApplyEvent_effect contracts s e s' :
  ApplyEvent contracts s e = Ok s' -> effect s e s'.
Proof.
  unfold ApplyEvent. destruct (de_kind e) eqn:Hk; intros H;
    eauto using apply_Supplied_effect, apply_Withdrawn_effect, apply_Borrowed_effect,
      apply_Repaid_effect, apply_InterestAccrued_effect, apply_Liquidated_effect,
      apply_BadDebtRecognized_effect, apply_PriceUpdated_effect, apply_AssetRegistered_effect.
Qed.

(** ** Invariant *)

(** What every state built from events satisfies: each position is stored under its
    user, the market's totals are the sums over the positions, and the contracts are the
    configured ones. *)
Definition projected (contracts : ChainContracts) (s : DerivedState) : Prop :=
  keyed s
  /\ value_ (ms_totalWethCollateral (ds_market s))
       = map_sum (fun p => value_ (ps_wethCollateral p)) (ds_positions s)
  /\ value_ (ms_totalScaledUsdcSupply (ds_market s))
       = map_sum (fun p => value_ (ps_scaledUsdcSupply p)) (ds_positions s)
  /\ value_ (ms_totalScaledUsdcDebt (ds_market s))
       = map_sum (fun p => value_ (ps_scaledUsdcDebt p)) (ds_positions s)
  /\ ms_contracts (ds_market s) = contracts.

Lemma measures :
  measure (fun p => value_ (ps_wethCollateral p)) /\ measure (fun p => value_ (ps_scaledUsdcSupply p))
  /\ measure (fun p => value_ (ps_scaledUsdcDebt p)) /\ forall i, measure (debt_value i).
Proof.
  repeat split; intros; intros p Hp; unfold position_empty in Hp; boolify; exact_values; try done.
  unfold debt_value. by rewrite H0.
Qed.

(** ** The contract's side of a liquidation *)

(** [_scaledDebtBurn] of [LendingPool.sol]: how much of a scaled debt a repayment burns, and the
    debt that remains; it reverts when that rounds to nothing. *)
Definition scaledDebtBurn (borrowIndex scaledBalance repayment : Z) : option (Z * Z) :=
  let debtAtIndex scaled := MathLemmas.cdiv (scaled * borrowIndex) (10 ^ 27) in
  if debtAtIndex scaledBalance <=? repayment then Some (scaledBalance, 0)
  else
    let scaledBurn := repayment * 10 ^ 27 / borrowIndex in
    if scaledBurn =? 0 then None else Some (scaledBurn, debtAtIndex (scaledBalance - scaledBurn)).

(** After a liquidation is projected, the borrower owes what remains on the contract. *)
Lemma Liquidated_debt s e s' liquidator borrower debtAsset collateralAsset repaid seized scaledBurn remaining rest :
  de_values e = VAddress liquidator :: VAddress borrower :: VAddress debtAsset :: VAddress collateralAsset
    :: VUint256 repaid :: VUint256 seized :: rest ->
  scaledDebtBurn (value_ (ms_borrowIndex (ds_market s))) (value_ (ps_scaledUsdcDebt (GetPosition s borrower))) (value_ repaid)
    = Some (scaledBurn, remaining) ->
  apply_Liquidated s e = Ok s' ->
  ms_borrowIndex (ds_market s') = ms_borrowIndex (ds_market s)
  /\ debt_value (ms_borrowIndex (ds_market s)) (GetPosition s' borrower) = remaining.
Proof.
  intros Hv Hburn H. unfold apply_Liquidated, EventAddress, EventUint256 in H. rewrite Hv in H. cbn [lookup list_lookup] in H.
  invert_bind. rewrite RemoveEmptyPosition_market. split; [done|].
  rewrite (replaces_measure (debt_value _) s _ a0 (set_wethCollateral a14 (set_scaledUsdcDebt a7 (GetPosition s a0))));
    [|apply measures|by apply replaces_put_remove].
  unfold debt_value, scaledDebtBurn in *. state_fields. index_values. rewrite <-Hb5 in Hburn.
  destruct (Z.leb_spec (value_ a5) (value_ a3)) as [Hle|Hlt].
  - injection Hburn as _ <-. unfold u_geb in Hb6. rewrite (proj2 (Z.leb_le _ _) Hle) in Hb6. exact_values.
    injection Hb6 as <-. by rewrite Hb7, Z.sub_diag.
  - unfold u_geb in Hb6. rewrite (proj2 (Z.leb_gt _ _) Hlt) in Hb6. exact_values. rewrite Ray_value in Hb6.
    destruct (_ =? 0); [done|]. injection Hburn as _ <-. do 2 f_equal. lia.
Qed.

(** The equity of the pool: the market's books with the debts of all positions. *)
Definition pool_equity (s : DerivedState) : Z :=
  market_equity (ds_market s)
  + map_sum (debt_value (ms_borrowIndex (ds_market s))) (ds_positions s).

Lemma projected_initial contracts : projected contracts (CreateInitialState contracts).
Proof. split; [|done]. intros u p. cbn [CreateInitialState ds_positions]. by rewrite lookup_empty. Qed.

Lemma effect_projected contracts s e s' : projected contracts s -> effect s e s' -> projected contracts s'.
Proof.
  destruct measures as (Mw & Ms & Md & _).
  intros (Hk & Hw & Hs & Hd & Hc) [(E & Ht & _)|(u & p' & Hr & Ht & _)].
  - destruct (Ht (GetPosition s (cc_weth contracts))) as (Tw & Ts & Td & Tc). unfold projected, keyed.
    rewrite E, Tc. repeat split; auto; lia.
  - destruct Ht as (Tw & Ts & Td & Tc). split; [by eapply replaces_keyed|].
    rewrite (replaces_sum _ s s' u p' Mw Hr), (replaces_sum _ s s' u p' Ms Hr),
      (replaces_sum _ s s' u p' Md Hr), Tc. repeat split; auto; lia.
Qed.

Lemma effect_equity s e s' :
  de_kind e <> InterestAccrued -> effect s e s' -> pool_equity s' = pool_equity s + excess_loss s e.
Proof.
  destruct measures as (_ & _ & _ & Mv). unfold pool_equity.
  intros Hk [(E & _ & Hb)|(u & p' & Hr & _ & (Hi & Hb))].
  - destruct (Hb Hk) as (-> & -> & ->). rewrite E. lia.
  - rewrite Hi, (replaces_sum _ s s' u p' (Mv _) Hr). lia.
Qed.

Lemma Apply_projected keccak contracts s log s' :
  projected contracts s -> Apply keccak contracts s log = Ok s' -> projected contracts s'.
Proof.
  unfold Apply. intros Hp H. invert_bind. destruct a as [e|]; invert_bind; [|done].
  eauto using effect_projected, ApplyEvent_effect.
Qed.

Lemma Rebuild_projected keccak contracts logs s :
  Rebuild keccak contracts logs = Ok s -> projected contracts s.
Proof.
  unfold Rebuild. apply fold_result_invariant; [|apply projected_initial].
  eauto using Apply_projected.
Qed.

(** ** Order of the logs *)

(** The place of a log on the chain. *)
Definition log_key (log : RawLog) : Z * Z * Z :=
  (rl_blockNumber log, rl_transactionIndex log, rl_logIndex log).

Definition canonical_logs (logs : list RawLog) : list RawLog :=
  filter (fun log => rl_canonical log = true) logs.

#[global] Instance canonical_logs_proper : Proper ((≡ₚ) ==> (≡ₚ)) canonical_logs.
Proof. intros l l' H. unfold canonical_logs. by rewrite H. Qed.

Lemma canonical_logs_idemp logs : canonical_logs (canonical_logs logs) = canonical_logs logs.
Proof. apply list_filter_all, list.Forall_forall. intros x Hx.
  unfold canonical_logs in Hx. apply list_elem_of_filter in Hx. tauto. Qed.

(** Two canonical logs at the same place are the same log. *)
Definition distinct_places (logs : list RawLog) : Prop := NoDup (log_key <$> canonical_logs logs).

Lemma log_before_strict_weak : strict_weak log_before.
Proof.
  split; unfold sort_le, log_before; [intros x y | intros x y z];
    repeat match goal with |- context [?a =? ?b] => destruct (Z.eqb_spec a b) end;
    cbn [negb]; rewrite ?Z.ltb_ge; lia.
Qed.

Lemma log_before_total x y :
  sort_le log_before x y -> sort_le log_before y x -> log_key x = log_key y.
Proof.
  unfold sort_le, log_before, log_key.
  repeat match goal with |- context [?a =? ?b] => destruct (Z.eqb_spec a b) end;
    cbn [negb]; rewrite ?Z.ltb_ge; intros; first [lia | f_equal; [f_equal|]; lia].
Qed.

Lemma same_place_same_log l x y :
  NoDup (log_key <$> l) -> x ∈ l -> y ∈ l ->
  sort_le log_before x y -> sort_le log_before y x -> x = y.
Proof.
  intros HN Hx Hy H1 H2. pose proof (log_before_total x y H1 H2) as Hk.
  apply list_elem_of_lookup in Hx as [i Hi]. apply list_elem_of_lookup in Hy as [j Hj].
  assert (i = j) as ->; [|congruence]. eapply NoDup_lookup; [exact HN| |];
    rewrite list_lookup_fmap, ?Hi, ?Hj; simpl; [done|by rewrite Hk].
Qed.

(** The canonical logs of an earlier and a later part of the chain are sorted apart. *)
Lemma sort_logs_app old new :
  NoDup (log_key <$> (old ++ new)) -> StronglySorted (sort_le log_before) new ->
  (forall x y, x ∈ old -> y ∈ new -> log_before x y = true) ->
  std_sort log_before (old ++ new) = std_sort log_before old ++ new.
Proof.
  intros HN Hs Hlt. apply (sorted_perm_unique log_before).
  - intros x y. rewrite !std_sort_perm. by apply same_place_same_log.
  - apply std_sort_sorted, log_before_strict_weak.
  - apply StronglySorted_app_2; auto.
    + intros x y Hx Hy. rewrite std_sort_perm in Hx. unfold sort_le.
      pose proof (Hlt x y Hx Hy) as Hb.
      revert Hb. unfold log_before.
      repeat match goal with |- context [?a =? ?b] => destruct (Z.eqb_spec a b) end;
        cbn [negb]; rewrite ?Z.ltb_lt, ?Z.ltb_ge; lia.
    + apply std_sort_sorted, log_before_strict_weak.
  - by rewrite !std_sort_perm.
Qed.

Lemma Rebuild_canonical keccak contracts logs :
  Rebuild keccak contracts logs = Rebuild keccak contracts (canonical_logs logs).
Proof.
  unfold Rebuild. fold (canonical_logs logs) (canonical_logs (canonical_logs logs)).
  by rewrite canonical_logs_idemp.
Qed.

Lemma Rebuild_perm keccak contracts logs logs' :
  distinct_places logs -> logs ≡ₚ logs' -> Rebuild keccak contracts logs = Rebuild keccak contracts logs'.
Proof.
  intros HN Hp. unfold Rebuild. f_equal. apply std_sort_unique; [apply log_before_strict_weak| |].
  - intros x y. by apply same_place_same_log.
  - by rewrite Hp.
Qed.

Lemma Rebuild_extend keccak contracts logs new :
  distinct_places (logs ++ new) -> Forall (fun log => rl_canonical log = true) new ->
  StronglySorted (sort_le log_before) new ->
  (forall x y, x ∈ canonical_logs logs -> y ∈ new -> log_before x y = true) ->
  Rebuild keccak contracts (logs ++ new) =
    (s ← Rebuild keccak contracts logs; fold_result (Apply keccak contracts) s new).
Proof.
  unfold distinct_places, canonical_logs, Rebuild. intros HN Hc Hs Hlt.
  rewrite filter_app in HN |- *. rewrite (list_filter_all _ new) in HN |- * by done.
  by rewrite sort_logs_app, fold_result_app.
Qed.

(** ** The recorded liquidations *)

(** The record of a liquidation names the log it comes from. *)
Definition recorded (log : RawLog) (l : LiquidationState) : Prop :=
  ls_chainId l = rl_chainId log /\ ls_blockNumber l = rl_blockNumber log
  /\ ls_blockHash l = rl_blockHash log /\ ls_transactionHash l = rl_transactionHash log
  /\ ls_logIndex l = rl_logIndex log.

Definition may_record (log : RawLog) (old new : list LiquidationState) : Prop :=
  new = old \/ exists l, new = old ++ [l] /\ recorded log l.

Ltac no_record :=
  intros H; repeat (invert_bind; split_ifs); left; rewrite ?RemoveEmptyPosition_liquidations;
  reflexivity.

Lemma ApplyEvent_liquidations contracts s e s' :
  ApplyEvent contracts s e = Ok s' -> may_record (de_source e) (ds_liquidations s) (ds_liquidations s').
Proof.
  unfold ApplyEvent. destruct (de_kind e).
  - unfold apply_Supplied. no_record.
  - unfold apply_Withdrawn. no_record.
  - unfold apply_Borrowed. no_record.
  - unfold apply_Repaid. no_record.
  - unfold apply_InterestAccrued. no_record.
  - unfold apply_Liquidated. intros H. invert_bind. right. eexists.
    rewrite RemoveEmptyPosition_liquidations. split; [reflexivity|]. by repeat split.
  - unfold apply_BadDebtRecognized. no_record.
  - unfold apply_AssetRegistered. no_record.
  - unfold apply_PriceUpdated. no_record.
Qed.

Lemma Apply_liquidations keccak contracts s log s' :
  Apply keccak contracts s log = Ok s' -> may_record log (ds_liquidations s) (ds_liquidations s').
Proof.
  unfold Apply. intros H. invert_bind. destruct a as [e|]; [|invert_bind; by left].
  apply DecodeLog_Some in Hb as [<- _]. by eapply ApplyEvent_liquidations.
Qed.

(** The liquidations of a rebuilt state come from distinct logs, in the order of the logs. *)
Lemma Rebuild_liquidations keccak contracts logs s :
  Rebuild keccak contracts logs = Ok s ->
  exists sources, sources `sublist_of` std_sort log_before (canonical_logs logs)
    /\ Forall2 recorded sources (ds_liquidations s).
Proof.
  unfold Rebuild, canonical_logs. generalize (std_sort log_before (filter (fun log => rl_canonical log = true) logs)).
  intros l. revert s. induction l as [|log l IH] using rev_ind; intros s H.
  - injection H as <-. exists []. split; [done|constructor].
  - rewrite fold_result_snoc in H. invert_bind. destruct (IH _ Hb) as (sources & Hs & HF).
    apply Apply_liquidations in H as [E|(r & E & Hr)]; rewrite E.
    + exists sources. split; [|done]. by apply sublist_inserts_r.
    + exists (sources ++ [log]). split; [by apply sublist_app|]. by apply Forall2_app; [|constructor].
Qed.

(** ** A concrete chain for the witnesses *)

(** The first bytes of the text stand for its hash: enough to tell the nine events apart. *)
Definition prefix_hash (b : Bytes) : Hash256 := array_copy 32 b.

Definition addr (z : Z) : Address := array_copy 20 (be_bytes 20 z).
Definition sample_contracts : ChainContracts := MkChainContracts (addr 1) (addr 2) (addr 3) (addr 4).

Definition sample_log (canonical : bool) (block index : Z) (kind : ProtocolEventKind)
    (values : list AbiValue) : RawLog :=
  let emitter := match kind with AssetRegistered | PriceUpdated => addr 2 | _ => addr 1 end in
  let d := match GetEvent prefix_hash kind with Ok d => d | Throw _ => MkEventDefinition kind "" [] (array_copy 32 []) end in
  MkRawLog (U 1) block (array_copy 32 (be_bytes 32 block)) (array_copy 32 []) 0 index emitter
    (ev_topic d :: event_topics (ev_parameters d) values) (event_data (ev_parameters d) values) canonical.

(** Alice (5) supplies collateral, Bob (6) supplies USDC, Alice borrows, interest accrues,
    Alice repays a part. *)
Definition sample_logs : list RawLog := [
  sample_log true 10 0 Supplied [VAddress (addr 5); VAddress (addr 3); VUint256 (U 700)];
  sample_log true 10 1 Supplied [VAddress (addr 6); VAddress (addr 4); VUint256 (U 1000)];
  sample_log false 10 1 Withdrawn [VAddress (addr 6); VAddress (addr 4); VUint256 (U 5)];
  sample_log true 11 0 Borrowed [VAddress (addr 5); VAddress (addr 4); VUint256 (U 400)];
  sample_log true 12 0 InterestAccrued
    [VUint256 (U 99); VUint256 (U (11 * 10 ^ 26)); VUint256 (U (104 * 10 ^ 25)); VUint256 (U 0)];
  sample_log true 12 1 Repaid [VAddress (addr 5); VAddress (addr 4); VUint256 (U 100); VUint256 (U 341)]].

Definition state_of (r : result DerivedState) : DerivedState :=
  match r with Ok s => s | Throw _ => CreateInitialState sample_contracts end.

(** ** Properties *)

(** Claim C20: in every state [Rebuild] returns, each position is stored under its user and
    the market's totals of collateral, scaled supply and scaled debt are exactly the sums
    over the positions, whatever the logs; no event can make the totals drift. *)
Theorem Rebuild_totals keccak contracts logs s :
  Rebuild keccak contracts logs = Ok s -> projected contracts s.
Proof. apply Rebuild_projected. Qed.

Lemma Rebuild_totals_witness :
  projected sample_contracts (state_of (Rebuild prefix_hash sample_contracts sample_logs)).
Proof. apply (Rebuild_totals prefix_hash sample_contracts sample_logs). vm_compute. reflexivity. Defined.

(** Claim C19: no event other than an accrual of interest and a recognised bad debt changes
    the pool's equity (liquidity held, plus the debts of all positions at the borrow index,
    less what suppliers are owed at the liquidity index, less the reserve, plus recognised
    bad debt): every rounding difference of a supply, withdrawal, borrow, repayment or
    liquidation is booked to the reserve to the last unit.  A [BadDebtRecognized] event
    shifts it by the amount it reports beyond the debt it removes, which is zero for the
    amount the contract reports after a liquidation: together the two events leave the
    equity as it was. *)
Theorem equity_conserved contracts s e s' :
  de_kind e <> InterestAccrued -> ApplyEvent contracts s e = Ok s' ->
  pool_equity s' = pool_equity s + excess_loss s e
  /\ (de_kind e <> BadDebtRecognized -> pool_equity s' = pool_equity s)
  /\ forall liquidator borrower debtAsset collateralAsset repaid seized scaledBurn amount source s'',
       de_kind e = Liquidated ->
       de_values e = [VAddress liquidator; VAddress borrower; VAddress debtAsset; VAddress collateralAsset; VUint256 repaid; VUint256 seized] ->
       scaledDebtBurn (value_ (ms_borrowIndex (ds_market s))) (value_ (ps_scaledUsdcDebt (GetPosition s borrower))) (value_ repaid)
         = Some (scaledBurn, value_ amount) ->
       ApplyEvent contracts s' (MkDecodedProtocolEvent BadDebtRecognized [VAddress borrower; VUint256 amount] source) = Ok s'' ->
       pool_equity s'' = pool_equity s.
Proof.
  intros Hk E. pose proof (effect_equity s e s' Hk (ApplyEvent_effect _ _ _ _ E)) as He. split; [done|].
  assert (de_kind e <> BadDebtRecognized -> pool_equity s' = pool_equity s) as Hsame.
  { intros Hb. rewrite He. unfold excess_loss. destruct (de_kind e); try lia. done. }
  split; [done|]. intros liquidator borrower debtAsset collateralAsset repaid seized scaledBurn amount source s'' Hl Hv Hburn E2.
  assert (pool_equity s'' = pool_equity s' + excess_loss s' (MkDecodedProtocolEvent BadDebtRecognized [VAddress borrower; VUint256 amount] source)) as ->
    by (apply effect_equity; [discriminate|by eapply ApplyEvent_effect]).
  rewrite Hsame by by rewrite Hl.
  unfold excess_loss. cbn [de_kind de_values]. unfold ApplyEvent in E. rewrite Hl in E.
  destruct (Liquidated_debt _ _ _ _ _ _ _ _ _ _ _ _ Hv Hburn E) as [-> Hd]. lia.
Qed.

Definition sample_state : DerivedState := state_of (Rebuild prefix_hash sample_contracts sample_logs).
Definition sample_seizure : DecodedProtocolEvent :=
  MkDecodedProtocolEvent Liquidated
    [VAddress (addr 7); VAddress (addr 5); VAddress (addr 4); VAddress (addr 3);
     VUint256 (U 100); VUint256 (U 60)] (sample_log true 13 0 Liquidated []).

(** Alice is liquidated of all her collateral, and the rest of her debt is written off. *)
Definition sample_wipeout : DecodedProtocolEvent :=
  MkDecodedProtocolEvent Liquidated
    [VAddress (addr 7); VAddress (addr 5); VAddress (addr 4); VAddress (addr 3);
     VUint256 (U 100); VUint256 (U 700)] (sample_log true 13 0 Liquidated []).
Definition sample_loss : DecodedProtocolEvent :=
  MkDecodedProtocolEvent BadDebtRecognized [VAddress (addr 5); VUint256 (U 242)] (sample_log true 13 1 BadDebtRecognized []).
Definition wiped_state : DerivedState := state_of (ApplyEvent sample_contracts sample_state sample_wipeout).

Lemma equity_conserved_witness :
  pool_equity (state_of (ApplyEvent sample_contracts sample_state sample_seizure)) = pool_equity sample_state
  /\ pool_equity (state_of (ApplyEvent sample_contracts wiped_state sample_loss)) = pool_equity sample_state.
Proof.
  destruct (equity_conserved sample_contracts sample_state sample_seizure
    (state_of (ApplyEvent sample_contracts sample_state sample_seizure))) as (_ & Hs & _).
  - discriminate.
  - vm_compute. reflexivity.
  - split; [apply Hs; discriminate|].
    destruct (equity_conserved sample_contracts sample_state sample_wipeout wiped_state) as (_ & _ & Hp).
    + discriminate.
    + vm_compute. reflexivity.
    + apply (Hp (addr 7) (addr 5) (addr 4) (addr 3) (U 100) (U 700) 90 (U 242) (de_source sample_loss)).
      * reflexivity.
      * reflexivity.
      * vm_compute. reflexivity.
      * vm_compute. reflexivity.
Defined.

(** A log the protocol emits for an event is applied as that event with its
    values, when the event topics are distinct; a log of any contract other than the pool
    and the oracle leaves the state as it is, however malformed its data. *)
Theorem Apply_exact keccak contracts s kind values log :
  (distinct_topics keccak -> emits keccak contracts kind values log ->
   Apply keccak contracts s log = ApplyEvent contracts s (MkDecodedProtocolEvent kind values log))
  /\ (rl_contractAddress log <> cc_pool contracts -> rl_contractAddress log <> cc_oracle contracts ->
      Apply keccak contracts s log = Ok s).
Proof.
  split.
  - intros HN He. unfold Apply. by rewrite (DecodeLog_emits _ _ _ _ _ HN He).
  - intros Hp Ho. unfold Apply, DecodeLog. destruct (rl_topics log) as [|t ts]; [done|].
    destruct (MatchEvent keccak t) as [k|]; [|done].
    assert (IsExpectedEmitter contracts k (rl_contractAddress log) = false) as ->; [|done].
    by destruct k; apply bool_decide_eq_false.
Qed.

Lemma Apply_exact_witness :
  Apply prefix_hash sample_contracts (CreateInitialState sample_contracts)
    (sample_log true 3 0 PriceUpdated [VAddress (addr 3); VUint256 (U 8); VUint256 (U 9)])
  = Ok (set_market (set_wethPriceUpdatedAt (U 9) (set_wethPrice (U 8)
          (ds_market (CreateInitialState sample_contracts)))) (CreateInitialState sample_contracts)).
Proof.
  rewrite (proj1 (Apply_exact prefix_hash sample_contracts (CreateInitialState sample_contracts)
    PriceUpdated [VAddress (addr 3); VUint256 (U 8); VUint256 (U 9)] _)).
  - reflexivity.
  - unfold distinct_topics. apply (bool_decide_unpack _). vm_compute. exact I.
  - eexists. split; [reflexivity|]. split; [repeat constructor|].
    split; [reflexivity|]. split; reflexivity.
Defined.

(** The rebuilt state does not depend on the order in which the logs are stored
    nor on the non-canonical ones among them, when no two canonical logs have the same
    block number, transaction index and log index. *)
Theorem Rebuild_order_independent keccak contracts logs logs' :
  distinct_places logs -> canonical_logs logs ≡ₚ canonical_logs logs' ->
  Rebuild keccak contracts logs = Rebuild keccak contracts logs'.
Proof.
  intros HN Hp. rewrite (Rebuild_canonical _ _ logs), (Rebuild_canonical _ _ logs').
  apply Rebuild_perm; [|done]. unfold distinct_places. by rewrite canonical_logs_idemp.
Qed.

Lemma Rebuild_order_independent_witness :
  Rebuild prefix_hash sample_contracts sample_logs =
  Rebuild prefix_hash sample_contracts (reverse (canonical_logs sample_logs)).
Proof.
  apply Rebuild_order_independent.
  - unfold distinct_places. apply (bool_decide_unpack _). vm_compute. exact I.
  - rewrite reverse_Permutation, canonical_logs_idemp. reflexivity.
Defined.

(** Rebuilding from all logs equals applying the logs of a new block, in order,
    to the state rebuilt from the earlier ones: the incremental projection of the indexer
    and the rebuild after a reorganisation agree, errors included. *)
Theorem Rebuild_incremental keccak contracts logs new :
  distinct_places (logs ++ new) -> Forall (fun log => rl_canonical log = true) new ->
  StronglySorted (sort_le log_before) new ->
  (forall x y, x ∈ canonical_logs logs -> y ∈ new -> log_before x y = true) ->
  Rebuild keccak contracts (logs ++ new) =
    (s ← Rebuild keccak contracts logs; fold_result (Apply keccak contracts) s new).
Proof. apply Rebuild_extend. Qed.

Lemma Rebuild_incremental_witness :
  Rebuild prefix_hash sample_contracts sample_logs =
    (s ← Rebuild prefix_hash sample_contracts (take 4 sample_logs);
     fold_result (Apply prefix_hash sample_contracts) s (drop 4 sample_logs)).
Proof.
  apply (Rebuild_incremental prefix_hash sample_contracts (take 4 sample_logs) (drop 4 sample_logs)).
  - unfold distinct_places. apply (bool_decide_unpack _). vm_compute. exact I.
  - repeat constructor.
  - repeat constructor.
  - assert (Forall (fun x => Forall (fun y => log_before x y = true) (drop 4 sample_logs))
      (canonical_logs (take 4 sample_logs))) as H.
    { apply (bool_decide_unpack _). vm_compute. exact I. }
    intros x y Hx Hy. rewrite list.Forall_forall in H. specialize (H x Hx).
    rewrite list.Forall_forall in H. exact (H y Hy).
Defined.
