(* ===== verification/IndexerSync.v ===== *)
(** * IndexerSync: the indexer converges to the chain

    What the store promises the indexer ([LawfulIndexerStore]), what a chain that stands
    still answers ([StableChain]), and the proof that [SyncToHead] then terminates with the
    store holding exactly the blocks, the logs and the derived state of that chain,
    whatever fork it held before. *)

From S2P Require Import Prelude Effects Text Uint256 Hex Abi IndexerTypes RpcTypes StateProjector Indexer.
Set Default Goal Selector "!".
#[local] Open Scope Z_scope.

(** ** The promise of the store *)

(** What the store holds for one chain: the canonical block hash and parent hash per
    height, the canonical logs, the derived state and the cursor. *)
Record StoreView := MkStoreView {
  v_blocks : gmap Z (Hash256 * Hash256);
  v_logs : list RawLog;
  v_state : DerivedState;
  v_cursor : option (Z * Hash256)
}.

Definition committed (b : IndexedBlock) (logs : list RawLog) (st : DerivedState) (v : StoreView) : StoreView :=
  MkStoreView (<[ib_number b := (ib_hash b, ib_parentHash b)]> (v_blocks v)) (v_logs v ++ logs) st
    (Some (ib_number b, ib_hash b)).

Definition logs_through (n : Z) (logs : list RawLog) : list RawLog :=
  filter (fun log => rl_blockNumber log <= n) logs.

Definition rewound (a : option IndexedBlock) (st : DerivedState) (v : StoreView) : StoreView :=
  match a with
  | Some a => MkStoreView (filter (fun kv => kv.1 <= ib_number a) (v_blocks v))
                (logs_through (ib_number a) (v_logs v)) st (Some (ib_number a, ib_hash a))
  | None => MkStoreView ∅ [] st None
  end.

(** The logs of one block: at increasing positions of the block, in its transactions' order. *)
Definition place_order (x y : RawLog) : Prop :=
  rl_logIndex x < rl_logIndex y /\ rl_transactionIndex x <= rl_transactionIndex y.

Definition block_log (chainId : Uint256) (n : Z) (h : Hash256) (log : RawLog) : Prop :=
  rl_canonical log = true /\ rl_blockNumber log = n /\ rl_blockHash log = h /\ rl_chainId log = chainId
  /\ 0 <= rl_transactionIndex log < 2 ^ 63 /\ 0 <= rl_logIndex log < 2 ^ 63.

Definition block_logs (chainId : Uint256) (n : Z) (h : Hash256) (logs : list RawLog) : Prop :=
  Forall (block_log chainId n h) logs /\ StronglySorted place_order logs.

(** [represents budget s v]: the store [s] holds [v] and has room for [budget] more writes. *)
Class LawfulIndexerStore (S : Type) `{IndexerStore S} (keccak : Bytes -> Hash256)
    (contracts : ChainContracts) (chainId : Uint256) := {
  represents : nat -> S -> StoreView -> Prop;
  law_weaken budget s v : represents (Datatypes.S budget) s v -> represents budget s v;
  law_cursor budget s v : represents budget s v -> ix_LoadCursor chainId s
    = Ok ((fun c => MkSyncCursor chainId (c.1) (c.2)) <$> v_cursor v);
  law_block budget n s v : represents budget s v -> 0 <= n < 2 ^ 63 ->
    ix_LoadCanonicalBlock chainId n s
    = Ok ((fun b => MkIndexedBlock chainId n (b.1) (b.2) true) <$> v_blocks v !! n);
  law_logs budget n s v : represents budget s v -> 0 <= n < 2 ^ 63 ->
    exists logs, ix_LoadCanonicalLogsThrough chainId n s = Ok logs /\ logs ≡ₚ logs_through n (v_logs v);
  law_state budget s v : represents budget s v -> ix_LoadDerivedState chainId contracts s = Ok (v_state v);
  (** A block is committed at a height and under a hash the store does not hold, with its own
      logs and the state they lead to. *)
  law_commit budget b logs st s v :
    represents (Datatypes.S budget) s v -> ib_chainId b = chainId -> 0 <= ib_number b < 2 ^ 63 ->
    v_blocks v !! ib_number b = None -> (forall k p, v_blocks v !! k <> Some (ib_hash b, p)) ->
    block_logs chainId (ib_number b) (ib_hash b) logs ->
    Rebuild keccak contracts (v_logs v ++ logs) = Ok st ->
    exists s', ix_CommitBlock b logs st s = (Ok tt, s') /\ represents budget s' (committed b logs st v);
  (** A rewind keeps a block the store holds, or none. *)
  law_rewind budget a st s v :
    represents (Datatypes.S budget) s v ->
    match a with
    | Some a => ib_chainId a = chainId /\ 0 <= ib_number a < 2 ^ 63
                /\ v_blocks v !! ib_number a = Some (ib_hash a, ib_parentHash a)
                /\ Rebuild keccak contracts (logs_through (ib_number a) (v_logs v)) = Ok st
    | None => st = CreateInitialState contracts
    end ->
    exists s', ix_RewindTo chainId a st s = (Ok tt, s') /\ represents budget s' (rewound a st v)
}.

(** ** A chain that stands still

    The state of the client may change with every call, within an invariant [I] under which every
    call returns what it should. *)

(** A block hash commits to the number, the parent and the logs of the block;
    [content_logs] are the logs the indexer builds from them. *)
Record BlockContents := MkBlockContents {
  content_number : Hash256 -> Z;
  content_parent : Hash256 -> Hash256;
  content_logs : Hash256 -> list RawLog
}.

Definition wf_content (chainId : Uint256) (c : BlockContents) (n : Z) (h : Hash256) : Prop :=
  content_number c h = n /\ block_logs chainId n h (content_logs c h).

Lemma block_logs_sorted chainId n h logs :
  block_logs chainId n h logs -> StronglySorted (sort_le log_before) logs.
Proof.
  intros [HF HS]. induction HS as [|x l HS IH Hx]; constructor.
  - apply IH. by inversion HF.
  - apply Forall_cons in HF as [(_ & Hxn & _) HF']. rewrite list.Forall_forall in *. intros y Hy.
    destruct (Hx y Hy) as [Hl Ht]. destruct (HF' y Hy) as (_ & Hyn & _). unfold sort_le, log_before.
    rewrite Hyn, Hxn, Z.eqb_refl. cbn [negb]. destruct (Z.eqb_spec (rl_transactionIndex y) (rl_transactionIndex x)); cbn [negb].
    all: apply Z.ltb_ge; lia.
Qed.

Lemma block_logs_NoDup chainId n h logs : block_logs chainId n h logs -> NoDup (rl_logIndex <$> logs).
Proof.
  intros [_ HS]. induction HS as [|x l HS IH Hx]; cbn; constructor; [|done].
  intros (y & E & Hy)%list_elem_of_fmap. rewrite list.Forall_forall in Hx. destruct (Hx y Hy). lia.
Qed.

Lemma block_logs_keys chainId n h logs : block_logs chainId n h logs -> NoDup (log_key <$> logs).
Proof.
  intros HB%block_logs_NoDup. apply (NoDup_fmap_1 (fun key : Z * Z * Z => key.2)).
  by rewrite <-list_fmap_compose.
Qed.

(** The logs of the blocks [start .. start + n - 1], whose hashes [f] gives. *)
Fixpoint segment_logs (c : BlockContents) (start : Z) (f : Z -> Hash256) (n : nat) : list RawLog :=
  match n with
  | O => []
  | S n' => segment_logs c start f n' ++ content_logs c (f (start + Z.of_nat n'))
  end.

(** The chain itself. *)
Record ChainFacts (keccak : Bytes -> Hash256) (contracts : ChainContracts) (chainId : Uint256) (start : Z)
    (c : BlockContents) (head : Z) (hdr : Z -> BlockHeader) : Prop := {
  cf_range : 0 <= start /\ head < 2 ^ 63;
  cf_number k : start <= k <= head -> value_ (bh_number (hdr k)) = k;
  cf_parent k : start < k <= head -> bh_parentHash (hdr k) = bh_hash (hdr (k - 1));
  cf_content_parent k : start <= k <= head -> content_parent c (bh_hash (hdr k)) = bh_parentHash (hdr k);
  cf_wf k : start <= k <= head -> wf_content chainId c k (bh_hash (hdr k));
  (** The events of the chain can be projected. *)
  cf_projects n : Z.of_nat n <= head + 1 - start ->
    is_ok (Rebuild keccak contracts (segment_logs c start (fun k => bh_hash (hdr k)) n)) = true
}.

(** The logs of a block as a node returns them, from which [IndexBlock] builds those of the block. *)
Definition logs_of_block (chainId : Uint256) (c : BlockContents) (hdr : Z -> BlockHeader) (k : Z) (logs : list RpcLog) : Prop :=
  exists raw, map_result (raw_log chainId k (hdr k)) (std_sort index_before logs) = Ok raw
    /\ omap id raw = content_logs c (bh_hash (hdr k)).

Record StableChain {N} `{ChainClient N} (keccak : Bytes -> Hash256) (contracts : ChainContracts)
    (chainId : Uint256) (start : Z) (c : BlockContents) (head : Z) (hdr : Z -> BlockHeader) (I : N -> Prop) : Prop := {
  sc_facts :> ChainFacts keccak contracts chainId start c head hdr;
  sc_id w : I w -> exists w', chain_GetChainId w = (Ok chainId, w') /\ I w';
  sc_head w : I w -> exists w', chain_GetBlockNumber w = (Ok head, w') /\ I w';
  sc_block k w : start <= k <= head -> I w -> exists w', chain_GetBlockByNumber k w = (Ok (Some (hdr k)), w') /\ I w';
  sc_logs k w : start <= k <= head -> I w ->
    exists logs w', chain_GetLogs k w = (Ok logs, w') /\ I w' /\ logs_of_block chainId c hdr k logs
}.

(** A node that answers as this chain does, or fails with an exception of [F]. *)
Record ChainAnswers {N} `{ChainClient N} (keccak : Bytes -> Hash256) (contracts : ChainContracts)
    (chainId : Uint256) (start : Z) (c : BlockContents) (head : Z) (hdr : Z -> BlockHeader) (I : N -> Prop)
    (F : exn -> Prop) : Prop := {
  ca_facts :> ChainFacts keccak contracts chainId start c head hdr;
  ca_id w : I w -> wp chain_GetChainId (fun id w' => id = chainId /\ I w') (fun e w' => F e /\ I w') w;
  ca_head w : I w -> wp chain_GetBlockNumber (fun n w' => n = head /\ I w') (fun e w' => F e /\ I w') w;
  ca_block k w : start <= k <= head -> I w ->
    wp (chain_GetBlockByNumber k) (fun block w' => block = Some (hdr k) /\ I w') (fun e w' => F e /\ I w') w;
  ca_logs k w : start <= k <= head -> I w ->
    wp (chain_GetLogs k) (fun logs w' => logs_of_block chainId c hdr k logs /\ I w') (fun e w' => F e /\ I w') w
}.

Lemma stable_answers {N} `{ChainClient N} keccak contracts chainId start c head hdr (I : N -> Prop) :
  StableChain keccak contracts chainId start c head hdr I ->
  ChainAnswers keccak contracts chainId start c head hdr I (fun _ => False).
Proof.
  intros [facts Hid Hhead Hblock Hlogs]. split; [exact facts|..]; unfold wp.
  - intros w Hw. by destruct (Hid w Hw) as (w' & -> & ?).
  - intros w Hw. by destruct (Hhead w Hw) as (w' & -> & ?).
  - intros k w Hk Hw. by destruct (Hblock k w Hk Hw) as (w' & -> & ?).
  - intros k w Hk Hw. by destruct (Hlogs k w Hk Hw) as (logs & w' & -> & ? & ?).
Qed.

(** ** Segments of a chain *)
Section Segments.
Context (keccak : Bytes -> Hash256) (contracts : ChainContracts) (chainId : Uint256).
Context (start : Z) (c : BlockContents).
Implicit Types f : Z -> Hash256.

Definition wf_segment f (n : nat) : Prop :=
  forall k, start <= k < start + Z.of_nat n -> wf_content chainId c k (f k).

Lemma segment_logs_ext f g n :
  (forall k, start <= k < start + Z.of_nat n -> f k = g k) -> segment_logs c start f n = segment_logs c start g n.
Proof using.
  induction n as [|n IH]; intros E; [done|]. cbn [segment_logs]. rewrite E by lia. rewrite IH; [done|].
  intros k Hk. apply E. lia.
Qed.

Lemma segment_logs_range f n log :
  wf_segment f n -> log ∈ segment_logs c start f n ->
  rl_canonical log = true /\ start <= rl_blockNumber log < start + Z.of_nat n.
Proof using.
  induction n as [|n IH]; intros Hwf Hl; [by apply not_elem_of_nil in Hl|]. cbn [segment_logs] in Hl.
  apply elem_of_app in Hl as [Hl|Hl].
  - apply IH in Hl as [? ?]; [split; [done|lia]|]. intros k Hk. apply Hwf. lia.
  - destruct (Hwf (start + Z.of_nat n) ltac:(lia)) as (_ & HF & _). rewrite list.Forall_forall in HF.
    destruct (HF _ Hl) as (? & -> & _). split; [done|lia].
Qed.

Lemma segment_logs_canonical f n :
  wf_segment f n -> canonical_logs (segment_logs c start f n) = segment_logs c start f n.
Proof using.
  intros Hwf. apply list_filter_all, list.Forall_forall. intros x Hx.
  by apply (segment_logs_range f n x Hwf) in Hx as [? _].
Qed.

Lemma segment_logs_NoDup f n : wf_segment f n -> NoDup (log_key <$> segment_logs c start f n).
Proof using.
  induction n as [|n IH]; intros Hwf; [constructor|]. cbn [segment_logs]. rewrite fmap_app.
  assert (wf_segment f n) as Hwf' by (intros k Hk; apply Hwf; lia).
  destruct (Hwf (start + Z.of_nat n) ltac:(lia)) as [_ HB]. pose proof (proj1 HB) as HF. rewrite list.Forall_forall in HF.
  apply NoDup_app. split; [auto|]. split; [|by eapply block_logs_keys].
  intros key (x & -> & Hx)%list_elem_of_fmap (y & Ek & Hy)%list_elem_of_fmap.
  apply (segment_logs_range f n x Hwf') in Hx. destruct (HF _ Hy) as (_ & Hyn & _).
  injection Ek as Hb _ _. lia.
Qed.

Lemma segment_distinct f n logs :
  wf_segment f n -> logs ≡ₚ segment_logs c start f n -> distinct_places logs.
Proof using.
  intros Hwf Hp. unfold distinct_places. rewrite Hp, segment_logs_canonical by done.
  by apply segment_logs_NoDup.
Qed.

(** The logs up to a height are those of the shorter segment. *)
Lemma segment_logs_through f n j :
  wf_segment f n -> (j <= n)%nat ->
  logs_through (start + Z.of_nat j - 1) (segment_logs c start f n) = segment_logs c start f j.
Proof using.
  intros Hwf Hj. unfold logs_through. induction n as [|n IH].
  - by replace j with 0%nat by lia.
  - assert (wf_segment f n) as Hwf' by (intros k Hk; apply Hwf; lia).
    destruct (decide (j = Datatypes.S n)) as [->|].
    + apply list_filter_all, list.Forall_forall. intros x Hx.
      apply (segment_logs_range f _ x Hwf) in Hx. lia.
    + cbn [segment_logs]. rewrite filter_app, IH by (auto; lia).
      rewrite list_filter_none; [by rewrite app_nil_r|]. apply list.Forall_forall. intros x Hx.
      destruct (Hwf (start + Z.of_nat n) ltac:(lia)) as (_ & HF & _). rewrite list.Forall_forall in HF.
      destruct (HF _ Hx) as (_ & -> & _). lia.
Qed.

(** The store holds the blocks [start .. start + n - 1] with hashes [f]. *)
Record holds_segment (v : StoreView) f (n : nat) : Prop := {
  hs_blocks k : v_blocks v !! k =
    if decide (start <= k < start + Z.of_nat n) then Some (f k, content_parent c (f k)) else None;
  hs_linked k : start < k < start + Z.of_nat n -> content_parent c (f k) = f (k - 1);
  hs_wf : wf_segment f n;
  hs_logs : v_logs v ≡ₚ segment_logs c start f n;
  hs_state : Rebuild keccak contracts (v_logs v) = Ok (v_state v);
  hs_cursor : v_cursor v =
    if decide (n = 0%nat) then None
    else Some (start + Z.of_nat n - 1, f (start + Z.of_nat n - 1))
}.

Lemma holds_segment_ext v f g n :
  (forall k, start <= k < start + Z.of_nat n -> f k = g k) -> holds_segment v f n -> holds_segment v g n.
Proof using.
  intros E [Hb Hl Hw Hlog Hs Hc]. constructor.
  - intros k. rewrite Hb. destruct (decide (start <= k < start + Z.of_nat n)); [by rewrite (E k)|done].
  - intros k Hk. rewrite <-!E by lia. auto.
  - intros k Hk. rewrite <-E by lia. auto.
  - rewrite Hlog. by rewrite (segment_logs_ext f g).
  - done.
  - rewrite Hc. destruct (decide (n = 0%nat)); [done|]. rewrite E by lia. done.
Qed.

(** Two segments that agree at a height agree below it. *)
Lemma agree_below f g n :
  (forall k, start < k <= start + Z.of_nat n -> content_parent c (f k) = f (k - 1)) ->
  (forall k, start < k <= start + Z.of_nat n -> content_parent c (g k) = g (k - 1)) ->
  f (start + Z.of_nat n) = g (start + Z.of_nat n) ->
  forall k, start <= k <= start + Z.of_nat n -> f k = g k.
Proof using.
  induction n as [|n IH]; intros Hf Hg E k Hk.
  - by replace k with (start + Z.of_nat 0) by lia.
  - destruct (decide (k = start + Z.of_nat (Datatypes.S n))) as [->|]; [done|].
    apply IH; [intros; apply Hf; lia|intros; apply Hg; lia| |lia].
    replace (start + Z.of_nat n) with (start + Z.of_nat (Datatypes.S n) - 1) by lia.
    rewrite <-Hf, <-Hg by lia. by rewrite E.
Qed.

Lemma rewound_segment v f n a st :
  holds_segment v f n ->
  match a with
  | Some b => exists j, (0 < j <= n)%nat /\ ib_number b = start + Z.of_nat j - 1 /\ ib_hash b = f (ib_number b)
              /\ Rebuild keccak contracts (logs_through (ib_number b) (v_logs v)) = Ok st
  | None => st = CreateInitialState contracts
  end ->
  holds_segment (rewound a st v) f (match a with Some b => Z.to_nat (ib_number b - start + 1) | None => 0 end).
Proof using.
  intros [Hb Hl Hw Hlog Hs Hc] Ha. destruct a as [b|].
  - destruct Ha as (j & Hj & Hn & Hh & HR). replace (Z.to_nat (ib_number b - start + 1)) with j by lia.
    assert (wf_segment f j) as Hwj by (intros k Hk; apply Hw; lia).
    assert (logs_through (ib_number b) (v_logs v) ≡ₚ segment_logs c start f j) as Hlj.
    { rewrite Hn, <-(segment_logs_through f n j) by (auto; lia). unfold logs_through. by rewrite Hlog. }
    constructor; cbn [rewound v_blocks v_logs v_state v_cursor]; auto.
    + intros k. destruct (decide (start <= k < start + Z.of_nat j)).
      * apply map_lookup_filter_Some. rewrite Hb, decide_True by lia. split; [done|simpl; lia].
      * apply map_lookup_filter_None. rewrite Hb.
        destruct (decide (start <= k < start + Z.of_nat n)); [right|by left].
        intros x [= <-]. simpl. lia.
    + intros k Hk. apply Hl. lia.
    + rewrite decide_False by lia. by rewrite Hh, Hn.
  - constructor; cbn [rewound v_blocks v_logs v_state v_cursor].
    + intros k. rewrite decide_False by lia. apply lookup_empty.
    + lia.
    + intros k Hk. lia.
    + done.
    + by rewrite Ha.
    + done.
Qed.

Lemma committed_segment v f n b logs st :
  holds_segment v f n ->
  ib_number b = start + Z.of_nat n -> ib_hash b = f (ib_number b) ->
  content_parent c (f (ib_number b)) = ib_parentHash b ->
  (n <> 0%nat -> ib_parentHash b = f (ib_number b - 1)) ->
  wf_content chainId c (ib_number b) (f (ib_number b)) -> logs = content_logs c (f (ib_number b)) ->
  Rebuild keccak contracts (v_logs v ++ logs) = Ok st ->
  holds_segment (committed b logs st v) f (Datatypes.S n).
Proof using.
  intros [Hb Hl Hw Hlog Hs Hc] Hn Hh Hp Hlink Hwf Hlogs HR.
  assert (wf_segment f (Datatypes.S n)) as HwS.
  { intros k Hk. destruct (decide (k = ib_number b)) as [->|]; [done|]. apply Hw. lia. }
  assert (v_logs v ++ logs ≡ₚ segment_logs c start f (Datatypes.S n)) as HlS.
  { cbn [segment_logs]. by rewrite Hlog, Hlogs, Hn. }
  constructor; cbn [committed v_blocks v_logs v_state v_cursor]; auto.
  - intros k. destruct (decide (k = ib_number b)) as [->|Hk].
    + rewrite lookup_insert_eq, decide_True by lia. by rewrite Hp, Hh.
    + rewrite lookup_insert_ne, Hb by done.
      destruct (decide (start <= k < start + Z.of_nat n)),
        (decide (start <= k < start + Z.of_nat (Datatypes.S n))); try done; lia.
  - intros k Hk. destruct (decide (k = ib_number b)) as [->|]; [|apply Hl; lia].
    rewrite Hp. apply Hlink. lia.
  - rewrite decide_False by lia. rewrite Hh, Hn. repeat f_equal; lia.
Qed.
End Segments.

(** ** The program on a stable chain *)
Section Sync.
Context {S N : Type} `{IndexerStore S} `{ChainClient N}.
Context (keccak : Bytes -> Hash256) (contracts : ChainContracts) (chainId : Uint256).
Context `{!LawfulIndexerStore S keccak contracts chainId}.
Context (start : Z) (c : BlockContents) (head : Z) (hdr : Z -> BlockHeader) (I : N -> Prop) (F : exn -> Prop).
Context (answers : ChainAnswers keccak contracts chainId start c head hdr I F).

Abbreviation chain_hash := (fun k => bh_hash (hdr k)).
Abbreviation seg := (holds_segment keccak contracts chainId start c).
Abbreviation ST := (MkIxState (S := S) (N := N)).

Definition stored (budget : nat) (s : S) (f : Z -> Hash256) (n : nat) : Prop :=
  exists v, represents budget s v /\ seg v f n.

Lemma stored_weaken budget s f n : stored (Datatypes.S budget) s f n -> stored budget s f n.
Proof using. intros (v & Hv & Hseg). exists v. split; [by apply law_weaken|done]. Qed.

Lemma stored_less budget k s f n : stored (k + budget) s f n -> stored budget s f n.
Proof using. induction k; cbn [Nat.add]; auto using stored_weaken. Qed.

(** What a call that throws leaves: a segment is still stored, perhaps another one. *)
Definition unharmed (budget : nat) (e : exn) (st : IxState S N) : Prop :=
  F e /\ I (ix_chain st) /\ exists f n, stored budget (ix_store st) f n.

Lemma stored_unharmed budget e s f n w status : F e /\ I w -> stored budget s f n -> unharmed budget e (ST s w status).
Proof using. intros [? ?] Hs. split; [done|]. split; [done|]. by exists f, n. Qed.

Lemma unharmed_less budget k e st : unharmed (k + budget) e st -> unharmed budget e st.
Proof using. intros (? & ? & f & n & Hs). split; [done|]. split; [done|]. exists f, n. by eapply stored_less. Qed.

(** The calls of an iteration. *)
Lemma read_wp {A} (f : S -> result A) a (Q : A -> IxState S N -> Prop) E s n t :
  f s = Ok a -> Q a (ST s n t) -> wp (store_read f) Q E (ST s n t).
Proof using. intros Ef HQ. unfold wp, store_read. cbn [ix_store]. by rewrite Ef. Qed.

Lemma write_wp f (Q : unit -> IxState S N -> Prop) E s n t s' :
  f s = (Ok tt, s') -> Q tt (ST s' n t) -> wp (store_write f) Q E (ST s n t).
Proof using. intros Ef HQ. unfold wp, store_write. cbn [ix_store]. by rewrite Ef. Qed.

Lemma call_wp {A} (f : prog N A) (P : A -> N -> Prop) (X : exn -> N -> Prop) (Q : A -> IxState S N -> Prop) E s n t :
  wp f P X n -> (forall a n', P a n' -> Q a (ST s n' t)) -> (forall e n', X e n' -> E e (ST s n' t)) ->
  wp (chain_call f) Q E (ST s n t).
Proof using. unfold wp, chain_call. cbn [ix_chain]. destruct (f n) as [[a|e] n']; auto. Qed.

Lemma lift_Ok_wp {A} (r : result A) a (Q : A -> IxState S N -> Prop) E st : r = Ok a -> Q a st -> wp (lift r) Q E st.
Proof using. intros -> HQ. by apply wp_lift; [intros ? [= <-]|]. Qed.

Lemma status_wp g (Q : unit -> IxState S N -> Prop) E s n t : Q tt (ST s n (g t)) -> wp (set_status g) Q E (ST s n t).
Proof using. done. Qed.

Lemma chain_linked k : start < k <= head -> content_parent c (chain_hash k) = chain_hash (k - 1).
Proof using answers. intros Hk. destruct (ca_facts _ _ _ _ _ _ _ _ _ answers). rewrite cf_content_parent0, cf_parent0 by lia. done. Qed.

(** [FindCommonAncestor] returns the highest stored block that is on the chain. *)
Definition ancestor_of (f : Z -> Hash256) (top : Z) (a : option IndexedBlock) : Prop :=
  match a with
  | Some b => start <= ib_number b <= top
              /\ b = MkIndexedBlock chainId (ib_number b) (f (ib_number b)) (content_parent c (f (ib_number b))) true
              /\ f (ib_number b) = chain_hash (ib_number b)
              /\ forall k, ib_number b < k <= top -> f k <> chain_hash k
  | None => forall k, start <= k <= top -> f k <> chain_hash k
  end.

(** A call that only asks the chain: the store and the status stay. *)
Definition asks {A} (budget : nat) (P : A -> Prop) (m : prog (IxState S N) A) (s : S) (status : IndexerStatus) : Prop :=
  forall w, I w -> wp m (fun a st' => exists w', st' = ST s w' status /\ P a /\ I w') (unharmed budget) (ST s w status).

Lemma ancestor_step f k a : f k <> chain_hash k -> ancestor_of f (k - 1) a -> ancestor_of f k a.
Proof using.
  intros Hk. destruct a as [b|]; cbn [ancestor_of].
  - intros (? & ? & ? & H4). split; [lia|]. split; [done|]. split; [done|]. intros i Hi.
    destruct (decide (i = k)) as [->|]; [done|]. apply H4. lia.
  - intros Hall i Hi. destruct (decide (i = k)) as [->|]; [done|]. apply Hall. lia.
Qed.

Lemma find_ancestor_wp budget f n j s status :
  stored budget s f n -> (j < n)%nat -> start + Z.of_nat j <= head ->
  asks budget (ancestor_of f (start + Z.of_nat j)) (find_ancestor start chainId j) s status.
Proof using answers.
  intros Hs. pose proof Hs as (v & Hok & Hseg). pose proof (cf_range _ _ _ _ _ _ _ answers).
  induction j as [|j IH]; intros Hj Hh w Hw.
  all: cbn [find_ancestor]; apply wp_bind; eapply read_wp; [eapply law_block; [exact Hok|lia]|].
  all: apply wp_bind; eapply call_wp; [apply (ca_block _ _ _ _ _ _ _ _ _ answers); [lia|done]| |intros e w' ?; by eapply stored_unharmed].
  all: intros block w1 [-> Hw1]; rewrite (hs_blocks _ _ _ _ _ _ _ _ Hseg), decide_True by lia.
  all: cbn [fmap option_fmap option_map fst snd ib_hash]; case_bool_decide as E.
  1,3: apply wp_ret; exists w1; split; [done|]; split; [|done]; cbn [ancestor_of ib_number]; repeat split; try lia; done.
  - apply wp_ret. exists w1. split; [done|]. split; [|done]. intros k Hk. by replace k with (start + Z.of_nat 0) by lia.
  - eapply wp_mono; [apply IH; [lia|lia|done]| |done]. intros a st' (w2 & -> & Ha & Hw2). exists w2. split; [done|]. split; [|done].
    apply ancestor_step; [done|]. by replace (start + Z.of_nat (Datatypes.S j) - 1) with (start + Z.of_nat j) by lia.
Qed.

(** The events of the first blocks of a segment cannot be projected. *)
Definition cannot_project f n e : Prop :=
  exists logs, logs ≡ₚ segment_logs c start f n /\ Rebuild keccak contracts logs = Throw e.

Lemma chain_projects n e : Z.of_nat n <= head + 1 - start -> ~ cannot_project chain_hash n e.
Proof using answers.
  intros Hn (logs & Hp & E). pose proof (cf_projects _ _ _ _ _ _ _ answers n Hn) as HR.
  rewrite <-(Rebuild_perm keccak contracts logs) in HR; [by rewrite E in HR| |exact Hp].
  eapply segment_distinct; [|exact Hp]. intros k Hk. apply (cf_wf _ _ _ _ _ _ _ answers). lia.
Qed.

(** A block of the store up to [top], or none. *)
Definition stored_block f top (a : option IndexedBlock) : Prop :=
  match a with
  | Some b => start <= ib_number b <= top
              /\ b = MkIndexedBlock chainId (ib_number b) (f (ib_number b)) (content_parent c (f (ib_number b))) true
  | None => True
  end.

Definition height_of (a : option IndexedBlock) : nat :=
  match a with Some b => Z.to_nat (ib_number b - start + 1) | None => 0 end.

(** A rewind leaves the segment up to the ancestor, or throws before it has changed anything. *)
Lemma Rewind_segment budget f n top a s status w (Q : unit -> IxState S N -> Prop) E :
  0 <= start -> top < start + Z.of_nat n -> top < 2 ^ 63 ->
  stored (Datatypes.S budget) s f n -> stored_block f top a ->
  (forall s' status', stored budget s' f (height_of a) -> Q tt (ST s' w status')) ->
  (forall e status', a <> None -> cannot_project f (height_of a) e -> E e (ST s w status')) ->
  wp (Rewind keccak contracts chainId a) Q E (ST s w status).
Proof using.
  intros Hst Htop Hr (v & Hok & Hseg) Ha HQ HE. unfold Rewind. apply wp_bind, status_wp. destruct a as [b|].
  - destruct Ha as (Hb & Eb). pose proof (f_equal ib_hash Eb) as Eh. pose proof (f_equal ib_parentHash Eb) as Ep.
    pose proof (f_equal ib_chainId Eb) as Ec. cbn [ib_hash ib_parentHash ib_chainId] in Eh, Ep, Ec.
    destruct (law_logs _ (ib_number b) s v Hok) as (logs & EL & HL); [lia|].
    assert (logs_through (ib_number b) (v_logs v) ≡ₚ segment_logs c start f (height_of (Some b))) as Hlj.
    { cbn [height_of]. rewrite <-(segment_logs_through chainId start c f n) by (apply Hseg || lia).
      replace (start + Z.of_nat _ - 1) with (ib_number b) by lia. unfold logs_through. by rewrite (hs_logs _ _ _ _ _ _ _ _ Hseg). }
    apply wp_bind, wp_bind. eapply read_wp; [exact EL|]. apply wp_lift.
    + intros st Est. assert (Rebuild keccak contracts (logs_through (ib_number b) (v_logs v)) = Ok st) as Est'.
      { rewrite <-Est. symmetry. apply Rebuild_perm; [|done]. eapply segment_distinct; [|by rewrite HL].
        cbn [height_of]. intros k Hk. apply (hs_wf _ _ _ _ _ _ _ _ Hseg). lia. }
      destruct (law_rewind budget (Some b) st s v Hok) as (s' & ER & HV).
      { split; [done|]. split; [lia|]. rewrite (hs_blocks _ _ _ _ _ _ _ _ Hseg), decide_True by lia. split; [by rewrite Eh, Ep|done]. }
      eapply write_wp; [exact ER|]. apply HQ. exists (rewound (Some b) st v). split; [done|].
      apply (rewound_segment _ _ _ _ _ v f n (Some b) st Hseg).
      exists (height_of (Some b)). cbn [height_of]. split; [lia|]. split; [lia|done].
    + intros e Ee. apply HE; [done|]. exists logs. split; [by rewrite HL|done].
  - apply wp_bind, wp_ret.
    destruct (law_rewind budget None (CreateInitialState contracts) s v Hok eq_refl) as (s' & ER & HV).
    eapply write_wp; [exact ER|]. apply HQ. eexists. split; [exact HV|]. by apply (rewound_segment _ _ _ _ _ v f n None _ Hseg).
Qed.

(** Rewinding to an ancestor leaves a segment of the chain. *)
Lemma Rewind_wp budget f n top a s status w (Q : unit -> IxState S N -> Prop) E :
  stored (Datatypes.S budget) s f n -> top < start + Z.of_nat n -> top <= head -> ancestor_of f top a ->
  (forall s' status', stored budget s' chain_hash (height_of a) -> Q tt (ST s' w status')) ->
  wp (Rewind keccak contracts chainId a) Q E (ST s w status).
Proof using answers.
  intros Hs Htop Hhead Hanc HQ. pose proof Hs as (v & _ & Hseg). pose proof (cf_range _ _ _ _ _ _ _ answers).
  assert (forall k, start <= k < start + Z.of_nat (height_of a) -> f k = chain_hash k) as Hag.
  { destruct a as [b|]; cbn [height_of]; [|lia]. destruct Hanc as (Hr & _ & Hf & _). intros k Hk.
    apply (agree_below start c f chain_hash (Z.to_nat (ib_number b - start))); [| | |lia].
    - intros i Hi. apply (hs_linked _ _ _ _ _ _ _ _ Hseg). lia.
    - intros i Hi. apply chain_linked. lia.
    - by replace (start + Z.of_nat _) with (ib_number b) by lia. }
  eapply (Rewind_segment budget f n top); [lia|done|lia|done| | |].
  - destruct a as [b|]; [|done]. by destruct Hanc as (? & ? & _).
  - intros s' status' (v' & ? & Hseg'). apply HQ. exists v'. split; [done|]. by apply (holds_segment_ext _ _ _ _ _ _ f).
  - intros e status' Ha (logs & Hp & Ee). exfalso. apply (chain_projects (height_of a) e).
    + destruct a as [b|]; cbn [height_of]; [|done]. destruct Hanc as (? & _). lia.
    + exists logs. split; [|done]. by rewrite (segment_logs_ext start c chain_hash f) by (intros k Hk; by rewrite Hag).
Qed.

Lemma FindCommonAncestor_wp budget f n top s status :
  stored budget s f n -> top < start + Z.of_nat n -> top <= head ->
  asks budget (ancestor_of f top) (FindCommonAncestor start chainId top) s status.
Proof using answers.
  intros Hs Htop Hhead w Hw. unfold FindCommonAncestor. destruct (Z.ltb_spec top start).
  - apply wp_ret. exists w. split; [done|]. split; [|done]. intros k Hk. lia.
  - eapply wp_mono; [apply (find_ancestor_wp budget f n (Z.to_nat (top - start))); [done|lia|lia|done]| |done].
    intros a st' (w' & -> & Ha & Hw'). exists w'. split; [done|]. split; [|done].
    by replace top with (start + Z.of_nat (Z.to_nat (top - start))) by lia.
Qed.

(** The cursor of a store that holds [n] blocks of the chain. *)
Definition chain_cursor (n : nat) : option SyncCursor :=
  if decide (n = 0%nat) then None
  else Some (MkSyncCursor chainId (start + Z.of_nat n - 1) (chain_hash (start + Z.of_nat n - 1))).

(** Whether the block of the cursor is still on the chain. *)
Lemma cursor_on_chain budget f n top s status :
  stored budget s f n -> start <= top ->
  asks budget (fun b => b = true <-> top <= head /\ f top = chain_hash top)
    (if top <=? head then
       chainBlock ← chain_call (chain_GetBlockByNumber top);
       mret (match chainBlock with Some block => bool_decide (bh_hash block = f top) | None => false end)
     else mret false) s status.
Proof using answers.
  intros Hs Htop w Hw. destruct (Z.leb_spec top head); [|apply wp_ret; exists w; split; [done|]; split; [split; [done|lia]|done]].
  apply wp_bind. eapply call_wp; [apply (ca_block _ _ _ _ _ _ _ _ _ answers); [lia|done]| |intros e w' ?; by eapply stored_unharmed].
  intros block w1 [-> Hw1]. apply wp_ret. exists w1. split; [done|]. split; [|done].
  rewrite bool_decide_eq_true. split; [by intros ->|by intros [_ ->]].
Qed.

(** A store with [n] blocks of [f] whose last one, if the chain is long enough, is on the chain. *)
Definition kept (f : Z -> Hash256) (n n' : nat) : Prop :=
  Z.of_nat n <= Z.max 0 (head + 1 - start) -> f (start + Z.of_nat n - 1) = chain_hash (start + Z.of_nat n - 1) -> n' = n.

Lemma ReconcileCursor_wp budget f n s status w :
  stored (Datatypes.S budget) s f n -> I w ->
  wp (ReconcileCursor keccak contracts start chainId head)
    (fun cursor st' => exists s' n' status' w', st' = ST s' w' status' /\ cursor = chain_cursor n' /\ I w'
       /\ stored budget s' chain_hash n' /\ Z.of_nat n' <= Z.max 0 (head + 1 - start) /\ kept f n n')
    (unharmed budget) (ST s w status).
Proof using answers.
  intros Hs Hw. pose proof Hs as (v & Hok & Hseg). unfold ReconcileCursor. apply wp_bind. eapply read_wp; [by eapply law_cursor|].
  rewrite (hs_cursor _ _ _ _ _ _ _ _ Hseg). destruct (decide (n = 0%nat)) as [->|Hn]; cbn [fmap option_fmap option_map fst snd].
  { apply wp_ret. exists s, 0%nat, status, w. split; [done|]. split; [done|]. split; [done|]. split; [|split; [lia|done]].
    exists v. split; [by apply law_weaken|]. apply (holds_segment_ext _ _ _ _ _ _ f); [lia|done]. }
  set (top := start + Z.of_nat n - 1) in *. cbn [sc_blockNumber sc_blockHash].
  apply wp_bind. eapply wp_mono; [apply (cursor_on_chain (Datatypes.S budget) f n top s status Hs); [lia|done]| |].
  2:{ intros e st' He. by apply (unharmed_less _ 1). }
  intros b st' (w1 & -> & Hb & Hw1). destruct b.
  - destruct (proj1 Hb eq_refl) as [Hh Hf]. apply wp_ret. exists s, n, status, w1. unfold chain_cursor. rewrite decide_False by done.
    fold top. rewrite Hf. split; [done|]. split; [done|]. split; [done|]. split; [|split; [lia|done]]. exists v. split; [by apply law_weaken|].
    apply (holds_segment_ext _ _ _ _ _ _ f); [|done]. intros k Hk.
    apply (agree_below start c f chain_hash (n - 1)); [| | |lia].
    + intros i Hi. apply (hs_linked _ _ _ _ _ _ _ _ Hseg). lia.
    + intros i Hi. apply chain_linked. lia.
    + replace (start + Z.of_nat (n - 1)) with top by lia. done.
  - apply wp_bind. eapply wp_mono; [apply (FindCommonAncestor_wp (Datatypes.S budget) f n (Z.min top head) s status Hs); [lia|lia|done]| |].
    2:{ intros e st' He. by apply (unharmed_less _ 1). }
    intros a st' (w2 & -> & Hanc & Hw2). apply wp_bind. apply (Rewind_wp budget f n (Z.min top head) a s); [done|lia|lia|done|].
    intros s' status' Hs'. apply wp_ret.
    exists s', (height_of a), status', w2.
    split; [done|]. split; [|split; [done|split; [done|split]]].
    + destruct a as [b|]; [|done]. destruct Hanc as (Hr & Hb' & Hf & _). unfold chain_cursor. cbn [height_of].
      rewrite decide_False by lia. replace (start + Z.of_nat _ - 1) with (ib_number b) by lia.
      rewrite Hb' at 2. cbn [ib_hash]. by rewrite Hf.
    + destruct a as [b|]; cbn [height_of]; [|lia]. destruct Hanc as (Hr & _). lia.
    + intros Hle Hf. exfalso. destruct Hb as [_ Hb]. discriminate Hb. split; [lia|done].
Qed.

(** The logs of a new block, applied to the stored state, give the state of all logs. *)
Lemma extended_state v f n h : seg v f n -> wf_content chainId c (start + Z.of_nat n) h ->
  Rebuild keccak contracts (v_logs v ++ content_logs c h)
  = fold_result (Apply keccak contracts) (v_state v) (content_logs c h).
Proof using.
  intros Hseg [Hn HB]. pose proof (proj1 HB) as HF.
  set (g := fun k => if decide (k = start + Z.of_nat n) then h else f k).
  assert (forall k, start <= k < start + Z.of_nat n -> f k = g k) as Efg by (intros k Hk; unfold g; by rewrite decide_False by lia).
  assert (wf_segment chainId start c g (Datatypes.S n)) as HwS.
  { intros k Hk. unfold g. destruct (decide (k = start + Z.of_nat n)) as [->|]; [done|]. apply (hs_wf _ _ _ _ _ _ _ _ Hseg). lia. }
  assert (v_logs v ++ content_logs c h ≡ₚ segment_logs c start g (Datatypes.S n)) as Hp.
  { cbn [segment_logs]. unfold g at 2. rewrite decide_True, <-(segment_logs_ext start c f g) by done.
    by rewrite (hs_logs _ _ _ _ _ _ _ _ Hseg). }
  rewrite Rebuild_extend; [by rewrite (hs_state _ _ _ _ _ _ _ _ Hseg)|by eapply segment_distinct| |by eapply block_logs_sorted|].
  - eapply Forall_impl; [exact HF|]. by intros ? [].
  - intros x y Hx Hy. unfold canonical_logs in Hx. apply list_elem_of_filter in Hx as [_ Hx].
    rewrite (hs_logs _ _ _ _ _ _ _ _ Hseg) in Hx. apply (segment_logs_range chainId start c f n x) in Hx as [_ Hx]; [|apply Hseg].
    rewrite list.Forall_forall in HF. destruct (HF _ Hy) as (_ & Hyn & _).
    unfold log_before. destruct (Z.eqb_spec (rl_blockNumber x) (rl_blockNumber y)); [lia|]. cbn [negb]. apply Z.ltb_lt. lia.
Qed.

(** A header [h] of the next height, whose parent is the last block stored. *)
Definition next_header f n (h : BlockHeader) : Prop :=
  value_ (bh_number h) = start + Z.of_nat n /\ wf_content chainId c (start + Z.of_nat n) (bh_hash h)
  /\ content_parent c (bh_hash h) = bh_parentHash h /\ (n <> 0%nat -> bh_parentHash h = f (start + Z.of_nat n - 1)).

Definition extend f n (h : BlockHeader) : Z -> Hash256 := fun k => if decide (k = start + Z.of_nat n) then bh_hash h else f k.

(** Indexing a block adds it to the segment, if the logs that pass the check are its own; or
    it throws before it has changed anything. *)
Lemma IndexBlock_segment budget f n h s status w (P : list RpcLog -> N -> Prop) X (Q : unit -> IxState S N -> Prop) E :
  0 <= start -> start + Z.of_nat n < 2 ^ 63 -> stored (Datatypes.S budget) s f n -> next_header f n h ->
  wp (chain_GetLogs (start + Z.of_nat n)) P X w ->
  (forall logs w' raw, P logs w' -> map_result (raw_log chainId (start + Z.of_nat n) h) (std_sort index_before logs) = Ok raw ->
     omap id raw = content_logs c (bh_hash h)) ->
  (forall logs w' s', P logs w' -> stored budget s' (extend f n h) (Datatypes.S n) -> Q tt (ST s' w' status)) ->
  (forall e w', X e w' -> E e (ST s w' status)) ->
  (forall logs w' e, P logs w' -> map_result (raw_log chainId (start + Z.of_nat n) h) (std_sort index_before logs) = Throw e
     \/ cannot_project (extend f n h) (Datatypes.S n) e -> E e (ST s w' status)) ->
  wp (IndexBlock keccak contracts chainId h) Q E (ST s w status).
Proof using.
  intros Hst Hk (v & Hok & Hseg) (Hnum & Hwf & Hpar & Hlink) HP Hraw HQ HX HE. set (k := start + Z.of_nat n) in *.
  assert (forall i, start <= i < start + Z.of_nat n -> f i = extend f n h i) as Efg
    by (intros i Hi; unfold extend; by rewrite decide_False by lia).
  assert (extend f n h k = bh_hash h) as Ek by (unfold extend; by rewrite decide_True).
  pose proof (holds_segment_ext _ _ _ _ _ _ _ _ _ Efg Hseg) as Hseg'.
  unfold IndexBlock. apply wp_bind. eapply (lift_Ok_wp _ k); [apply ToUint64_Ok; lia|].
  apply wp_bind. eapply call_wp; [exact HP| |exact HX]. intros logs w' Hl.
  apply wp_bind, wp_lift; [|intros e Ee; eapply HE; [exact Hl|by left]]. intros raw Er. rewrite (Hraw _ _ _ Hl Er).
  apply wp_bind. eapply read_wp; [by eapply law_state|]. pose proof (extended_state v f n (bh_hash h) Hseg Hwf) as Efold.
  apply wp_bind, wp_lift.
  - intros st Est. rewrite Est in Efold.
    destruct (law_commit budget (MkIndexedBlock chainId k (bh_hash h) (bh_parentHash h) true) (content_logs c (bh_hash h)) st s v Hok)
      as (s' & EC' & HV); cbn [ib_number ib_chainId ib_hash]; auto; try lia.
    { rewrite (hs_blocks _ _ _ _ _ _ _ _ Hseg), decide_False by lia. done. }
    { intros i p. rewrite (hs_blocks _ _ _ _ _ _ _ _ Hseg). destruct (decide (start <= i < start + Z.of_nat n)); [|done].
      intros [= Ei _]. destruct (hs_wf _ _ _ _ _ _ _ _ Hseg i ltac:(lia)) as [Hi _]. rewrite Ei in Hi.
      destruct Hwf as [Hk' _]. lia. }
    { by destruct Hwf. }
    eapply write_wp; [exact EC'|]. eapply HQ; [exact Hl|]. eexists. split; [exact HV|].
    eapply committed_segment; [exact Hseg'|..]; cbn [ib_number ib_hash ib_parentHash]; rewrite ?Ek; auto.
    intros Hn. rewrite <-Efg by lia. by apply Hlink.
  - intros e Ee. eapply HE; [exact Hl|]. right. exists (v_logs v ++ content_logs c (bh_hash h)). split; [|by rewrite Efold].
    cbn [segment_logs]. fold k. rewrite Ek, <-(segment_logs_ext start c f _ n Efg). by rewrite (hs_logs _ _ _ _ _ _ _ _ Hseg).
Qed.

Lemma IndexBlock_wp budget n s status w :
  stored (Datatypes.S budget) s chain_hash n -> start + Z.of_nat n <= head -> I w ->
  wp (IndexBlock keccak contracts chainId (hdr (start + Z.of_nat n)))
    (fun _ st' => exists s' w', st' = ST s' w' status /\ I w' /\ stored budget s' chain_hash (Datatypes.S n))
    (unharmed budget) (ST s w status).
Proof using answers.
  intros Hs Hn Hw. set (k := start + Z.of_nat n) in *. pose proof (cf_range _ _ _ _ _ _ _ answers).
  assert (forall i, start <= i < start + Z.of_nat (Datatypes.S n) -> extend chain_hash n (hdr k) i = chain_hash i) as Ee.
  { intros i Hi. unfold extend. destruct (decide (i = start + Z.of_nat n)) as [->|]; done. }
  eapply (IndexBlock_segment budget chain_hash n (hdr k) s status w (fun logs w' => logs_of_block chainId c hdr k logs /\ I w'));
    [lia|lia|done| |apply (ca_logs _ _ _ _ _ _ _ _ _ answers); [lia|done]|..].
  - split; [apply (cf_number _ _ _ _ _ _ _ answers); lia|]. split; [apply (cf_wf _ _ _ _ _ _ _ answers); lia|].
    split; [apply (cf_content_parent _ _ _ _ _ _ _ answers); lia|]. intros Hn0. apply (cf_parent _ _ _ _ _ _ _ answers). lia.
  - intros logs w' raw [(raw' & ER & EC) _] Er. fold k in Er. rewrite ER in Er. by simplify_eq.
  - intros logs w' s' [_ Hw'] (v & ? & Hseg). exists s', w'. split; [done|]. split; [done|]. exists v. split; [done|].
    by apply (holds_segment_ext _ _ _ _ _ _ _ _ _ Ee).
  - intros e w' He. apply (unharmed_less _ 1). by eapply stored_unharmed.
  - intros logs w' e [(raw' & ER & EC) _] [Et|(logs' & Hp & Et)]; [fold k in Et; congruence|]. exfalso.
    apply (chain_projects (Datatypes.S n) e); [lia|]. exists logs'. split; [|done]. by rewrite <-(segment_logs_ext start c _ _ _ Ee).
Qed.

(** One iteration: done at the head, or one more block of the chain. *)
Lemma sync_step_wp budget f n count s status w :
  stored (Datatypes.S (Datatypes.S budget)) s f n -> I w ->
  wp (sync_step keccak contracts start chainId count)
    (fun r st' => exists s' n' status' w', st' = ST s' w' status' /\ I w'
       /\ stored budget s' chain_hash n' /\ Z.of_nat n' <= Z.max 0 (head + 1 - start)
       /\ match r with
          | inl m => m = count /\ head < start + Z.of_nat n'
          | inr m => Z.of_nat n <= Z.max 0 (head + 1 - start) ->
                     f (start + Z.of_nat n - 1) = chain_hash (start + Z.of_nat n - 1) -> n' = Datatypes.S n
          end)
    (unharmed budget) (ST s w status).
Proof using answers.
  intros Hs Hw. pose proof (cf_range _ _ _ _ _ _ _ answers) as HR. unfold sync_step.
  apply wp_bind. eapply call_wp; [by apply (ca_head _ _ _ _ _ _ _ _ _ answers)| |].
  2:{ intros e w' He. apply (unharmed_less _ 2). by eapply stored_unharmed. }
  intros h wa [-> Hwa]. apply wp_bind, status_wp, wp_bind.
  eapply wp_mono; [apply (ReconcileCursor_wp (Datatypes.S budget) f n); [exact Hs|done]| |]; [|intros e st' He; by apply (unharmed_less _ 1)].
  intros cursor st' (s1 & n1 & status1 & w1 & -> & -> & Hw1 & Hs1 & Hn1 & Hkeep). apply wp_bind, status_wp.
  set (next := match chain_cursor n1 with Some cur => u64 (sc_blockNumber cur + 1) | None => start end).
  assert (next = start + Z.of_nat n1) as Hnext.
  { unfold next, chain_cursor. destruct (decide (n1 = 0%nat)) as [->|]; [lia|]. cbn [sc_blockNumber].
    rewrite u64_small by lia. lia. }
  assert ((match chain_cursor n1 with Some cur => sc_blockNumber cur =? 2 ^ 64 - 1 | None => false end) = false) as ->.
  { unfold chain_cursor. destruct (decide (n1 = 0%nat)) as [->|]; [done|]. cbn [sc_blockNumber]. apply Z.eqb_neq. lia. }
  set (status2 := set_indexedBlock _ status1). cbv zeta.
  destruct (Z.ltb_spec head next).
  { apply wp_ret. exists s1, n1, status2, w1. split; [done|]. split; [done|]. split; [by apply stored_weaken|]. split; [done|]. lia. }
  apply wp_bind. eapply call_wp; [apply (ca_block _ _ _ _ _ _ _ _ _ answers); [lia|done]| |].
  2:{ intros e w' He. apply (unharmed_less _ 1). by eapply stored_unharmed. }
  intros block wb [-> Hwb]. rewrite Hnext in *.
  apply wp_bind. eapply (lift_Ok_wp _ (start + Z.of_nat n1)).
  { apply ToUint64_Ok. rewrite (cf_number _ _ _ _ _ _ _ answers) by lia. lia. }
  rewrite Z.eqb_refl. cbn [negb].
  assert (forall number, wp (IndexBlock keccak contracts chainId (hdr (start + Z.of_nat n1));;
      set_status (set_indexedBlock number);; mret (inr (u64 (count + 1))))
    (fun r st' => exists s' n' status' w', st' = ST s' w' status' /\ I w'
       /\ stored budget s' chain_hash n' /\ Z.of_nat n' <= Z.max 0 (head + 1 - start)
       /\ match r with
          | inl m => m = count /\ head < start + Z.of_nat n'
          | inr m => Z.of_nat n <= Z.max 0 (head + 1 - start) ->
                     f (start + Z.of_nat n - 1) = chain_hash (start + Z.of_nat n - 1) -> n' = Datatypes.S n
          end) (unharmed budget) (ST s1 wb status2)) as Hindex.
  { intros number. apply wp_bind. eapply wp_mono; [apply IndexBlock_wp; [exact Hs1|lia|done]| |done].
    intros [] st' (s2 & w2 & -> & Hw2 & Hs2). apply wp_bind, status_wp, wp_ret.
    exists s2, (Datatypes.S n1). eexists _, w2. split; [reflexivity|]. split; [done|]. split; [done|]. split; [lia|].
    intros Hn Hf. by rewrite (Hkeep Hn Hf). }
  unfold chain_cursor. destruct (decide (n1 = 0%nat)) as [->|]; [apply Hindex|]. cbn [sc_blockNumber sc_blockHash].
  rewrite (cf_parent _ _ _ _ _ _ _ answers), bool_decide_eq_true_2 by (done || lia || (f_equal; f_equal; lia)). apply Hindex.
Qed.

(** From a store that holds [n] blocks of the chain. *)
Lemma sync_loop_wp budget n fuel count s status w : I w ->
  stored (2 * fuel + budget) s chain_hash n -> Z.of_nat n <= Z.max 0 (head + 1 - start) ->
  Z.max 0 (head + 1 - start) < Z.of_nat (n + fuel) ->
  wp (sync_loop keccak contracts start chainId fuel count)
    (fun r st' => exists m, r = Some m /\ I (ix_chain st')
       /\ stored budget (ix_store st') chain_hash (Z.to_nat (head + 1 - start)))
    (unharmed budget) (ST s w status).
Proof using answers.
  revert n count s status w. induction fuel as [|fuel IH]; intros n count s status w Hw Hs Hn Hf; [lia|].
  replace (2 * Datatypes.S fuel + budget)%nat with (Datatypes.S (Datatypes.S (2 * fuel + budget))) in Hs by lia.
  cbn [sync_loop]. apply wp_bind. eapply wp_mono; [apply (sync_step_wp (2 * fuel + budget) chain_hash n); [exact Hs|done]| |].
  2:{ intros e st' He. by apply (unharmed_less _ (2 * fuel)). }
  intros r st' (s1 & n1 & status1 & w1 & -> & Hw1 & Hs1 & Hn1 & Hr). destruct r as [m|m].
  - apply wp_ret. exists m. split; [done|]. split; [done|]. apply (stored_less _ (2 * fuel)).
    by replace (Z.to_nat (head + 1 - start)) with n1 by lia.
  - rewrite (Hr Hn eq_refl) in *. apply (IH _ m s1 status1 w1 Hw1 Hs1 Hn1). lia.
Qed.

(** From any stored segment: at the end the chain is stored, and after an exception still a
    segment. *)
Lemma SyncToHead_wp budget f n fuel s status w :
  stored (2 * fuel + budget) s f n -> I w -> Z.max 0 (head + 1 - start) + 1 < Z.of_nat fuel ->
  wp (SyncToHead keccak contracts start fuel)
    (fun r st' => exists m, r = Some m /\ I (ix_chain st')
       /\ stored budget (ix_store st') chain_hash (Z.to_nat (head + 1 - start)))
    (unharmed budget) (ST s w status).
Proof using answers.
  intros Hs Hw Hf. unfold SyncToHead. apply wp_bind. eapply call_wp; [by apply (ca_id _ _ _ _ _ _ _ _ _ answers)| |].
  2:{ intros e w' He. apply (unharmed_less _ (2 * fuel)). by eapply stored_unharmed. }
  intros id wa [-> Hwa]. destruct fuel as [|fuel]; [lia|]. cbn [sync_loop].
  replace (2 * Datatypes.S fuel + budget)%nat with (Datatypes.S (Datatypes.S (2 * fuel + budget))) in Hs by lia.
  apply wp_bind. eapply wp_mono; [apply (sync_step_wp (2 * fuel + budget) f n); [exact Hs|done]| |].
  2:{ intros e st' He. by apply (unharmed_less _ (2 * fuel)). }
  intros r st' (s1 & n1 & status1 & w1 & -> & Hw1 & Hs1 & Hn1 & Hr). destruct r as [m|m].
  - apply wp_ret. exists m. split; [done|]. split; [done|]. apply (stored_less _ (2 * fuel)).
    by replace (Z.to_nat (head + 1 - start)) with n1 by lia.
  - eapply wp_mono; [apply (sync_loop_wp budget n1 fuel m s1 status1 w1 Hw1 Hs1 Hn1); lia|done|done].
Qed.
End Sync.

(** ** On a chain that stands still

    Nothing throws. *)
Section Stable.
Context {S N : Type} `{IndexerStore S} `{ChainClient N}.
Context (keccak : Bytes -> Hash256) (contracts : ChainContracts) (chainId : Uint256).
Context `{!LawfulIndexerStore S keccak contracts chainId}.
Context (start : Z) (c : BlockContents) (head : Z) (hdr : Z -> BlockHeader) (I : N -> Prop).
Context (stable : StableChain keccak contracts chainId start c head hdr I).

Lemma FindCommonAncestor_run budget f n top (s : S) status w :
  stored keccak contracts chainId start c budget s f n -> top < start + Z.of_nat n -> top <= head -> I w ->
  exists a w', FindCommonAncestor start chainId top (MkIxState s w status) = (Ok a, MkIxState s w' status)
    /\ ancestor_of chainId start c hdr f top a /\ I w'.
Proof using stable.
  intros Hs Htop Hhead Hw.
  pose proof (FindCommonAncestor_wp keccak contracts chainId start c head hdr I _ (stable_answers _ _ _ _ _ _ _ _ stable)
    budget f n top s status Hs Htop Hhead w Hw) as Hx. unfold wp in Hx.
  destruct (FindCommonAncestor _ _ _ _) as [[a|e] st']; [|by destruct Hx].
  destruct Hx as (w' & -> & Ha & Hw'). by exists a, w'.
Qed.

Lemma SyncToHead_run f n fuel (s : S) status w :
  stored keccak contracts chainId start c (2 * fuel) s f n -> I w -> Z.max 0 (head + 1 - start) + 1 < Z.of_nat fuel ->
  exists s' status' r w', SyncToHead keccak contracts start fuel (MkIxState s w status) = (Ok (Some r), MkIxState s' w' status')
    /\ I w' /\ stored keccak contracts chainId start c 0 s' (fun k => bh_hash (hdr k)) (Z.to_nat (head + 1 - start)).
Proof using stable.
  intros Hs Hw Hf. rewrite <-(Nat.add_0_r (2 * fuel)) in Hs.
  pose proof (SyncToHead_wp keccak contracts chainId start c head hdr I _ (stable_answers _ _ _ _ _ _ _ _ stable)
    0 f n fuel s status w Hs Hw Hf) as Hx. unfold wp in Hx.
  destruct (SyncToHead _ _ _ _ _) as [[r|e] [s' w' status']]; [|by destruct Hx].
  destruct Hx as (m & -> & Hw' & Hs'). by exists s', status', m, w'.
Qed.
End Stable.
