(* ===== verification/PostgresStore.v ===== *)
(** * PostgresStore: the tables of the indexer ([PostgresStore.cpp], tables of the
    migrations 001 to 006 and 008)

    A row has the columns of its table except the timestamps, which no statement of the
    store reads.  Each SQL statement is a function over the tables; [CommitBlock] and
    [RewindTo] run theirs in one transaction. *)

From S2P Require Import Prelude Effects Text Json Sql Uint256 Hex Abi IndexerTypes RpcTypes StateProjector Indexer.
Set Default Goal Selector "!".
#[local] Open Scope Z_scope.

Record BlockRow := MkBlockRow {
  br_chain_id : string;
  br_block_number : Z;
  br_block_hash : string;
  br_parent_hash : string;
  br_canonical : bool
}.

Record LogRow := MkLogRow {
  lr_chain_id : string;
  lr_block_number : Z;
  lr_block_hash : string;
  lr_transaction_hash : string;
  lr_transaction_index : Z;
  lr_log_index : Z;
  lr_contract_address : string;
  lr_topics : json;
  lr_data : string;
  lr_canonical : bool
}.

Record SyncRow := MkSyncRow {
  sr_chain_id : string;
  sr_block_number : Z;
  sr_block_hash : string
}.

Record PositionRow := MkPositionRow {
  pr_chain_id : string;
  pr_user_address : string;
  pr_weth_collateral : string;
  pr_scaled_usdc_supply : string;
  pr_scaled_usdc_debt : string
}.

Record MarketRow := MkMarketRow {
  mr_chain_id : string;
  mr_pool_address : string;
  mr_oracle_address : string;
  mr_weth_address : string;
  mr_usdc_address : string;
  mr_total_weth_collateral : string;
  mr_total_scaled_usdc_supply : string;
  mr_total_scaled_usdc_debt : string;
  mr_available_usdc_liquidity : string;
  mr_protocol_reserve : string;
  mr_bad_debt : string;
  mr_borrow_index : string;
  mr_liquidity_index : string;
  mr_last_interest_timestamp : string;
  mr_weth_price : string;
  mr_weth_price_updated_at : string;
  mr_weth_max_price_age : string;
  mr_usdc_price : string;
  mr_usdc_price_updated_at : string;
  mr_usdc_max_price_age : string
}.

Record LiquidationRow := MkLiquidationRow {
  qr_chain_id : string;
  qr_block_number : Z;
  qr_block_hash : string;
  qr_transaction_hash : string;
  qr_log_index : Z;
  qr_liquidator_address : string;
  qr_borrower_address : string;
  qr_debt_asset : string;
  qr_collateral_asset : string;
  qr_repaid_amount : string;
  qr_collateral_seized : string
}.

Record VersionRow := MkVersionRow {
  vr_chain_id : string;
  vr_canonical_version : Z
}.

Record EventRow := MkEventRow {
  er_event_id : string;
  er_event_type : string;
  er_aggregate_id : string;
  er_chain_id : string;
  er_block_number : Z;
  er_block_hash : string;
  er_transaction_hash : option string;
  er_log_index : option Z;
  er_canonical_version : Z;
  er_payload : json;
  er_created_at : Z;
  er_published_at : option Z
}.

(** The tables, the rows of [processed_events] as pairs of a consumer and an event id, and the
    time [NOW()] returns, which a transaction reads once. *)
Record IxDb := MkIxDb {
  db_blocks : list BlockRow;
  db_raw_logs : list LogRow;
  db_sync_state : list SyncRow;
  db_positions : list PositionRow;
  db_markets : list MarketRow;
  db_liquidations : list LiquidationRow;
  db_chain_versions : list VersionRow;
  db_outbox_events : list EventRow;
  db_processed_events : list (string * string);
  db_now : Z
}.

Definition set_blocks v db := MkIxDb v (db_raw_logs db) (db_sync_state db) (db_positions db)
  (db_markets db) (db_liquidations db) (db_chain_versions db) (db_outbox_events db)
  (db_processed_events db) (db_now db).
Definition set_raw_logs v db := MkIxDb (db_blocks db) v (db_sync_state db) (db_positions db)
  (db_markets db) (db_liquidations db) (db_chain_versions db) (db_outbox_events db)
  (db_processed_events db) (db_now db).
Definition set_sync_state v db := MkIxDb (db_blocks db) (db_raw_logs db) v (db_positions db)
  (db_markets db) (db_liquidations db) (db_chain_versions db) (db_outbox_events db)
  (db_processed_events db) (db_now db).
Definition set_position_rows v db := MkIxDb (db_blocks db) (db_raw_logs db) (db_sync_state db) v
  (db_markets db) (db_liquidations db) (db_chain_versions db) (db_outbox_events db)
  (db_processed_events db) (db_now db).
Definition set_market_rows v db := MkIxDb (db_blocks db) (db_raw_logs db) (db_sync_state db) (db_positions db)
  v (db_liquidations db) (db_chain_versions db) (db_outbox_events db)
  (db_processed_events db) (db_now db).
Definition set_liquidation_rows v db := MkIxDb (db_blocks db) (db_raw_logs db) (db_sync_state db) (db_positions db)
  (db_markets db) v (db_chain_versions db) (db_outbox_events db)
  (db_processed_events db) (db_now db).
Definition set_chain_versions v db := MkIxDb (db_blocks db) (db_raw_logs db) (db_sync_state db) (db_positions db)
  (db_markets db) (db_liquidations db) v (db_outbox_events db)
  (db_processed_events db) (db_now db).
Definition set_outbox_events v db := MkIxDb (db_blocks db) (db_raw_logs db) (db_sync_state db) (db_positions db)
  (db_markets db) (db_liquidations db) (db_chain_versions db) v
  (db_processed_events db) (db_now db).
Definition set_processed_events v db := MkIxDb (db_blocks db) (db_raw_logs db) (db_sync_state db) (db_positions db)
  (db_markets db) (db_liquidations db) (db_chain_versions db) (db_outbox_events db)
  v (db_now db).

(** ** Columns *)

Definition hash_text (h : Hash256) : string := EncodeArray h true.

Definition ParseHash (value : string) : result Hash256 :=
  parse_hash "database hash must contain 32 bytes" value.

Definition EncodeTopics (topics : list Hash256) : json := JArray ((fun t => JString (hash_text t)) <$> topics).

Definition ParseTopics (value : json) : result (list Hash256) :=
  map_result (fun topic => text ← get_string topic; ParseHash text) (json_elements value).

Definition ParseRawLog (row : LogRow) : result RawLog :=
  chainId ← FromDecimal (lr_chain_id row);
  blockHash ← ParseHash (lr_block_hash row);
  transactionHash ← ParseHash (lr_transaction_hash row);
  contractAddress ← AddressFromHex (lr_contract_address row);
  topics ← ParseTopics (lr_topics row);
  data ← Decode (lr_data row);
  Ok (MkRawLog chainId (lr_block_number row) blockHash transactionHash (lr_transaction_index row)
        (lr_log_index row) contractAddress topics data (lr_canonical row)).

(** [std::to_string] of a [uint64_t]. *)
Definition to_string (n : Z) : string := ToDecimal (U n).

(** ** Statements *)

Abbreviation M := (prog IxDb).

Definition version_of (chain : string) (db : IxDb) : Z :=
  default 0 (vr_canonical_version <$> head (filter (fun row => vr_chain_id row = chain) (db_chain_versions db))).

Definition AdvanceCanonicalVersion (chain : string) : M Z :=
  modify (fun db => set_chain_versions
    (upsert (fun row => bool_decide (vr_chain_id row = chain))
       (fun row => MkVersionRow chain (vr_canonical_version row + 1))
       (MkVersionRow chain 1) (db_chain_versions db)) db);;
  db ← get;
  require (sql_bigint (version_of chain db)) "bigint out of range";;
  mret (version_of chain db).

Definition InsertOutboxEvent (eventId eventType aggregateId chain : string) (blockNumber : Z)
    (blockHash : Hash256) (canonicalVersion : Z) (payload : json) : M unit :=
  require (sql_bigint blockNumber && (0 <? canonicalVersion) && sql_bigint canonicalVersion)
    "value out of range";;
  modify (fun db => set_outbox_events
    (insert_unless (fun row => bool_decide (er_event_id row = eventId))
       (MkEventRow eventId eventType aggregateId chain blockNumber (hash_text blockHash) None None
          canonicalVersion payload (db_now db) None) (db_outbox_events db)) db).

Definition position_row (chain : string) (entry : Address * PositionState) : PositionRow :=
  MkPositionRow chain (AddressToHex (entry.1) true) (ToDecimal (ps_wethCollateral (entry.2)))
    (ToDecimal (ps_scaledUsdcSupply (entry.2))) (ToDecimal (ps_scaledUsdcDebt (entry.2))).

Definition insert_position (row : PositionRow) : M unit :=
  db ← get;
  require (negb (existsb (fun other => bool_decide (pr_chain_id other = pr_chain_id row)
                          && bool_decide (pr_user_address other = pr_user_address row)) (db_positions db)))
    "duplicate key value violates unique constraint positions_pkey";;
  modify (fun db => set_position_rows (db_positions db ++ [row]) db).

Definition market_row (chain : string) (market : MarketState) : MarketRow :=
  MkMarketRow chain
    (AddressToHex (cc_pool (ms_contracts market)) true)
    (AddressToHex (cc_oracle (ms_contracts market)) true)
    (AddressToHex (cc_weth (ms_contracts market)) true)
    (AddressToHex (cc_usdc (ms_contracts market)) true)
    (ToDecimal (ms_totalWethCollateral market))
    (ToDecimal (ms_totalScaledUsdcSupply market))
    (ToDecimal (ms_totalScaledUsdcDebt market))
    (ToDecimal (ms_availableUsdcLiquidity market))
    (ToDecimal (ms_protocolReserve market))
    (ToDecimal (ms_badDebt market))
    (ToDecimal (ms_borrowIndex market))
    (ToDecimal (ms_liquidityIndex market))
    (ToDecimal (ms_lastInterestTimestamp market))
    (ToDecimal (ms_wethPrice market))
    (ToDecimal (ms_wethPriceUpdatedAt market))
    (ToDecimal (ms_wethMaxPriceAge market))
    (ToDecimal (ms_usdcPrice market))
    (ToDecimal (ms_usdcPriceUpdatedAt market))
    (ToDecimal (ms_usdcMaxPriceAge market)).

Definition insert_market (row : MarketRow) : M unit :=
  db ← get;
  require (negb (existsb (fun other => bool_decide (mr_chain_id other = mr_chain_id row)) (db_markets db)))
    "duplicate key value violates unique constraint markets_pkey";;
  modify (fun db => set_market_rows (db_markets db ++ [row]) db).

Definition liquidation_row (chain : string) (l : LiquidationState) : LiquidationRow :=
  MkLiquidationRow chain (ls_blockNumber l) (hash_text (ls_blockHash l)) (hash_text (ls_transactionHash l))
    (ls_logIndex l) (AddressToHex (ls_liquidator l) true) (AddressToHex (ls_borrower l) true)
    (AddressToHex (ls_debtAsset l) true) (AddressToHex (ls_collateralAsset l) true)
    (ToDecimal (ls_repaidAmount l)) (ToDecimal (ls_collateralSeized l)).

Definition same_liquidation (r1 r2 : LiquidationRow) : bool :=
  bool_decide (qr_chain_id r1 = qr_chain_id r2) && bool_decide (qr_block_hash r1 = qr_block_hash r2)
  && bool_decide (qr_transaction_hash r1 = qr_transaction_hash r2) && (qr_log_index r1 =? qr_log_index r2).

Definition insert_liquidation (row : LiquidationRow) : M unit :=
  db ← get;
  require (sql_bigint (qr_block_number row) && sql_bigint (qr_log_index row)) "value out of range";;
  require (negb (existsb (same_liquidation row) (db_liquidations db)))
    "duplicate key value violates unique constraint liquidations_pkey";;
  modify (fun db => set_liquidation_rows (db_liquidations db ++ [row]) db).

(** The positions are inserted in the order of the map, which the table does not keep. *)
Definition ReplaceDerivedState (chainId : Uint256) (state : DerivedState) : M unit :=
  let chain := ToDecimal chainId in
  modify (fun db => set_position_rows (filter (fun row => pr_chain_id row <> chain) (db_positions db)) db);;
  modify (fun db => set_market_rows (filter (fun row => mr_chain_id row <> chain) (db_markets db)) db);;
  modify (fun db => set_liquidation_rows (filter (fun row => qr_chain_id row <> chain) (db_liquidations db)) db);;
  for_each (fun entry => insert_position (position_row chain entry)) (map_to_list (ds_positions state));;
  insert_market (market_row chain (ds_market state));;
  for_each (fun l => insert_liquidation (liquidation_row chain l)) (ds_liquidations state).

(** ** Reads *)

Definition LoadCursor (chainId : Uint256) (db : IxDb) : result (option SyncCursor) :=
  match filter (fun row => sr_chain_id row = ToDecimal chainId) (db_sync_state db) with
  | [] => Ok None
  | row :: _ =>
      number ← uint64_column (sr_block_number row);
      hash ← ParseHash (sr_block_hash row);
      Ok (Some (MkSyncCursor chainId number hash))
  end.

(** A parameter of type [uint64_t] compared with a [BIGINT] column must be one. *)
Definition bigint_parameter (n : Z) : result unit :=
  if sql_bigint n then Ok tt else Throw (SqlError "value is out of range for type bigint").

Definition LoadCanonicalBlock (chainId : Uint256) (blockNumber : Z) (db : IxDb) : result (option IndexedBlock) :=
  _ ← bigint_parameter blockNumber;
  match filter (fun row => br_chain_id row = ToDecimal chainId /\ br_block_number row = blockNumber
                           /\ br_canonical row = true) (db_blocks db) with
  | [] => Ok None
  | row :: _ =>
      hash ← ParseHash (br_block_hash row);
      parent ← ParseHash (br_parent_hash row);
      Ok (Some (MkIndexedBlock chainId blockNumber hash parent true))
  end.

(** [ORDER BY block_number, transaction_index, log_index] *)
Definition log_row_before (r1 r2 : LogRow) : bool :=
  if negb (lr_block_number r1 =? lr_block_number r2) then lr_block_number r1 <? lr_block_number r2
  else if negb (lr_transaction_index r1 =? lr_transaction_index r2)
  then lr_transaction_index r1 <? lr_transaction_index r2
  else lr_log_index r1 <? lr_log_index r2.

Definition LoadCanonicalLogsThrough (chainId : Uint256) (blockNumber : Z) (db : IxDb) : result (list RawLog) :=
  _ ← bigint_parameter blockNumber;
  map_result ParseRawLog (std_sort log_row_before
    (filter (fun row => lr_chain_id row = ToDecimal chainId /\ lr_canonical row = true
                        /\ lr_block_number row <= blockNumber) (db_raw_logs db))).

(** A row of [positions]; [emplace] keeps the first entry of an address. *)
Definition load_position (positions : gmap Address PositionState) (row : PositionRow) :
    result (gmap Address PositionState) :=
  address ← AddressFromHex (pr_user_address row);
  wethCollateral ← FromDecimal (pr_weth_collateral row);
  scaledUsdcSupply ← FromDecimal (pr_scaled_usdc_supply row);
  scaledUsdcDebt ← FromDecimal (pr_scaled_usdc_debt row);
  Ok (match positions !! address with
      | Some _ => positions
      | None => <[address := MkPositionState address wethCollateral scaledUsdcSupply scaledUsdcDebt]> positions
      end).

Definition load_market (contracts : ChainContracts) (row : MarketRow) : result MarketState :=
  pool ← AddressFromHex (mr_pool_address row);
  oracle ← AddressFromHex (mr_oracle_address row);
  weth ← AddressFromHex (mr_weth_address row);
  usdc ← AddressFromHex (mr_usdc_address row);
  if negb (bool_decide (pool = cc_pool contracts)) || negb (bool_decide (oracle = cc_oracle contracts))
     || negb (bool_decide (weth = cc_weth contracts)) || negb (bool_decide (usdc = cc_usdc contracts))
  then Throw (RuntimeError "configured contract addresses do not match indexed market state")
  else
    totalWethCollateral ← FromDecimal (mr_total_weth_collateral row);
    totalScaledUsdcSupply ← FromDecimal (mr_total_scaled_usdc_supply row);
    totalScaledUsdcDebt ← FromDecimal (mr_total_scaled_usdc_debt row);
    availableUsdcLiquidity ← FromDecimal (mr_available_usdc_liquidity row);
    protocolReserve ← FromDecimal (mr_protocol_reserve row);
    badDebt ← FromDecimal (mr_bad_debt row);
    borrowIndex ← FromDecimal (mr_borrow_index row);
    liquidityIndex ← FromDecimal (mr_liquidity_index row);
    lastInterestTimestamp ← FromDecimal (mr_last_interest_timestamp row);
    wethPrice ← FromDecimal (mr_weth_price row);
    wethPriceUpdatedAt ← FromDecimal (mr_weth_price_updated_at row);
    wethMaxPriceAge ← FromDecimal (mr_weth_max_price_age row);
    usdcPrice ← FromDecimal (mr_usdc_price row);
    usdcPriceUpdatedAt ← FromDecimal (mr_usdc_price_updated_at row);
    usdcMaxPriceAge ← FromDecimal (mr_usdc_max_price_age row);
    Ok (MkMarketState contracts totalWethCollateral totalScaledUsdcSupply totalScaledUsdcDebt
          availableUsdcLiquidity protocolReserve badDebt borrowIndex liquidityIndex
          lastInterestTimestamp wethPrice wethPriceUpdatedAt wethMaxPriceAge usdcPrice
          usdcPriceUpdatedAt usdcMaxPriceAge).

Definition load_liquidation (chainId : Uint256) (row : LiquidationRow) : result LiquidationState :=
  blockHash ← ParseHash (qr_block_hash row);
  transactionHash ← ParseHash (qr_transaction_hash row);
  liquidator ← AddressFromHex (qr_liquidator_address row);
  borrower ← AddressFromHex (qr_borrower_address row);
  debtAsset ← AddressFromHex (qr_debt_asset row);
  collateralAsset ← AddressFromHex (qr_collateral_asset row);
  repaidAmount ← FromDecimal (qr_repaid_amount row);
  collateralSeized ← FromDecimal (qr_collateral_seized row);
  Ok (MkLiquidationState chainId (qr_block_number row) blockHash transactionHash (qr_log_index row)
        liquidator borrower debtAsset collateralAsset repaidAmount collateralSeized).

(** [ORDER BY block_number, log_index] *)
Definition liquidation_before (r1 r2 : LiquidationRow) : bool :=
  if negb (qr_block_number r1 =? qr_block_number r2) then qr_block_number r1 <? qr_block_number r2
  else qr_log_index r1 <? qr_log_index r2.

(** The members a new [DerivedState] has before a row is read. *)
Definition initial_market (contracts : ChainContracts) : MarketState :=
  ds_market (CreateInitialState contracts).

Definition LoadDerivedState (chainId : Uint256) (contracts : ChainContracts) (db : IxDb) : result DerivedState :=
  let chain := ToDecimal chainId in
  positions ← fold_result load_position ∅ (filter (fun row => pr_chain_id row = chain) (db_positions db));
  market ← (match filter (fun row => mr_chain_id row = chain) (db_markets db) with
            | [] => Ok (initial_market contracts)
            | row :: _ => load_market contracts row
            end);
  liquidations ← map_result (load_liquidation chainId)
    (std_sort liquidation_before (filter (fun row => qr_chain_id row = chain) (db_liquidations db)));
  Ok (MkDerivedState positions market liquidations).

(** ** Writes *)

Definition block_row (b : IndexedBlock) : BlockRow :=
  MkBlockRow (ToDecimal (ib_chainId b)) (ib_number b) (hash_text (ib_hash b)) (hash_text (ib_parentHash b))
    (ib_canonical b).

(** [INSERT INTO blocks ... ON CONFLICT (chain_id, block_hash) DO UPDATE], with the partial unique
    index [blocks_one_canonical_height]. *)
Definition upsert_block (row : BlockRow) : M unit :=
  let same other := bool_decide (br_chain_id other = br_chain_id row)
                    && bool_decide (br_block_hash other = br_block_hash row) in
  db ← get;
  require (sql_bigint (br_block_number row)) "value out of range";;
  require (negb (existsb (fun other => negb (same other) && br_canonical other
                          && bool_decide (br_chain_id other = br_chain_id row)
                          && (br_block_number other =? br_block_number row)) (db_blocks db)))
    "duplicate key value violates unique constraint blocks_one_canonical_height";;
  modify (fun db => set_blocks
    (upsert same (fun other => MkBlockRow (br_chain_id other) (br_block_number row) (br_block_hash other)
                     (br_parent_hash row) true) row (db_blocks db)) db).

Definition log_row (log : RawLog) : LogRow :=
  MkLogRow (ToDecimal (rl_chainId log)) (rl_blockNumber log) (hash_text (rl_blockHash log))
    (hash_text (rl_transactionHash log)) (rl_transactionIndex log) (rl_logIndex log)
    (AddressToHex (rl_contractAddress log) true) (EncodeTopics (rl_topics log)) (Encode (rl_data log) true)
    (rl_canonical log).

Definition same_log (r1 r2 : LogRow) : bool :=
  bool_decide (lr_chain_id r1 = lr_chain_id r2) && bool_decide (lr_block_hash r1 = lr_block_hash r2)
  && bool_decide (lr_transaction_hash r1 = lr_transaction_hash r2) && (lr_log_index r1 =? lr_log_index r2).

(** The row of a log under the chain of its block, [canonical] set to [TRUE]. *)
Definition commit_log_row (chain : string) (log : RawLog) : LogRow :=
  let row := log_row log in
  MkLogRow chain (lr_block_number row) (lr_block_hash row) (lr_transaction_hash row)
    (lr_transaction_index row) (lr_log_index row) (lr_contract_address row) (lr_topics row)
    (lr_data row) true.

Definition upsert_log (row : LogRow) : M unit :=
  require (sql_bigint (lr_block_number row) && sql_bigint (lr_transaction_index row)
           && sql_bigint (lr_log_index row)) "value out of range";;
  modify (fun db => set_raw_logs
    (upsert (same_log row)
       (fun other => MkLogRow (lr_chain_id other) (lr_block_number row) (lr_block_hash other)
          (lr_transaction_hash other) (lr_transaction_index row) (lr_log_index other)
          (lr_contract_address row) (lr_topics row) (lr_data row) true)
       row (db_raw_logs db)) db).

(** [INSERT INTO sync_state ... ON CONFLICT (chain_id) DO UPDATE] *)
Definition upsert_cursor (chain : string) (number : Z) (hash : Hash256) : M unit :=
  require (sql_bigint number) "value out of range";;
  modify (fun db => set_sync_state
    (upsert (fun row => bool_decide (sr_chain_id row = chain))
       (fun row => MkSyncRow (sr_chain_id row) number (hash_text hash))
       (MkSyncRow chain number (hash_text hash)) (db_sync_state db)) db).

Definition block_event_id (chain : string) (hash : Hash256) : string :=
  ("chain.block.processed:" ++ chain ++ ":" ++ EncodeArray hash false)%string.

Definition CommitBlock (block : IndexedBlock) (logs : list RawLog) (state : DerivedState) : M unit :=
  let chain := ToDecimal (ib_chainId block) in
  transaction (
    upsert_block (MkBlockRow chain (ib_number block) (hash_text (ib_hash block))
                    (hash_text (ib_parentHash block)) true);;
    for_each (fun log => upsert_log (commit_log_row chain log)) logs;;
    ReplaceDerivedState (ib_chainId block) state;;
    canonicalVersion ← AdvanceCanonicalVersion chain;
    upsert_cursor chain (ib_number block) (ib_hash block);;
    InsertOutboxEvent (block_event_id chain (ib_hash block)) "chain.block.processed"
      ("chain:" ++ chain) chain (ib_number block) (ib_hash block) canonicalVersion
      (JObject [("parentHash", JString (hash_text (ib_parentHash block)))])).

(** [UPDATE ... SET canonical = FALSE WHERE chain_id = $1 AND canonical AND block_number > $2]; [None] for
    the statement without the last condition. *)
Definition above (limit : option Z) (number : Z) : bool :=
  match limit with Some n => n <? number | None => true end.

Definition orphan_blocks (chain : string) (limit : option Z) : M unit :=
  modify (fun db => set_blocks
    ((fun row => if bool_decide (br_chain_id row = chain) && br_canonical row && above limit (br_block_number row)
                 then MkBlockRow (br_chain_id row) (br_block_number row) (br_block_hash row)
                        (br_parent_hash row) false
                 else row) <$> db_blocks db) db).

Definition orphan_logs (chain : string) (limit : option Z) : M unit :=
  modify (fun db => set_raw_logs
    ((fun row => if bool_decide (lr_chain_id row = chain) && lr_canonical row && above limit (lr_block_number row)
                 then MkLogRow (lr_chain_id row) (lr_block_number row) (lr_block_hash row)
                        (lr_transaction_hash row) (lr_transaction_index row) (lr_log_index row)
                        (lr_contract_address row) (lr_topics row) (lr_data row) false
                 else row) <$> db_raw_logs db) db).

Definition zero_hash : Hash256 := array_copy 32 [].

Definition reorg_event_id (chain : string) (version : Z) : string :=
  ("chain.reorg:" ++ chain ++ ":" ++ to_string version)%string.

Definition RewindTo (chainId : Uint256) (ancestor : option IndexedBlock) (state : DerivedState) : M unit :=
  let chain := ToDecimal chainId in
  transaction (
    canonicalVersion ← AdvanceCanonicalVersion chain;
    (match ancestor with
     | Some a =>
         lift (bigint_parameter (ib_number a));;
         orphan_blocks chain (Some (ib_number a));;
         orphan_logs chain (Some (ib_number a))
     | None => orphan_blocks chain None;; orphan_logs chain None
     end);;
    ReplaceDerivedState chainId state;;
    (match ancestor with
     | Some a => upsert_cursor chain (ib_number a) (ib_hash a)
     | None => modify (fun db => set_sync_state (filter (fun row => sr_chain_id row <> chain) (db_sync_state db)) db)
     end);;
    let ancestorNumber := match ancestor with Some a => ib_number a | None => 0 end in
    let ancestorHash := match ancestor with Some a => ib_hash a | None => zero_hash end in
    InsertOutboxEvent (reorg_event_id chain canonicalVersion) "chain.reorg" ("chain:" ++ chain) chain
      ancestorNumber ancestorHash canonicalVersion
      (* [nlohmann::json{x}] is the array of [x] *)
      (JObject [("ancestorBlockHash", JArray [match ancestor with
                                              | Some a => JString (hash_text (ib_hash a))
                                              | None => JNull end]);
                ("ancestorBlockNumber", JNumber ancestorNumber)])).

#[global] Instance postgres_store : IndexerStore IxDb := {
  ix_LoadCursor := LoadCursor;
  ix_LoadCanonicalBlock := LoadCanonicalBlock;
  ix_LoadCanonicalLogsThrough := LoadCanonicalLogsThrough;
  ix_LoadDerivedState := LoadDerivedState;
  ix_CommitBlock := CommitBlock;
  ix_RewindTo := RewindTo
}.
