(* ===== verification/PostgresRefinement.v ===== *)
(** * PostgresRefinement: the tables of the indexer keep the promise of the store

    The tables, read back, are the blocks, logs, state and cursor that were written:
    [postgres_lawful] shows that the SQL of [PostgresStore.cpp] implements
    [LawfulIndexerStore], the interface [SyncToHead] is proved against. *)

From S2P Require Import Prelude Effects Text Json Sql Uint256 Hex Abi IndexerTypes RpcTypes StateProjector Indexer.
From S2P Require Import IndexerSync PostgresStore.
Set Default Goal Selector "!".
#[local] Open Scope Z_scope.
#[local] Set Warnings "-clear-no-such-hyp".

(** ** Upserts, on typed rows *)

Lemma upsert_fmap {A R} (f : A -> R) same_row same update_row update new l :
  (forall x, same_row (f x) = same x) -> (forall x, same x = true -> update_row (f x) = f (update x)) ->
  upsert same_row update_row (f new) (f <$> l) = f <$> upsert same update new l.
Proof.
  intros Hs Hu. unfold upsert. assert (existsb same_row (f <$> l) = existsb same l) as ->.
  { induction l as [|x l IH]; [done|]. cbn. by rewrite Hs, IH. }
  destruct (existsb same l).
  - rewrite <-!list_fmap_compose. apply list_fmap_ext. intros i x _. cbn. rewrite Hs.
    destruct (same x) eqn:E; [by apply Hu|done].
  - by rewrite fmap_app.
Qed.

Section ConstantUpsert.
Context {A K : Type} (key : A -> K) (same : A -> bool) (new : A).
Context (same_spec : forall x, same x = true <-> key x = key new).

Lemma same_new : same new = true.
Proof using same_spec. by apply same_spec. Qed.

Lemma elem_of_upsert y l : y ∈ upsert same (fun _ => new) new l <-> y = new \/ (y ∈ l /\ same y = false).
Proof using same_spec.
  unfold upsert. destruct (existsb same l) eqn:E.
  - apply existsb_true in E as (z & Hz & Ez). rewrite list_elem_of_fmap. split.
    + intros (x & -> & Hx). destruct (same x) eqn:Ex; auto.
    + intros [->|[Hy Ey]]; [exists z; by rewrite Ez|exists y; by rewrite Ey].
  - rewrite existsb_false in E. rewrite elem_of_app, list_elem_of_singleton. split.
    + intros [Hy| ->]; auto.
    + intros [->|[? _]]; auto.
Qed.

Lemma upsert_NoDup l : NoDup (key <$> l) -> NoDup (key <$> upsert same (fun _ => new) new l).
Proof using same_spec.
  intros HN. unfold upsert. destruct (existsb same l) eqn:E.
  - rewrite <-list_fmap_compose.
    assert ((key ∘ (fun x => if same x then new else x)) <$> l = key <$> l) as ->; [|done].
    apply list_fmap_ext. intros i x _. cbn. destruct (same x) eqn:Ex; [|done]. symmetry. by apply same_spec.
  - rewrite existsb_false in E. rewrite fmap_app. apply NoDup_app. split; [done|]. split; [|apply NoDup_singleton].
    intros k (x & -> & Hx)%list_elem_of_fmap. cbn. intros Hk%list_elem_of_singleton.
    specialize (E x Hx). apply same_spec in Hk. congruence.
Qed.

(** Written over rows a query does not see, the new row is added to what it sees. *)
Lemma upsert_filter (P : A -> Prop) `{forall x, Decision (P x)} l :
  NoDup (key <$> l) -> P new -> (forall x, x ∈ l -> same x = true -> ~ P x) ->
  filter P (upsert same (fun _ => new) new l) ≡ₚ filter P l ++ [new].
Proof using same_spec.
  intros HN HP Hl. unfold upsert. destruct (existsb same l) eqn:E.
  - apply existsb_true in E as (z & Hz & Ez). apply list_elem_of_split in Hz as (l1 & l2 & ->).
    assert (forall x, x ∈ l1 ++ l2 -> same x = false) as Hne.
    { intros x Hx. destruct (same x) eqn:Ex; [|done]. exfalso.
      rewrite fmap_app, fmap_cons in HN. rewrite <-Permutation_middle in HN. apply NoDup_cons in HN as [Hn _].
      apply Hn. rewrite <-fmap_app. apply list_elem_of_fmap. exists x. split; [|done].
      apply same_spec in Ex, Ez. congruence. }
    assert (forall l' : list A, (forall x, x ∈ l' -> same x = false) -> (fun x => if same x then new else x) <$> l' = l') as Hid.
    { induction l' as [|x l' IH]; intros Hx; [done|]. cbn.
      rewrite (Hx x) by set_solver. rewrite IH; [done|]. set_solver. }
    rewrite fmap_app, fmap_cons, Ez, !Hid by set_solver.
    rewrite !filter_app, filter_cons_True by done. rewrite filter_cons_False by (apply Hl; set_solver).
    rewrite <-app_assoc, <-Permutation_middle, (Permutation_app_comm _ [new]). cbn.
    by rewrite Permutation_middle.
  - by rewrite filter_app, filter_cons_True, filter_nil by done.
Qed.
End ConstantUpsert.

(** ** Rows read back *)

Lemma ParseHash_column h : ParseHash (hash_text h) = Ok h.
Proof. apply parse_hash_Encode. Qed.

Lemma hash_text_inj h1 h2 : hash_text h1 = hash_text h2 -> h1 = h2.
Proof. intros E. apply (f_equal ParseHash) in E. rewrite !ParseHash_column in E. congruence. Qed.

Lemma map_result_id {A B} (f : A -> result B) (g : B -> A) l :
  (forall b, b ∈ l -> f (g b) = Ok b) -> map_result f (g <$> l) = Ok l.
Proof.
  induction l as [|b l IH]; intros H; [done|]. cbn [fmap list_fmap map_result].
  rewrite H by set_solver. mstep. rewrite IH by (intros; apply H; set_solver). by mstep.
Qed.

Lemma ParseTopics_Encode topics : ParseTopics (EncodeTopics topics) = Ok topics.
Proof.
  unfold ParseTopics, EncodeTopics. cbn [json_elements]. apply map_result_id. intros h _.
  cbn [get_string]. mstep. apply ParseHash_column.
Qed.

Lemma ParseRawLog_row log : ParseRawLog (log_row log) = Ok log.
Proof.
  unfold ParseRawLog, log_row.
  cbn [lr_chain_id lr_block_number lr_block_hash lr_transaction_hash lr_transaction_index lr_log_index
       lr_contract_address lr_topics lr_data lr_canonical].
  rewrite FromDecimal_ToDecimal, !ParseHash_column, AddressFromHex_ToHex, ParseTopics_Encode, Decode_Encode.
  mstep. by destruct log.
Qed.

Lemma load_market_row chain m : load_market (ms_contracts m) (market_row chain m) = Ok m.
Proof.
  unfold load_market, market_row.
  cbn [mr_pool_address mr_oracle_address mr_weth_address mr_usdc_address mr_total_weth_collateral
    mr_total_scaled_usdc_supply mr_total_scaled_usdc_debt mr_available_usdc_liquidity mr_protocol_reserve
    mr_bad_debt mr_borrow_index mr_liquidity_index mr_last_interest_timestamp mr_weth_price
    mr_weth_price_updated_at mr_weth_max_price_age mr_usdc_price mr_usdc_price_updated_at mr_usdc_max_price_age].
  rewrite !AddressFromHex_ToHex, !FromDecimal_ToDecimal. mstep.
  rewrite !bool_decide_eq_true_2 by done. cbn [negb orb]. by destruct m.
Qed.

Lemma load_liquidation_row chain l : load_liquidation (ls_chainId l) (liquidation_row chain l) = Ok l.
Proof.
  unfold load_liquidation, liquidation_row.
  cbn [qr_block_number qr_block_hash qr_transaction_hash qr_log_index qr_liquidator_address qr_borrower_address
       qr_debt_asset qr_collateral_asset qr_repaid_amount qr_collateral_seized].
  rewrite !ParseHash_column, !AddressFromHex_ToHex, !FromDecimal_ToDecimal. mstep. by destruct l.
Qed.

Lemma load_position_row chain positions a p :
  ps_user p = a -> positions !! a = None ->
  load_position positions (position_row chain (a, p)) = Ok (<[a := p]> positions).
Proof.
  intros Hu Hn. unfold load_position, position_row.
  cbn [pr_user_address pr_weth_collateral pr_scaled_usdc_supply pr_scaled_usdc_debt fst snd].
  rewrite AddressFromHex_ToHex, !FromDecimal_ToDecimal. mstep. rewrite Hn. by destruct p; cbn in Hu; subst.
Qed.

Lemma load_positions_rows chain l m :
  NoDup (l.*1) -> (forall a p, (a, p) ∈ l -> ps_user p = a /\ m !! a = None) ->
  fold_result load_position m (position_row chain <$> l) = Ok (list_to_map l ∪ m).
Proof.
  revert m. induction l as [|[a p] l IH]; intros m HN Hl; [by rewrite list_to_map_nil, (left_id_L ∅ (∪))|].
  cbn [fmap list_fmap] in HN. apply NoDup_cons in HN as [Ha HN]. destruct (Hl a p) as [Hu Hm]; [set_solver|].
  cbn [fmap list_fmap fold_result]. rewrite load_position_row by done. mstep. rewrite IH; [|done|].
  - rewrite list_to_map_cons, <-insert_union_r, <-insert_union_l; [done|].
    apply not_elem_of_list_to_map. done.
  - intros b q Hq. destruct (Hl b q) as [? ?]; [set_solver|]. split; [done|].
    rewrite lookup_insert_ne; [done|]. intros ->. apply Ha. apply list_elem_of_fmap. by exists (b, q).
Qed.

(** ** The derived state *)

Definition liquidation_order (l1 l2 : LiquidationState) : Prop :=
  ls_blockNumber l1 < ls_blockNumber l2
  \/ (ls_blockNumber l1 = ls_blockNumber l2 /\ ls_logIndex l1 < ls_logIndex l2).

(** A state the tables can hold: positions under their users, the liquidations of one chain in
    the order of its blocks. *)
Record storable (chainId : Uint256) (st : DerivedState) : Prop := {
  st_keyed : keyed st;
  st_liquidations : Forall (fun l => ls_chainId l = chainId /\ 0 <= ls_blockNumber l < 2 ^ 63
                                     /\ 0 <= ls_logIndex l < 2 ^ 63) (ds_liquidations st);
  st_order : StronglySorted liquidation_order (ds_liquidations st);
  st_blocks l1 l2 : l1 ∈ ds_liquidations st -> l2 ∈ ds_liquidations st ->
    ls_blockHash l1 = ls_blockHash l2 -> ls_blockNumber l1 = ls_blockNumber l2
}.

(** The tables after [ReplaceDerivedState]. *)
Definition replaced (chainId : Uint256) (st : DerivedState) (db : IxDb) : IxDb :=
  let chain := ToDecimal chainId in
  MkIxDb (db_blocks db) (db_raw_logs db) (db_sync_state db)
    (filter (fun row => pr_chain_id row <> chain) (db_positions db)
       ++ (position_row chain <$> map_to_list (ds_positions st)))
    (filter (fun row => mr_chain_id row <> chain) (db_markets db) ++ [market_row chain (ds_market st)])
    (filter (fun row => qr_chain_id row <> chain) (db_liquidations db)
       ++ (liquidation_row chain <$> ds_liquidations st))
    (db_chain_versions db) (db_outbox_events db) (db_processed_events db) (db_now db).

Lemma require_true {St A} what (k : unit -> prog St A) (s : St) : (require true what ≫= k) s = k tt s.
Proof. done. Qed.

Lemma prefix_NoDup {A B} (f : A -> B) done a l :
  NoDup (f <$> l) -> done ++ [a] `prefix_of` l -> f a ∉ f <$> done.
Proof.
  intros HN [rest ->]. rewrite !fmap_app, <-app_assoc in HN. apply NoDup_app in HN as (_ & Hd & _).
  intros Ha. apply (Hd _ Ha). cbn. set_solver.
Qed.

Lemma insert_positions_run chain l db :
  NoDup (l.*1) -> (forall row, row ∈ db_positions db -> pr_chain_id row <> chain) ->
  for_each (fun entry => insert_position (position_row chain entry)) l db
  = (Ok tt, set_position_rows (db_positions db ++ (position_row chain <$> l)) db).
Proof.
  intros HN Hdb.
  set (g := fun (db : IxDb) e => set_position_rows (db_positions db ++ [position_row chain e]) db).
  destruct (for_each_run (fun entry => insert_position (position_row chain entry)) g
    (fun done s => s = set_position_rows (db_positions db ++ (position_row chain <$> done)) db) l db) as [E Es].
  - intros done e s Hp ->. split; [|unfold g; cbn; by rewrite fmap_app, app_assoc].
    unfold insert_position. rewrite get_run.
    assert (existsb _ (db_positions (set_position_rows (db_positions db ++ (position_row chain <$> done)) db)) = false) as ->.
    { apply existsb_false. cbn. intros row Hrow. apply andb_false_iff. rewrite !bool_decide_eq_false.
      apply elem_of_app in Hrow as [Hrow|(e' & -> & He')%list_elem_of_fmap]; [left; by apply Hdb|right].
      cbn. intros Ea%AddressToHex_inj. apply (prefix_NoDup fst done e l HN Hp).
      rewrite <-Ea. by apply list_elem_of_fmap_2. }
    by rewrite require_true.
  - cbn. rewrite app_nil_r. by destruct db.
  - by rewrite E, Es.
Qed.

Lemma insert_liquidations_run chainId l db :
  Forall (fun q => ls_chainId q = chainId /\ 0 <= ls_blockNumber q < 2 ^ 63 /\ 0 <= ls_logIndex q < 2 ^ 63) l ->
  NoDup ((fun q => (ls_blockHash q, ls_logIndex q)) <$> l) ->
  (forall row, row ∈ db_liquidations db -> qr_chain_id row <> ToDecimal chainId) ->
  for_each (fun q => insert_liquidation (liquidation_row (ToDecimal chainId) q)) l db
  = (Ok tt, set_liquidation_rows (db_liquidations db ++ (liquidation_row (ToDecimal chainId) <$> l)) db).
Proof.
  intros HF HN Hdb. set (chain := ToDecimal chainId) in *.
  set (g := fun (db : IxDb) q => set_liquidation_rows (db_liquidations db ++ [liquidation_row chain q]) db).
  destruct (for_each_run (fun q => insert_liquidation (liquidation_row chain q)) g
    (fun done s => s = set_liquidation_rows (db_liquidations db ++ (liquidation_row chain <$> done)) db) l db) as [E Es].
  - intros done q s Hp ->. split; [|unfold g; cbn; by rewrite fmap_app, app_assoc].
    unfold insert_liquidation. rewrite get_run.
    assert (q ∈ l) as Hq by (destruct Hp as [rest ->]; set_solver).
    rewrite list.Forall_forall in HF. destruct (HF q Hq) as (_ & Hn & Hi). cbn [qr_block_number qr_log_index liquidation_row].
    rewrite (proj2 (sql_bigint_true _) Hn), (proj2 (sql_bigint_true _) Hi). cbn [andb]. rewrite require_true.
    assert (existsb _ (db_liquidations (set_liquidation_rows (db_liquidations db ++ (liquidation_row chain <$> done)) db)) = false) as ->.
    { apply existsb_false. intros row Hrow. cbn [set_liquidation_rows db_liquidations] in Hrow.
      apply not_true_iff_false. unfold same_liquidation.
      rewrite !andb_true_iff, !bool_decide_eq_true, Z.eqb_eq. intros [[[Ec Eb] _] Ei].
      apply elem_of_app in Hrow as [Hrow|(q' & -> & Hq')%list_elem_of_fmap]; [by eapply Hdb; [|symmetry]|].
      cbn in Eb, Ei. apply hash_text_inj in Eb.
      apply (prefix_NoDup (fun q => (ls_blockHash q, ls_logIndex q)) done q l HN Hp). rewrite Eb, Ei.
      by apply (list_elem_of_fmap_2 (fun q => (ls_blockHash q, ls_logIndex q))). }
    by rewrite require_true.
  - cbn. rewrite app_nil_r. by destruct db.
  - by rewrite E, Es.
Qed.

Lemma storable_NoDup chainId st :
  storable chainId st -> NoDup ((fun q => (ls_blockHash q, ls_logIndex q)) <$> ds_liquidations st).
Proof.
  intros [_ _ HS HB]. revert HS HB. generalize (ds_liquidations st) as l. intros l HS HB.
  induction HS as [|x l HS IH Hx]; cbn; constructor.
  - intros (y & E & Hy)%list_elem_of_fmap. injection E as Eh Ei.
    rewrite list.Forall_forall in Hx. specialize (HB x y ltac:(set_solver) ltac:(set_solver) Eh).
    destruct (Hx y Hy) as [?|[_ ?]]; lia.
  - apply IH. intros. apply HB; set_solver.
Qed.

Lemma ReplaceDerivedState_run chainId st db :
  storable chainId st -> ReplaceDerivedState chainId st db = (Ok tt, replaced chainId st db).
Proof.
  intros Hst. pose proof (storable_NoDup _ _ Hst) as HN. destruct Hst as [Hk Hl Ho Hb].
  unfold ReplaceDerivedState. rewrite !modify_run.
  erewrite bind_run; [|apply insert_positions_run; [apply NoDup_fst_map_to_list|]].
  2: { cbn. intros row Hrow%list_elem_of_filter. by destruct Hrow. }
  erewrite bind_run.
  2: { unfold insert_market. rewrite get_run.
       assert (existsb _ _ = false) as ->; [|by rewrite require_true].
       apply existsb_false. cbn. intros row [Hrow _]%list_elem_of_filter. by apply bool_decide_eq_false. }
  erewrite insert_liquidations_run by (done || (cbn; intros row Hrow%list_elem_of_filter; by destruct Hrow)).
  done.
Qed.

Lemma filter_split {A} (P Q : A -> Prop) `{forall x, Decision (P x)} `{forall x, Decision (Q x)} l l' :
  (forall x, Q x -> ~ P x) -> Forall P l' -> filter P (filter Q l ++ l') = l'.
Proof.
  intros HPQ HP. rewrite filter_app, list_filter_none, (list_filter_all P l') by
    (done || (apply list.Forall_forall; intros x [Hx _]%list_elem_of_filter; auto)). done.
Qed.

Lemma liquidation_before_strict_weak : strict_weak liquidation_before.
Proof.
  split; unfold sort_le, liquidation_before; [intros x y|intros x y z].
  - destruct (Z.eqb_spec (qr_block_number x) (qr_block_number y)),
      (Z.eqb_spec (qr_block_number y) (qr_block_number x)); cbn [negb]; rewrite !Z.ltb_ge; lia.
  - destruct (Z.eqb_spec (qr_block_number x) (qr_block_number y)),
      (Z.eqb_spec (qr_block_number y) (qr_block_number x)), (Z.eqb_spec (qr_block_number y) (qr_block_number z)),
      (Z.eqb_spec (qr_block_number z) (qr_block_number y)), (Z.eqb_spec (qr_block_number x) (qr_block_number z)),
      (Z.eqb_spec (qr_block_number z) (qr_block_number x)); cbn [negb]; rewrite ?Z.ltb_ge; lia.
Qed.

Lemma liquidation_rows_sorted chain l :
  StronglySorted liquidation_order l ->
  std_sort liquidation_before (liquidation_row chain <$> l) = liquidation_row chain <$> l.
Proof.
  intros HS. apply std_sort_strict; [apply liquidation_before_strict_weak|].
  induction HS as [|x l HS IH Hx]; cbn [fmap list_fmap]; constructor; [done|].
  rewrite list.Forall_forall in Hx. apply list.Forall_forall. intros row (y & -> & Hy)%list_elem_of_fmap.
  unfold liquidation_before.
  cbn [qr_block_number qr_log_index liquidation_row].
  destruct (Hx y Hy) as [?|[E ?]]; destruct (Z.eqb_spec (ls_blockNumber x) (ls_blockNumber y));
    cbn [negb]; apply Z.ltb_lt; lia.
Qed.

Lemma LoadDerivedState_replaced chainId st db :
  storable chainId st -> LoadDerivedState chainId (ms_contracts (ds_market st)) (replaced chainId st db) = Ok st.
Proof.
  intros [Hk Hl Ho Hb]. unfold LoadDerivedState, replaced. cbn [db_positions db_markets db_liquidations].
  rewrite !filter_split; try (intros ? HQ HP; by apply HQ).
  - rewrite load_positions_rows, list_to_map_to_list, (right_id_L ∅ (∪)); [mstep| |].
    + rewrite load_market_row. mstep. rewrite liquidation_rows_sorted by done.
      rewrite map_result_id; [mstep; by destruct st|]. intros q Hq. rewrite list.Forall_forall in Hl.
      destruct (Hl q Hq) as [<- _]. apply load_liquidation_row.
    + apply NoDup_fst_map_to_list.
    + intros a p Hap%elem_of_map_to_list. split; [by apply Hk|apply lookup_empty].
  - apply Forall_fmap, list.Forall_forall. intros x _. done.
  - by constructor.
  - apply Forall_fmap, list.Forall_forall. intros x _. done.
Qed.

(** The rows of a stored state, in the order of their insertion. *)
Record derived_rows (chainId : Uint256) (st : DerivedState) (db : IxDb) : Prop := {
  dr_storable : storable chainId st;
  dr_positions : filter (fun row => pr_chain_id row = ToDecimal chainId) (db_positions db)
    = position_row (ToDecimal chainId) <$> map_to_list (ds_positions st);
  dr_market : filter (fun row => mr_chain_id row = ToDecimal chainId) (db_markets db)
    = [market_row (ToDecimal chainId) (ds_market st)];
  dr_liquidations : filter (fun row => qr_chain_id row = ToDecimal chainId) (db_liquidations db)
    = liquidation_row (ToDecimal chainId) <$> ds_liquidations st
}.

Lemma replaced_rows chainId st db db' :
  storable chainId st -> db_positions db' = db_positions (replaced chainId st db) ->
  db_markets db' = db_markets (replaced chainId st db) -> db_liquidations db' = db_liquidations (replaced chainId st db) ->
  derived_rows chainId st db'.
Proof.
  intros Hs Ep Em El. split; [done|rewrite Ep|rewrite Em|rewrite El]; unfold replaced;
    cbn [db_positions db_markets db_liquidations]; rewrite filter_split; try done; try (intros ? HQ HP; by apply HQ).
  - apply Forall_fmap, list.Forall_forall. intros x _. done.
  - by constructor.
  - apply Forall_fmap, list.Forall_forall. intros x _. done.
Qed.

(** ** What a view satisfies *)

(** The log index orders the logs of a block as their transactions. *)
Definition ordered_logs (l : list RawLog) : Prop :=
  NoDup ((fun x => (rl_blockNumber x, rl_logIndex x)) <$> l)
  /\ forall x y, x ∈ l -> y ∈ l -> rl_blockNumber x = rl_blockNumber y ->
       rl_logIndex x <= rl_logIndex y -> rl_transactionIndex x <= rl_transactionIndex y.

Record wf_view (chainId : Uint256) (v : StoreView) : Prop := {
  wv_range k b : v_blocks v !! k = Some b -> 0 <= k < 2 ^ 63;
  wv_inj k k' h p p' : v_blocks v !! k = Some (h, p) -> v_blocks v !! k' = Some (h, p') -> k = k';
  wv_log l : l ∈ v_logs v -> block_log chainId (rl_blockNumber l) (rl_blockHash l) l
    /\ exists p, v_blocks v !! rl_blockNumber l = Some (rl_blockHash l, p);
  wv_order : ordered_logs (v_logs v)
}.

Lemma wf_committed chainId b logs st v :
  wf_view chainId v -> 0 <= ib_number b < 2 ^ 63 -> v_blocks v !! ib_number b = None ->
  (forall k p, v_blocks v !! k <> Some (ib_hash b, p)) -> block_logs chainId (ib_number b) (ib_hash b) logs ->
  wf_view chainId (committed b logs st v).
Proof.
  intros [Hr Hi Hl [HN Ho]] Hn Hnone Hh HB. pose proof (block_logs_NoDup _ _ _ _ HB) as HNi. destruct HB as [HF HS].
  rewrite list.Forall_forall in HF.
  assert (forall x y, x ∈ v_logs v -> y ∈ logs -> rl_blockNumber x <> rl_blockNumber y) as Hsep.
  { intros x y Hx Hy E. destruct (Hl x Hx) as [_ (p & Hp)]. destruct (HF y Hy) as (_ & Ey & _).
    rewrite E, Ey in Hp. congruence. }
  split; cbn [committed v_blocks v_logs].
  - intros k p. rewrite lookup_insert_Some. intros [[<- _]|[_ Hk]]; eauto.
  - intros k k' h p p'. rewrite !lookup_insert_Some. intros [[<- [= <- <-]]|[_ Hk]] [[<- [= E]]|[_ Hk']]; eauto.
    + by apply Hh in Hk'.
    + subst. by apply Hh in Hk.
  - intros l [Hx|Hx]%elem_of_app.
    + destruct (Hl l Hx) as (HB & p & Hp). split; [done|]. exists p.
      rewrite lookup_insert_ne; [done|]. intros E. rewrite <-E in Hp. congruence.
    + pose proof (HF l Hx) as HB. destruct (HB) as (_ & -> & -> & _). split; [done|]. eexists. by rewrite lookup_insert_eq.
  - split.
    + rewrite fmap_app. apply NoDup_app. split; [done|]. split.
      * intros e (x & -> & Hx)%list_elem_of_fmap (y & E & Hy)%list_elem_of_fmap. injection E as E _.
        by apply (Hsep x y).
      * apply (NoDup_fmap_1 snd). by rewrite <-list_fmap_compose.
    + intros x y [Hx|Hx]%elem_of_app [Hy|Hy]%elem_of_app E HL; auto.
      * by apply (Hsep x y) in E.
      * by apply eq_sym, (Hsep y x) in E.
      * destruct (StronglySorted_cases _ logs x y HS Hx Hy) as [->|[[_ ?]|[? _]]]; [done|done|lia].
Qed.

Lemma ordered_sublist l l' : l' `sublist_of` l -> ordered_logs l -> ordered_logs l'.
Proof.
  intros Hs [HN Ho]. split; [by eapply sublist_NoDup; [|by apply fmap_sublist]|].
  intros x y Hx Hy. apply Ho; by eapply sublist_subseteq.
Qed.

Lemma wf_rewound chainId a st v :
  wf_view chainId v -> from_option (fun a => 0 <= ib_number a) True a -> wf_view chainId (rewound a st v).
Proof.
  intros [Hr Hi Hl Ho] Ha. destruct a as [a|]; split; cbn [rewound v_blocks v_logs].
  - intros k b [Hk _]%map_lookup_filter_Some. eauto.
  - intros k k' h p p' [Hk _]%map_lookup_filter_Some [Hk' _]%map_lookup_filter_Some. eauto.
  - intros l [Hn Hx]%list_elem_of_filter. destruct (Hl l Hx) as (HB & p & Hp). split; [done|]. exists p.
    by apply map_lookup_filter_Some.
  - eapply ordered_sublist; [|exact Ho]. apply sublist_filter.
  - intros k b. by rewrite lookup_empty.
  - intros k k' h p p'. by rewrite lookup_empty.
  - by intros l ?%not_elem_of_nil.
  - split; [constructor|]. by intros x y ?%not_elem_of_nil.
Qed.

Definition index_order (x y : RawLog) : Prop :=
  rl_blockNumber x < rl_blockNumber y
  \/ (rl_blockNumber x = rl_blockNumber y /\ rl_logIndex x < rl_logIndex y).

Lemma sorted_by_index l :
  ordered_logs l -> StronglySorted (sort_le log_before) l -> StronglySorted index_order l.
Proof.
  unfold index_order. intros Ho HS. induction HS as [|x l HS IH Hx]; constructor.
  - apply IH. eapply ordered_sublist; [|exact Ho]. by apply sublist_cons.
  - rewrite list.Forall_forall in Hx. apply list.Forall_forall. intros y Hy. specialize (Hx y Hy).
    destruct Ho as [HN Ho]. cbn in HN. apply NoDup_cons in HN as [Hn _].
    assert (rl_blockNumber x = rl_blockNumber y -> rl_logIndex x <> rl_logIndex y) as Hne.
    { intros E1 E2. apply Hn. rewrite E1, E2. apply list_elem_of_fmap. by exists y. }
    specialize (Ho y x ltac:(set_solver) ltac:(set_solver)). unfold sort_le, log_before in Hx.
    destruct (Z.eqb_spec (rl_blockNumber y) (rl_blockNumber x)) as [E|]; cbn [negb] in Hx;
      [|apply Z.ltb_ge in Hx; lia].
    destruct (Z.eqb_spec (rl_transactionIndex y) (rl_transactionIndex x)); cbn [negb] in Hx; apply Z.ltb_ge in Hx; lia.
Qed.

Lemma StronglySorted_sublist {A} (R : A -> A -> Prop) l l' :
  l' `sublist_of` l -> StronglySorted R l -> StronglySorted R l'.
Proof.
  induction 1 as [|x l1 l2 Hs IH|x l1 l2 Hs IH]; [done| |]; intros HS; inversion HS as [|? ? HS' HF]; subst.
  - constructor; [auto|]. rewrite list.Forall_forall in HF. apply list.Forall_forall. intros y Hy. apply HF. by eapply sublist_subseteq.
  - auto.
Qed.

Lemma Forall2_in_r {A B} (R : A -> B -> Prop) l1 l2 y :
  Forall2 R l1 l2 -> y ∈ l2 -> exists x, x ∈ l1 /\ R x y.
Proof.
  intros HF [i Hi]%list_elem_of_lookup_1. destruct (Forall2_lookup_r _ _ _ _ _ HF Hi) as (x & Hx & HR).
  exists x. split; [by eapply list_elem_of_lookup_2|done].
Qed.

(** The state rebuilt from the logs of a view can be stored. *)
Lemma rebuilt_storable keccak contracts chainId v st :
  wf_view chainId v -> Rebuild keccak contracts (v_logs v) = Ok st -> storable chainId st.
Proof.
  intros [Hr Hi Hl Ho] HR. destruct (Rebuild_liquidations _ _ _ _ HR) as (src & Hsub & HF).
  assert (canonical_logs (v_logs v) = v_logs v) as Ec.
  { apply list_filter_all, list.Forall_forall. intros x Hx. by destruct (Hl x Hx) as [[? _] _]. }
  rewrite Ec in Hsub.
  assert (forall x, x ∈ src -> x ∈ v_logs v) as Hin.
  { intros x Hx. rewrite <-(std_sort_perm log_before). by eapply sublist_subseteq. }
  assert (ordered_logs (std_sort log_before (v_logs v))) as Hos.
  { destruct Ho as [HN Ho]. split; [by rewrite std_sort_perm|]. intros x y. rewrite !std_sort_perm. apply Ho. }
  assert (StronglySorted index_order src) as HSS.
  { eapply StronglySorted_sublist; [exact Hsub|]. apply sorted_by_index; [done|].
    apply std_sort_sorted, log_before_strict_weak. }
  split.
  - by destruct (Rebuild_projected _ _ _ _ HR).
  - rewrite list.Forall_forall. intros q Hq. destruct (Forall2_in_r _ _ _ _ HF Hq) as (x & Hx & Hrec).
    destruct Hrec as (-> & -> & _ & _ & ->). destruct (Hl x (Hin x Hx)) as ((_ & _ & _ & ? & _ & ?) & p & Hp). eauto.
  - clear -HF HSS. induction HF as [|x q src l Hrec HF IH]; constructor; inversion HSS as [|? ? HS Hx]; subst; [auto|].
    rewrite list.Forall_forall in Hx. apply list.Forall_forall. intros q' Hq'. destruct (Forall2_in_r _ _ _ _ HF Hq') as (y & Hy & Hrec').
    unfold liquidation_order. destruct Hrec as (_ & -> & _ & _ & ->), Hrec' as (_ & -> & _ & _ & ->).
    by apply Hx.
  - intros q1 q2 Hq1 Hq2. destruct (Forall2_in_r _ _ _ _ HF Hq1) as (x & Hx & _ & -> & -> & _).
    destruct (Forall2_in_r _ _ _ _ HF Hq2) as (y & Hy & _ & -> & -> & _). intros E.
    destruct (Hl x (Hin x Hx)) as (_ & p & Hp), (Hl y (Hin y Hy)) as (_ & p' & Hp'). rewrite E in Hp. eauto.
Qed.

(** ** The version of a chain *)

Lemma version_advanced chain db db' :
  db_chain_versions db' = upsert (fun row => bool_decide (vr_chain_id row = chain))
    (fun row => MkVersionRow chain (vr_canonical_version row + 1)) (MkVersionRow chain 1) (db_chain_versions db) ->
  version_of chain db' = version_of chain db + 1.
Proof.
  intros Edb. unfold version_of. rewrite Edb. unfold upsert.
  generalize (db_chain_versions db) as l. intros l. destruct (existsb _ l) eqn:Ex.
  - induction l as [|r l IH]; [done|]. cbn [fmap list_fmap]. rewrite !filter_cons. cbn [existsb] in Ex.
    case_bool_decide as Hr.
    + cbn [vr_chain_id]. by rewrite !decide_True by done.
    + rewrite !decide_False by done. by apply IH.
  - assert (forall r, r ∈ l -> vr_chain_id r <> chain) as Hne.
    { intros r Hr E. rewrite existsb_false in Ex. specialize (Ex r Hr). cbn in Ex.
      rewrite E, bool_decide_eq_true_2 in Ex by done. done. }
    rewrite filter_app, !list_filter_none by (apply list.Forall_forall; auto).
    by rewrite filter_cons_True by done.
Qed.

(** ** What a write does to the version and the outbox *)

Definition outbox_kept (db db' : IxDb) : Prop :=
  db_chain_versions db' = db_chain_versions db /\ db_outbox_events db' = db_outbox_events db
  /\ db_processed_events db' = db_processed_events db /\ db_now db' = db_now db.

Lemma ReplaceDerivedState_outbox chainId st db0 db :
  outbox_kept db0 db -> wp (ReplaceDerivedState chainId st) (fun _ => outbox_kept db0) (fun _ _ => True) db.
Proof.
  intros H. unfold ReplaceDerivedState. do 6 sql_step. apply wp_bind. eapply wp_mono.
  - apply (wp_for_each _ (outbox_kept db0) (fun _ _ => True)); [|exact H].
    intros e s _ Hs. unfold insert_position. by repeat sql_step.
  - cbn. intros _ s Hs. apply wp_bind. unfold insert_market. repeat sql_step; [|done].
    apply (wp_for_each _ (outbox_kept db0) (fun _ _ => True)); [|exact Hs].
    intros e s' _ Hs'. unfold insert_liquidation. by repeat sql_step.
  - done.
Qed.

(** One event under a new id, none under a known one. *)
Definition event_written (chain id : string) (event : Z -> Z -> EventRow) (db db' : IxDb) : Prop :=
  version_of chain db' = version_of chain db + 1
  /\ db_outbox_events db' = (if existsb (fun row => bool_decide (er_event_id row = id)) (db_outbox_events db)
       then db_outbox_events db else db_outbox_events db ++ [event (version_of chain db + 1) (db_now db)]).

Definition version_kept (db db' : IxDb) (version : Z) (chain : string) : Prop :=
  version = version_of chain db + 1 /\ version_of chain db' = version
  /\ db_outbox_events db' = db_outbox_events db /\ db_now db' = db_now db.

Lemma AdvanceCanonicalVersion_wp chain db0 db :
  outbox_kept db0 db ->
  wp (AdvanceCanonicalVersion chain) (fun version db' => version_kept db0 db' version chain) (fun _ _ => True) db.
Proof.
  intros (Hv & Ho & _ & Hnow). unfold AdvanceCanonicalVersion. repeat sql_step; [|done].
  pose proof (version_advanced chain db (set_chain_versions (upsert (fun row => bool_decide (vr_chain_id row = chain))
    (fun row => MkVersionRow chain (vr_canonical_version row + 1)) (MkVersionRow chain 1) (db_chain_versions db)) db) eq_refl) as Ha.
  unfold version_kept. rewrite Ha. assert (version_of chain db = version_of chain db0) as ->; [|by repeat split].
  unfold version_of. by rewrite Hv.
Qed.

(** ** The statements on typed rows *)

Section Tables.
Context (keccak : Bytes -> Hash256) (contracts : ChainContracts) (chainId : Uint256).
Abbreviation chain := (ToDecimal chainId).

(** The canonical logs of the chain among all logs of the table. *)
Definition on_chain (l : RawLog) : Prop := rl_canonical l = true /\ rl_chainId l = chainId.
#[local] Instance on_chain_dec l : Decision (on_chain l).
Proof. unfold on_chain. apply _. Defined.

Definition log_pk (l : RawLog) : Uint256 * Hash256 * Hash256 * Z :=
  (rl_chainId l, rl_blockHash l, rl_transactionHash l, rl_logIndex l).

Lemma chain_eq x : bool_decide (ToDecimal x = chain) = bool_decide (x = chainId).
Proof. apply bool_decide_ext. split; [apply ToDecimal_inj|by intros ->]. Qed.

Record represents_view (budget : nat) (db : IxDb) (v : StoreView) : Prop := {
  rv_wf : wf_view chainId v;
  rv_state : LoadDerivedState chainId contracts db = Ok (v_state v);
  rv_cursor : LoadCursor chainId db = Ok ((fun c => MkSyncCursor chainId (c.1) (c.2)) <$> v_cursor v);
  rv_version : 0 <= version_of chain db /\ version_of chain db + Z.of_nat budget < 2 ^ 63;
  rv_blocks : exists bs, db_blocks db = block_row <$> bs
    /\ forall n h p, v_blocks v !! n = Some (h, p) <-> MkIndexedBlock chainId n h p true ∈ bs;
  rv_logs : exists ls, db_raw_logs db = log_row <$> ls /\ NoDup (log_pk <$> ls)
    /\ v_logs v ≡ₚ filter on_chain ls;
  rv_rows : is_Some (v_cursor v) -> derived_rows chainId (v_state v) db /\ 0 < version_of chain db
}.

(** *** Cursor and version *)

Lemma LoadCursor_upsert db number hash : 0 <= number < 2 ^ 63 ->
  exists rows, upsert_cursor chain number hash db = (Ok tt, set_sync_state rows db)
    /\ forall db', db_sync_state db' = rows -> LoadCursor chainId db' = Ok (Some (MkSyncCursor chainId number hash)).
Proof.
  intros Hn. unfold upsert_cursor. rewrite (proj2 (sql_bigint_true _) Hn), require_true.
  eexists. split; [reflexivity|]. intros db' E. unfold LoadCursor. rewrite E. unfold upsert.
  generalize (db_sync_state db) as rows. intros rows. destruct (existsb _ rows) eqn:Ex.
  - induction rows as [|r rows IH]; [done|]. cbn [fmap list_fmap]. rewrite filter_cons. cbn [existsb] in Ex.
    case_bool_decide as Hr.
    + cbn [sr_chain_id]. rewrite decide_True by done. cbn -[uint64_column ParseHash]. rewrite uint64_column_Ok by lia. mstep. rewrite ParseHash_column. by mstep.
    + rewrite decide_False by done. by apply IH.
  - rewrite filter_app, list_filter_none.
    + rewrite filter_cons_True, filter_nil by done. cbn -[uint64_column ParseHash]. rewrite uint64_column_Ok by lia. mstep. rewrite ParseHash_column. by mstep.
    + apply list.Forall_forall. intros r Hr E'. rewrite existsb_false in Ex.
      specialize (Ex r Hr). cbn in Ex. rewrite E', bool_decide_eq_true_2 in Ex by done. done.
Qed.

Lemma AdvanceCanonicalVersion_run db :
  0 <= version_of chain db -> version_of chain db + 1 < 2 ^ 63 ->
  exists rows, AdvanceCanonicalVersion chain db
      = (Ok (version_of chain db + 1), set_chain_versions rows db)
    /\ forall db', db_chain_versions db' = rows -> version_of chain db' = version_of chain db + 1.
Proof.
  intros Hv Hlt. unfold AdvanceCanonicalVersion. rewrite modify_run, get_run.
  set (rows := upsert _ _ _ _).
  pose proof (version_advanced chain db) as Hrows. fold rows in Hrows.
  exists rows. split; [|done].
  rewrite (Hrows (set_chain_versions rows db) eq_refl), (proj2 (sql_bigint_true _)) by lia.
  by rewrite require_true.
Qed.

Lemma InsertOutboxEvent_run id type aggregate c number hash version payload db :
  0 <= number < 2 ^ 63 -> 0 < version < 2 ^ 63 ->
  exists rows, InsertOutboxEvent id type aggregate c number hash version payload db = (Ok tt, set_outbox_events rows db).
Proof.
  intros Hn Hv. unfold InsertOutboxEvent. rewrite !(proj2 (sql_bigint_true _)) by lia.
  rewrite (proj2 (Z.ltb_lt _ _)) by lia. cbn [andb]. rewrite require_true. by eexists.
Qed.

(** *** Blocks *)

Lemma LoadCanonicalBlock_run budget n db v :
  represents_view budget db v -> 0 <= n < 2 ^ 63 ->
  LoadCanonicalBlock chainId n db = Ok ((fun b => MkIndexedBlock chainId n (b.1) (b.2) true) <$> v_blocks v !! n).
Proof.
  intros [_ _ _ _ (bs & Hbs & Hv) _ _] Hn. unfold LoadCanonicalBlock, bigint_parameter.
  rewrite (proj2 (sql_bigint_true _) Hn), Hbs. mstep.
  rewrite (list_filter_fmap block_row _ (fun b => ib_chainId b = chainId /\ ib_number b = n /\ ib_canonical b = true)).
  2: { intros b. cbn. split; intros (E & ? & ?); split; try done; [by apply ToDecimal_inj|by rewrite E]. }
  destruct (filter _ bs) as [|b rest] eqn:E; cbn [fmap list_fmap].
  - destruct (v_blocks v !! n) as [[h p]|] eqn:Eb; [|done]. apply Hv in Eb.
    exfalso. eapply not_elem_of_nil. rewrite <-E. apply list_elem_of_filter. by split; [|exact Eb].
  - assert (b ∈ filter (fun b => ib_chainId b = chainId /\ ib_number b = n /\ ib_canonical b = true) bs) as Hb
      by (rewrite E; set_solver).
    apply list_elem_of_filter in Hb as [(Hc & Hn' & Hca) Hb]. destruct b as [c' n' h p ca]. cbn in Hc, Hn', Hca. subst.
    apply Hv in Hb. rewrite Hb. cbn [br_block_hash br_parent_hash block_row ib_hash ib_parentHash].
    rewrite !ParseHash_column. by mstep.
Qed.

Definition same_block (b b' : IndexedBlock) : bool :=
  bool_decide (ib_chainId b' = ib_chainId b) && bool_decide (ib_hash b' = ib_hash b).

Lemma upsert_block_run b bs db :
  db_blocks db = block_row <$> bs -> 0 <= ib_number b < 2 ^ 63 -> ib_canonical b = true ->
  (forall b', b' ∈ bs -> ib_chainId b' = ib_chainId b -> ib_canonical b' = true -> ib_number b' <> ib_number b) ->
  upsert_block (block_row b) db
  = (Ok tt, set_blocks (block_row <$> upsert (same_block b) (fun _ => b) b bs) db).
Proof.
  intros Hbs Hn Hc Hfree. unfold upsert_block. rewrite get_run. cbn [br_block_number block_row].
  rewrite (proj2 (sql_bigint_true _) Hn), require_true.
  assert (existsb _ (db_blocks db) = false) as ->.
  { apply existsb_false. rewrite Hbs. intros row (b' & -> & Hb')%list_elem_of_fmap. cbn [block_row br_chain_id br_block_hash br_canonical br_block_number].
    apply not_true_iff_false. rewrite !andb_true_iff, bool_decide_eq_true, Z.eqb_eq.
    intros [[[_ Hca] Ech%ToDecimal_inj] En]. by eapply Hfree. }
  rewrite require_true. unfold modify. do 2 f_equal. rewrite Hbs. apply upsert_fmap.
  - intros b'. unfold same_block. cbn. f_equal; apply bool_decide_ext; split; intros E; subst; auto.
    + by apply ToDecimal_inj.
    + by rewrite E.
    + by apply hash_text_inj.
    + by rewrite E.
  - intros b'. unfold same_block. rewrite andb_true_iff, !bool_decide_eq_true. intros [E1 E2].
    unfold block_row. cbn. by rewrite E1, E2, Hc.
Qed.

(** *** Logs *)

Lemma log_row_query (n : Z) (row : RawLog) :
  (lr_chain_id (log_row row) = chain /\ lr_canonical (log_row row) = true /\ lr_block_number (log_row row) <= n)
  <-> (on_chain row /\ rl_blockNumber row <= n).
Proof.
  unfold on_chain. cbn. split; [intros (E%ToDecimal_inj & ? & ?)|intros [[? ->] ?]]; auto.
Qed.

Lemma LoadCanonicalLogsThrough_run budget n db v :
  represents_view budget db v -> 0 <= n < 2 ^ 63 ->
  exists logs, LoadCanonicalLogsThrough chainId n db = Ok logs /\ logs ≡ₚ logs_through n (v_logs v).
Proof.
  intros [_ _ _ _ _ (ls & Hls & _ & Hv) _] Hn. unfold LoadCanonicalLogsThrough, bigint_parameter.
  rewrite (proj2 (sql_bigint_true _) Hn), Hls. mstep.
  rewrite (list_filter_fmap log_row _ (fun l => on_chain l /\ rl_blockNumber l <= n)) by apply log_row_query.
  set (sel := filter (fun l => on_chain l /\ rl_blockNumber l <= n) ls).
  pose proof (std_sort_perm log_row_before (log_row <$> sel)) as Hp.
  apply Permutation_map_inv in Hp as (sorted & E & Hs). rewrite E. exists sorted. split.
  - apply map_result_id. intros l _. apply ParseRawLog_row.
  - rewrite <-Hs. unfold sel, logs_through. rewrite Hv, list_filter_filter.
    assert (forall x, (on_chain x /\ rl_blockNumber x <= n) <-> (rl_blockNumber x <= n /\ on_chain x)) as Hx by tauto.
    by rewrite (list_filter_iff _ _ _ Hx).
Qed.

Definition same_log_key (l l' : RawLog) : bool := bool_decide (log_pk l' = log_pk l).

Lemma upsert_log_run log ls db :
  db_raw_logs db = log_row <$> ls -> rl_chainId log = chainId -> rl_canonical log = true ->
  0 <= rl_blockNumber log < 2 ^ 63 -> 0 <= rl_transactionIndex log < 2 ^ 63 -> 0 <= rl_logIndex log < 2 ^ 63 ->
  upsert_log (commit_log_row chain log) db
  = (Ok tt, set_raw_logs (log_row <$> upsert (same_log_key log) (fun _ => log) log ls) db).
Proof.
  intros Hls Hc Hca Hn Ht Hi.
  assert (commit_log_row chain log = log_row log) as -> by (unfold commit_log_row, log_row; cbn; by rewrite Hc, Hca).
  unfold upsert_log. cbn [lr_block_number lr_transaction_index lr_log_index log_row].
  rewrite !(proj2 (sql_bigint_true _)) by done. cbn [andb]. rewrite require_true. unfold modify.
  do 2 f_equal. rewrite Hls. apply upsert_fmap.
  - intros l'. unfold same_log, same_log_key. cbn. apply eq_true_iff_eq.
    rewrite !andb_true_iff, !bool_decide_eq_true, Z.eqb_eq. unfold log_pk. split.
    + intros [[[E1%ToDecimal_inj E2%hash_text_inj] E3%hash_text_inj] E4]. congruence.
    + intros [= -> -> -> ->]. done.
  - intros l'. unfold same_log_key, log_pk. rewrite bool_decide_eq_true. intros [= E1 E2 E3 E4].
    unfold log_row. cbn. by rewrite E1, E2, E3, E4, Hca.
Qed.

(** Writing the logs of a new block adds them to the canonical logs. *)
Lemma upsert_logs_run n h logs ls db :
  db_raw_logs db = log_row <$> ls -> NoDup (log_pk <$> ls) -> 0 <= n < 2 ^ 63 ->
  block_logs chainId n h logs -> (forall l, l ∈ ls -> on_chain l -> rl_blockHash l <> h) ->
  exists ls', for_each (fun log => upsert_log (commit_log_row chain log)) logs db
      = (Ok tt, set_raw_logs (log_row <$> ls') db)
    /\ NoDup (log_pk <$> ls') /\ filter on_chain ls' ≡ₚ filter on_chain ls ++ logs.
Proof.
  intros Hls HN Hn HB Hfree. pose proof (block_logs_NoDup _ _ _ _ HB) as HNi. destruct HB as [HF _].
  cut (exists ls', for_each (fun log => upsert_log (commit_log_row chain log)) logs db
      = (Ok tt, set_raw_logs (log_row <$> ls') db)
    /\ NoDup (log_pk <$> ls') /\ filter on_chain ls' ≡ₚ filter on_chain ls ++ logs
    /\ (forall l, l ∈ ls' -> on_chain l -> rl_blockHash l <> h \/ l ∈ logs)).
  { intros (ls' & ? & ? & ? & _). by exists ls'. }
  induction logs as [|log logs IH] using rev_ind.
  - exists ls. rewrite app_nil_r. split; [|by auto]. cbn. rewrite <-Hls. by destruct db.
  - apply Forall_app in HF as [HF [Hlog _]%Forall_cons]. rewrite fmap_app in HNi. apply NoDup_app in HNi as (HNi & Hni & _).
    destruct IH as (ls' & E & HN' & Hf & Hfree'); [done|done|].
    assert (forall l, l ∈ ls' -> same_log_key log l = true -> ~ on_chain l) as Hnew.
    { unfold same_log_key. setoid_rewrite bool_decide_eq_true. unfold log_pk. intros l Hl [= _ Eh _ Ei] Hc.
      destruct Hlog as (_ & _ & Hh & _). destruct (Hfree' l Hl Hc) as [?|Hl']; [congruence|].
      apply (Hni (rl_logIndex l)); [by apply list_elem_of_fmap_2|]. rewrite Ei. cbn. set_solver. }
    assert (on_chain log) as Hon by (split; apply Hlog).
    assert (forall x, same_log_key log x = true <-> log_pk x = log_pk log) as Hspec
      by (intros; apply bool_decide_eq_true).
    exists (upsert (same_log_key log) (fun _ => log) log ls'). split; [|split; [|split]].
    + rewrite for_each_app, (bind_run _ _ _ _ _ E). cbn [for_each]. destruct Hlog as (? & ? & ? & ? & ? & ?).
      erewrite bind_run by (eapply (upsert_log_run log ls'); [reflexivity|try done; lia..]). done.
    + by apply (upsert_NoDup log_pk).
    + rewrite (upsert_filter log_pk (same_log_key log) log Hspec on_chain ls' HN' Hon Hnew), Hf. by rewrite app_assoc.
    + intros l [->|[Hl _]]%(elem_of_upsert log_pk _ _ Hspec) Hc; [right; set_solver|].
      destruct (Hfree' l Hl Hc); [by left|right; set_solver].
Qed.

(** *** Orphaned rows *)

Definition orphan_block (limit : option Z) (b : IndexedBlock) : IndexedBlock :=
  if bool_decide (ib_chainId b = chainId) && ib_canonical b && above limit (ib_number b)
  then MkIndexedBlock (ib_chainId b) (ib_number b) (ib_hash b) (ib_parentHash b) false else b.

Definition orphan_log (limit : option Z) (l : RawLog) : RawLog :=
  if bool_decide (rl_chainId l = chainId) && rl_canonical l && above limit (rl_blockNumber l)
  then MkRawLog (rl_chainId l) (rl_blockNumber l) (rl_blockHash l) (rl_transactionHash l) (rl_transactionIndex l)
         (rl_logIndex l) (rl_contractAddress l) (rl_topics l) (rl_data l) false
  else l.

Lemma orphan_blocks_run limit bs db :
  db_blocks db = block_row <$> bs ->
  orphan_blocks chain limit db = (Ok tt, set_blocks (block_row <$> (orphan_block limit <$> bs)) db).
Proof.
  intros Hbs. unfold orphan_blocks, modify. do 2 f_equal. rewrite Hbs, <-!list_fmap_compose.
  apply list_fmap_ext. intros i b _. unfold orphan_block. cbn. rewrite chain_eq.
  by destruct (_ && _ && _).
Qed.

Lemma orphan_logs_run limit ls db :
  db_raw_logs db = log_row <$> ls ->
  orphan_logs chain limit db = (Ok tt, set_raw_logs (log_row <$> (orphan_log limit <$> ls)) db).
Proof.
  intros Hls. unfold orphan_logs, modify. do 2 f_equal. rewrite Hls, <-!list_fmap_compose.
  apply list_fmap_ext. intros i l _. unfold orphan_log. cbn. rewrite chain_eq.
  by destruct (_ && _ && _).
Qed.

Lemma elem_of_orphan_blocks limit (bs : list IndexedBlock) n h p :
  MkIndexedBlock chainId n h p true ∈ orphan_block limit <$> bs
  <-> MkIndexedBlock chainId n h p true ∈ bs /\ above limit n = false.
Proof.
  rewrite list_elem_of_fmap. split.
  - intros (b & E & Hb). unfold orphan_block in E.
    destruct (bool_decide (ib_chainId b = chainId) && ib_canonical b && above limit (ib_number b)) eqn:Ec; [done|].
    subst b. cbn in Ec. rewrite bool_decide_eq_true_2 in Ec by done. done.
  - intros [Hb Ha]. eexists. split; [|exact Hb]. unfold orphan_block. cbn. by rewrite Ha, andb_false_r.
Qed.

Lemma orphan_log_kept limit l : ~ on_chain l \/ above limit (rl_blockNumber l) = false -> orphan_log limit l = l.
Proof.
  intros H. unfold orphan_log. assert (bool_decide (rl_chainId l = chainId) && rl_canonical l && above limit (rl_blockNumber l) = false) as ->; [|done].
  apply not_true_iff_false. rewrite !andb_true_iff, bool_decide_eq_true. intros [[? ?] ?].
  destruct H as [H|?]; [by apply H|congruence].
Qed.

Lemma orphan_log_hidden limit l : on_chain l -> above limit (rl_blockNumber l) = true -> ~ on_chain (orphan_log limit l).
Proof.
  intros [Hc Hi] Ha [Hc' _]. revert Hc'. unfold orphan_log. rewrite bool_decide_eq_true_2, Hc, Ha by done. done.
Qed.

Lemma filter_orphan_logs limit (ls : list RawLog) :
  filter on_chain (orphan_log limit <$> ls) = filter (fun l => above limit (rl_blockNumber l) = false) (filter on_chain ls).
Proof.
  induction ls as [|l ls IH]; [done|]. cbn [fmap list_fmap]. rewrite !filter_cons.
  destruct (decide (on_chain l)) as [Hl|Hl]; rewrite ?filter_cons.
  - destruct (above limit (rl_blockNumber l)) eqn:Ea.
    + rewrite decide_False, (decide_False (P := true = false)) by (done || apply orphan_log_hidden; auto). done.
    + rewrite (orphan_log_kept limit l) by auto. rewrite !decide_True by done. by rewrite IH.
  - rewrite (orphan_log_kept limit l) by auto. by rewrite decide_False.
Qed.

Lemma orphan_logs_NoDup limit (ls : list RawLog) : NoDup (log_pk <$> ls) -> NoDup (log_pk <$> (orphan_log limit <$> ls)).
Proof.
  intros HN. rewrite <-list_fmap_compose. assert ((log_pk ∘ orphan_log limit) <$> ls = log_pk <$> ls) as ->; [|done].
  apply list_fmap_ext. intros i l _. cbn. unfold orphan_log. by destruct (_ && _ && _).
Qed.

Lemma filter_above limit (logs : list RawLog) :
  filter (fun l => above limit (rl_blockNumber l) = false) logs
  = match limit with Some n => logs_through n logs | None => [] end.
Proof.
  destruct limit as [n|].
  - apply list_filter_iff. intros l. cbn. by rewrite Z.ltb_ge.
  - apply list_filter_none, list.Forall_forall. done.
Qed.

(** ** The writes *)

Ltac run_step H := erewrite bind_run by exact H.

Lemma LoadDerivedState_tables db db' :
  db_positions db = db_positions db' -> db_markets db = db_markets db' -> db_liquidations db = db_liquidations db' ->
  LoadDerivedState chainId contracts db = LoadDerivedState chainId contracts db'.
Proof. unfold LoadDerivedState. by intros -> -> ->. Qed.

Lemma CommitBlock_run budget b logs st db v :
  represents_view (S budget) db v -> ib_chainId b = chainId -> 0 <= ib_number b < 2 ^ 63 ->
  v_blocks v !! ib_number b = None -> (forall k p, v_blocks v !! k <> Some (ib_hash b, p)) ->
  block_logs chainId (ib_number b) (ib_hash b) logs -> Rebuild keccak contracts (v_logs v ++ logs) = Ok st ->
  exists db', CommitBlock b logs st db = (Ok tt, db') /\ represents_view budget db' (committed b logs st v).
Proof.
  intros [Hwf _ _ [Hv0 Hv1] (bs & Hbs & Hvb) (ls & Hls & HN & Hvl) _] Hc Hn Hnone Hhash HB HR.
  pose proof (wf_committed chainId b logs st v Hwf Hn Hnone Hhash HB) as Hwf'.
  pose proof (rebuilt_storable keccak contracts chainId (committed b logs st v) st Hwf' HR) as Hst.
  assert (ms_contracts (ds_market st) = contracts) as Hms by (destruct (Rebuild_projected _ _ _ _ HR) as (_ & _ & _ & _ & ?); done).
  set (nb := MkIndexedBlock chainId (ib_number b) (ib_hash b) (ib_parentHash b) true).
  assert (upsert_block (block_row nb) db
    = (Ok tt, set_blocks (block_row <$> upsert (same_block nb) (fun _ => nb) nb bs) db)) as E1.
  { apply upsert_block_run; [done|done|done|]. intros [c n h p ca] Hb' Ec Eca En. cbn in *. subst.
    apply Hvb in Hb'. congruence. }
  destruct (upsert_logs_run (ib_number b) (ib_hash b) logs ls
    (set_blocks (block_row <$> upsert (same_block nb) (fun _ => nb) nb bs) db)) as (ls' & E2 & HN' & Hf); try done.
  { intros l Hl Hon E. destruct (wv_log _ _ Hwf l) as (_ & p & Hp); [|rewrite E in Hp; by apply Hhash in Hp].
    rewrite Hvl. by apply list_elem_of_filter. }
  set (db2 := set_raw_logs _ _) in E2.
  pose proof (ReplaceDerivedState_run chainId st db2 Hst) as E3.
  assert (version_of chain (replaced chainId st db2) = version_of chain db) as Ever by reflexivity.
  destruct (AdvanceCanonicalVersion_run (replaced chainId st db2)) as (vrows & E4 & Hver); [lia|lia|].
  destruct (LoadCursor_upsert (set_chain_versions vrows (replaced chainId st db2)) (ib_number b) (ib_hash b) Hn)
    as (srows & E5 & Hcur).
  edestruct (InsertOutboxEvent_run (block_event_id chain (ib_hash b)) "chain.block.processed" ("chain:" ++ chain) chain
    (ib_number b) (ib_hash b) (version_of chain (replaced chainId st db2) + 1)
    (JObject [("parentHash", JString (hash_text (ib_parentHash b)))])
    (set_sync_state srows (set_chain_versions vrows (replaced chainId st db2)))) as (orows & E6);
    [done|lia|].
  eexists. split.
  { unfold CommitBlock. rewrite Hc. apply transaction_Ok.
    change (MkBlockRow chain (ib_number b) (hash_text (ib_hash b)) (hash_text (ib_parentHash b)) true) with (block_row nb).
    run_step E1. run_step E2. run_step E3. run_step E4. run_step E5. exact E6. }
  split; cbn [committed v_blocks v_logs v_state v_cursor].
  - exact Hwf'.
  - pose proof (LoadDerivedState_replaced chainId st db2 Hst) as EL. rewrite Hms in EL. rewrite <-EL.
    by apply LoadDerivedState_tables.
  - by apply Hcur.
  - rewrite Hver by done. lia.
  - eexists. split; [reflexivity|]. intros n h p.
    rewrite (elem_of_upsert (fun b => (ib_chainId b, ib_hash b))).
    2: { intros x. unfold same_block. rewrite andb_true_iff, !bool_decide_eq_true. cbn. split; [by intros [-> ->]|by intros [= -> ->]]. }
    rewrite lookup_insert_Some, <-Hvb. unfold nb. split.
    + intros [[-> [= -> ->]]|[Hne Hl]]; [by left|right]. split; [done|].
      unfold same_block. cbn. rewrite bool_decide_eq_true_2 by done. apply bool_decide_eq_false. intros ->.
      by apply Hhash in Hl.
    + intros [[= -> -> ->]|[Hl Hs]]; [by left|right]. split; [|done]. intros <-. congruence.
  - exists ls'. split; [reflexivity|]. split; [done|]. by rewrite Hvl, Hf.
  - intros _. split; [by eapply (replaced_rows chainId st db2)|]. rewrite Hver by done. lia.
Qed.

Definition rewind_limit (a : option IndexedBlock) : option Z := ib_number <$> a.

(** The rows below the ancestor, after [AdvanceCanonicalVersion] and the two [UPDATE]s. *)
Lemma orphan_run a bs ls db :
  db_blocks db = block_row <$> bs -> db_raw_logs db = log_row <$> ls ->
  from_option (fun a => 0 <= ib_number a < 2 ^ 63) True a ->
  (match a with
   | Some a =>
       lift (bigint_parameter (ib_number a));;
       orphan_blocks chain (Some (ib_number a));;
       orphan_logs chain (Some (ib_number a))
   | None => orphan_blocks chain None;; orphan_logs chain None
   end) db
  = (Ok tt, set_raw_logs (log_row <$> (orphan_log (rewind_limit a) <$> ls))
              (set_blocks (block_row <$> (orphan_block (rewind_limit a) <$> bs)) db)).
Proof.
  intros Hbs Hls Ha. pose proof (orphan_blocks_run (rewind_limit a) bs db Hbs) as E.
  destruct a as [a|]; cbn [rewind_limit fmap option_fmap option_map] in *.
  - unfold bigint_parameter. rewrite (proj2 (sql_bigint_true _) Ha).
    erewrite bind_run by reflexivity. run_step E. by apply orphan_logs_run.
  - run_step E. by apply orphan_logs_run.
Qed.

Lemma set_cursor_run a db :
  from_option (fun a => 0 <= ib_number a < 2 ^ 63) True a ->
  exists rows, (match a with
     | Some a => upsert_cursor chain (ib_number a) (ib_hash a)
     | None => modify (fun db => set_sync_state (filter (fun row => sr_chain_id row <> chain) (db_sync_state db)) db)
     end) db = (Ok tt, set_sync_state rows db)
    /\ forall db', db_sync_state db' = rows ->
         LoadCursor chainId db' = Ok ((fun a => MkSyncCursor chainId (ib_number a) (ib_hash a)) <$> a).
Proof.
  intros Ha. destruct a as [a|]; [by apply LoadCursor_upsert|].
  eexists. split; [reflexivity|]. intros db' E. unfold LoadCursor. rewrite E, list_filter_none; [done|].
  apply list.Forall_forall. by intros row [? _]%list_elem_of_filter.
Qed.

Lemma RewindTo_run budget a st db v :
  represents_view (S budget) db v ->
  match a with
  | Some a => ib_chainId a = chainId /\ 0 <= ib_number a < 2 ^ 63
              /\ v_blocks v !! ib_number a = Some (ib_hash a, ib_parentHash a)
              /\ Rebuild keccak contracts (logs_through (ib_number a) (v_logs v)) = Ok st
  | None => st = CreateInitialState contracts
  end ->
  exists db', RewindTo chainId a st db = (Ok tt, db') /\ represents_view budget db' (rewound a st v).
Proof.
  intros [Hwf _ _ [Hv0 Hv1] (bs & Hbs & Hvb) (ls & Hls & HN & Hvl) _] Ha.
  assert (from_option (fun a => 0 <= ib_number a < 2 ^ 63) True a) as Hr by (destruct a; [apply Ha|done]).
  assert (wf_view chainId (rewound a st v)) as Hwf'.
  { apply wf_rewound; [done|]. destruct a; cbn in *; [lia|done]. }
  assert (Rebuild keccak contracts (v_logs (rewound a st v)) = Ok st) as HR by (destruct a; [apply Ha|by subst]).
  pose proof (rebuilt_storable _ _ _ _ _ Hwf' HR) as Hst.
  assert (ms_contracts (ds_market st) = contracts) as Hms by (destruct (Rebuild_projected _ _ _ _ HR) as (_ & _ & _ & _ & ?); done).
  destruct (AdvanceCanonicalVersion_run db Hv0) as (vrows & E1 & Hver); [lia|].
  pose proof (orphan_run a bs ls (set_chain_versions vrows db) Hbs Hls Hr) as E2.
  set (db2 := set_raw_logs _ _) in E2. pose proof (ReplaceDerivedState_run chainId st db2 Hst) as E3.
  destruct (set_cursor_run a (replaced chainId st db2) Hr) as (srows & E4 & Hcur).
  edestruct (InsertOutboxEvent_run (reorg_event_id chain (version_of chain db + 1)) "chain.reorg" ("chain:" ++ chain) chain
    (match a with Some a => ib_number a | None => 0 end) (match a with Some a => ib_hash a | None => zero_hash end)
    (version_of chain db + 1)
    (JObject [("ancestorBlockHash", JArray [match a with Some a => JString (hash_text (ib_hash a)) | None => JNull end]);
              ("ancestorBlockNumber", JNumber (match a with Some a => ib_number a | None => 0 end))])
    (set_sync_state srows (replaced chainId st db2))) as (orows & E5); [destruct a; cbn in Hr; lia|lia|].
  eexists. split.
  { unfold RewindTo. apply transaction_Ok. run_step E1. run_step E2. run_step E3. run_step E4. exact E5. }
  split.
  - exact Hwf'.
  - pose proof (LoadDerivedState_replaced chainId st db2 Hst) as EL. rewrite Hms in EL.
    replace (v_state (rewound a st v)) with st by by destruct a. rewrite <-EL. by apply LoadDerivedState_tables.
  - rewrite Hcur by done. by destruct a.
  - rewrite Hver by done. lia.
  - eexists. split; [reflexivity|]. intros n h p. rewrite elem_of_orphan_blocks, <-Hvb.
    destruct a as [a|]; cbn [rewound v_blocks rewind_limit fmap option_fmap option_map above].
    + rewrite map_lookup_filter_Some. cbn. rewrite Z.ltb_ge. done.
    + rewrite lookup_empty. split; [done|by intros [_ ?]].
  - exists (orphan_log (rewind_limit a) <$> ls). split; [reflexivity|]. split; [by apply orphan_logs_NoDup|].
    rewrite filter_orphan_logs, filter_above.
    destruct a as [a|]; cbn [rewound v_logs rewind_limit fmap option_fmap option_map]; [|done].
    unfold logs_through. by rewrite Hvl.
  - intros _. replace (v_state (rewound a st v)) with st by by destruct a.
    split; [by eapply (replaced_rows chainId st db2)|]. rewrite Hver by done. lia.
Qed.

Lemma represents_weaken budget db v : represents_view (S budget) db v -> represents_view budget db v.
Proof. intros [? ? ? ? ? ? ?]. split; try done. lia. Qed.

#[global] Instance postgres_lawful : LawfulIndexerStore IxDb keccak contracts chainId := {
  represents := represents_view;
  law_weaken := represents_weaken;
  law_cursor budget db v H := rv_cursor _ _ _ H;
  law_block := LoadCanonicalBlock_run;
  law_logs := LoadCanonicalLogsThrough_run;
  law_state budget db v H := rv_state _ _ _ H;
  law_commit := CommitBlock_run;
  law_rewind := RewindTo_run
}.

(** The tables a new database starts with. *)
Definition empty_db : IxDb := MkIxDb [] [] [] [] [] [] [] [] [] 0.

Lemma empty_represents budget : Z.of_nat budget < 2 ^ 63 ->
  represents_view budget empty_db (MkStoreView ∅ [] (CreateInitialState contracts) None).
Proof.
  intros Hb. split; cbn; try done.
  - split; cbn; try done.
    + by intros l ?%not_elem_of_nil.
    + split; [constructor|]. by intros x y ?%not_elem_of_nil.
  - exists []. split; [done|]. intros n h p. rewrite lookup_empty. split; [done|by intros ?%not_elem_of_nil].
  - exists []. split; [done|]. split; [constructor|done].
Qed.
End Tables.
