(* ===== verification/Outbox.v ===== *)
(** * Outbox: publication of the events of the database ([Outbox.hpp], [Outbox.cpp])

    The publisher sees its store through the interface [OutboxStore].  What the interface
    promises is a queue of events, some of which cannot be read: loading returns its front,
    marking the front published removes it, and a call that fails leaves one or the other.
    The statements over [outbox_events] implement it, and so do they when any connection may
    fail; [RunOnce] is proved against it: an event leaves the queue only after the publisher
    has accepted it. *)

From S2P Require Import Prelude Effects Text Json Sql Uint256 Hex PostgresStore Event.
Set Default Goal Selector "!".
#[local] Open Scope Z_scope.

Class EventPublisher (N : Type) := {
  publisher_Publish : EventEnvelope -> N -> result unit * N
}.

Class OutboxStore (S : Type) := {
  outbox_LoadUnpublished : Z -> prog S (list EventEnvelope);
  outbox_MarkPublished : string -> prog S unit
}.

(** ** [PostgresOutboxStore] *)

Definition OutboxParseHash (value : string) : result Hash256 :=
  parse_hash "outbox hash must contain 32 bytes" value.

(** [EXTRACT(EPOCH FROM t)::BIGINT] of a time in microseconds: rounded, halves away from zero. *)
Definition epoch_seconds (t : Z) : Z :=
  if 0 <=? t then (t + 500000) / 1000000 else - ((- t + 500000) / 1000000).

Definition ParseEvent (row : EventRow) : result EventEnvelope :=
  chainId ← FromDecimal (er_chain_id row);
  blockNumber ← uint64_column (er_block_number row);
  blockHash ← OutboxParseHash (er_block_hash row);
  canonicalVersion ← uint64_column (er_canonical_version row);
  createdAt ← uint64_column (epoch_seconds (er_created_at row));
  transactionHash ← match er_transaction_hash row with
                    | Some text => Some <$> OutboxParseHash text
                    | None => Ok None
                    end;
  logIndex ← match er_log_index row with
             | Some i => Some <$> uint64_column i
             | None => Ok None
             end;
  Ok (MkEventEnvelope (er_event_id row) (er_event_type row) (er_aggregate_id row) chainId blockNumber
        blockHash transactionHash logIndex canonicalVersion createdAt (er_payload row)).

Definition set_published_at (v : option Z) (row : EventRow) : EventRow :=
  MkEventRow (er_event_id row) (er_event_type row) (er_aggregate_id row) (er_chain_id row)
    (er_block_number row) (er_block_hash row) (er_transaction_hash row) (er_log_index row)
    (er_canonical_version row) (er_payload row) (er_created_at row) v.

Section Postgres.
Context `{TextOrder}.

(** [ORDER BY created_at, event_id] *)
Definition event_key (row : EventRow) : Z * string := (er_created_at row, er_event_id row).
Definition event_before (r1 r2 : EventRow) : bool := time_text_before (event_key r1) (event_key r2).

(** [WHERE published_at IS NULL] *)
Definition unpublished (rows : list EventRow) : list EventRow := filter (fun row => er_published_at row = None) rows.

Definition LoadUnpublished (limit : Z) (db : IxDb) : result (list EventEnvelope) :=
  _ ← bigint_parameter limit;
  map_result ParseEvent (take (Z.to_nat limit) (std_sort event_before (unpublished (db_outbox_events db)))).

Definition CountUnpublished (db : IxDb) : Z := Z.of_nat (length (unpublished (db_outbox_events db))).

Definition MarkPublished (eventId : string) : prog IxDb unit := modify (fun db => set_outbox_events
  ((fun row => if bool_decide (er_event_id row = eventId) then set_published_at (Some (db_now db)) row else row)
     <$> db_outbox_events db) db).

#[global] Instance postgres_outbox : OutboxStore IxDb := {
  outbox_LoadUnpublished limit db := (LoadUnpublished limit db, db);
  outbox_MarkPublished := MarkPublished
}.
End Postgres.

(** A store whose connections fail. *)
#[global] Instance unreliable_outbox {S} `{OutboxStore S} : OutboxStore (Unreliable S) := {
  outbox_LoadUnpublished limit := connected (outbox_LoadUnpublished limit);
  outbox_MarkPublished eventId := connected (outbox_MarkPublished eventId)
}.

(** ** [OutboxPublisher] *)

(** The store, the outside world, and the calls of [Publish] with whether they returned. *)
Record OutboxState (S N : Type) := MkOutboxState {
  ob_store : S;
  ob_net : N;
  ob_trace : list (EventEnvelope * bool)
}.
Arguments MkOutboxState {S N} _ _ _.
Arguments ob_store {S N} _.
Arguments ob_net {S N} _.
Arguments ob_trace {S N} _.

Section Publisher.
Context {S N : Type} `{OutboxStore S} `{EventPublisher N}.
Abbreviation M := (prog (OutboxState S N)).

Definition Publish (event : EventEnvelope) : M unit := fun st =>
  let '(r, n') := publisher_Publish event (ob_net st) in
  (r, MkOutboxState (ob_store st) n' (ob_trace st ++ [(event, is_ok r)])).
Definition mark (eventId : string) : M unit := fun st =>
  let '(r, s') := outbox_MarkPublished eventId (ob_store st) in
  (r, MkOutboxState s' (ob_net st) (ob_trace st)).
Definition load (limit : Z) : M (list EventEnvelope) := fun st =>
  let '(r, s') := outbox_LoadUnpublished limit (ob_store st) in
  (r, MkOutboxState s' (ob_net st) (ob_trace st)).

Definition RunOnce (limit : Z) : M Z :=
  events ← load limit;
  for_each (fun event => Publish event;; mark (ee_eventId event)) events;;
  mret (Z.of_nat (length events)).

(** [passes] iterations of the loop of [main], which goes on after an exception. *)
Fixpoint publish_loop (limit : Z) (passes : nat) : M unit :=
  match passes with
  | O => mret tt
  | Datatypes.S passes => catch_all (RunOnce limit;; mret tt) (fun _ => mret tt);; publish_loop limit passes
  end.
End Publisher.

(** ** The contract of a store

    [queue s l]: the store holds the unpublished events [l], the next one first, each with what
    reading it gives.  A call that throws has marked the event or not. *)
Class LawfulOutboxStore (S : Type) `{OutboxStore S} := {
  queue : S -> list (result EventEnvelope) -> Prop;
  law_load limit s l : queue s l -> 0 <= limit ->
    wp (outbox_LoadUnpublished limit)
      (fun events s' => map_result id (take (Z.to_nat limit) l) = Ok events /\ queue s' l) (fun _ s' => queue s' l) s;
  law_mark event s l : queue s (Ok event :: l) ->
    wp (outbox_MarkPublished (ee_eventId event)) (fun _ s' => queue s' l)
      (fun _ s' => queue s' (Ok event :: l) \/ queue s' l) s
}.

(** Connections that fail keep the contract. *)
#[global] Instance unreliable_outbox_lawful {S} `{LawfulOutboxStore S} : LawfulOutboxStore (Unreliable S).
Proof.
  refine {| queue w := queue (un_db w) |}.
  - intros limit w l Hq Hl. apply (wp_connected (outbox_LoadUnpublished limit)
      (fun events s' => map_result id (take (Z.to_nat limit) l) = Ok events /\ queue s' l) (fun s' => queue s' l)); [by apply law_load|done|].
    by intros ? ? [].
  - intros event w l Hq. apply (wp_connected (outbox_MarkPublished (ee_eventId event)) (fun _ s' => queue s' l)
      (fun s' => queue s' (Ok event :: l) \/ queue s' l)); [by apply law_mark|by left|by right].
Defined.

Section Delivery.
Context {S N : Type} `{LawfulOutboxStore S} `{EventPublisher N}.
Implicit Types st : OutboxState S N.

(** From a queue that starts with [events], [k] of them have been published and removed, in order;
    [extra] are the calls of [Publish] for an event that is still in the queue. *)
Definition progress (events : list EventEnvelope) (rest : list (result EventEnvelope)) (trace : list (EventEnvelope * bool))
    (k : nat) (extra : list (EventEnvelope * bool)) st : Prop :=
  (k <= length events)%nat /\ queue (ob_store st) ((Ok <$> drop k events) ++ rest)
  /\ ob_trace st = trace ++ ((fun event => (event, true)) <$> take k events) ++ extra.

(** What [RunOnce] leaves when it throws: the event at the front may have been offered, and even
    accepted, once more than it was marked. *)
Definition interrupted (events : list EventEnvelope) (rest : list (result EventEnvelope)) (trace : list (EventEnvelope * bool))
    st : Prop :=
  exists k, progress events rest trace k [] st
    \/ exists event accepted, events !! k = Some event /\ progress events rest trace k [(event, accepted)] st.

Lemma progress_next events rest trace k event s n tr : events !! k = Some event -> queue s ((Ok <$> drop (Datatypes.S k) events) ++ rest) ->
  tr = trace ++ ((fun event => (event, true)) <$> take k events) ++ [(event, true)] ->
  progress events rest trace (Datatypes.S k) [] (MkOutboxState s n tr).
Proof using.
  intros Ek Hq ->. pose proof (lookup_lt_Some _ _ _ Ek). split; [lia|]. split; [done|]. cbn.
  by rewrite (take_S_r _ _ _ Ek), fmap_app, app_nil_r.
Qed.

(** The rest of the loaded events; [fails] says when a call may. *)
Lemma deliver_events (fails : Prop) events rest trace k st :
  (forall event n, wp (publisher_Publish event) (fun _ _ => True) (fun _ _ => fails) n) ->
  (forall event s l, queue s (Ok event :: l) -> wp (outbox_MarkPublished (ee_eventId event)) (fun _ _ => True) (fun _ _ => fails) s) ->
  progress events rest trace k [] st ->
  wp (for_each (fun event => Publish event;; mark (ee_eventId event)) (drop k events))
    (fun _ => progress events rest trace (length events) []) (fun _ st' => fails /\ interrupted events rest trace st') st.
Proof using.
  intros Hpublish Hmark. remember (length events - k)%nat as n eqn:Hn. revert k st Hn.
  induction n as [|n IH]; intros k st Hn HP; pose proof HP as (Hk & Hq & Ht).
  { replace k with (length events) in * by lia. rewrite drop_all. by apply wp_ret. }
  destruct (lookup_lt_is_Some_2 events k) as [event Ek]; [lia|]. rewrite (drop_S _ _ _ Ek) in Hq |- *. cbn [for_each].
  rewrite app_nil_r in Ht. apply wp_bind, wp_bind. unfold wp at 1, Publish. pose proof (Hpublish event (ob_net st)) as Hf. unfold wp in Hf.
  destruct (publisher_Publish event (ob_net st)) as [[[]|e] n'] eqn:EP; cbn [is_ok].
  2:{ split; [done|]. exists k. right. exists event, false. split; [done|]. split; [done|]. cbn [ob_store ob_trace].
      rewrite (drop_S _ _ _ Ek). split; [done|]. by rewrite Ht, <-app_assoc. }
  unfold wp at 1, mark. cbn [ob_store ob_net ob_trace].
  pose proof (law_mark _ _ _ Hq) as Hm. pose proof (Hmark _ _ _ Hq) as Hf'. unfold wp in Hm, Hf'.
  destruct (outbox_MarkPublished (ee_eventId event) (ob_store st)) as [[[]|e] s'] eqn:EM.
  - apply IH; [lia|]. eapply progress_next; [done|done|]. by rewrite Ht, <-app_assoc.
  - split; [done|]. destruct Hm as [Hm|Hm].
    + exists k. right. exists event, true. split; [done|]. split; [done|]. cbn [ob_store ob_trace].
      rewrite (drop_S _ _ _ Ek). split; [done|]. by rewrite Ht, <-app_assoc.
    + exists (Datatypes.S k). left. eapply progress_next; [done|done|]. by rewrite Ht, <-app_assoc.
Qed.

Lemma map_result_fmap_Ok (l : list EventEnvelope) : map_result id (Ok <$> l) = Ok l.
Proof using. induction l as [|x l IH]; [done|]. rewrite fmap_cons. cbn [map_result id]. by rewrite bind_Ok, IH. Qed.

Lemma loaded_events (l : list (result EventEnvelope)) n events :
  map_result id (take n l) = Ok events -> l = (Ok <$> events) ++ drop n l.
Proof using.
  intros HF%map_result_Forall2. rewrite <-(take_drop n l) at 1. f_equal. induction HF as [|x y l1 l2 E _ ->]; [done|]. unfold id in E. by subst x.
Qed.

Lemma RunOnce_wp (fails : Prop) l limit st :
  queue (ob_store st) l -> 0 <= limit ->
  (forall event n, wp (publisher_Publish event) (fun _ _ => True) (fun _ _ => fails) n) ->
  (forall event s l, queue s (Ok event :: l) -> wp (outbox_MarkPublished (ee_eventId event)) (fun _ _ => True) (fun _ _ => fails) s) ->
  wp (outbox_LoadUnpublished limit) (fun _ _ => True) (fun _ _ => fails) (ob_store st) ->
  wp (RunOnce limit)
    (fun n st' => exists events, map_result id (take (Z.to_nat limit) l) = Ok events /\ n = Z.of_nat (length events)
       /\ progress events (drop (Z.to_nat limit) l) (ob_trace st) (length events) [] st')
    (fun _ st' => fails /\ exists events rest, l = (Ok <$> events) ++ rest /\ interrupted events rest (ob_trace st) st') st.
Proof using.
  intros Hq Hlim Hpublish Hmark Hload. unfold RunOnce. apply wp_bind. unfold wp at 1, load.
  pose proof (law_load limit _ _ Hq Hlim) as HL. unfold wp in HL, Hload.
  destruct (outbox_LoadUnpublished limit (ob_store st)) as [[events|e] s'].
  - destruct HL as [El Hq']. pose proof (loaded_events _ _ _ El) as Esplit.
    apply wp_bind. apply (wp_mono _ (fun _ => progress events (drop (Z.to_nat limit) l) (ob_trace st) (length events) []) _
      (fun _ st' => fails /\ interrupted events (drop (Z.to_nat limit) l) (ob_trace st) st')); [| |intros e st' [? ?]; split; [done|]; by eexists _, _].
    + rewrite <-(drop_0 events) at 1. apply (deliver_events fails events (drop (Z.to_nat limit) l) (ob_trace st) 0); [done|done|].
      split; [lia|]. cbn [ob_store ob_trace]. rewrite drop_0, <-Esplit. cbn. by rewrite app_nil_r.
    + intros [] st' HP. apply wp_ret. by exists events.
  - split; [done|]. exists [], l. split; [done|]. exists 0%nat. left. split; [done|]. split; [done|]. cbn. by rewrite app_nil_r.
Qed.

(** After any number of passes: the queue [l] has lost a front [sent], whose events have been
    accepted in order, and nothing else than these and the next event has been offered. *)
Definition delivered (l : list (result EventEnvelope)) (trace : list (EventEnvelope * bool)) (rest : list (result EventEnvelope))
    st : Prop :=
  exists sent offers, l = (Ok <$> sent) ++ rest /\ queue (ob_store st) rest
    /\ ob_trace st = trace ++ offers
    /\ ((fun event => (event, true)) <$> sent) `sublist_of` offers
    /\ forall event accepted, (event, accepted) ∈ offers -> event ∈ sent \/ head rest = Some (Ok event).

Lemma progress_delivered events rest trace k extra st :
  progress events rest trace k extra st ->
  (forall event accepted, (event, accepted) ∈ extra -> events !! k = Some event) ->
  delivered ((Ok <$> events) ++ rest) trace ((Ok <$> drop k events) ++ rest) st.
Proof using.
  intros (Hk & Hq & Ht) Hx.
  exists (take k events), (((fun event => (event, true)) <$> take k events) ++ extra).
  split; [by rewrite app_assoc, <-fmap_app, take_drop|]. repeat split; [done..|by apply sublist_inserts_r|].
  intros event accepted [(e & [= -> ->] & He)%list_elem_of_fmap|He]%elem_of_app; [by left|right].
  specialize (Hx _ _ He). by rewrite (drop_S _ _ _ Hx).
Qed.

Lemma delivered_trans l trace rest st rest' st' :
  delivered l trace rest st -> delivered rest (ob_trace st) rest' st' -> delivered l trace rest' st'.
Proof using.
  intros (sent1 & offers1 & El & Hq1 & Ht1 & Hs1 & Ho1) (sent2 & offers2 & Er & Hq2 & Ht2 & Hs2 & Ho2).
  exists (sent1 ++ sent2), (offers1 ++ offers2). split; [by rewrite El, Er, fmap_app, app_assoc|]. split; [done|].
  split; [by rewrite Ht2, Ht1, app_assoc|]. split; [rewrite fmap_app; by apply sublist_app|].
  intros event accepted [He|He]%elem_of_app; rewrite elem_of_app; [|destruct (Ho2 _ _ He); auto].
  destruct (Ho1 _ _ He) as [|Hh]; [by left; left|]. rewrite Er in Hh.
  destruct sent2 as [|e sent2]; [by right|]. injection Hh as ->. left. right. apply list_elem_of_here.
Qed.

Lemma RunOnce_delivered l limit st :
  queue (ob_store st) l -> 0 <= limit ->
  wp (catch_all (RunOnce limit;; mret tt) (fun _ => mret tt))
    (fun _ st' => exists rest, delivered l (ob_trace st) rest st') (fun _ _ => False) st.
Proof using.
  intros Hq Hl. apply wp_catch_all, wp_bind.
  eapply wp_mono; [apply (RunOnce_wp True l); [done|done|by intros; apply wp_any..]| |].
  - intros n st' (events & El & _ & HP). apply wp_ret.
    pose proof (progress_delivered _ _ _ _ _ _ HP ltac:(by intros ? ? ?%not_elem_of_nil)) as HD.
    rewrite <-(loaded_events _ _ _ El) in HD. by eexists.
  - intros e st' (_ & events & rest & -> & k & [HP|(event & accepted & Ek & HP)]); apply wp_ret; eexists;
      apply (progress_delivered _ _ _ _ _ _ HP); [by intros ? ? ?%not_elem_of_nil|].
    intros e' a' [= -> ->]%list_elem_of_singleton. done.
Qed.

Lemma publish_loop_delivered l limit passes st :
  queue (ob_store st) l -> 0 <= limit ->
  wp (publish_loop limit passes) (fun _ st' => exists rest, delivered l (ob_trace st) rest st')
    (fun _ _ => False) st.
Proof using.
  intros Hq Hl. revert l st Hq. induction passes as [|n IH]; intros l st Hq; cbn [publish_loop].
  { apply wp_ret. exists l, [], []. split; [done|]. split; [done|]. split; [by rewrite app_nil_r|]. split; [done|].
    by intros ? ? ?%not_elem_of_nil. }
  apply wp_bind. eapply wp_mono; [by apply RunOnce_delivered| |done]. intros [] st1 [rest1 HD].
  pose proof HD as (_ & _ & _ & Hq1 & _). eapply wp_mono; [by apply (IH rest1)| |done].
  intros [] st2 [rest2 HD2]. exists rest2. by apply (delivered_trans _ _ _ _ _ _ HD).
Qed.
End Delivery.

(** A store whose statements do not fail, up to a limit, if the events can be read. *)
Class ReliableOutboxStore (S : Type) `{LawfulOutboxStore S} (bound : Z) := {
  reliable_load limit s l : queue s (Ok <$> l) -> 0 <= limit < bound ->
    wp (outbox_LoadUnpublished limit) (fun _ _ => True) (fun _ _ => False) s;
  reliable_mark event s l : queue s (Ok event :: l) ->
    wp (outbox_MarkPublished (ee_eventId event)) (fun _ _ => True) (fun _ _ => False) s
}.

Section Liveness.
Context {S N : Type} (bound : Z) `{ReliableOutboxStore S bound} `{EventPublisher N}.
Context (Haccepts : forall event n, exists n', publisher_Publish event n = (Ok tt, n')).
Implicit Types st : OutboxState S N.

(** The events published are the first ones of the queue, one call each. *)
Lemma RunOnce_all l limit st :
  queue (ob_store st) (Ok <$> l) -> 0 <= limit < bound ->
  exists n st', RunOnce limit st = (Ok n, st') /\ queue (ob_store st') (Ok <$> drop (Z.to_nat limit) l)
    /\ ob_trace st' = ob_trace st ++ ((fun event => (event, true)) <$> take (Z.to_nat limit) l).
Proof using bound H1 Haccepts.
  intros Hq Hl. assert (forall event n, wp (publisher_Publish event) (fun _ _ => True) (fun _ _ => False) n) as Hpublish.
  { intros event n. unfold wp. by destruct (Haccepts event n) as [n' ->]. }
  pose proof (RunOnce_wp False (Ok <$> l) limit st Hq ltac:(lia) Hpublish (fun event s l => reliable_mark event s l)
    (reliable_load limit _ l Hq Hl)) as Hwp. unfold wp in Hwp.
  destruct (RunOnce limit st) as [[n|e] st']; [|by destruct Hwp].
  exists n, st'. split; [done|]. destruct Hwp as (events & El & _ & _ & Hq' & Ht).
  rewrite <-fmap_take, map_result_fmap_Ok in El. injection El as <-.
  rewrite drop_all, fmap_nil in Hq'. rewrite firstn_all, app_nil_r in Ht. rewrite fmap_drop. done.
Qed.

Lemma publish_loop_all l limit passes st :
  queue (ob_store st) (Ok <$> l) -> 0 <= limit < bound -> (length l <= Z.to_nat limit * passes)%nat ->
  exists st', publish_loop limit passes st = (Ok tt, st') /\ queue (ob_store st') []
    /\ ob_trace st' = ob_trace st ++ ((fun event => (event, true)) <$> l).
Proof using bound H1 Haccepts.
  intros Hq Hl. revert l st Hq. induction passes as [|n IH]; intros l st Hq Hn.
  { destruct l; cbn in Hn; [|lia]. exists st. by rewrite app_nil_r. }
  destruct (RunOnce_all l limit st Hq Hl) as (m & st1 & E1 & Hq1 & Ht1).
  destruct (IH (drop (Z.to_nat limit) l) st1 Hq1) as (st2 & E2 & Hq2 & Ht2); [rewrite length_drop; lia|].
  exists st2. split; [|split; [done|]].
  - cbn [publish_loop]. erewrite bind_run; [exact E2|]. unfold catch_all.
    by rewrite (bind_run _ _ _ _ _ E1).
  - by rewrite Ht2, Ht1, <-app_assoc, <-fmap_app, take_drop.
Qed.
End Liveness.

(** ** The table implements the queue *)

Section Refinement.
Context `{LawfulTextOrder}.

(** The pending rows, in the order of publication, with what reading them gives; the ids are the
    primary key. *)
Definition pending (db : IxDb) (l : list (result EventEnvelope)) : Prop :=
  NoDup (er_event_id <$> db_outbox_events db)
  /\ ParseEvent <$> std_sort event_before (unpublished (db_outbox_events db)) = l.

(** Each of them can be read. *)
Definition outbox_queue (db : IxDb) (l : list EventEnvelope) : Prop :=
  NoDup (er_event_id <$> db_outbox_events db)
  /\ map_result ParseEvent (std_sort event_before (unpublished (db_outbox_events db))) = Ok l.

Lemma map_result_readable {A B} (f : A -> result B) l r : map_result f l = Ok r <-> f <$> l = Ok <$> r.
Proof.
  rewrite map_result_Forall2. split.
  - induction 1 as [|x y l1 l2 E _ IH]; [done|]. by rewrite !fmap_cons, E, IH.
  - revert r. induction l as [|x l IH]; intros [|y r] E; [constructor|discriminate E|discriminate E|].
    injection E as E1 E2. constructor; [done|by apply IH].
Qed.

Lemma outbox_queue_pending db l : outbox_queue db l <-> pending db (Ok <$> l).
Proof. unfold outbox_queue, pending. by rewrite map_result_readable. Qed.

Lemma outbox_load limit db l :
  pending db l -> 0 <= limit -> limit < 2 ^ 63 -> LoadUnpublished limit db = map_result id (take (Z.to_nat limit) l).
Proof.
  intros [_ <-] Hz Hb. unfold LoadUnpublished, bigint_parameter.
  rewrite (proj2 (sql_bigint_true limit) (conj Hz Hb)), bind_Ok, <-fmap_take.
  induction (take _ _) as [|row rows IH]; [done|]. cbn [map_result fmap list_fmap]. by rewrite IH.
Qed.

Lemma ParseEvent_id row event : ParseEvent row = Ok event -> ee_eventId event = er_event_id row.
Proof. unfold ParseEvent. intros HP. invert_bind. done. Qed.

(** What [MarkPublished] does to a row. *)
Definition mark_row (eventId : string) (now : Z) (row : EventRow) : EventRow :=
  if bool_decide (er_event_id row = eventId) then set_published_at (Some now) row else row.

Lemma mark_row_id eventId now row : er_event_id (mark_row eventId now row) = er_event_id row.
Proof. unfold mark_row. by case_bool_decide. Qed.

Lemma unpublished_mark_rows eventId now rows :
  unpublished (mark_row eventId now <$> rows)
  = filter (fun row => er_event_id row <> eventId) (unpublished rows).
Proof.
  unfold unpublished. induction rows as [|row rows IH]; [done|]. rewrite fmap_cons, !filter_cons, IH.
  assert (er_published_at (mark_row eventId now row) = None
          <-> er_published_at row = None /\ er_event_id row <> eventId) as E.
  { unfold mark_row. case_bool_decide as E; [|by intuition]. split; [done|]. by intros [_ []]. }
  destruct (decide (er_published_at row = None)) as [Hp|Hp].
  - rewrite filter_cons. destruct (decide (er_event_id row <> eventId)) as [Hi|Hi].
    + rewrite decide_True by tauto. unfold mark_row. by rewrite bool_decide_eq_false_2.
    + by rewrite decide_False by tauto.
  - by rewrite decide_False by tauto.
Qed.

(** The pending rows once the first of them is marked. *)
Lemma unpublished_mark now rows row rest :
  NoDup (er_event_id <$> rows) -> unpublished rows ≡ₚ row :: rest ->
  unpublished (mark_row (er_event_id row) now <$> rows) ≡ₚ rest.
Proof.
  intros Hnd Hp. rewrite unpublished_mark_rows, Hp, filter_cons, decide_False by tauto.
  rewrite list_filter_all; [done|].
  assert (NoDup (er_event_id <$> row :: rest)) as [Hn _]%NoDup_cons.
  { rewrite <-Hp. unfold unpublished. eapply sublist_NoDup; [exact Hnd|].
    apply fmap_sublist, sublist_filter. }
  apply list.Forall_forall. intros r Hr E. apply Hn. rewrite <-E. by apply list_elem_of_fmap_2.
Qed.

Lemma elem_of_unpublished row rows : row ∈ unpublished rows -> row ∈ rows.
Proof. unfold unpublished. by intros [_ ?]%list_elem_of_filter. Qed.

Lemma event_before_strict_weak : strict_weak event_before.
Proof. apply (time_text_strict_weak event_key). Qed.

Lemma outbox_mark event db l :
  pending db (Ok event :: l) ->
  exists db', MarkPublished (ee_eventId event) db = (Ok tt, db') /\ pending db' l.
Proof.
  intros [Hnd Hl]. eexists. split; [reflexivity|].
  destruct (std_sort event_before (unpublished (db_outbox_events db))) as [|row rest] eqn:Es; [done|].
  injection Hl as Hrow Hrest. pose proof (ParseEvent_id _ _ Hrow) as ->.
  pose proof (std_sort_perm event_before (unpublished (db_outbox_events db))) as Hp. rewrite Es in Hp.
  split; cbn [db_outbox_events set_outbox_events].
  - fold (mark_row (er_event_id row) (db_now db)). rewrite <-list_fmap_compose.
    erewrite list_fmap_ext; [exact Hnd|]. intros i r _. apply mark_row_id.
  - fold (mark_row (er_event_id row) (db_now db)). replace (std_sort _ _) with rest; [done|].
    apply (sorted_perm_unique event_before).
    + intros x y Hx Hy Hxy Hyx. pose proof (time_text_equal event_key x y Hxy Hyx) as [= _ E].
      eapply (NoDup_fmap_eq er_event_id); [exact Hnd| | |exact E];
        eapply elem_of_unpublished; rewrite <-Hp; by apply list_elem_of_further.
    + pose proof (std_sort_sorted event_before (unpublished (db_outbox_events db)) event_before_strict_weak) as Hs.
      rewrite Es in Hs. by inversion Hs.
    + apply std_sort_sorted, event_before_strict_weak.
    + rewrite std_sort_perm. symmetry. apply unpublished_mark; [done|]. by rewrite Hp.
Qed.

#[global] Instance postgres_outbox_lawful : LawfulOutboxStore IxDb.
Proof.
  refine {| queue := pending |}.
  - intros limit db l Hq Hl. unfold wp. cbn [outbox_LoadUnpublished postgres_outbox].
    destruct (LoadUnpublished limit db) as [events|e] eqn:E; [|done]. split; [|done].
    destruct (decide (limit < 2 ^ 63)); [by rewrite <-(outbox_load limit db l)|].
    unfold LoadUnpublished, bigint_parameter, sql_bigint in E.
    rewrite (proj2 (Z.ltb_ge limit (2 ^ 63))), andb_false_r, bind_Throw in E by lia. discriminate E.
  - intros event db l Hq. destruct (outbox_mark _ _ _ Hq) as (db' & E & Hq').
    cbn [outbox_MarkPublished postgres_outbox]. unfold wp. by rewrite E.
Defined.

#[global] Instance postgres_outbox_reliable : ReliableOutboxStore IxDb (2 ^ 63).
Proof.
  split.
  - intros limit db l Hq Hl. unfold wp. cbn [outbox_LoadUnpublished postgres_outbox].
    rewrite (outbox_load limit db _ Hq), <-fmap_take by lia. by rewrite map_result_fmap_Ok.
  - intros event db l Hq. destruct (outbox_mark _ _ _ Hq) as (db' & E & _). unfold wp. cbn [outbox_MarkPublished postgres_outbox]. by rewrite E.
Qed.
End Refinement.

(** Claim C17: whatever the publisher does, and whichever connections to the database fail,
    whether before or after their commit, after any number of passes of the loop the pending
    rows of the table have lost a front [sent]; each of its events was accepted by the
    publisher, in the order of the table; nothing was offered but these events and the next
    one, which may have been accepted and not yet marked.  So no event is lost, skipped or
    overtaken.  A row that cannot be read keeps its place. *)
Theorem outbox_at_least_once `{LawfulTextOrder} {N} `{EventPublisher N} db faults (net : N) l limit passes :
  pending db l -> 0 <= limit ->
  exists sent rest db' faults' net' offers,
    publish_loop limit passes (MkOutboxState (MkUnreliable db faults) net [])
      = (Ok tt, MkOutboxState (MkUnreliable db' faults') net' offers)
    /\ l = (Ok <$> sent) ++ rest /\ pending db' rest
    /\ ((fun event => (event, true)) <$> sent) `sublist_of` offers
    /\ forall event accepted, (event, accepted) ∈ offers -> event ∈ sent \/ head rest = Some (Ok event).
Proof.
  intros Hq Hl. pose proof (publish_loop_delivered l limit passes (MkOutboxState (MkUnreliable db faults) net []) Hq Hl) as HD.
  unfold wp in HD. destruct (publish_loop _ _ _) as [[[]|e] [[db' faults'] net' trace]]; [|done].
  destruct HD as (rest & sent & offers & El & Hq' & Ht & Hs & Ho). cbn in *. subst trace.
  by exists sent, rest, db', faults', net', offers.
Qed.

(** Claim C26: when the publisher accepts every event, enough passes publish every pending event exactly
    once, in the order of the table, and leave none pending. *)
Theorem outbox_drained `{LawfulTextOrder} {N} `{EventPublisher N} db (net : N) l limit passes :
  (forall event n, exists n', publisher_Publish event n = (Ok tt, n')) ->
  outbox_queue db l -> 0 <= limit < 2 ^ 63 -> (length l <= Z.to_nat limit * passes)%nat ->
  exists db' net',
    publish_loop limit passes (MkOutboxState db net [])
    = (Ok tt, MkOutboxState db' net' ((fun event => (event, true)) <$> l))
    /\ CountUnpublished db' = 0.
Proof.
  intros Ha Hq%outbox_queue_pending Hl Hn.
  destruct (@publish_loop_all IxDb N (2 ^ 63) _ postgres_outbox_lawful _ _ Ha l limit passes (MkOutboxState db net []) Hq Hl Hn)
    as ([db' net' trace] & E & [Hnd Hq'] & Ht). cbn in *. subst trace. exists db', net'. split; [done|].
  apply fmap_nil_inv in Hq'. pose proof (std_sort_perm event_before (unpublished (db_outbox_events db'))) as Hp. rewrite Hq' in Hp.
  unfold CountUnpublished. by rewrite <-Hp.
Qed.

(** ** Two events to publish, one published before *)

Definition sample_row (number : Z) (published : option Z) : EventRow :=
  MkEventRow ("chain.block.processed:1:" +:+ to_string number) CHAIN_BLOCK_PROCESSED "chain:1" "1" number
    (EncodeArray (array_copy 32 (be_bytes 32 number)) true) None None (number + 1) JNull
    (1700000000000000 - number) published.

Definition sample_outbox : IxDb :=
  MkIxDb [] [] [] [] [] [] [] [sample_row 3 (Some 1); sample_row 4 None; sample_row 5 None] [] 1700000001000000.

Definition sample_envelope (number : Z) : EventEnvelope :=
  MkEventEnvelope ("chain.block.processed:1:" +:+ to_string number) CHAIN_BLOCK_PROCESSED "chain:1" (U 1) number
    (array_copy 32 (be_bytes 32 number)) None None (number + 1) 1700000000 JNull.

Lemma sample_parsed number : number = 4 \/ number = 5 -> ParseEvent (sample_row number None) = Ok (sample_envelope number).
Proof.
  intros [-> | ->]; unfold ParseEvent, sample_row; cbn -[FromDecimal OutboxParseHash EncodeArray to_string].
  all: unfold OutboxParseHash; by rewrite !parse_hash_Encode.
Qed.

Lemma sample_queue : @outbox_queue byte_order sample_outbox [sample_envelope 5; sample_envelope 4].
Proof.
  split; [by apply (bool_decide_unpack _); vm_compute|].
  assert (@std_sort _ (@event_before byte_order) (unpublished (db_outbox_events sample_outbox))
          = [sample_row 5 None; sample_row 4 None]) as -> by reflexivity.
  cbn [map_result]. by rewrite !sample_parsed by auto.
Qed.

(** Publishers that accept everything and nothing. *)
Definition publisher_up : EventPublisher unit := {| publisher_Publish _ n := (Ok tt, n) |}.
Definition publisher_down : EventPublisher unit :=
  {| publisher_Publish _ n := (Throw (RuntimeError "no responders"), n) |}.

(** A third event of the table cannot be read; the connection breaks before the first commit,
    the third commit is in doubt, and so on. *)
Definition unreadable_row : EventRow :=
  MkEventRow "chain.block.processed:1:2" CHAIN_BLOCK_PROCESSED "chain:1" "one" 2
    (EncodeArray (array_copy 32 (be_bytes 32 2)) true) None None 3 JNull 1700000000999998 None.
Definition troubled_outbox : IxDb := set_outbox_events (unreadable_row :: db_outbox_events sample_outbox) sample_outbox.
Definition troubles : list Fault := [Works; Breaks; Works; Works; InDoubt; Breaks].

Lemma troubled_pending : exists e,
  @pending byte_order troubled_outbox [Ok (sample_envelope 5); Ok (sample_envelope 4); Throw e].
Proof.
  eexists. split; [by apply (bool_decide_unpack _); vm_compute|].
  assert (@std_sort _ (@event_before byte_order) (unpublished (db_outbox_events troubled_outbox))
          = [sample_row 5 None; sample_row 4 None; unreadable_row]) as -> by reflexivity.
  rewrite !fmap_cons, fmap_nil, !sample_parsed by auto. reflexivity.
Qed.

Abbreviation troubled_run := (@publish_loop (Unreliable IxDb) unit (@unreliable_outbox _ (@postgres_outbox byte_order)) publisher_up 2 4
  (MkOutboxState (MkUnreliable troubled_outbox troubles) tt [])).

(** Event 5 is offered twice, event 4 once, and both are marked. *)
Lemma outbox_at_least_once_witness :
  exists sent rest db' faults' net' offers e,
    troubled_run = (Ok tt, MkOutboxState (MkUnreliable db' faults') net' offers)
    /\ [Ok (sample_envelope 5); Ok (sample_envelope 4); Throw e] = (Ok <$> sent) ++ rest /\ @pending byte_order db' rest
    /\ ((fun event => (event, true)) <$> sent) `sublist_of` offers
    /\ (forall event accepted, (event, accepted) ∈ offers -> event ∈ sent \/ head rest = Some (Ok event))
    /\ (fun offer : EventEnvelope * bool => (ee_blockNumber offer.1, offer.2)) <$> offers = [(5, true); (5, true); (4, true)].
Proof.
  destruct troubled_pending as [e Hp].
  destruct (@outbox_at_least_once byte_order byte_order_lawful unit publisher_up troubled_outbox troubles tt _ 2 4 Hp)
    as (sent & rest & db' & faults' & net' & offers & E & El & Hr & Hs & Ho); [done|].
  exists sent, rest, db', faults', net', offers, e. do 5 (split; [assumption|]).
  assert (offers = ob_trace troubled_run.2) as -> by (rewrite E; reflexivity). vm_compute. reflexivity.
Defined.

Lemma outbox_drained_witness :
  exists db' net',
    @publish_loop IxDb unit (@postgres_outbox byte_order) publisher_up 1 2 (MkOutboxState sample_outbox tt [])
    = (Ok tt, MkOutboxState db' net' ((fun event => (event, true)) <$> [sample_envelope 5; sample_envelope 4]))
    /\ CountUnpublished db' = 0.
Proof.
  apply (@outbox_drained byte_order byte_order_lawful unit publisher_up);
    [intros event n; by exists n|exact sample_queue|lia|cbn; lia].
Defined.
