(* ===== verification/JetStream.v ===== *)
(** * JetStream: the event stream ([JetStream.hpp], [JetStream.cpp])

    The client library of NATS is the class [Nats]: its functions change the state of the
    connection and the server, and return a status.  What the consumers rely on is stated in
    [LawfulNats]: a message stays to be delivered until it is acknowledged. *)

From Stdlib Require Import Ascii.
From S2P Require Import Prelude Effects Text Json Event Outbox.
Set Default Goal Selector "!".
#[local] Open Scope Z_scope.

Definition EVENT_STREAM : string := "DLP_EVENTS".

(** ** The library *)

Inductive natsStatus := NATS_OK | NATS_TIMEOUT | NATS_NOT_FOUND | NATS_STATUS (code : Z).

(** The members of [jsStreamConfig] and [jsSubOptions] that are set. *)
Record jsStreamConfig := MkStreamConfig {
  sc_Name : string;
  sc_Subjects : list string;
  sc_FileStorage : bool;
  sc_Replicas : Z;
  sc_Duplicates : Z
}.
Record jsSubOptions := MkSubOptions {
  so_Stream : string;
  so_ManualAck : bool;
  so_AckExplicit : bool;
  so_DeliverAll : bool
}.

Class Nats (N : Type) := {
  nats_Msg : Type;
  natsMsg_GetData : nats_Msg -> string;
  natsStatus_GetText : natsStatus -> string;
  natsConnection_ConnectTo : string -> N -> natsStatus * N;
  natsConnection_JetStream : N -> natsStatus * N;
  js_GetStreamInfo : string -> N -> natsStatus * N;
  jsStreamConfig_Init : N -> natsStatus * N;
  js_AddStream : jsStreamConfig -> N -> natsStatus * N;
  jsPubOptions_Init : N -> natsStatus * N;
  js_Publish (subject payload : string) (length : Z) (msgId : string) : N -> natsStatus * N;
  jsSubOptions_Init : N -> natsStatus * N;
  js_PullSubscribe (subject durableName : string) (options : jsSubOptions) : N -> natsStatus * N;
  natsSubscription_Fetch (batch timeout : Z) : N -> (natsStatus * list nats_Msg) * N;
  natsMsg_AckSync : nats_Msg -> N -> natsStatus * N
}.

(** [s.c_str()] as a C function reads it. *)
Fixpoint until_nul (l : list ascii) : list ascii :=
  match l with
  | c :: l => if ascii_z c =? 0 then [] else c :: until_nul l
  | [] => []
  end.
Definition c_str (s : string) : string := unchars (until_nul (chars s)).

(** [static_cast<int>] *)
Definition to_int (z : Z) : Z := (z + 2 ^ 31) mod 2 ^ 32 - 2 ^ 31.

(** ** The code *)

Section Client.
Context {N : Type} `{Nats N} `{JsonText}.

Abbreviation M := (prog N).

Definition call {A} (f : N -> A * N) : M A := fun n => let '(a, n) := f n in (Ok a, n).

Definition Check (status : natsStatus) : M unit :=
  match status with
  | NATS_OK => mret tt
  | _ => throw (RuntimeError (natsStatus_GetText status))
  end.

(** [Check(f(...))] *)
Definition checked (f : N -> natsStatus * N) : M unit := status ← call f; Check status.

(** The constructor of [JetStreamContext]. *)
Definition JetStreamContext (url : string) : M unit :=
  checked (natsConnection_ConnectTo (c_str url));; checked natsConnection_JetStream.

Definition stream_config : jsStreamConfig := MkStreamConfig EVENT_STREAM ["chain.>"; "risk.>"] true 1 120000000000.

Definition EnsureEventStream : M unit :=
  status ← call (js_GetStreamInfo EVENT_STREAM);
  match status with
  | NATS_OK => mret tt
  | _ =>
      match status with NATS_NOT_FOUND => mret tt | _ => Check status end;;
      checked jsStreamConfig_Init;;
      checked (js_AddStream stream_config)
  end.

(** [JetStreamPublisher::Publish] *)
Definition PublishEvent (event : EventEnvelope) : M unit :=
  payload ← lift (Serialize event);
  checked jsPubOptions_Init;;
  checked (js_Publish (c_str (ee_eventType event)) payload (to_int (Z.of_nat (String.length payload))) (c_str (ee_eventId event))).

#[global] Instance nats_publisher : EventPublisher N := { publisher_Publish := PublishEvent }.

(** The constructor of [JetStreamConsumer]. *)
Definition subscribe_options : jsSubOptions := MkSubOptions EVENT_STREAM true true true.

Definition JetStreamConsumer (url subject durableName : string) : M unit :=
  JetStreamContext url;;
  EnsureEventStream;;
  checked jsSubOptions_Init;;
  checked (js_PullSubscribe (c_str subject) (c_str durableName) subscribe_options).

Record JetStreamMessage := MkJetStreamMessage { jm_message : nats_Msg; jm_event : EventEnvelope }.

(** [timeout] in milliseconds. *)
Definition Fetch (timeout : Z) : M (option JetStreamMessage) :=
  '(status, messages) ← call (natsSubscription_Fetch 1 timeout);
  match status with
  | NATS_TIMEOUT => mret None
  | _ =>
      Check status;;
      match messages with
      | [] => throw Undefined
      | message :: _ =>
          event ← lift (Deserialize (natsMsg_GetData message));
          mret (Some (MkJetStreamMessage message event))
      end
  end.

Definition Ack (message : JetStreamMessage) : M unit := checked (natsMsg_AckSync (jm_message message)).
End Client.
Arguments JetStreamMessage _ {_}.

(** ** The contract of a pull consumer

    [unacked n s d]: the message of sequence number [s], with data [d], is not acknowledged for
    this consumer and will be delivered, again if it has been before. *)
Class LawfulNats (N : Type) `{Nats N} := {
  unacked : N -> Z -> string -> Prop;
  nats_sequence : nats_Msg -> Z;
  law_fetch n batch timeout s d : unacked n s d -> unacked (natsSubscription_Fetch batch timeout n).2 s d;
  law_ack n message s d : (s, d) <> (nats_sequence message, natsMsg_GetData message) ->
    unacked n s d -> unacked (natsMsg_AckSync message n).2 s d
}.

Section Laws.
Context {N : Type} `{LawfulNats N} `{JsonText}.

(** Nothing is lost from one state to another. *)
Definition retained (n n' : N) : Prop := forall s d, unacked n s d -> unacked n' s d.

Lemma Check_wp status (Q : unit -> N -> Prop) E n :
  (status = NATS_OK -> Q tt n) -> (status <> NATS_OK -> E (RuntimeError (natsStatus_GetText status)) n) -> wp (Check status) Q E n.
Proof using. intros HQ HE. destruct status; [by apply wp_ret, HQ|by apply wp_throw, HE..]. Qed.

Lemma Fetch_wp timeout n :
  wp (Fetch timeout)
    (fun message n' => retained n n' /\ match message with
       | Some message => Deserialize (natsMsg_GetData (jm_message message)) = Ok (jm_event message)
       | None => True
       end) (fun _ n' => retained n n') n.
Proof using.
  unfold Fetch. apply wp_bind. unfold wp at 1, call. pose proof (law_fetch n 1 timeout) as Hl.
  destruct (natsSubscription_Fetch 1 timeout n) as [[status messages] n'].
  assert (wp (Check status;; match messages with
      | [] => throw Undefined
      | message :: _ => event ← lift (Deserialize (natsMsg_GetData message)); mret (Some (MkJetStreamMessage message event))
      end) (fun message n'' => retained n n'' /\ match message with
       | Some message => Deserialize (natsMsg_GetData (jm_message message)) = Ok (jm_event message)
       | None => True
       end) (fun _ n'' => retained n n'') n') as Hm.
  { apply wp_bind, Check_wp; [|done]. intros _. destruct messages as [|message messages]; [by apply wp_throw|].
    apply wp_bind, wp_lift; [|done]. intros event Ee. by apply wp_ret. }
  by destruct status; try exact Hm; apply wp_ret.
Qed.

Lemma Ack_wp message n :
  let kept n' := forall s d, (s, d) <> (nats_sequence (jm_message message), natsMsg_GetData (jm_message message)) ->
    unacked n s d -> unacked n' s d in
  wp (Ack message) (fun _ => kept) (fun _ => kept) n.
Proof using.
  cbv zeta. unfold Ack, checked. apply wp_bind. unfold wp at 1, call.
  pose proof (fun s d => law_ack n (jm_message message) s d) as Hl. destruct (natsMsg_AckSync (jm_message message) n) as [status n'].
  by apply Check_wp.
Qed.

(** A publisher hands over a text from which the consumers read the event. *)
Lemma published_text `{!LawfulJsonText} event (n n' : N) :
  event_wf event -> PublishEvent event n = (Ok tt, n') ->
  exists text n1, Deserialize text = Ok event
    /\ js_Publish (c_str (ee_eventType event)) text (to_int (Z.of_nat (String.length text))) (c_str (ee_eventId event)) n1 = (NATS_OK, n').
Proof using.
  intros Hwf E. destruct (parse_dump (event_json event) (event_json_normal event Hwf)) as (text & Es & Ed).
  unfold PublishEvent, Serialize, checked in E. rewrite Es in E. run_inv. injection Hret as <-.
  exists text. unfold Deserialize. rewrite Ed, bind_Ok, event_of_json_inverse by done.
  match goal with Hc : call (js_Publish _ _ _ _) ?n1 = (Ok ?a, _) |- _ => exists n1; unfold call in Hc; destruct (js_Publish _ _ _ _ n1) as [status n2] end.
  injection Hrun1 as <- <-. split; [done|]. destruct status; cbn in E; [by injection E as <-|discriminate..].
Qed.
End Laws.
