(* ===== verification/IndexerProperties.v ===== *)
(** * IndexerProperties: the indexer over its database

    The properties of [SyncToHead] and of the Postgres store, and a concrete chain on which
    they apply. *)

From S2P Require Import Prelude Effects Text Json Sql Uint256 Hex Abi IndexerTypes RpcTypes StateProjector Indexer.
From S2P Require Import IndexerSync PostgresStore PostgresRefinement.
Set Default Goal Selector "!".
#[local] Open Scope Z_scope.

(** ** A concrete chain of two blocks *)

Definition block_hash (n : Z) : Hash256 := array_copy 32 (be_bytes 32 n).
Definition demo_header (n : Z) : BlockHeader := MkBlockHeader (U n) (block_hash n) (block_hash (n - 1)) (U 0) None.

(** The canonical logs of [sample_logs] in the blocks 10 and 11. *)
Definition demo_block_logs (n : Z) : list RawLog :=
  filter (fun log => rl_canonical log = true /\ rl_blockNumber log = n) sample_logs.

Definition rpc_log (log : RawLog) : RpcLog :=
  MkRpcLog (rl_contractAddress log) (rl_topics log) (rl_data log) (U (rl_blockNumber log)) (rl_blockHash log)
    (rl_transactionHash log) (U (rl_transactionIndex log)) (U (rl_logIndex log)) false.

Definition removed_log (log : RawLog) : RpcLog :=
  MkRpcLog (rl_contractAddress log) [] [] (U 0) (rl_blockHash log) (rl_transactionHash log) (U 0) (U 7) true.

(** A node that never moves; it returns the logs of a block in reverse, with a removed one. *)
Definition demo_logs (n : Z) : list RpcLog :=
  reverse (rpc_log <$> demo_block_logs n) ++ (removed_log <$> take 1 (demo_block_logs n)).

#[local] Instance demo_chain : ChainClient unit := {
  chain_GetChainId n := (Ok (U 1), n);
  chain_GetBlockNumber n := (Ok 11, n);
  chain_GetBlockByNumber k n := (Ok (if (0 <=? k) && (k <=? 11) then Some (demo_header k) else None), n);
  chain_GetLogs k n := (Ok (demo_logs k), n)
}.

(** The hash of block 10 on another fork, where it is empty. *)
Definition fork_hash : Hash256 := array_copy 32 (x01 :: be_bytes 31 10).

Definition hash_number (h : Hash256) : Z := be_value (tail (array_list h)).
Definition demo_contents : BlockContents := MkBlockContents hash_number (fun h => block_hash (hash_number h - 1))
  (fun h => if bool_decide (h = fork_hash) then [] else demo_block_logs (hash_number h)).

Lemma two_blocks k : 10 <= k <= 11 -> k = 10 \/ k = 11.
Proof. lia. Qed.

Lemma block_hash_number k : 10 <= k <= 11 -> hash_number (block_hash k) = k /\ block_hash k <> fork_hash.
Proof.
  intros [-> | ->]%two_blocks; (split; [vm_compute; reflexivity|]); intros E%(f_equal (fun h => head (array_list h)));
    vm_compute in E; discriminate E.
Qed.

Lemma demo_content k : 10 <= k <= 11 -> content_logs demo_contents (block_hash k) = demo_block_logs k.
Proof.
  intros Hk. destruct (block_hash_number k Hk) as [E Hne]. cbn [demo_contents content_logs].
  by rewrite bool_decide_eq_false_2, E.
Qed.

Lemma demo_logs_10 : demo_block_logs 10 = take 2 sample_logs.
Proof. reflexivity. Qed.
Lemma demo_logs_11 : demo_block_logs 11 = take 1 (drop 3 sample_logs).
Proof. reflexivity. Qed.

Lemma demo_logs_wf k : 10 <= k <= 11 -> block_logs (U 1) k (block_hash k) (demo_block_logs k).
Proof.
  intros [-> | ->]%two_blocks; [rewrite demo_logs_10|rewrite demo_logs_11]; unfold sample_logs; cbn [take drop];
    split; repeat constructor; cbn [sample_log rl_logIndex rl_transactionIndex]; lia.
Qed.

Lemma demo_sort_10 : std_sort index_before (demo_logs 10)
  = (rpc_log <$> demo_block_logs 10) ++ (removed_log <$> take 1 (demo_block_logs 10)).
Proof. reflexivity. Qed.
Lemma demo_sort_11 : std_sort index_before (demo_logs 11)
  = (rpc_log <$> demo_block_logs 11) ++ (removed_log <$> take 1 (demo_block_logs 11)).
Proof. reflexivity. Qed.

Lemma raw_log_rpc k log :
  0 <= k < 256 -> block_log (U 1) k (block_hash k) log -> raw_log (U 1) k (demo_header k) (rpc_log log) = Ok (Some log).
Proof.
  intros Hk (Hc & Hn & Hh & Hid & Ht & Hi). unfold raw_log, rpc_log.
  cbn [lg_removed lg_blockNumber lg_blockHash lg_transactionIndex lg_logIndex lg_address lg_topics lg_data lg_transactionHash
       demo_header bh_hash].
  assert (forall z, 0 <= z < 2 ^ 63 -> ToUint64 (U z) = Ok z) as HU.
  { intros z Hz. apply ToUint64_Ok. rewrite U_value by lia. lia. }
  rewrite !HU by lia. mstep. rewrite Hn, Z.eqb_refl, bool_decide_eq_true_2 by done. cbn [negb orb]. mstep.
  destruct log. cbn in *. by subst.
Qed.

Lemma demo_raw_logs k log : 10 <= k <= 11 -> log ∈ demo_block_logs k ->
  raw_log (U 1) k (demo_header k) (rpc_log log) = Ok (Some log).
Proof.
  intros Hk Hl. destruct (demo_logs_wf k Hk) as [HF _]. rewrite list.Forall_forall in HF.
  apply raw_log_rpc; [lia|auto].
Qed.

Lemma demo_facts : ChainFacts prefix_hash sample_contracts (U 1) 10 demo_contents 11 demo_header.
Proof.
  split; try done.
  - intros k Hk. apply U_value. lia.
  - intros k Hk. cbn [demo_header bh_hash bh_parentHash demo_contents content_parent].
    by destruct (block_hash_number k Hk) as [-> _].
  - intros k Hk. cbn [demo_header bh_hash]. split; [by apply block_hash_number|].
    rewrite demo_content by done. by apply demo_logs_wf.
  - intros n Hn. assert (n = 0 \/ n = 1 \/ n = 2)%nat as [-> | [-> | ->]] by lia; vm_compute; reflexivity.
Qed.

Lemma demo_logs_of_block k : 10 <= k <= 11 -> logs_of_block (U 1) demo_contents demo_header k (demo_logs k).
Proof.
  intros Hk. unfold logs_of_block. change (bh_hash (demo_header k)) with (block_hash k). rewrite demo_content by done.
  exists ((Some <$> demo_block_logs k) ++ [None]).
  apply two_blocks in Hk as [-> | ->]; [rewrite demo_sort_10|rewrite demo_sort_11];
    rewrite map_result_app, (map_result_fmap_in _ rpc_log Some) by (intros; by apply demo_raw_logs); split; reflexivity.
Qed.

Lemma demo_stable : StableChain prefix_hash sample_contracts (U 1) 10 demo_contents 11 demo_header (fun _ => True).
Proof.
  split.
  - exact demo_facts.
  - intros w _. by exists w.
  - intros w _. by exists w.
  - intros k w Hk _. exists w. cbn. by rewrite (proj2 (Z.leb_le 0 k)), (proj2 (Z.leb_le k 11)) by lia.
  - intros k w Hk _. exists (demo_logs k), w. split; [done|]. split; [done|]. by apply demo_logs_of_block.
Qed.

(** ** The events of a write *)

Definition block_event (b : IndexedBlock) (version now : Z) : EventRow :=
  let chain := ToDecimal (ib_chainId b) in
  MkEventRow (block_event_id chain (ib_hash b)) "chain.block.processed" ("chain:" ++ chain) chain (ib_number b)
    (hash_text (ib_hash b)) None None version (JObject [("parentHash", JString (hash_text (ib_parentHash b)))]) now None.

Lemma CommitBlock_event_wp b logs st db :
  wp (CommitBlock b logs st)
    (fun _ => event_written (ToDecimal (ib_chainId b)) (block_event_id (ToDecimal (ib_chainId b)) (ib_hash b))
                (block_event b) db) (fun _ db' => db' = db) db.
Proof.
  apply wp_transaction. apply wp_bind. eapply (wp_mono _ (fun _ => outbox_kept db) _ (fun _ _ => True)); [|clear|done].
  { unfold upsert_block. by repeat sql_step. }
  intros _ s Hs. apply wp_bind. eapply (wp_mono _ (fun _ => outbox_kept db) _ (fun _ _ => True)); [|clear|done].
  { apply wp_for_each; [|done]. intros l s' _ Hs'. unfold upsert_log. by repeat sql_step. }
  intros _ s Hs. apply wp_bind. eapply wp_mono; [by apply (ReplaceDerivedState_outbox _ _ db)|clear|done].
  cbn. intros _ s Hs. apply wp_bind. eapply wp_mono; [by apply (AdvanceCanonicalVersion_wp _ db)|clear|done].
  cbn. intros version s (Ev & Hv & Ho & Hnow). unfold upsert_cursor, InsertOutboxEvent. repeat sql_step; try done.
  split; [by rewrite <-Ev, <-Hv|]. cbn. by rewrite Ho, Hnow, Ev.
Qed.

(** ** Properties *)

(** Claim C1: whatever fork the store holds when it starts, [SyncToHead] on a chain that
    stands still terminates and returns, and the store then holds exactly the blocks of that
    chain from the start block to its head, their logs, the state rebuilt from them, and
    the head as its cursor.  Fuel for two more rounds than the chain has blocks is enough,
    and the store needs room for two writes per round. *)
Theorem SyncToHead_converges {S N} `{IndexerStore S} `{ChainClient N} keccak contracts chainId
    `{!LawfulIndexerStore S keccak contracts chainId} start c head hdr (I : N -> Prop) w f n fuel (s : S) v status :
  StableChain keccak contracts chainId start c head hdr I -> I w ->
  represents (2 * fuel) s v -> holds_segment keccak contracts chainId start c v f n ->
  Z.max 0 (head + 1 - start) + 1 < Z.of_nat fuel ->
  exists s' v' status' count w',
    SyncToHead keccak contracts start fuel (MkIxState s w status) = (Ok (Some count), MkIxState s' w' status')
    /\ I w' /\ represents 0 s' v'
    /\ holds_segment keccak contracts chainId start c v' (fun k => bh_hash (hdr k)) (Z.to_nat (head + 1 - start)).
Proof.
  intros Hst Hw Hr Hseg Hf. destruct (SyncToHead_run keccak contracts chainId start c head hdr I Hst f n fuel s status w)
    as (s' & status' & count & w' & E & Hw' & v' & Hr' & Hseg'); [by exists v|done|done|]. eauto 10.
Qed.

(** A store that followed another fork from block 10 on. *)
Definition fork_block : IndexedBlock := MkIndexedBlock (U 1) 10 fork_hash (block_hash 9) true.
Definition fork_db : IxDb := (CommitBlock fork_block [] (CreateInitialState sample_contracts) empty_db).2.
Definition fork_view : StoreView :=
  committed fork_block [] (CreateInitialState sample_contracts)
    (MkStoreView ∅ [] (CreateInitialState sample_contracts) None).
Lemma fork_represents : represents (LawfulIndexerStore := postgres_lawful prefix_hash sample_contracts (U 1)) 10 fork_db fork_view.
Proof.
  destruct (CommitBlock_run prefix_hash sample_contracts (U 1) 10 fork_block [] (CreateInitialState sample_contracts) empty_db
    (MkStoreView ∅ [] (CreateInitialState sample_contracts) None)) as (db' & E & H);
    [by apply empty_represents|done|done|done|done|by split; constructor|done|].
  unfold fork_db. by rewrite E.
Qed.

Lemma fork_segment : holds_segment prefix_hash sample_contracts (U 1) 10 demo_contents fork_view (fun _ => fork_hash) 1.
Proof.
  assert (content_parent demo_contents fork_hash = block_hash 9) as Hp
    by (cbn [demo_contents content_parent]; f_equal; vm_compute; reflexivity).
  assert (content_logs demo_contents fork_hash = []) as Hl
    by (cbn [demo_contents content_logs]; by rewrite bool_decide_eq_true_2).
  split; cbn [fork_view committed v_blocks v_logs v_state v_cursor fork_block ib_number ib_hash ib_parentHash].
  - intros k. rewrite Hp. destruct (decide (k = 10)) as [->|Hk]; [by rewrite lookup_insert_eq|].
    rewrite lookup_insert_ne, decide_False by lia. apply lookup_empty.
  - lia.
  - intros k Hk. replace k with 10 by lia. split; [vm_compute; reflexivity|]. rewrite Hl. split; constructor.
  - cbn [segment_logs]. by rewrite Hl.
  - reflexivity.
  - reflexivity.
Qed.

Lemma SyncToHead_converges_witness : exists s' v' status' count w',
  SyncToHead prefix_hash sample_contracts 10 5 (MkIxState fork_db tt (MkIndexerStatus 0 0 0))
    = (Ok (Some count), MkIxState s' w' status')
  /\ True /\ represents (LawfulIndexerStore := postgres_lawful prefix_hash sample_contracts (U 1)) 0 s' v'
  /\ holds_segment prefix_hash sample_contracts (U 1) 10 demo_contents v' block_hash 2.
Proof.
  exact (SyncToHead_converges prefix_hash sample_contracts (U 1) 10 demo_contents 11 demo_header (fun _ => True) tt
    (fun _ => fork_hash) 1 5 fork_db fork_view (MkIndexerStatus 0 0 0) demo_stable Logic.I fork_represents fork_segment eq_refl).
Defined.

(** [FindCommonAncestor] changes nothing but the state of the node and returns the highest block, not above
    the bound, that the store and the chain both hold, or none when they share none. *)
Theorem FindCommonAncestor_highest {S N} `{IndexerStore S} `{ChainClient N} keccak contracts chainId
    `{!LawfulIndexerStore S keccak contracts chainId} start c head hdr (I : N -> Prop) w f n budget (s : S) v status upperBound :
  StableChain keccak contracts chainId start c head hdr I -> I w ->
  represents budget s v -> holds_segment keccak contracts chainId start c v f n ->
  upperBound < start + Z.of_nat n -> upperBound <= head ->
  exists a w', FindCommonAncestor start chainId upperBound (MkIxState s w status) = (Ok a, MkIxState s w' status)
    /\ I w' /\ match a with
       | Some b => start <= ib_number b <= upperBound /\ ib_hash b = bh_hash (hdr (ib_number b))
                   /\ v_blocks v !! ib_number b = Some (ib_hash b, ib_parentHash b)
                   /\ forall k, ib_number b < k <= upperBound -> fst <$> v_blocks v !! k <> Some (bh_hash (hdr k))
       | None => forall k, start <= k <= upperBound -> fst <$> v_blocks v !! k <> Some (bh_hash (hdr k))
       end.
Proof.
  intros Hst Hw Hr Hseg Hu Hh.
  assert (forall k, start <= k <= upperBound -> f k <> bh_hash (hdr k) -> fst <$> v_blocks v !! k <> Some (bh_hash (hdr k))) as Hne.
  { intros k Hk Hf. rewrite (hs_blocks _ _ _ _ _ _ _ _ Hseg), decide_True by lia. intros [= ?]. done. }
  destruct (FindCommonAncestor_run keccak contracts chainId start c head hdr I Hst budget f n upperBound s status w)
    as (a & w' & E & Ha & Hw'); [by exists v|done|done|done|]. exists a, w'. split; [exact E|]. split; [done|]. destruct a as [b|].
  - destruct Ha as (Hb & Eb & Hf & Hmax).
    pose proof (f_equal ib_hash Eb) as Eh. pose proof (f_equal ib_parentHash Eb) as Ep. cbn [ib_hash ib_parentHash] in Eh, Ep.
    split; [done|]. split; [congruence|]. split.
    + rewrite (hs_blocks _ _ _ _ _ _ _ _ Hseg), decide_True by lia. by rewrite Eh, Ep.
    + intros k Hk. apply Hne; [lia|]. by apply Hmax.
  - intros k Hk. apply Hne; [done|]. by apply Ha.
Qed.

Lemma FindCommonAncestor_highest_witness : exists a w',
  FindCommonAncestor 10 (U 1) 10 (MkIxState fork_db tt (MkIndexerStatus 0 0 0))
    = (Ok a, MkIxState fork_db w' (MkIndexerStatus 0 0 0))
  /\ True /\ match a with
     | Some b => 10 <= ib_number b <= 10 /\ ib_hash b = bh_hash (demo_header (ib_number b))
                 /\ v_blocks fork_view !! ib_number b = Some (ib_hash b, ib_parentHash b)
                 /\ forall k, ib_number b < k <= 10 -> fst <$> v_blocks fork_view !! k <> Some (bh_hash (demo_header k))
     | None => forall k, 10 <= k <= 10 -> fst <$> v_blocks fork_view !! k <> Some (bh_hash (demo_header k))
     end.
Proof.
  apply (FindCommonAncestor_highest prefix_hash sample_contracts (U 1) 10 demo_contents 11 demo_header (fun _ => True) tt
    (fun _ => fork_hash) 1 10 fork_db fork_view (MkIndexerStatus 0 0 0) 10 demo_stable Logic.I fork_represents fork_segment); lia.
Defined.

(** Claim C22: the SQL of [CommitBlock] and [RewindTo] implements the abstract store: from
    tables that represent a view, a commit above it succeeds and the tables then represent
    the view with the block, its logs and its state; a rewind to a block they hold (or to
    none) succeeds and leaves the view cut at that block, whose rows read back as written. *)
Theorem postgres_store_refines keccak contracts chainId budget db v :
  represents_view contracts chainId (S budget) db v ->
  (forall b logs st, ib_chainId b = chainId -> 0 <= ib_number b < 2 ^ 63 -> v_blocks v !! ib_number b = None ->
    (forall k p, v_blocks v !! k <> Some (ib_hash b, p)) -> block_logs chainId (ib_number b) (ib_hash b) logs ->
    Rebuild keccak contracts (v_logs v ++ logs) = Ok st ->
    exists db', CommitBlock b logs st db = (Ok tt, db')
      /\ represents_view contracts chainId budget db' (committed b logs st v))
  /\ (forall a st, ib_chainId a = chainId -> 0 <= ib_number a < 2 ^ 63 ->
    v_blocks v !! ib_number a = Some (ib_hash a, ib_parentHash a) ->
    Rebuild keccak contracts (logs_through (ib_number a) (v_logs v)) = Ok st ->
    exists db', RewindTo chainId (Some a) st db = (Ok tt, db')
      /\ represents_view contracts chainId budget db' (rewound (Some a) st v))
  /\ exists db', RewindTo chainId None (CreateInitialState contracts) db = (Ok tt, db')
      /\ represents_view contracts chainId budget db' (rewound None (CreateInitialState contracts) v).
Proof.
  intros H. split; [|split].
  - intros. by eapply CommitBlock_run.
  - intros a st Hc Hn Hb HR. by apply (RewindTo_run keccak contracts chainId budget (Some a) st db v H).
  - by apply (RewindTo_run keccak contracts chainId budget None _ db v H).
Qed.

Lemma postgres_store_refines_witness : exists db',
  RewindTo (U 1) None (CreateInitialState sample_contracts) fork_db = (Ok tt, db')
  /\ represents_view sample_contracts (U 1) 9 db' (rewound None (CreateInitialState sample_contracts) fork_view).
Proof. exact (proj2 (proj2 (postgres_store_refines prefix_hash sample_contracts (U 1) 9 fork_db fork_view fork_represents))). Defined.

(** Claim C8: after [SyncToHead] over Postgres on a chain that stands still, every query of
    the store answers for that chain: the cursor is the head, each height from the start
    block on has the chain's block and none above the head, the logs through a height are
    those of the chain's blocks up to it, and the derived state is the one [Rebuild] gives
    for all logs of the chain, in any order. *)
Theorem synced_database {N} `{ChainClient N} keccak contracts chainId start c head hdr (I : N -> Prop) w f n fuel db v status logs :
  StableChain keccak contracts chainId start c head hdr I -> I w ->
  represents_view contracts chainId (2 * fuel) db v -> holds_segment keccak contracts chainId start c v f n ->
  Z.max 0 (head + 1 - start) + 1 < Z.of_nat fuel -> start <= head ->
  logs ≡ₚ segment_logs c start (fun k => bh_hash (hdr k)) (Z.to_nat (head + 1 - start)) ->
  exists db' status' count w',
    SyncToHead keccak contracts start fuel (MkIxState db w status) = (Ok (Some count), MkIxState db' w' status')
    /\ LoadCursor chainId db' = Ok (Some (MkSyncCursor chainId head (bh_hash (hdr head))))
    /\ (forall k, start <= k < 2 ^ 63 -> LoadCanonicalBlock chainId k db'
        = Ok (if k <=? head then Some (MkIndexedBlock chainId k (bh_hash (hdr k)) (bh_parentHash (hdr k)) true) else None))
    /\ (forall k, start <= k < 2 ^ 63 -> exists logs', LoadCanonicalLogsThrough chainId k db' = Ok logs'
        /\ logs' ≡ₚ segment_logs c start (fun k => bh_hash (hdr k)) (Z.to_nat (Z.min k head + 1 - start)))
    /\ LoadDerivedState chainId contracts db' = Rebuild keccak contracts logs.
Proof.
  intros Hst Hw Hr Hseg Hf Hsh Hlogs. pose proof (cf_range _ _ _ _ _ _ _ Hst).
  destruct (SyncToHead_run keccak contracts chainId start c head hdr I Hst f n fuel db status w)
    as (db' & status' & count & w' & E & _ & v' & Hr' & Hseg'); [by exists v|done|done|].
  exists db', status', count, w'. split; [exact E|]. split; [|split; [|split]].
  - rewrite (rv_cursor _ _ _ _ _ Hr'), (hs_cursor _ _ _ _ _ _ _ _ Hseg'), decide_False by lia.
    by replace (start + Z.of_nat (Z.to_nat (head + 1 - start)) - 1) with head by lia.
  - intros k Hk. rewrite (LoadCanonicalBlock_run contracts chainId 0 k db' v' Hr') by lia.
    rewrite (hs_blocks _ _ _ _ _ _ _ _ Hseg'). destruct (Z.leb_spec k head).
    + rewrite decide_True by lia. cbn. by rewrite (cf_content_parent _ _ _ _ _ _ _ Hst) by lia.
    + by rewrite decide_False by lia.
  - intros k Hk. set (f' := fun k => bh_hash (hdr k)) in *. set (m := Z.to_nat (head + 1 - start)) in *.
    destruct (LoadCanonicalLogsThrough_run contracts chainId 0 k db' v' Hr') as (logs' & El & Hp); [lia|]. exists logs'.
    split; [exact El|]. rewrite Hp. unfold logs_through. rewrite (hs_logs _ _ _ _ _ _ _ _ Hseg'). destruct (Z.leb_spec k head).
    + rewrite <-(segment_logs_through chainId start c f' m (Z.to_nat (Z.min k head + 1 - start))) by (apply Hseg' || lia).
      by replace (start + _ - 1) with k by lia.
    + rewrite list_filter_all; [by replace (Z.min k head) with head by lia|]. apply list.Forall_forall. intros log Hlog.
      apply (segment_logs_range chainId start c f' m log) in Hlog as [_ ?]; [lia|apply Hseg'].
  - rewrite (rv_state _ _ _ _ _ Hr'), <-(hs_state _ _ _ _ _ _ _ _ Hseg').
    apply Rebuild_perm; [|by rewrite Hlogs, (hs_logs _ _ _ _ _ _ _ _ Hseg')].
    eapply segment_distinct; [apply Hseg'|apply Hseg'].
Qed.

Lemma synced_database_witness : exists db' status' count w',
  SyncToHead prefix_hash sample_contracts 10 5 (MkIxState fork_db tt (MkIndexerStatus 0 0 0))
    = (Ok (Some count), MkIxState db' w' status')
  /\ LoadCursor (U 1) db' = Ok (Some (MkSyncCursor (U 1) 11 (block_hash 11)))
  /\ (forall k, 10 <= k < 2 ^ 63 -> LoadCanonicalBlock (U 1) k db'
      = Ok (if k <=? 11 then Some (MkIndexedBlock (U 1) k (block_hash k) (block_hash (k - 1)) true) else None))
  /\ (forall k, 10 <= k < 2 ^ 63 -> exists logs', LoadCanonicalLogsThrough (U 1) k db' = Ok logs'
      /\ logs' ≡ₚ segment_logs demo_contents 10 block_hash (Z.to_nat (Z.min k 11 + 1 - 10)))
  /\ LoadDerivedState (U 1) sample_contracts db'
     = Rebuild prefix_hash sample_contracts (segment_logs demo_contents 10 block_hash 2).
Proof.
  exact (synced_database prefix_hash sample_contracts (U 1) 10 demo_contents 11 demo_header (fun _ => True) tt
    (fun _ => fork_hash) 1 5 fork_db fork_view (MkIndexerStatus 0 0 0) (segment_logs demo_contents 10 block_hash 2)
    demo_stable Logic.I fork_represents fork_segment eq_refl (proj1 (Z.leb_le 10 11) eq_refl) (reflexivity _)).
Defined.

(** A commit that succeeds advances the canonical version of its chain by one and
    appends one [chain.block.processed] event that carries the new version, unless an event
    for that block hash exists already, in which case the outbox stays as it is; a
    commit that throws leaves every table as it was. *)
Theorem CommitBlock_event b logs st db r db' :
  CommitBlock b logs st db = (r, db') ->
  match r with
  | Ok _ => event_written (ToDecimal (ib_chainId b)) (block_event_id (ToDecimal (ib_chainId b)) (ib_hash b))
              (block_event b) db db'
  | Throw _ => db' = db
  end.
Proof. intros E. pose proof (CommitBlock_event_wp b logs st db) as H. unfold wp in H. rewrite E in H. by destruct r. Qed.

Lemma CommitBlock_event_witness :
  event_written (ToDecimal (U 1)) (block_event_id (ToDecimal (U 1)) fork_hash) (block_event fork_block) empty_db fork_db.
Proof.
  apply (CommitBlock_event fork_block [] (CreateInitialState sample_contracts) empty_db (Ok tt) fork_db).
  unfold fork_db. destruct (CommitBlock_run prefix_hash sample_contracts (U 1) 10 fork_block [] (CreateInitialState sample_contracts) empty_db
    (MkStoreView ∅ [] (CreateInitialState sample_contracts) None)) as (db' & E & H);
    [by apply empty_represents|done|done|done|done|by split; constructor|done|]. by rewrite E.
Defined.

(** A block that returns to the canonical chain after a reorganisation is committed under a
    new version without a new event. *)
Lemma returning_block_is_silent b logs st db db' :
  CommitBlock b logs st db = (Ok tt, db') ->
  (exists row, row ∈ db_outbox_events db /\ er_event_id row = block_event_id (ToDecimal (ib_chainId b)) (ib_hash b)) ->
  version_of (ToDecimal (ib_chainId b)) db' = version_of (ToDecimal (ib_chainId b)) db + 1
  /\ db_outbox_events db' = db_outbox_events db.
Proof.
  intros E (row & Hrow & Hid). pose proof (CommitBlock_event_wp b logs st db) as H. unfold wp in H. rewrite E in H.
  destruct H as [Hv Ho]. split; [done|]. rewrite Ho.
  assert (existsb (fun r => bool_decide (er_event_id r = block_event_id (ToDecimal (ib_chainId b)) (ib_hash b)))
    (db_outbox_events db) = true) as ->; [|done].
  apply existsb_true. exists row. split; [done|]. by apply bool_decide_eq_true.
Qed.
