(* ===== verification/IndexerSafety.v ===== *)
(** * IndexerSafety: the indexer while the chain moves

    The node may fail at any call, and its chain may change between any two calls; what it
    returns is true of the block it returns it for.  Whatever happens, the store holds the
    blocks, the logs and the derived state of one segment of one chain, except for the logs
    of the blocks that were replaced, between the answers to their header and to their logs,
    by one without logs: the indexer cannot tell, and commits such a block without its logs. *)

From S2P Require Import Prelude Effects Loop Text Json Sql Uint256 Hex Abi IndexerTypes RpcTypes StateProjector Indexer IndexerSync.
From S2P Require Import PostgresStore PostgresRefinement IndexerProperties.
Set Default Goal Selector "!".
#[local] Open Scope Z_scope.

(** ** The service ([indexer/src/Main.cpp]) *)

(** An iteration of the loop of [main]; what it returns only feeds the metrics and the log.
    One that runs out of fuel is undefined. *)
Definition indexer_iteration {S N} `{IndexerStore S} `{ChainClient N} (keccak : Bytes -> Hash256)
    (contracts : ChainContracts) (startBlock : Z) (fuel : nat) : prog (IxState S N) unit :=
  indexed ← SyncToHead keccak contracts startBlock fuel;
  match indexed with Some _ => mret tt | None => throw Undefined end.

(** ** A node whose chain moves *)

(** The header of a block: its hash commits to what it says. *)
Definition honest_header (chainId : Uint256) (c : BlockContents) (k : Z) (h : BlockHeader) : Prop :=
  value_ (bh_number h) = k -> wf_content chainId c k (bh_hash h) /\ content_parent c (bh_hash h) = bh_parentHash h.

(** The answer to a query for the logs of height [k], after the header [h]: the logs of that
    block, or of another one.  If the other one has no logs the answer does not show it;
    [raced] are the blocks this happens to. *)
Definition honest_logs (chainId : Uint256) (c : BlockContents) (raced : Hash256 -> Prop) (k : Z) (h : BlockHeader)
    (logs : list RpcLog) : Prop :=
  logs_of_block chainId c (fun _ => h) k logs
  \/ (exists log, log ∈ logs /\ lg_removed log = false /\ lg_blockHash log <> bh_hash h)
  \/ Forall (fun log => lg_removed log = true) logs /\ raced (bh_hash h).

(** [current w k] is the header last returned for the height [k].  Every call may fail; the
    logs are those of that header, or of another block. *)
Record HonestNode {N} `{ChainClient N} (chainId : Uint256) (c : BlockContents) (raced : Hash256 -> Prop)
    (current : N -> Z -> option BlockHeader) (I : N -> Prop) : Prop := {
  hn_id w : I w -> wp chain_GetChainId (fun id w' => id = chainId /\ I w') (fun _ => I) w;
  hn_head w : I w -> wp chain_GetBlockNumber (fun n w' => 0 <= n < 2 ^ 63 /\ I w') (fun _ => I) w;
  hn_block k w : 0 <= k < 2 ^ 63 -> I w -> wp (chain_GetBlockByNumber k)
    (fun block w' => I w' /\ forall h, block = Some h -> honest_header chainId c k h /\ current w' k = Some h) (fun _ => I) w;
  hn_logs k h w : 0 <= k < 2 ^ 63 -> I w -> current w k = Some h -> wp (chain_GetLogs k)
    (fun logs w' => I w' /\ honest_logs chainId c raced k h logs) (fun _ => I) w
}.

(** Logs that the node says are removed are skipped. *)
Lemma removed_logs_pass chainId k h logs :
  Forall (fun log => lg_removed log = true) logs ->
  map_result (raw_log chainId k h) (std_sort index_before logs) = Ok (replicate (length logs) None).
Proof.
  intros Hall. pose proof (std_sort_perm index_before logs) as Hp. rewrite <-(Permutation_length Hp). rewrite <-Hp in Hall.
  clear Hp. induction Hall as [|log logs' Hrem Hall IH]; [done|]. cbn [map_result length replicate].
  assert (raw_log chainId k h log = Ok None) as -> by (unfold raw_log; by rewrite Hrem).
  cbn [mbind result_bind]. by rewrite IH.
Qed.

Lemma removed_logs_checked chainId k h logs raw :
  Forall (fun log => lg_removed log = true) logs ->
  map_result (raw_log chainId k h) (std_sort index_before logs) = Ok raw -> omap id raw = [].
Proof.
  intros Hall. rewrite removed_logs_pass by done. intros [= <-]. by induction (length logs).
Qed.

(** The logs that pass the check of [IndexBlock] are those of the block, or none. *)
Lemma honest_logs_checked chainId c raced k h logs raw :
  honest_logs chainId c raced k h logs -> map_result (raw_log chainId k h) (std_sort index_before logs) = Ok raw ->
  omap id raw = content_logs c (bh_hash h) \/ omap id raw = [] /\ raced (bh_hash h).
Proof.
  intros [(raw' & E & Ec)|[(log & Hlog & Hrem & Hne)|[Hall Hr]]] E'; [left; congruence| |right; split; [|done]].
  - apply map_result_Forall2 in E'. rewrite <-(std_sort_perm index_before logs) in Hlog.
    apply list_elem_of_lookup_1 in Hlog as [i Hi]. destruct (Forall2_lookup_l _ _ _ _ _ E' Hi) as (o & _ & Eo).
    unfold raw_log in Eo. rewrite Hrem in Eo.
    destruct (ToUint64 (lg_blockNumber log)) as [number|e]; cbn [result_bind mbind] in Eo; [|discriminate Eo].
    rewrite (bool_decide_eq_false_2 (_ = _)) in Eo by done. cbn [negb] in Eo. rewrite orb_true_r in Eo. discriminate Eo.
  - by eapply removed_logs_checked.
Qed.

(** ** Blocks without their logs *)

(** The contents, but for the logs of the blocks [lost]. *)
Definition without_logs (lost : list Hash256) (c : BlockContents) : BlockContents :=
  MkBlockContents (content_number c) (content_parent c) (fun h => if decide (h ∈ lost) then [] else content_logs c h).

Lemma without_logs_in lost c h : h ∈ lost -> content_logs (without_logs lost c) h = [].
Proof. intros Hh. cbn [without_logs content_logs]. by rewrite decide_True. Qed.

Lemma without_logs_out lost c h : h ∉ lost -> content_logs (without_logs lost c) h = content_logs c h.
Proof. intros Hh. cbn [without_logs content_logs]. by rewrite decide_False. Qed.

(** Contents that differ in their logs only, at blocks outside the segment. *)
Section SameSegment.
Context (keccak : Bytes -> Hash256) (contracts : ChainContracts) (chainId : Uint256) (start : Z).
Context (c c' : BlockContents).
Context (Hnumber : content_number c = content_number c') (Hparent : content_parent c = content_parent c').

Lemma segment_logs_same f n :
  (forall k, start <= k < start + Z.of_nat n -> content_logs c (f k) = content_logs c' (f k)) ->
  segment_logs c start f n = segment_logs c' start f n.
Proof using.
  induction n as [|n IH]; intros E; [done|]. cbn [segment_logs]. rewrite IH, E; [done|lia|]. intros k Hk. apply E. lia.
Qed.

Lemma wf_content_same k h : content_logs c h = content_logs c' h -> wf_content chainId c k h -> wf_content chainId c' k h.
Proof using Hnumber. unfold wf_content. by intros -> [<- ?]; rewrite <-Hnumber. Qed.

Lemma holds_segment_same v f n :
  (forall k, start <= k < start + Z.of_nat n -> content_logs c (f k) = content_logs c' (f k)) ->
  holds_segment keccak contracts chainId start c v f n -> holds_segment keccak contracts chainId start c' v f n.
Proof using Hnumber Hparent.
  intros E [Hb Hl Hw Hlog Hs Hc]. constructor; [by rewrite <-Hparent|by rewrite <-Hparent| |..|done|done].
  - intros k Hk. apply wf_content_same; [by apply E|by apply Hw].
  - by rewrite <-(segment_logs_same f n).
Qed.
End SameSegment.

(** A chain none of whose blocks is among those without logs. *)
Lemma without_logs_stable {N} `{ChainClient N} keccak contracts chainId start c head hdr (I : N -> Prop) lost :
  StableChain keccak contracts chainId start c head hdr I -> (forall k, start <= k <= head -> bh_hash (hdr k) ∉ lost) ->
  StableChain keccak contracts chainId start (without_logs lost c) head hdr I.
Proof.
  intros [[Hr Hn Hp Hcp Hwf Hpr] Hid Hhead Hblock Hlogs] Hl.
  assert (forall k, start <= k <= head -> content_logs c (bh_hash (hdr k)) = content_logs (without_logs lost c) (bh_hash (hdr k))) as E.
  { intros k Hk. symmetry. by apply without_logs_out, Hl. }
  split; [split; try done|done..|].
  - intros k Hk. apply (wf_content_same chainId c); [done|by apply E|by apply Hwf].
  - intros n Hn'. rewrite <-(segment_logs_same start c); [by apply Hpr|]. intros k Hk. apply E. lia.
  - intros k w Hk Hw. destruct (Hlogs k w Hk Hw) as (logs & w' & ? & ? & raw & ? & Ec). exists logs, w'.
    split; [done|]. split; [done|]. exists raw. split; [done|]. rewrite Ec. by apply E.
Qed.

Section Moving.
Context {S N : Type} `{IndexerStore S} `{ChainClient N}.
Context (keccak : Bytes -> Hash256) (contracts : ChainContracts) (chainId : Uint256).
Context `{!LawfulIndexerStore S keccak contracts chainId}.
Context (start : Z) (c : BlockContents) (raced : Hash256 -> Prop) (current : N -> Z -> option BlockHeader) (I : N -> Prop).
Context (Hstart : 0 <= start < 2 ^ 63) (honest : HonestNode chainId c raced current I).

Abbreviation ST := (MkIxState (S := S) (N := N)).
(** Some segment is stored, whose heights fit the tables, without the logs of the blocks [lost]. *)
Definition segment (lost : list Hash256) (budget : nat) (f : Z -> Hash256) (n : nat) (s : S) : Prop :=
  Forall raced lost /\ stored keccak contracts chainId start (without_logs lost c) budget s f n /\ start + Z.of_nat n <= 2 ^ 63.
Definition sound (budget : nat) (st : IxState S N) : Prop :=
  I (ix_chain st) /\ exists lost f n, segment lost budget f n (ix_store st).

Lemma segment_less lost k budget f n s : segment lost (k + budget) f n s -> segment lost budget f n s.
Proof using. intros (? & Hs & ?). split; [done|]. split; [by eapply stored_less|done]. Qed.

Lemma sound_less k budget st : sound (k + budget) st -> sound budget st.
Proof using. intros (? & lost & f & n & Hs). split; [done|]. exists lost, f, n. by eapply segment_less. Qed.

Lemma segment_sound lost k budget f n s w t : segment lost (k + budget) f n s -> I w -> sound budget (ST s w t).
Proof using. intros Hs ?. split; [done|]. exists lost, f, n. by eapply segment_less. Qed.

(** A call of the node that throws leaves the store as it was. *)
Lemma ask_wp {A} lost (m : prog N A) (P : A -> N -> Prop) (Q : A -> IxState S N -> Prop) k budget f n s w t :
  segment lost (k + budget) f n s -> wp m P (fun _ => I) w -> (forall a w', P a w' -> Q a (ST s w' t)) ->
  wp (chain_call m) Q (fun _ => sound budget) (ST s w t).
Proof using.
  intros Hs Hm HQ. eapply call_wp; [exact Hm|exact HQ|]. intros e w' Hw'. by eapply segment_sound.
Qed.

Lemma find_ancestor_sound lost k budget f n j s t w :
  segment lost (k + budget) f n s -> I w -> (j < n)%nat ->
  wp (find_ancestor start chainId j)
    (fun a st' => exists w', st' = ST s w' t /\ I w' /\ stored_block chainId start (without_logs lost c) f (start + Z.of_nat j) a)
    (fun _ => sound budget) (ST s w t).
Proof using Hstart honest.
  intros Hs. pose proof Hs as (_ & (v & Hok & Hseg) & Hn). revert w. induction j as [|j IH]; intros w Hw Hj.
  all: cbn [find_ancestor]; apply wp_bind; eapply read_wp; [eapply law_block; [exact Hok|lia]|].
  all: apply wp_bind; eapply ask_wp; [exact Hs|apply (hn_block _ _ _ _ _ honest); [lia|done]|].
  all: intros block w1 [Hw1 _]; rewrite (hs_blocks _ _ _ _ _ _ _ _ Hseg), decide_True by lia.
  all: cbn [fmap option_fmap option_map fst snd ib_hash]; destruct block as [block|]; [case_bool_decide|].
  1,4: apply wp_ret; exists w1; split; [done|]; split; [done|]; cbn [stored_block ib_number]; split; [lia|done].
  1,2: by apply wp_ret; exists w1.
  1,2: eapply wp_mono; [apply IH; [done|lia]| |done].
  all: intros a st' (w2 & -> & Hw2 & Ha); exists w2; split; [done|]; split; [done|].
  all: destruct a as [b|]; [|done]; destruct Ha as [? ?]; split; [lia|done].
Qed.

Lemma FindCommonAncestor_sound lost k budget f n top s t w :
  segment lost (k + budget) f n s -> I w -> top < start + Z.of_nat n ->
  wp (FindCommonAncestor start chainId top)
    (fun a st' => exists w', st' = ST s w' t /\ I w' /\ stored_block chainId start (without_logs lost c) f top a)
    (fun _ => sound budget) (ST s w t).
Proof using Hstart honest.
  intros Hs Hw Htop. unfold FindCommonAncestor. destruct (Z.ltb_spec top start); [apply wp_ret; by exists w|].
  assert (top = start + Z.of_nat (Z.to_nat (top - start))) as E by lia.
  remember (Z.to_nat (top - start)) as j eqn:Ej. clear Ej. subst top. eapply find_ancestor_sound; [exact Hs|done|lia].
Qed.

(** Where the two places that rewind go from: to a stored block that the node has as well. *)
Lemma rewind_sound {A} lost budget f n top s t w (k : option IndexedBlock -> prog (IxState S N) A) (Q : A -> IxState S N -> Prop) :
  segment lost (Datatypes.S budget) f n s -> I w -> top < start + Z.of_nat n ->
  (forall a s' t' w', I w' -> stored_block chainId start (without_logs lost c) f top a -> segment lost budget f (height_of start a) s' ->
     wp (k a) Q (fun _ => sound budget) (ST s' w' t')) ->
  wp (ancestor ← FindCommonAncestor start chainId top; Rewind keccak contracts chainId ancestor;; k ancestor)
    Q (fun _ => sound budget) (ST s w t).
Proof using Hstart honest.
  intros Hs Hw Htop Hk. pose proof Hs as (Hlost & Hst & Hn). apply wp_bind.
  eapply wp_mono; [apply (FindCommonAncestor_sound lost 1 budget f n); [exact Hs|done|done]| |done].
  intros a st' (w1 & -> & Hw1 & Ha). apply wp_bind.
  eapply (Rewind_segment keccak contracts chainId start (without_logs lost c) budget f n top); [lia|done|lia|exact Hst|exact Ha| |].
  - intros s' t' Hs'. apply Hk; [done|done|]. split; [done|]. split; [done|].
    destruct a as [b|]; cbn [height_of]; [destruct Ha as [? _]; lia|lia].
  - intros e t' _ _. by eapply (segment_sound _ 1).
Qed.

(** The cursor of a segment. *)
Definition segment_cursor (f : Z -> Hash256) (n : nat) : option SyncCursor :=
  if decide (n = 0%nat) then None
  else Some (MkSyncCursor chainId (start + Z.of_nat n - 1) (f (start + Z.of_nat n - 1))).

Lemma ReconcileCursor_sound lost budget f n chainHead s t w :
  segment lost (Datatypes.S budget) f n s -> I w ->
  wp (ReconcileCursor keccak contracts start chainId chainHead)
    (fun cursor st' => exists s' n' t' w', st' = ST s' w' t' /\ I w' /\ segment lost budget f n' s' /\ cursor = segment_cursor f n')
    (fun _ => sound budget) (ST s w t).
Proof using Hstart honest.
  intros Hs Hw. pose proof Hs as (_ & (v & Hok & Hseg) & Hn). unfold ReconcileCursor. apply wp_bind. eapply read_wp; [by eapply law_cursor|].
  rewrite (hs_cursor _ _ _ _ _ _ _ _ Hseg). destruct (decide (n = 0%nat)) as [->|Hn0]; cbn [fmap option_fmap option_map fst snd].
  { apply wp_ret. exists s, 0%nat, t, w. split; [done|]. split; [done|]. split; [by apply (segment_less _ 1)|done]. }
  cbn [sc_blockNumber sc_blockHash]. apply wp_bind.
  assert (forall b w', I w' -> wp (if b : bool then mret (segment_cursor f n)
      else ancestor ← FindCommonAncestor start chainId (Z.min (start + Z.of_nat n - 1) chainHead);
           Rewind keccak contracts chainId ancestor;;
           mret (match ancestor with None => None | Some a => Some (MkSyncCursor chainId (ib_number a) (ib_hash a)) end))
    (fun cursor st' => exists s' n' t' w', st' = ST s' w' t' /\ I w' /\ segment lost budget f n' s' /\ cursor = segment_cursor f n')
    (fun _ => sound budget) (ST s w' t)) as Hrest.
  { intros [] w' Hw'.
    - apply wp_ret. exists s, n, t, w'. split; [done|]. split; [done|]. split; [by apply (segment_less _ 1)|done].
    - eapply (rewind_sound lost budget f n (Z.min (start + Z.of_nat n - 1) chainHead)); [exact Hs|done|lia|]. intros a s' t' w2 Hw2 Ha Hs'. apply wp_ret.
      exists s', (height_of start a), t', w2. split; [done|]. split; [done|]. split; [done|]. destruct a as [b|]; [|done].
      destruct Ha as [Hb Eb]. unfold segment_cursor. cbn [height_of]. rewrite decide_False by lia.
      replace (start + Z.of_nat _ - 1) with (ib_number b) by lia. by rewrite Eb at 2. }
  unfold segment_cursor in Hrest at 1. rewrite decide_False in Hrest by done.
  destruct (Z.leb_spec (start + Z.of_nat n - 1) chainHead); [|apply wp_ret; exact (Hrest false w Hw)].
  apply wp_bind. eapply (ask_wp _ _ _ _ 1); [exact Hs|apply (hn_block _ _ _ _ _ honest); [lia|done]|].
  intros block w1 [Hw1 _]. apply wp_ret. exact (Hrest _ w1 Hw1).
Qed.

(** A block beyond the segment may have its logs or not. *)
Lemma segment_lost lost lost' budget f n h s :
  segment lost budget f n s -> Forall raced lost' -> wf_content chainId c (start + Z.of_nat n) h ->
  (forall h', h' <> h -> h' ∈ lost' <-> h' ∈ lost) -> segment lost' budget f n s.
Proof using.
  intros (_ & (v & Hok & Hseg) & Hn) Hlost' Hh E. split; [done|]. split; [|done]. exists v. split; [done|].
  eapply (holds_segment_same _ _ _ _ (without_logs lost c)); [done|done| |exact Hseg]. intros k Hk.
  assert (f k <> h) as Hne.
  { intros Ek. destruct (hs_wf _ _ _ _ _ _ _ _ Hseg k Hk) as [Hnum _]. destruct Hh as [Hnum' _].
    cbn [without_logs content_number] in Hnum. rewrite Ek in Hnum. lia. }
  cbn [without_logs content_logs]. by rewrite (decide_ext _ _ _ _ (E (f k) Hne)).
Qed.

(** The block [h] is committed with the logs that pass the check. *)
Lemma IndexBlock_lost lost budget f n h logs s t w w' (Q : unit -> IxState S N -> Prop) :
  segment lost (Datatypes.S budget) f n s -> I w' -> start + Z.of_nat n < 2 ^ 63 ->
  next_header chainId start c f n h -> chain_GetLogs (start + Z.of_nat n) w = (Ok logs, w') ->
  (forall raw, map_result (raw_log chainId (start + Z.of_nat n) h) (std_sort index_before logs) = Ok raw ->
     omap id raw = content_logs (without_logs lost c) (bh_hash h)) ->
  (forall s', segment lost budget (extend start f n h) (Datatypes.S n) s' -> Q tt (ST s' w' t)) ->
  wp (IndexBlock keccak contracts chainId h) Q (fun _ => sound budget) (ST s w t).
Proof using Hstart.
  intros Hs Hw' Hk (? & Hwf & ? & ?) El Hraw HQ. pose proof Hs as (Hlost & Hst & _).
  eapply (IndexBlock_segment keccak contracts chainId start (without_logs lost c) budget f n h s t w
    (fun logs' w2 => logs' = logs /\ w2 = w') (fun _ _ => False)); [lia|done|exact Hst|..].
  - split; [done|]. split; [|done]. destruct Hwf as [? [HF HS]]. split; [done|]. cbn [without_logs content_logs].
    case_decide; [|done]. split; constructor.
  - unfold wp. by rewrite El.
  - intros ? ? raw [-> _]. apply Hraw.
  - intros ? ? s' [-> ->] Hs'. apply HQ. split; [done|]. split; [done|lia].
  - done.
  - intros ? ? e [_ ->] _. by eapply (segment_sound _ 1).
Qed.

Lemma IndexBlock_sound lost budget f n h s t w (Q : unit -> IxState S N -> Prop) :
  segment lost (Datatypes.S budget) f n s -> I w -> start + Z.of_nat n < 2 ^ 63 ->
  next_header chainId start c f n h -> current w (start + Z.of_nat n) = Some h ->
  (forall s' w' lost', I w' -> segment lost' budget (extend start f n h) (Datatypes.S n) s' -> Q tt (ST s' w' t)) ->
  wp (IndexBlock keccak contracts chainId h) Q (fun _ => sound budget) (ST s w t).
Proof using Hstart honest.
  intros Hs Hw Hk Hh Hc HQ. pose proof (hn_logs _ _ _ _ _ honest (start + Z.of_nat n) h w ltac:(lia) Hw Hc) as Hl. unfold wp in Hl.
  pose proof Hs as (Hlost & _). destruct (chain_GetLogs _ w) as [[logs|e] w'] eqn:El.
  - destruct Hl as [Hw' Hl].
    assert (exists lost', segment lost' (Datatypes.S budget) f n s /\ forall raw,
      map_result (raw_log chainId (start + Z.of_nat n) h) (std_sort index_before logs) = Ok raw ->
      omap id raw = content_logs (without_logs lost' c) (bh_hash h)) as (lost' & Hs' & Hraw).
    { destruct (map_result _ _) as [raw|e] eqn:Er; [|by exists lost]. pose proof Hh as (_ & Hwf & _).
      destruct (honest_logs_checked _ _ _ _ _ _ _ Hl Er) as [Ec|[Ec Hraced]].
      - exists (filter (.≠ bh_hash h) lost). split; [|intros ? [= <-]; rewrite without_logs_out; [done|]; by intros [? _]%list_elem_of_filter].
        eapply segment_lost; [exact Hs| |exact Hwf|]; [by apply list.Forall_forall; intros ? [_ Hin]%list_elem_of_filter; revert Hin; apply list.Forall_forall|]. intros h' Hne. rewrite list_elem_of_filter. by split; [intros [_ ?]|intros ?].
      - exists (bh_hash h :: lost). split; [|intros ? [= <-]; rewrite without_logs_in; [done|left]].
        eapply segment_lost; [exact Hs|by constructor|exact Hwf|]. intros h' Hne. rewrite elem_of_cons. by split; [intros [?|?]|right]. }
    eapply IndexBlock_lost; [exact Hs'|exact Hw'|done|done|exact El|exact Hraw|]. intros s'. by apply HQ.
  - destruct Hh as (Hnum & _). unfold IndexBlock. apply wp_bind.
    eapply (lift_Ok_wp _ (start + Z.of_nat n)); [apply ToUint64_Ok; lia|]. apply wp_bind.
    eapply (call_wp _ (fun _ _ => False) (fun _ w2 => w2 = w')); [unfold wp; by rewrite El|done|].
    intros ? ? ->. by eapply (segment_sound _ 1).
Qed.

Lemma segment_cursor_end f n : start + Z.of_nat n <= 2 ^ 63 ->
  (match segment_cursor f n with Some cur => sc_blockNumber cur =? 2 ^ 64 - 1 | None => false end) = false
  /\ (match segment_cursor f n with Some cur => u64 (sc_blockNumber cur + 1) | None => start end) = start + Z.of_nat n.
Proof using Hstart.
  intros Hn. unfold segment_cursor. destruct (decide (n = 0%nat)) as [->|]; cbn [sc_blockNumber]; [split; [done|lia]|].
  rewrite u64_small by lia. split; [apply Z.eqb_neq; lia|lia].
Qed.

Lemma sync_step_sound budget count st : sound (2 + budget) st ->
  wp (sync_step keccak contracts start chainId count) (fun _ => sound budget) (fun _ => sound budget) st.
Proof using Hstart honest.
  destruct st as [s w t]. intros (Hw & lost & f & n & Hs). cbn [ix_chain ix_store] in *. unfold sync_step.
  apply wp_bind. eapply (ask_wp _ _ _ _ 2); [exact Hs|by apply (hn_head _ _ _ _ _ honest)|]. intros head wa [Hhead Hwa].
  apply wp_bind, status_wp, wp_bind.
  eapply wp_mono; [apply (ReconcileCursor_sound lost (1 + budget) f n); [exact Hs|done]| |intros e st'; apply (sound_less 1)].
  intros cursor st' (s1 & n1 & t1 & w1 & -> & Hw1 & Hs1 & ->). pose proof Hs1 as (_ & _ & Hn1). apply wp_bind, status_wp.
  destruct (segment_cursor_end f n1 Hn1) as [-> ->]. cbv zeta. generalize (set_indexedBlock
    match segment_cursor f n1 with Some cur => sc_blockNumber cur | None => 0 end t1). intros t2.
  destruct (Z.ltb_spec head (start + Z.of_nat n1)); [by apply wp_ret; eapply (segment_sound _ 1)|].
  apply wp_bind. eapply (ask_wp _ _ _ _ 1); [exact Hs1|apply (hn_block _ _ _ _ _ honest); [lia|done]|].
  intros [header|] w2 [Hw2 Hh]; [|by apply wp_throw; eapply (segment_sound _ 1)]. destruct (Hh _ eq_refl) as [Hhonest Hcur].
  apply wp_bind, wp_lift; [|intros e _; by eapply (segment_sound _ 1)]. intros number [Hnum _]%ToUint64_Ok.
  destruct (Z.eqb_spec number (start + Z.of_nat n1)) as [->|]; cbn [negb]; [|by apply wp_throw; eapply (segment_sound _ 1)].
  assert ((n1 <> 0%nat -> bh_parentHash header = f (start + Z.of_nat n1 - 1)) -> forall m,
    wp (IndexBlock keccak contracts chainId header;; set_status (set_indexedBlock m);; mret (inr (u64 (count + 1)) : Z + Z))
      (fun _ => sound budget) (fun _ => sound budget) (ST s1 w2 t2)) as Hindex.
  { intros Hlink m. destruct (Hhonest (eq_sym Hnum)) as [Hwf Hpar]. apply wp_bind.
    eapply IndexBlock_sound; [exact Hs1|done|lia|by split; [|split; [|split]]|done|].
    intros s' w' lost' Hw' Hs'. apply wp_bind, status_wp, wp_ret. by eapply (segment_sound _ 0). }
  unfold segment_cursor. destruct (decide (n1 = 0%nat)) as [->|]; [by apply Hindex|]. cbn [sc_blockHash sc_blockNumber].
  case_bool_decide; cbn [negb]; [by apply Hindex|].
  eapply (rewind_sound lost budget f n1 (Z.min (start + Z.of_nat n1 - 1) head)); [exact Hs1|done|lia|].
  intros a s' t' w' Hw' _ Hs'. apply wp_ret. by eapply (segment_sound _ 0).
Qed.

Lemma sync_loop_sound budget fuel count st : sound (2 * fuel + budget) st ->
  wp (sync_loop keccak contracts start chainId fuel count) (fun _ => sound budget) (fun _ => sound budget) st.
Proof using Hstart honest.
  revert count st. induction fuel as [|fuel IH]; intros count st Hs; cbn [sync_loop]; [by apply wp_ret|].
  apply wp_bind. eapply wp_mono; [apply (sync_step_sound (2 * fuel + budget)); by replace (2 + _)%nat with (2 * Datatypes.S fuel + budget)%nat by lia| |].
  - intros [m|m] st' Hs'; [by apply wp_ret, (sound_less (2 * fuel))|by apply IH].
  - intros e st'. apply (sound_less (2 * fuel)).
Qed.

Lemma SyncToHead_sound budget fuel st : sound (2 * fuel + budget) st ->
  wp (SyncToHead keccak contracts start fuel) (fun _ => sound budget) (fun _ => sound budget) st.
Proof using Hstart honest.
  destruct st as [s w t]. intros Hs. pose proof Hs as (Hw & lost & f & n & Hseg). unfold SyncToHead. apply wp_bind.
  eapply (ask_wp _ _ _ _ (2 * fuel)); [exact Hseg|by apply (hn_id _ _ _ _ _ honest)|]. intros id w' [-> Hw'].
  apply sync_loop_sound. split; [done|]. by exists lost, f, n.
Qed.

Lemma indexer_iteration_sound budget fuel st : sound (2 * fuel + budget) st ->
  wp (indexer_iteration keccak contracts start fuel) (fun _ => sound budget) (fun _ => sound budget) st.
Proof using Hstart honest.
  intros Hs. unfold indexer_iteration. apply wp_bind. eapply wp_mono; [by apply SyncToHead_sound| |done].
  intros [m|] st' Hs'; [by apply wp_ret|by apply wp_throw].
Qed.
End Moving.

(** ** A chain that is reorganised while it is indexed *)

(** At first block 10 is that of another fork, and the first query for its logs fails; after
    the second the node is on the chain of the two blocks. *)
Definition fork_header : BlockHeader := MkBlockHeader (U 10) fork_hash (block_hash 9) (U 0) None.
Definition racing_header (w : nat) (k : Z) : option BlockHeader :=
  match w with
  | O => if (10 <=? k) && (k <=? 11) then Some (demo_header k) else None
  | _ => if k =? 10 then Some fork_header else None
  end.

#[local] Instance racing_chain : ChainClient nat := {
  chain_GetChainId w := (Ok (U 1), w);
  chain_GetBlockNumber w := (Ok (match w with O => 11 | _ => 10 end), w);
  chain_GetBlockByNumber k w := (Ok (racing_header w k), w);
  chain_GetLogs k w := match w with
    | O => (Ok (demo_logs k), O)
    | 1%nat => (Ok [], O)
    | S w => (Throw (RpcException Transport "timeout"), w)
    end
}.

Lemma fork_content : wf_content (U 1) demo_contents 10 fork_hash /\ content_parent demo_contents fork_hash = block_hash 9
  /\ content_logs demo_contents fork_hash = [].
Proof.
  pose proof (hs_wf _ _ _ _ _ _ _ _ fork_segment 10 ltac:(lia)). split; [done|]. split.
  - cbn [demo_contents content_parent]. f_equal; vm_compute; reflexivity.
  - cbn [demo_contents content_logs]. by rewrite bool_decide_eq_true_2.
Qed.

Lemma demo_honest k : 10 <= k <= 11 -> honest_header (U 1) demo_contents k (demo_header k).
Proof.
  intros Hk _. split; [by apply (cf_wf _ _ _ _ _ _ _ demo_facts)|by apply (cf_content_parent _ _ _ _ _ _ _ demo_facts)].
Qed.

Lemma racing_header_honest w k h : racing_header w k = Some h -> honest_header (U 1) demo_contents k h.
Proof.
  unfold racing_header. destruct w.
  - destruct (Z.leb_spec 10 k), (Z.leb_spec k 11); try discriminate. intros [= <-]. apply demo_honest. lia.
  - destruct (Z.eqb_spec k 10) as [->|]; [|discriminate]. intros [= <-] _. cbn [fork_header bh_hash bh_parentHash].
    by destruct fork_content as (? & ? & _).
Qed.

Lemma racing_honest : HonestNode (U 1) demo_contents (fun _ => False) racing_header (fun _ => True).
Proof.
  split.
  - done.
  - intros w _. unfold wp. cbn. split; [destruct w; lia|done].
  - intros k w _ _. unfold wp. cbn. split; [done|]. intros h Eh. split; [by eapply racing_header_honest|done].
  - intros k h w _ _ Eh. unfold wp. cbn. destruct w as [|[|w]]; [| |done]; (split; [done|]); left.
    + unfold racing_header in Eh. destruct (Z.leb_spec 10 k), (Z.leb_spec k 11); try discriminate Eh.
      injection Eh as <-. destruct (demo_logs_of_block k ltac:(lia)) as (raw & E & Ec). by exists raw.
    + unfold racing_header in Eh. destruct (Z.eqb_spec k 10) as [->|]; [|discriminate Eh]. injection Eh as <-.
      exists []. split; [reflexivity|]. symmetry. apply fork_content.
Qed.

Lemma racing_stable : StableChain prefix_hash sample_contracts (U 1) 10 demo_contents 11 demo_header (fun w : nat => w = O).
Proof.
  split.
  - exact demo_facts.
  - intros w ->. by exists O.
  - intros w ->. by exists O.
  - intros k w Hk ->. exists O. split; [|done]. cbn [chain_GetBlockByNumber racing_chain racing_header].
    by rewrite (proj2 (Z.leb_le 10 k)), (proj2 (Z.leb_le k 11)) by lia.
  - intros k w Hk ->. exists (demo_logs k), O. split; [done|]. split; [done|]. by apply demo_logs_of_block.
Qed.

(** Claim C2: whatever the node does while the service of the indexer runs (its chain may
    change between any two calls and every call may fail, as long as what it returns is true
    of the block it returns it for), the store holds the blocks, the logs and the derived
    state of one segment, but for the logs of some blocks [lost], each of them replaced by a
    block without logs between the answers to its header and to its logs; and when the chain
    then stands still and has none of these blocks, one [SyncToHead] ends with exactly that
    chain. *)
Theorem indexer_recovers {S N} `{IndexerStore S} `{ChainClient N} keccak contracts chainId
    `{!LawfulIndexerStore S keccak contracts chainId} start c raced current (I : N -> Prop)
    runOnce further fuel fuel' f n (s : S) v w status r st :
  0 <= start < 2 ^ 63 -> HonestNode chainId c raced current I -> I w ->
  represents (2 * fuel * Datatypes.S further + 2 * fuel') s v -> holds_segment keccak contracts chainId start c v f n ->
  start + Z.of_nat n <= 2 ^ 63 ->
  service_loop runOnce (indexer_iteration keccak contracts start fuel) further (MkIxState s w status) = (r, st) ->
  exists lost v' f' n', Forall raced lost /\ represents (2 * fuel') (ix_store st) v'
  /\ holds_segment keccak contracts chainId start (without_logs lost c) v' f' n'
  /\ forall head hdr (I' : N -> Prop) w',
    StableChain keccak contracts chainId start c head hdr I' -> I' w' -> Z.max 0 (head + 1 - start) + 1 < Z.of_nat fuel' ->
    (forall k, start <= k <= head -> bh_hash (hdr k) ∉ lost) ->
    exists s' v' status' count w'',
      SyncToHead keccak contracts start fuel' (MkIxState (ix_store st) w' (ix_status st)) = (Ok (Some count), MkIxState s' w'' status')
      /\ represents 0 s' v'
      /\ holds_segment keccak contracts chainId start c v' (fun k => bh_hash (hdr k)) (Z.to_nat (head + 1 - start)).
Proof.
  intros Hst Hh Hw Hr Hseg Hn E.
  pose proof (wp_service_loop runOnce (indexer_iteration keccak contracts start fuel) (2 * fuel)
    (sound keccak contracts chainId start c raced I) further (2 * fuel') (MkIxState s w status)) as Hl.
  unfold wp at 2 in Hl. rewrite E in Hl.
  assert (sound keccak contracts chainId start c raced I (2 * fuel') st) as (_ & lost & f' & n' & Hlost & Hs & _).
  { destruct r; (apply Hl; [apply sound_less|intros b st' Hb; by eapply indexer_iteration_sound|]).
    all: split; [done|]; exists [], f, n; split; [done|]; split; [exists v|done].
    all: split; [done|]; eapply (holds_segment_same _ _ _ _ c); [done..|exact Hseg]. }
  pose proof Hs as (v' & Hv' & Hseg'). exists lost, v', f', n'. split; [done|]. split; [done|]. split; [done|].
  intros head hdr I' w' Hstable Hw' Hf Hout.
  destruct (SyncToHead_run keccak contracts chainId start (without_logs lost c) head hdr I'
    (without_logs_stable _ _ _ _ _ _ _ _ _ Hstable Hout) f' n' fuel' (ix_store st) (ix_status st) w')
    as (s' & status' & count & w'' & E' & _ & v'' & ? & Hseg2); [done|done|done|]. exists s', v'', status', count, w''.
  split; [done|]. split; [done|]. eapply (holds_segment_same _ _ _ _ (without_logs lost c)); [done|done| |exact Hseg2].
  intros k Hk. apply without_logs_out, Hout. lia.
Qed.

Definition empty_view : StoreView := MkStoreView ∅ [] (CreateInitialState sample_contracts) None.
Lemma empty_segment f : holds_segment prefix_hash sample_contracts (U 1) 10 demo_contents empty_view f 0.
Proof.
  split; cbn [empty_view v_blocks v_logs v_state v_cursor]; try done; try lia.
  - intros k. rewrite decide_False by lia. apply lookup_empty.
  - intros k Hk. lia.
Qed.

Definition racing_run := service_loop (St := IxState IxDb nat) false (indexer_iteration prefix_hash sample_contracts 10 5) 1
  (MkIxState empty_db 2%nat (MkIndexerStatus 0 0 0)).

Lemma indexer_recovers_witness :
  (exists v' f' n', represents (LawfulIndexerStore := postgres_lawful prefix_hash sample_contracts (U 1)) 10 (ix_store racing_run.2) v'
     /\ holds_segment prefix_hash sample_contracts (U 1) 10 (without_logs [] demo_contents) v' f' n')
  /\ exists s' v' status' count w'',
      SyncToHead prefix_hash sample_contracts 10 5 (MkIxState (ix_store racing_run.2) O (ix_status racing_run.2))
        = (Ok (Some count), MkIxState s' w'' status')
      /\ represents (LawfulIndexerStore := postgres_lawful prefix_hash sample_contracts (U 1)) 0 s' v'
      /\ holds_segment prefix_hash sample_contracts (U 1) 10 demo_contents v' block_hash 2.
Proof.
  destruct (indexer_recovers prefix_hash sample_contracts (U 1) 10 demo_contents (fun _ => False) racing_header (fun _ => True)
    false 1 5 5 block_hash 0 empty_db empty_view 2%nat (MkIndexerStatus 0 0 0) racing_run.1 racing_run.2)
    as (lost & v' & f' & n' & Hlost & Hv & Hs & Hc).
  - lia.
  - exact racing_honest.
  - exact Logic.I.
  - by apply empty_represents.
  - exact (empty_segment block_hash).
  - lia.
  - apply surjective_pairing.
  - assert (lost = []) as -> by (destruct Hlost; done).
    split; [by exists v', f', n'|].
    refine (Hc 11 demo_header (fun w => w = O) O racing_stable eq_refl eq_refl _). intros k _. apply not_elem_of_nil.
Defined.

(** The service went through the fork: its second iteration indexed block 10 of the fork, and
    both blocks of the chain after it. *)
Lemma racing_run_reorganised : is_reorgs (ix_status racing_run.2) = 1 /\ is_indexedBlock (ix_status racing_run.2) = 11.
Proof. vm_compute. by split. Qed.

(** ** A block replaced while its logs are fetched *)

(** A pass that finds its cursor at the head of the chain has nothing to do. *)
Lemma SyncToHead_idle {S N} `{IndexerStore S} `{ChainClient N} keccak contracts chainId
    `{!LawfulIndexerStore S keccak contracts chainId} start c head hdr (I : N -> Prop) budget fuel (s : S) v w status :
  StableChain keccak contracts chainId start c head hdr I -> start <= head -> I w -> (0 < fuel)%nat ->
  represents budget s v -> v_cursor v = Some (head, bh_hash (hdr head)) ->
  exists w' status', SyncToHead keccak contracts start fuel (MkIxState s w status) = (Ok (Some 0), MkIxState s w' status') /\ I w'.
Proof.
  intros Hst Hh Hw Hf Hr Hc. destruct fuel as [|fuel]; [lia|]. pose proof (cf_range _ _ _ _ _ _ _ Hst).
  destruct (sc_id _ _ _ _ _ _ _ _ Hst w Hw) as (w1 & E1 & Hw1).
  destruct (sc_head _ _ _ _ _ _ _ _ Hst w1 Hw1) as (w2 & E2 & Hw2).
  destruct (sc_block _ _ _ _ _ _ _ _ Hst head w2) as (w3 & E3 & Hw3); [lia|done|].
  exists w3, (MkIndexerStatus head head (is_reorgs status)). split; [|done].
  assert (wp (SyncToHead keccak contracts start (Datatypes.S fuel))
    (fun r st => r = Some 0 /\ st = MkIxState s w3 (MkIndexerStatus head head (is_reorgs status))) (fun _ _ => False)
    (MkIxState s w status)) as Hx.
  { unfold SyncToHead. apply wp_bind.
    apply (call_wp _ (fun id w' => id = chainId /\ w' = w1) (fun _ _ => False)); [unfold wp; by rewrite E1| |done].
    intros ? ? [-> ->]. cbn [sync_loop]. apply wp_bind. unfold sync_step. apply wp_bind.
    apply (call_wp _ (fun n w' => n = head /\ w' = w2) (fun _ _ => False)); [unfold wp; by rewrite E2| |done].
    intros ? ? [-> ->]. apply wp_bind, status_wp, wp_bind. unfold ReconcileCursor. apply wp_bind.
    eapply read_wp; [by eapply law_cursor|]. rewrite Hc. cbn [fmap option_fmap option_map fst snd sc_blockNumber sc_blockHash].
    rewrite (proj2 (Z.leb_le head head)) by lia. do 2 apply wp_bind.
    apply (call_wp _ (fun b w' => b = Some (hdr head) /\ w' = w3) (fun _ _ => False)); [unfold wp; by rewrite E3| |done].
    intros ? ? [-> ->]. apply wp_ret. rewrite bool_decide_eq_true_2 by done. apply wp_ret.
    apply wp_bind, status_wp. cbn [sc_blockNumber]. rewrite (proj2 (Z.eqb_neq head (2 ^ 64 - 1))) by lia. cbv zeta.
    rewrite u64_small, (proj2 (Z.ltb_lt head (head + 1))) by lia. by do 2 apply wp_ret. }
  unfold wp in Hx. destruct (SyncToHead _ _ _ _ _) as [[r|e] st]; [|done]. by destruct Hx as [-> ->].
Qed.

(** Claim C35: [IndexBlock] asks for the logs of a height and notices another block only by a
    log it returns.  A head block that is replaced, for the moment of that query, by one
    without logs is committed without its own: [IndexBlock] succeeds, the cursor is that
    block, none of its logs is among those the store has, and as long as it stays the head
    every later pass returns at once and changes nothing, although the node has the logs. *)
Theorem replaced_block_loses_logs {S N} `{IndexerStore S} `{ChainClient N} keccak contracts chainId
    `{!LawfulIndexerStore S keccak contracts chainId} start c head hdr (I : N -> Prop) budget (s : S) v w w' status answer :
  StableChain keccak contracts chainId start c head hdr I -> start <= head ->
  represents (Datatypes.S budget) s v ->
  holds_segment keccak contracts chainId start c v (fun k => bh_hash (hdr k)) (Z.to_nat (head - start)) ->
  chain_GetLogs head w = (Ok answer, w') -> Forall (fun log => lg_removed log = true) answer ->
  exists s' logs, IndexBlock keccak contracts chainId (hdr head) (MkIxState s w status) = (Ok tt, MkIxState s' w' status)
    /\ ix_LoadCursor chainId s' = Ok (Some (MkSyncCursor chainId head (bh_hash (hdr head))))
    /\ ix_LoadCanonicalLogsThrough chainId head s' = Ok logs
    /\ logs ≡ₚ segment_logs c start (fun k => bh_hash (hdr k)) (Z.to_nat (head - start))
    /\ (forall log, log ∈ content_logs c (bh_hash (hdr head)) -> log ∉ logs)
    /\ forall fuel w1 status1, I w1 -> (0 < fuel)%nat ->
       exists w2 status2, SyncToHead keccak contracts start fuel (MkIxState s' w1 status1) = (Ok (Some 0), MkIxState s' w2 status2) /\ I w2.
Proof.
  intros Hst Hh Hr Hseg El Hrem. pose proof (cf_range _ _ _ _ _ _ _ Hst). set (n := Z.to_nat (head - start)) in *.
  set (f := fun k => bh_hash (hdr k)) in *. set (c' := without_logs [bh_hash (hdr head)] c).
  assert (start + Z.of_nat n = head) as En by lia.
  assert (content_logs c' (bh_hash (hdr head)) = []) as Hempty by (apply without_logs_in; left).
  assert (forall k, start <= k < start + Z.of_nat n -> content_logs c (f k) = content_logs c' (f k)) as Esame.
  { intros k Hk. symmetry. apply without_logs_out. rewrite list_elem_of_singleton. intros Ek.
    destruct (cf_wf _ _ _ _ _ _ _ Hst k) as [E1 _]; [lia|]. destruct (cf_wf _ _ _ _ _ _ _ Hst head) as [E2 _]; [lia|].
    unfold f in Ek. rewrite Ek in E1. lia. }
  assert (segment_logs c' start (extend start f n (hdr head)) (Datatypes.S n) = segment_logs c start f n) as Elogs.
  { cbn [segment_logs]. rewrite (segment_logs_ext start c' _ f) by (intros k Hk; unfold extend; by rewrite decide_False by lia).
    unfold extend. rewrite decide_True, Hempty, app_nil_r by done.
    symmetry. by apply segment_logs_same. }
  assert (wp (IndexBlock keccak contracts chainId (hdr head)) (fun _ st => exists s', st = MkIxState s' w' status
    /\ stored keccak contracts chainId start c' budget s' (extend start f n (hdr head)) (Datatypes.S n)) (fun _ _ => False)
    (MkIxState s w status)) as Hx.
  { apply (IndexBlock_segment keccak contracts chainId start c' budget f n (hdr head) s status w
      (fun logs w2 => logs = answer /\ w2 = w') (fun _ _ => False)); rewrite ?En; [lia|lia|..].
    - exists v. split; [done|]. by eapply (holds_segment_same _ _ _ _ c).
    - split; [rewrite En; by apply (cf_number _ _ _ _ _ _ _ Hst)|]. split; [|split].
      + rewrite En. split; [by apply (cf_wf _ _ _ _ _ _ _ Hst)|].
        rewrite Hempty. split; constructor.
      + by apply (cf_content_parent _ _ _ _ _ _ _ Hst).
      + intros Hn. rewrite En. apply (cf_parent _ _ _ _ _ _ _ Hst). lia.
    - unfold wp. by rewrite El.
    - intros logs w2 raw [-> _] Er. rewrite Hempty.
      by apply (removed_logs_checked _ _ _ _ _ Hrem Er).
    - intros logs w2 s' [_ ->] Hs'. by exists s'.
    - done.
    - intros logs w2 e [-> _] [Et|(logs' & Hp & Et)].
      + by rewrite (removed_logs_pass _ _ _ _ Hrem) in Et.
      + rewrite Elogs in Hp. apply (chain_projects keccak contracts chainId start c head hdr _ _
          (stable_answers _ _ _ _ _ _ _ _ Hst) n e); [lia|]. by exists logs'. }
  unfold wp in Hx. destruct (IndexBlock _ _ _ _ _) as [[[]|e] st]; [|done]. destruct Hx as (s' & -> & v' & Hr' & Hseg').
  destruct (law_logs budget head s' v' Hr') as (logs & EL & HL); [lia|]. exists s', logs.
  assert (logs ≡ₚ segment_logs c start f n) as HL'.
  { rewrite HL, <-Elogs, <-(segment_logs_through chainId start c' _ (Datatypes.S n) (Datatypes.S n)) by (apply Hseg' || lia).
    unfold logs_through. rewrite (hs_logs _ _ _ _ _ _ _ _ Hseg'). by replace (start + Z.of_nat (Datatypes.S n) - 1) with head by lia. }
  assert (v_cursor v' = Some (head, bh_hash (hdr head))) as Hc.
  { rewrite (hs_cursor _ _ _ _ _ _ _ _ Hseg'), decide_False by lia. unfold extend. rewrite decide_True by lia. by repeat f_equal; lia. }
  split; [done|]. split; [rewrite (law_cursor _ _ _ Hr'); by rewrite Hc|]. split; [done|]. split; [done|]. split.
  - intros log Hlog. rewrite HL'. intros [_ Hin]%(segment_logs_range chainId); [|intros k Hk; apply (cf_wf _ _ _ _ _ _ _ Hst); lia].
    destruct (cf_wf _ _ _ _ _ _ _ Hst head) as (_ & HF & _); [lia|]. rewrite list.Forall_forall in HF.
    destruct (HF _ Hlog) as (_ & Hb & _). lia.
  - intros fuel w1 status1 Hw1 Hfuel. by eapply SyncToHead_idle.
Qed.

(** A node with the block 10, which, after it has returned its header, leaves it for a block
    without logs, answers the query for the logs of that block, and returns to it. *)
#[local] Instance lossy_chain : ChainClient bool := {
  chain_GetChainId w := (Ok (U 1), w);
  chain_GetBlockNumber w := (Ok 10, w);
  chain_GetBlockByNumber k w := (Ok (racing_header O k), w);
  chain_GetLogs k w := if w then (Ok [], false) else (Ok (demo_logs k), w)
}.

Lemma ChainFacts_shorter keccak contracts chainId start c head head' hdr :
  ChainFacts keccak contracts chainId start c head hdr -> head' <= head -> ChainFacts keccak contracts chainId start c head' hdr.
Proof.
  intros [Hr Hn Hp Hcp Hwf Hpr] Hle.
  split; [lia|intros; apply Hn; lia|intros; apply Hp; lia|intros; apply Hcp; lia|intros; apply Hwf; lia|intros; apply Hpr; lia].
Qed.

Lemma lossy_stable : StableChain prefix_hash sample_contracts (U 1) 10 demo_contents 10 demo_header (fun w : bool => w = false).
Proof.
  split.
  - by eapply ChainFacts_shorter; [exact demo_facts|].
  - intros w ->. by exists false.
  - intros w ->. by exists false.
  - intros k w Hk ->. replace k with 10 by lia. by exists false.
  - intros k w Hk ->. exists (demo_logs k), false. split; [done|]. split; [done|]. apply demo_logs_of_block. lia.
Qed.

Definition lossy_start : IxState IxDb bool := MkIxState empty_db true (MkIndexerStatus 0 0 0).

Lemma replaced_block_loses_logs_witness :
  (exists log, log ∈ content_logs demo_contents (block_hash 10))
  /\ exists s' logs, IndexBlock prefix_hash sample_contracts (U 1) (demo_header 10) lossy_start
      = (Ok tt, MkIxState s' false (MkIndexerStatus 0 0 0))
    /\ LoadCursor (U 1) s' = Ok (Some (MkSyncCursor (U 1) 10 (block_hash 10)))
    /\ LoadCanonicalLogsThrough (U 1) 10 s' = Ok logs
    /\ logs ≡ₚ []
    /\ (forall log, log ∈ content_logs demo_contents (block_hash 10) -> log ∉ logs)
    /\ forall fuel w1 status1, w1 = false -> (0 < fuel)%nat ->
       exists w2 status2, SyncToHead prefix_hash sample_contracts 10 fuel (MkIxState s' w1 status1)
         = (Ok (Some 0), MkIxState s' w2 status2) /\ w2 = false.
Proof.
  split.
  - rewrite demo_content, demo_logs_10 by lia. eexists. cbn [take sample_logs]. left.
  - refine (replaced_block_loses_logs prefix_hash sample_contracts (U 1) 10 demo_contents 10 demo_header (fun w => w = false)
      0 empty_db empty_view true false (MkIndexerStatus 0 0 0) [] lossy_stable _ _ (empty_segment _) _ _).
    + lia.
    + by apply empty_represents.
    + reflexivity.
    + constructor.
Defined.

(** The whole pass of the service that indexes the block. *)
Lemma lossy_pass_succeeds : let st := (SyncToHead prefix_hash sample_contracts 10 5 lossy_start) in
  st.1 = Ok (Some 1) /\ (SyncToHead prefix_hash sample_contracts 10 5 st.2).1 = Ok (Some 0).
Proof. cbv zeta. split; vm_compute; reflexivity. Qed.
