(* ===== verification/RpcChainClient.v ===== *)
(** * RpcChainClient: the chain through several endpoints ([RpcChainClient.hpp], [RpcChainClient.cpp])

    The client asks the endpoint that answered last, and fails over to another one only when that
    one serves the same chain and still has the last block the client has seen.  The
    theorems show what a failover has checked, and that the indexer converges to the chain
    through endpoints of which all but one may fail at any time. *)

From S2P Require Import Prelude Effects Text Uint256 Hex Abi RpcTypes IndexerTypes StateProjector Indexer IndexerSync.
From S2P Require Import PostgresStore PostgresRefinement Failover IndexerProperties.
Set Default Goal Selector "!".
#[local] Open Scope Z_scope.

(** The mutable members of [Impl], and the outside world the endpoints share. *)
Record ChainPool (N : Type) := MkChainPool {
  cp_activeIndex : nat;
  cp_chainId : option Uint256;
  cp_checkpoint : option BlockHeader;
  cp_net : N
}.
Arguments MkChainPool {N} _ _ _ _.
Arguments cp_activeIndex {N} _.
Arguments cp_chainId {N} _.
Arguments cp_checkpoint {N} _.
Arguments cp_net {N} _.

(** The comparison of the [std::sort] in [GetLogs]. *)
Definition log_index_before (left right : RpcLog) : bool := u_ltb (lg_logIndex left) (lg_logIndex right).

Section Client.
Context {N : Type} (clients_ : list (RpcCalls N)) (contracts_ : ChainContracts).

Abbreviation M := (prog (ChainPool N)).

Definition set_activeIndex (index : nat) (st : ChainPool N) : ChainPool N :=
  MkChainPool index (cp_chainId st) (cp_checkpoint st) (cp_net st).
Definition set_chainId (chainId : Uint256) (st : ChainPool N) : ChainPool N :=
  MkChainPool (cp_activeIndex st) (Some chainId) (cp_checkpoint st) (cp_net st).
Definition set_checkpoint (block : BlockHeader) (st : ChainPool N) : ChainPool N :=
  MkChainPool (cp_activeIndex st) (cp_chainId st) (Some block) (cp_net st).

(** A call of [*clients_[index]]. *)
Definition on_client {A} (index : nat) (operation : RpcCalls N -> prog N A) : M A := fun st =>
  match clients_ !! index with
  | Some client =>
      let '(r, net) := operation client (cp_net st) in
      (r, MkChainPool (cp_activeIndex st) (cp_chainId st) (cp_checkpoint st) net)
  | None => (Throw Undefined, st)
  end.

Definition ValidateCandidate (index : nat) : M unit :=
  st ← get;
  if bool_decide (index = cp_activeIndex st) && bool_decide (is_Some (cp_chainId st)) then mret tt
  else
    candidateChainId ← on_client index (@client_GetChainId N);
    match cp_chainId st with
    | None => modify (set_chainId candidateChainId)
    | Some chainId =>
        if u_neb candidateChainId chainId
        then throw (RuntimeError "RPC failover candidate belongs to a different chain") else mret tt
    end;;
    match cp_checkpoint st with
    | Some checkpoint =>
        if bool_decide (index = cp_activeIndex st) then mret tt
        else
          candidateBlock ← on_client index (fun c => @client_GetBlockByNumber N c (bh_number checkpoint));
          if bool_decide ((bh_hash <$> candidateBlock) = Some (bh_hash checkpoint)) then mret tt
          else throw (RuntimeError "RPC failover candidate has a different canonical block")
    | None => mret tt
    end.

Definition Execute {A} (operation : RpcCalls N -> prog N A) : M A :=
  st ← get;
  ExecuteFrom ValidateCandidate (fun index => on_client index operation) set_activeIndex (cp_activeIndex st)
    (length clients_).

Definition UpdateCheckpoint (block : option BlockHeader) : M unit :=
  match block with Some block => modify (set_checkpoint block) | None => mret tt end.

Definition GetChainId : M Uint256 := Execute (@client_GetChainId N).

Definition GetBlockNumber : M Z :=
  Execute (fun client => number ← @client_GetBlockNumber N client; lift (ToUint64 number)).

Definition GetBlockByNumber (number : Z) : M (option BlockHeader) :=
  block ← Execute (fun client => @client_GetBlockByNumber N client (U number));
  UpdateCheckpoint block;;
  mret block.

(** The filter of the logs one contract emits in one block. *)
Definition block_filter (number : Z) (address : Address) : LogFilter :=
  MkLogFilter (Some (U number)) (Some (U number)) (Some address) [].

Definition GetLogs (blockNumber : Z) : M (list RpcLog) :=
  result ← Execute (fun client =>
    logs ← @client_GetLogs N client (block_filter blockNumber (cc_pool contracts_));
    oracleLogs ← @client_GetLogs N client (block_filter blockNumber (cc_oracle contracts_));
    mret (logs ++ oracleLogs));
  mret (std_sort log_index_before result).

Definition rpc_chain_client : ChainClient (ChainPool N) := {|
  chain_GetChainId := GetChainId;
  chain_GetBlockNumber := GetBlockNumber;
  chain_GetBlockByNumber := GetBlockByNumber;
  chain_GetLogs := GetLogs
|}.
End Client.

(** ** What a failover has checked *)

Section Checked.
Context {N : Type} (clients_ : list (RpcCalls N)).

Definition set_net (net : N) (st : ChainPool N) : ChainPool N :=
  MkChainPool (cp_activeIndex st) (cp_chainId st) (cp_checkpoint st) net.

Lemma wp_on_client {A} index (operation : RpcCalls N -> prog N A) (Q : A -> ChainPool N -> Prop) E st :
  (forall client, clients_ !! index = Some client ->
     wp (operation client) (fun a net => operation client (cp_net st) = (Ok a, net) -> Q a (set_net net st))
       (fun e net => E e (set_net net st)) (cp_net st)) ->
  (clients_ !! index = None -> E Undefined st) ->
  wp (on_client clients_ index operation) Q E st.
Proof using.
  intros HQ HE. unfold wp, on_client in *. destruct (clients_ !! index) as [client|]; [|by apply HE].
  specialize (HQ client eq_refl). destruct (operation client (cp_net st)) as [[a|e] net]; auto.
Qed.

(** Nothing but the chain id and the outside world changes while endpoints are tried. *)
Definition only_validated (st st' : ChainPool N) : Prop :=
  cp_activeIndex st' = cp_activeIndex st /\ cp_checkpoint st' = cp_checkpoint st
  /\ (is_Some (cp_chainId st) -> cp_chainId st' = cp_chainId st).

(** What [ValidateCandidate] has asked an endpoint it accepts. *)
Definition accepted (index : nat) (st st' : ChainPool N) : Prop :=
  is_Some (cp_chainId st')
  /\ (index <> cp_activeIndex st \/ cp_chainId st = None ->
      exists client id net, clients_ !! index = Some client
        /\ @client_GetChainId N client (cp_net st) = (Ok id, net) /\ cp_chainId st' = Some id
        /\ (index <> cp_activeIndex st -> forall checkpoint, cp_checkpoint st = Some checkpoint ->
            exists block, @client_GetBlockByNumber N client (bh_number checkpoint) net = (Ok (Some block), cp_net st')
              /\ bh_hash block = bh_hash checkpoint)).

Lemma only_validated_refl st : only_validated st st.
Proof using. by repeat split. Qed.
Lemma only_validated_net net st : only_validated st (set_net net st).
Proof using. by repeat split. Qed.
Hint Resolve only_validated_refl only_validated_net : core.

(** The test of the checkpoint, after the chain id has been seen. *)
Lemma checkpoint_wp index client id net (st : ChainPool N) (Q : unit -> ChainPool N -> Prop) E :
  clients_ !! index = Some client ->
  (forall net', let st' := MkChainPool (cp_activeIndex st) (Some id) (cp_checkpoint st) net' in
     (index <> cp_activeIndex st -> forall checkpoint, cp_checkpoint st = Some checkpoint ->
        exists block, @client_GetBlockByNumber N client (bh_number checkpoint) net = (Ok (Some block), net')
          /\ bh_hash block = bh_hash checkpoint) -> Q tt st') ->
  (forall e net', E e (MkChainPool (cp_activeIndex st) (Some id) (cp_checkpoint st) net')) ->
  wp (match cp_checkpoint st with
      | Some checkpoint =>
          if bool_decide (index = cp_activeIndex st) then mret tt
          else
            candidateBlock ← on_client clients_ index (fun c => @client_GetBlockByNumber N c (bh_number checkpoint));
            if bool_decide ((bh_hash <$> candidateBlock) = Some (bh_hash checkpoint)) then mret tt
            else throw (RuntimeError "RPC failover candidate has a different canonical block")
      | None => mret tt
      end) Q E (MkChainPool (cp_activeIndex st) (Some id) (cp_checkpoint st) net).
Proof using.
  intros Hc HQ HE. destruct (cp_checkpoint st) as [checkpoint|] eqn:Ecp.
  - case_bool_decide as Ei; [by apply wp_ret, HQ|]. apply wp_bind, wp_on_client; [|congruence].
    intros client' Hc'. assert (client' = client) as -> by congruence. cbn [cp_net]. unfold wp.
    destruct (client_GetBlockByNumber (bh_number checkpoint) net) as [[block|e] net'] eqn:Eb; [|apply HE].
    intros _. case_bool_decide as Eh; [|apply HE].
    destruct block as [block|]; [|discriminate Eh]. injection Eh as Eh.
    apply HQ. intros _ cp [= <-]. by exists block.
  - by apply wp_ret, HQ.
Qed.

Lemma ValidateCandidate_wp index st :
  wp (ValidateCandidate clients_ index) (fun _ st' => only_validated st st' /\ accepted index st st')
    (fun _ st' => only_validated st st') st.
Proof using.
  unfold ValidateCandidate. apply wp_bind, wp_get.
  destruct (bool_decide (index = cp_activeIndex st) && bool_decide (is_Some (cp_chainId st))) eqn:Eq.
  - apply wp_ret. split; [done|]. boolify. split; [done|]. intros [? | E]; [done|].
    match goal with H : is_Some _ |- _ => rewrite E in H; by destruct H end.
  - clear Eq. apply wp_bind, wp_on_client; [|done]. intros client Hc. unfold wp at 1.
    destruct (client_GetChainId (cp_net st)) as [[id|e] net] eqn:Eid; [|auto]. intros _.
    apply wp_bind. destruct (cp_chainId st) as [chainId|] eqn:Ech.
    + destruct (u_neb id chainId) eqn:En; [by apply wp_throw, only_validated_net|]. apply wp_ret.
      assert (id = chainId) as -> by (by apply uval_inj, Z.eqb_eq, negb_false_iff). unfold set_net. rewrite Ech.
      apply (checkpoint_wp index client); [done| |].
      * intros net' Hcp. split; [repeat split; cbn; congruence|]. split; [done|]. intros _.
        by exists client, chainId, net.
      * intros e net'. repeat split; cbn. congruence.
    + apply wp_modify. unfold set_chainId, set_net. cbn [cp_activeIndex cp_checkpoint cp_net].
      apply (checkpoint_wp index client); [done| |].
      * intros net' Hcp. split; [repeat split; cbn; rewrite Ech; by intros []|]. split; [done|]. intros _.
        by exists client, id, net.
      * intros e net'. repeat split; cbn. rewrite Ech. by intros [].
Qed.

Lemma only_validated_trans st1 st2 st3 : only_validated st1 st2 -> only_validated st2 st3 -> only_validated st1 st3.
Proof using.
  intros (Ha & Hc & Hi) (Ha' & Hc' & Hi'). split; [congruence|]. split; [congruence|].
  intros Hs. rewrite Hi'; [by apply Hi|]. by rewrite Hi.
Qed.

Abbreviation try_client operation :=
  (attempt (ValidateCandidate clients_) (fun index => on_client clients_ index operation) set_activeIndex).

(** An attempt that answers: the endpoint was accepted, and it has answered the call. *)
Lemma attempt_wp {A} index (operation : RpcCalls N -> prog N A) st :
  wp (try_client operation index)
    (fun a st' => exists st1, only_validated st st1 /\ accepted index st st1 /\ cp_activeIndex st' = index
       /\ cp_chainId st' = cp_chainId st1 /\ cp_checkpoint st' = cp_checkpoint st1
       /\ exists client, clients_ !! index = Some client /\ operation client (cp_net st1) = (Ok a, cp_net st'))
    (fun _ st' => only_validated st st') st.
Proof using.
  unfold attempt. apply wp_bind. eapply wp_mono; [apply ValidateCandidate_wp| |done].
  intros [] st1 [Hv Ha]. apply wp_bind, wp_on_client.
  - intros client Hc. unfold wp at 1. destruct (operation client (cp_net st1)) as [[a|e] net] eqn:Eo.
    + intros _. apply wp_bind, wp_modify, wp_ret. exists st1. repeat (split; [done|]). by exists client.
    + eapply only_validated_trans; [exact Hv|apply only_validated_net].
  - intros _. exact Hv.
Qed.

Lemma tried_validated {A} (operation : RpcCalls N -> prog N A) order st st' :
  tried (ValidateCandidate clients_) (fun index => on_client clients_ index operation) set_activeIndex order st st' ->
  only_validated st st'.
Proof using.
  induction 1 as [|index order e st st1 st2 Ha _ IH]; [done|].
  pose proof (attempt_wp index operation st) as Hw. unfold wp in Hw. rewrite Ha in Hw. by eapply only_validated_trans.
Qed.
End Checked.

(** Claim C40: a call through the endpoints either returns what one of them answered, which is then the active
    endpoint, or throws after all of them failed and leaves the active endpoint as it was.  The
    chain id never changes once it is known, and an endpoint that was not active before has
    reported it and has shown the last block the client has seen. *)
Theorem failover_checked {N A} (clients : list (RpcCalls N)) (operation : RpcCalls N -> prog N A) st :
  match Execute clients operation st with
  | (Ok a, st') => exists client net,
      clients !! cp_activeIndex st' = Some client /\ operation client net = (Ok a, cp_net st')
      /\ cp_checkpoint st' = cp_checkpoint st /\ is_Some (cp_chainId st')
      /\ (is_Some (cp_chainId st) -> cp_chainId st' = cp_chainId st)
      /\ (cp_activeIndex st' <> cp_activeIndex st -> exists id net0 net1,
           @client_GetChainId N client net0 = (Ok id, net1) /\ cp_chainId st' = Some id
           /\ forall checkpoint, cp_checkpoint st = Some checkpoint -> exists block,
                @client_GetBlockByNumber N client (bh_number checkpoint) net1 = (Ok (Some block), net)
                /\ bh_hash block = bh_hash checkpoint)
  | (Throw _, st') =>
      cp_activeIndex st' = cp_activeIndex st /\ cp_checkpoint st' = cp_checkpoint st
      /\ (is_Some (cp_chainId st) -> cp_chainId st' = cp_chainId st)
  end.
Proof.
  change (Execute clients operation st) with (ExecuteFrom (ValidateCandidate clients)
    (fun index => on_client clients index operation) set_activeIndex (cp_activeIndex st) (length clients) st).
  unfold ExecuteFrom. set (order := ring _ _).
  pose proof (attempts_spec (ValidateCandidate clients) (fun index => on_client clients index operation) set_activeIndex
    order Undefined st) as Hspec.
  destruct (attempts _ _ _ order Undefined st) as [[a|e] st'].
  - destruct Hspec as (before & index & after & st1 & _ & Ht%tried_validated & Ei).
    pose proof (attempt_wp clients index operation st1) as Hw. unfold wp in Hw. rewrite Ei in Hw.
    destruct Hw as (st2 & Hv & [Hid Hacc] & Ea & Ec & Ecp & client & Hc & Eo).
    destruct (only_validated_trans _ _ _ Ht Hv) as (Ha2 & Hcp2 & Hid2). destruct Ht as (Ha1 & Hcp1 & Hid1).
    exists client, (cp_net st2). rewrite Ea, Ec, Ecp. repeat (split; [done|]). intros Hne.
    destruct Hacc as (client' & id & net & Hc' & Eid & Echain & Hblock); [left; congruence|].
    assert (client' = client) as -> by congruence. exists id, (cp_net st1), net. split; [done|]. split; [done|].
    intros checkpoint Hcp. apply Hblock; [congruence|]. by rewrite Hcp1.
  - destruct Hspec as [Ht _]. by apply tried_validated in Ht.
Qed.

(** ** Endpoints that serve one chain, or another *)

Section Serving.
Context {N : Type} (keccak : Bytes -> Hash256) (contracts : ChainContracts) (chainId : Uint256).
Context (start : Z) (c : BlockContents) (head : Z) (hdr : Z -> BlockHeader).
Context (pool_logs oracle_logs : Z -> list RpcLog).
(** Reachable states of the outside world. *)
Context (J : N -> Prop).

(** A call that returns only the truth; [E] says whether it may throw. *)
Definition truthful (E : exn -> N -> Prop) {A} (call : prog N A) (truth : A -> Prop) : Prop :=
  forall net, J net -> wp call (fun a net' => truth a /\ J net') E net.

Record Serves (E : exn -> N -> Prop) (client : RpcCalls N) : Prop := {
  sv_id : truthful E (@client_GetChainId N client) (fun id => id = chainId);
  sv_head : truthful E (@client_GetBlockNumber N client) (fun n => n = U head);
  sv_block k : start <= k <= head ->
    truthful E (@client_GetBlockByNumber N client (U k)) (fun block => block = Some (hdr k));
  sv_pool k : start <= k <= head ->
    truthful E (@client_GetLogs N client (block_filter k (cc_pool contracts))) (fun logs => logs = pool_logs k);
  sv_oracle k : start <= k <= head ->
    truthful E (@client_GetLogs N client (block_filter k (cc_oracle contracts))) (fun logs => logs = oracle_logs k)
}.

Lemma Serves_mono (E E' : exn -> N -> Prop) client : (forall e net, E e net -> E' e net) -> Serves E client -> Serves E' client.
Proof using.
  assert (forall A (call : prog N A) truth, (forall e net, E e net -> E' e net) -> truthful E call truth -> truthful E' call truth) as Ht.
  { intros A call truth HE Hc net HJ. eapply wp_mono; [by apply Hc|done|auto]. }
  intros HE []. split; eauto.
Qed.

(** An endpoint that may fail at any call; one that never fails; one of another chain, of which
    nothing is known but that it does not claim to be of this one. *)
Definition honest (client : RpcCalls N) : Prop := Serves (fun _ => J) client.
Definition reliable (client : RpcCalls N) : Prop := Serves (fun _ _ => False) client.
Definition foreign (client : RpcCalls N) : Prop := truthful (fun _ => J) (@client_GetChainId N client) (fun id => id <> chainId).

Context (clients : list (RpcCalls N)).

(** The rest of the invariant of a client: its active endpoint is honest, the chain id is known or
    there is no foreign endpoint, and the checkpoint is a block of the chain. *)
Record on_chain (st : ChainPool N) : Prop := {
  oc_active : exists client, clients !! cp_activeIndex st = Some client /\ honest client;
  oc_id : cp_chainId st = Some chainId \/ cp_chainId st = None /\ Forall honest clients;
  oc_checkpoint block : cp_checkpoint st = Some block -> exists k, start <= k <= head /\ block = hdr k
}.

Definition pool_ok (st : ChainPool N) : Prop := J (cp_net st) /\ on_chain st.

Context (facts : ChainFacts keccak contracts chainId start c head hdr).
Context (endpoints_known : Forall (fun client => honest client \/ foreign client) clients).

Lemma header_number k : start <= k <= head -> bh_number (hdr k) = U k.
Proof using facts.
  intros Hk. rewrite <-(U_of_value (bh_number (hdr k))). by rewrite (cf_number _ _ _ _ _ _ _ facts).
Qed.

Lemma on_chain_net net st : on_chain st -> on_chain (set_net net st).
Proof using. by intros []. Qed.

Lemma on_chain_id st : on_chain st -> on_chain (set_chainId chainId st).
Proof using. intros []. split; [done|by left|done]. Qed.

(** An honest endpoint passes the validation. *)
Lemma validate_honest E index client st :
  clients !! index = Some client -> Serves E client -> pool_ok st ->
  wp (ValidateCandidate clients index) (fun _ => pool_ok) (fun e st' => E e (cp_net st') /\ on_chain st') st.
Proof using facts.
  intros Hc Hs [HJ Hst]. unfold ValidateCandidate. apply wp_bind, wp_get. apply wp_if; intros _; [by apply wp_ret|].
  apply wp_bind, wp_on_client; [|congruence]. intros client' Hc'. assert (client' = client) as -> by congruence.
  eapply wp_mono; [by apply (sv_id _ _ Hs)| |by auto using on_chain_net].
  intros id net [-> HJ1] _. apply wp_bind.
  assert (wp match cp_chainId st with
    | Some i => if u_neb chainId i then throw (RuntimeError "RPC failover candidate belongs to a different chain") else mret tt
    | None => modify (set_chainId chainId)
    end (fun _ => pool_ok) (fun _ _ => False) (set_net net st)) as Hid.
  { destruct (oc_id _ Hst) as [Ei | [Ei _]]; rewrite Ei.
    - unfold u_neb, u_eqb. rewrite Z.eqb_refl. apply wp_ret. split; [done|by apply on_chain_net].
    - apply wp_modify. split; [done|]. by apply on_chain_id, on_chain_net. }
  eapply wp_mono; [exact Hid| |by intros ? ? []]. intros [] st1 [HJ2 Hst1].
  destruct (cp_checkpoint st) as [block|] eqn:Ecp; [|by apply wp_ret].
  destruct (oc_checkpoint _ Hst block Ecp) as (k & Hk & ->). case_bool_decide; [by apply wp_ret|].
  apply wp_bind, wp_on_client; [|congruence]. intros client' Hc''. assert (client' = client) as -> by congruence.
  rewrite header_number by done. eapply wp_mono; [by apply (sv_block _ _ Hs k Hk)| |by auto using on_chain_net].
  intros b net1 [-> HJ3] _. rewrite bool_decide_eq_true_2 by done. apply wp_ret. split; [done|by apply on_chain_net].
Qed.

(** Only an honest endpoint passes it. *)
Lemma validate_any index client st :
  clients !! index = Some client -> pool_ok st ->
  wp (ValidateCandidate clients index) (fun _ st' => pool_ok st' /\ honest client) (fun _ => pool_ok) st.
Proof using facts endpoints_known.
  intros Hc Hst. pose proof endpoints_known as Hk. rewrite list.Forall_forall in Hk.
  destruct (Hk client) as [Hh | Hf]; [by eapply list_elem_of_lookup_2| |].
  { eapply wp_mono; [by eapply (validate_honest _ index client)| |]; [done|]. by intros e st' [? ?]. }
  destruct Hst as [HJ Hst]. destruct (oc_id _ Hst) as [Ei | [Ei Hall]].
  2: { rewrite list.Forall_forall in Hall. assert (honest client) as Hh by (apply Hall; by eapply list_elem_of_lookup_2).
       eapply wp_mono; [by eapply (validate_honest _ index client)| |]; [done|]. by intros e st' [? ?]. }
  unfold ValidateCandidate. apply wp_bind, wp_get. apply wp_if.
  - intros [->%bool_decide_eq_true _]%andb_prop. apply wp_ret. split; [done|].
    destruct (oc_active _ Hst) as (client' & Hc' & Hh). by assert (client' = client) as -> by congruence.
  - intros _. apply wp_bind, wp_on_client; [|congruence]. intros client' Hc'.
    assert (client' = client) as -> by congruence.
    eapply wp_mono; [by apply Hf| |by intros e net HJ1; split; [done|apply on_chain_net]].
    intros id net [Hne HJ1] _. rewrite Ei. apply wp_bind.
    assert (u_neb id chainId = true) as ->.
    { unfold u_neb, u_eqb. apply negb_true_iff, Z.eqb_neq. intros E. by apply Hne, uval_inj. }
    apply wp_throw. split; [done|by apply on_chain_net].
Qed.

(** A call that honest endpoints answer with the truth is answered so by the client, as long as one
    endpoint never fails. *)
Lemma Execute_truth {A} (operation : RpcCalls N -> prog N A) (truth : A -> Prop) good client st :
  (forall E client, Serves E client -> truthful E (operation client) truth) ->
  clients !! good = Some client -> reliable client -> pool_ok st ->
  wp (Execute clients operation) (fun a st' => truth a /\ pool_ok st') (fun _ _ => False) st.
Proof using facts endpoints_known.
  intros Hop Hg Hr Hst. unfold Execute. apply wp_bind, wp_get.
  assert (forall E index client' st', clients !! index = Some client' -> Serves E client' -> honest client' -> pool_ok st' ->
    wp (a ← on_client clients index operation; modify (set_activeIndex index);; mret a)
      (fun a st' => truth a /\ pool_ok st') (fun e st' => E e (cp_net st') /\ on_chain st') st') as Hcall.
  { intros E index client' st' Hc Hs Hh [HJ Hst']. apply wp_bind, wp_on_client; [|congruence].
    intros client'' Hc'. assert (client'' = client') as -> by congruence.
    eapply wp_mono; [by apply (Hop _ _ Hs)| |by auto using on_chain_net].
    intros a net [Ha HJ1] _. apply wp_bind, wp_modify, wp_ret. split; [done|]. split; [done|].
    destruct Hst'. split; [by exists client'|done|done]. }
  eapply (ExecuteFrom_live _ _ _ pool_ok _ _ _ _ good); [|by eapply lookup_lt_Some|exact Hst| |].
  - destruct Hst as [_ [(active & Ha & _) _ _]]. by eapply lookup_lt_Some.
  - intros index st' Hi HS. destruct (lookup_lt_is_Some_2 clients index Hi) as [client' Hc].
    unfold attempt. apply wp_bind. eapply wp_mono; [by eapply (validate_any index client')| |done].
    intros [] st1 [HS1 Hh]. eapply wp_mono; [by eapply (Hcall _ index client')|done|]. by intros e st2 [? ?].
  - intros st' HS. unfold attempt. apply wp_bind.
    eapply wp_mono; [by eapply (validate_honest _ good client)| |by intros e st1 [[] _]].
    intros [] st1 HS1. eapply wp_mono; [eapply (Hcall _ good client); [done|exact Hr| |done]|done|by intros e st2 [[] _]].
    split; intros; intros net HJ; (eapply wp_mono; [by apply Hr|done|by intros ? ? []]).
Qed.

Lemma truthful_bind E {A B} (m : prog N A) (k : A -> prog N B) (P : A -> Prop) (Q : B -> Prop) :
  truthful E m P -> (forall a, P a -> truthful E (k a) Q) -> truthful E (m ≫= k) Q.
Proof using.
  intros Hm Hk net HJ. apply wp_bind. eapply wp_mono; [by apply Hm| |done].
  intros a net' [Ha HJ']. by apply Hk.
Qed.

Lemma truthful_ret E {A} (a : A) (P : A -> Prop) : P a -> truthful E (mret a) P.
Proof using. intros Ha net HJ. by apply wp_ret. Qed.

Lemma wp_total {St A} (m : prog St A) Q st :
  wp m Q (fun _ _ => False) st -> exists a st', m st = (Ok a, st') /\ Q a st'.
Proof using. unfold wp. destruct (m st) as [[a|e] st']; [eauto|done]. Qed.

(** The endpoints as a whole: each is honest or foreign, and one never fails. *)
Record served : Prop := {
  sd_facts : ChainFacts keccak contracts chainId start c head hdr;
  sd_head : 0 <= head;
  sd_logs k : start <= k <= head ->
    logs_of_block chainId c hdr k (std_sort log_index_before (pool_logs k ++ oracle_logs k));
  sd_known : Forall (fun client => honest client \/ foreign client) clients;
  sd_reliable : exists good client, clients !! good = Some client /\ reliable client
}.

(** Together they are a chain that stands still. *)
Lemma pool_stable :
  served -> @StableChain (ChainPool N) (rpc_chain_client clients contracts) keccak contracts chainId start c head hdr pool_ok.
Proof using facts endpoints_known.
  intros [Hf Hh Hl Hk (good & client & Hg & Hr)].
  assert (0 <= head < 2 ^ 64) as Hhead by (pose proof (cf_range _ _ _ _ _ _ _ Hf); lia).
  split; [exact Hf|..]; cbn [chain_GetChainId chain_GetBlockNumber chain_GetBlockByNumber chain_GetLogs rpc_chain_client].
  - intros st Hst. destruct (wp_total (GetChainId clients) _ st
      (Execute_truth (@client_GetChainId N) (fun id => id = chainId) good client st (fun E c Hs => sv_id E c Hs) Hg Hr Hst))
      as (id & st' & E & -> & Hst'). eauto.
  - intros st Hst. destruct (wp_total (GetBlockNumber clients) (fun n st' => n = head /\ pool_ok st') st) as (n & st' & E & -> & Hst'); [|eauto].
    apply (Execute_truth _ _ good client); [|done..]. intros E c' Hs.
    eapply truthful_bind; [apply (sv_head _ _ Hs)|]. intros n -> net HJ.
    assert (ToUint64 (U head) = Ok head) as -> by (apply ToUint64_Ok; rewrite U_value by lia; lia). by apply wp_ret.
  - intros k st Hrange Hst. destruct (wp_total (GetBlockByNumber clients k) (fun b st' => b = Some (hdr k) /\ pool_ok st') st)
      as (b & st' & E & -> & Hst'); [|eauto].
    unfold GetBlockByNumber. apply wp_bind. eapply wp_mono;
      [apply (Execute_truth _ (fun b => b = Some (hdr k)) good client); [|done..]| |done].
    + intros E c' Hs. by apply (sv_block _ _ Hs).
    + intros b st' [-> [HJ Hst']]. apply wp_bind, wp_modify, wp_ret. split; [done|]. split; [done|].
      destruct Hst'. split; [done|done|]. intros block [= <-]. by exists k.
  - intros k st Hrange Hst. destruct (wp_total (GetLogs clients contracts k)
      (fun logs st' => logs = std_sort log_index_before (pool_logs k ++ oracle_logs k) /\ pool_ok st') st)
      as (logs & st' & E & -> & Hst'); [|eauto 10].
    unfold GetLogs. apply wp_bind. eapply wp_mono;
      [apply (Execute_truth _ (fun logs => logs = pool_logs k ++ oracle_logs k) good client); [|done..]| |done].
    + intros E c' Hs. eapply truthful_bind; [by apply (sv_pool _ _ Hs)|]. intros logs ->.
      eapply truthful_bind; [by apply (sv_oracle _ _ Hs)|]. intros logs' ->. by apply truthful_ret.
    + intros logs st' [-> Hst']. by apply wp_ret.
Qed.
End Serving.

(** Claim C37: the indexer converges through failing endpoints: when every endpoint serves the chain or another
    one it admits to, any of them may fail at any call, and one never fails, then from a store of
    any fork [SyncToHead] through the client terminates without an exception and the store
    then holds exactly the chain. *)
Theorem failover_converges {S N} `{IndexerStore S} keccak contracts chainId
    `{!LawfulIndexerStore S keccak contracts chainId} start c head hdr pool_logs oracle_logs (J : N -> Prop) clients
    f n fuel (s : S) v status st :
  served keccak contracts chainId start c head hdr pool_logs oracle_logs J clients ->
  pool_ok contracts chainId start head hdr pool_logs oracle_logs J clients st ->
  represents (2 * fuel) s v -> holds_segment keccak contracts chainId start c v f n ->
  Z.max 0 (head + 1 - start) + 1 < Z.of_nat fuel ->
  exists s' v' status' count st',
    @SyncToHead S (ChainPool N) _ (rpc_chain_client clients contracts) keccak contracts start fuel (MkIxState s st status)
      = (Ok (Some count), MkIxState s' st' status')
    /\ represents 0 s' v'
    /\ holds_segment keccak contracts chainId start c v' (fun k => bh_hash (hdr k)) (Z.to_nat (head + 1 - start)).
Proof.
  intros Hs Hst Hr Hseg Hf. pose proof (pool_stable _ _ _ _ _ _ _ _ _ _ _ (sd_facts _ _ _ _ _ _ _ _ _ _ _ Hs)
    (sd_known _ _ _ _ _ _ _ _ _ _ _ Hs) Hs) as Hstable.
  destruct (@SyncToHead_run S (ChainPool N) _ (rpc_chain_client clients contracts) keccak contracts chainId _ start c head hdr
    _ Hstable f n fuel s status st) as (s' & status' & count & st' & E & _ & v' & Hr' & Hseg'); [by exists v|done|done|].
  by exists s', v', status', count, st'.
Qed.

(** ** Three endpoints: one that fails every other call, one of another chain, one that works *)

Definition endpoint (fails : Z -> bool) (chainId : Uint256) : RpcCalls Z :=
  let answer {A} (a : A) : prog Z A := fun calls =>
    (if fails calls then Throw (RpcException Transport "RPC transport failed") else Ok a, calls + 1) in {|
  client_GetChainId := answer chainId;
  client_GetBlockNumber := answer (U 11);
  client_GetBlockByNumber k := answer (if u_leb k (U 11) then Some (demo_header (value_ k)) else None);
  client_GetLogs filter := answer (
    if bool_decide (lf_address filter = Some (cc_pool sample_contracts))
    then match lf_fromBlock filter with Some k => demo_logs (value_ k) | None => [] end else []);
  client_EthCall _ _ := answer [];
  client_EstimateGas _ := answer (U 21000);
  client_GetTransactionCount _ _ := answer (U 0);
  client_GetMaxPriorityFeePerGas := answer (U 1);
  client_SendRawTransaction _ := answer (array_copy 32 []);
  client_GetTransactionReceipt _ := answer None
|}.

Definition demo_clients : list (RpcCalls Z) := [endpoint Z.odd (U 1); endpoint Z.even (U 5); endpoint (fun _ => false) (U 1)].
Definition demo_pool_state : ChainPool Z := MkChainPool 0 (Some (U 1)) None 0.

Abbreviation demo_serves := (Serves sample_contracts (U 1) 10 11 demo_header demo_logs (fun _ => []) (fun _ : Z => True)).

Lemma endpoint_serves fails (E : exn -> Z -> Prop) :
  (forall calls e, fails calls = true -> E e (calls + 1)) -> demo_serves E (endpoint fails (U 1)).
Proof.
  intros HE. split; intros; intros calls _; unfold wp; cbn -[demo_logs demo_header U cc_pool cc_oracle bool_decide];
    (destruct (fails calls) eqn:Ef; [by apply HE|]); split; try done.
  - match goal with H : 10 <= _ <= 11 |- _ => apply two_blocks in H as [-> | ->] end; reflexivity.
  - match goal with H : 10 <= _ <= 11 |- _ => apply two_blocks in H as [-> | ->] end; reflexivity.
Qed.

Lemma demo_served :
  served prefix_hash sample_contracts (U 1) 10 demo_contents 11 demo_header demo_logs (fun _ => []) (fun _ => True) demo_clients.
Proof.
  split.
  - exact demo_facts.
  - lia.
  - intros k Hk. rewrite app_nil_r. destruct (demo_logs_of_block k Hk) as (raw & E1 & E2). exists raw. split; [|done].
    rewrite <-E1. apply two_blocks in Hk as [-> | ->]; reflexivity.
  - apply Forall_cons. split; [left; by apply endpoint_serves|].
    apply Forall_cons. split; [right|apply Forall_singleton; left; by apply endpoint_serves].
    intros calls _. unfold wp. cbn. destruct (Z.even calls); [done|]. split; [|done].
    intros E. apply (f_equal value_) in E. rewrite !U_value in E by lia. lia.
  - exists 2%nat, (endpoint (fun _ => false) (U 1)). split; [done|]. by apply endpoint_serves.
Qed.

Lemma demo_pool_ok :
  pool_ok sample_contracts (U 1) 10 11 demo_header demo_logs (fun _ => []) (fun _ => True) demo_clients demo_pool_state.
Proof.
  split; [done|]. split.
  - exists (endpoint Z.odd (U 1)). split; [done|]. by apply endpoint_serves.
  - by left.
  - done.
Qed.

Lemma failover_converges_witness : exists s' v' status' count st',
  @SyncToHead IxDb (ChainPool Z) _ (rpc_chain_client demo_clients sample_contracts) prefix_hash sample_contracts 10 5
    (MkIxState fork_db demo_pool_state (MkIndexerStatus 0 0 0)) = (Ok (Some count), MkIxState s' st' status')
  /\ represents (LawfulIndexerStore := postgres_lawful prefix_hash sample_contracts (U 1)) 0 s' v'
  /\ holds_segment prefix_hash sample_contracts (U 1) 10 demo_contents v' block_hash 2.
Proof.
  exact (failover_converges prefix_hash sample_contracts (U 1) 10 demo_contents 11 demo_header demo_logs (fun _ => [])
    (fun _ => True) demo_clients (fun _ => fork_hash) 1 5 fork_db fork_view (MkIndexerStatus 0 0 0) demo_pool_state
    demo_served demo_pool_ok fork_represents fork_segment eq_refl).
Defined.
