(* ===== verification/RpcProperties.v ===== *)
(** * RpcProperties: what a node says reaches the caller ([RpcClient.cpp], [RpcChainClient.cpp])

    A node behind HTTP is a function from the method and its parameters to the JSON of the
    result; it encodes numbers as quantities and byte strings as hexadecimal text, and adds any
    other members it likes.  The client then returns the values the node encoded, whatever
    endpoint and counter it has.  An endpoint that serves a chain in this way is an honest
    endpoint of [RpcChainClient] ([http_client_serves]); [IndexerProcess] runs the indexer over such nodes. *)

From Stdlib Require Import Ascii.
From S2P Require Import Prelude Effects Text Json Uint256 Hex Event Abi RpcTypes RpcEndpoints RpcClient IndexerTypes.
From S2P Require Import StateProjector Indexer IndexerSync IndexerProperties RpcChainClient.
Set Default Goal Selector "!".
#[local] Open Scope Z_scope.

(** ** Encodings *)

Definition quantity (x : Uint256) : json := JString (ToQuantity x).
Definition hex_hash (h : Hash256) : json := JString (HashToHex h).

(** The members a node writes for a header, a log and a receipt, among others. *)
Definition encodes_header (value : json) (h : BlockHeader) : Prop := exists fields, value = JObject fields
  /\ find_member "number" fields = Some (quantity (bh_number h))
  /\ find_member "hash" fields = Some (hex_hash (bh_hash h))
  /\ find_member "parentHash" fields = Some (hex_hash (bh_parentHash h))
  /\ find_member "timestamp" fields = Some (quantity (bh_timestamp h))
  /\ match bh_baseFeePerGas h with
     | Some fee => find_member "baseFeePerGas" fields = Some (quantity fee)
     | None => find_member "baseFeePerGas" fields = None \/ find_member "baseFeePerGas" fields = Some JNull
     end.

Definition encodes_block (value : json) (block : option BlockHeader) : Prop :=
  match block with Some h => encodes_header value h | None => value = JNull end.

Definition encodes_log (value : json) (log : RpcLog) : Prop := exists fields, value = JObject fields
  /\ find_member "address" fields = Some (JString (AddressToHex (lg_address log) true))
  /\ find_member "topics" fields = Some (JArray (hex_hash <$> lg_topics log))
  /\ find_member "data" fields = Some (JString (Encode (lg_data log) true))
  /\ find_member "blockNumber" fields = Some (quantity (lg_blockNumber log))
  /\ find_member "blockHash" fields = Some (hex_hash (lg_blockHash log))
  /\ find_member "transactionHash" fields = Some (hex_hash (lg_transactionHash log))
  /\ find_member "transactionIndex" fields = Some (quantity (lg_transactionIndex log))
  /\ find_member "logIndex" fields = Some (quantity (lg_logIndex log))
  /\ find_member "removed" fields = Some (JBool (lg_removed log)).

Definition encodes_logs (value : json) (logs : list RpcLog) : Prop :=
  exists values, value = JArray values /\ Forall2 encodes_log values logs.

Definition encodes_receipt (value : json) (receipt : option TransactionReceipt) : Prop :=
  match receipt with
  | None => value = JNull
  | Some r => exists fields status, value = JObject fields
      /\ find_member "transactionHash" fields = Some (hex_hash (rc_transactionHash r))
      /\ find_member "blockNumber" fields = Some (quantity (rc_blockNumber r))
      /\ find_member "blockHash" fields = Some (hex_hash (rc_blockHash r))
      /\ find_member "status" fields = Some (quantity status) /\ rc_succeeded r = negb (IsZero status)
      /\ find_member "gasUsed" fields = Some (quantity (rc_gasUsed r))
      /\ find_member "effectiveGasPrice" fields = Some (quantity (rc_effectiveGasPrice r))
  end.

(** ** Decoding *)

Section Decoding.
Context (boost_what : exn -> string).

Lemma ParseQuantity_member fields field x :
  find_member field fields = Some (quantity x) -> ParseQuantity boost_what (JObject fields) field = Ok x.
Proof using.
  intros E. unfold ParseQuantity, RequireString. cbn [json_find]. rewrite E. cbn [quantity].
  by rewrite bind_Ok, FromHex_ToQuantity.
Qed.

Lemma ParseHash_member fields field h :
  find_member field fields = Some (hex_hash h) -> ParseHash boost_what (JObject fields) field = Ok h.
Proof using.
  intros E. unfold ParseHash, RequireString. cbn [json_find]. rewrite E. cbn [hex_hash].
  unfold HashToHex. by rewrite bind_Ok, parse_hash_Encode.
Qed.

Lemma ParseAddress_member fields field a :
  find_member field fields = Some (JString (AddressToHex a true)) -> ParseAddress boost_what (JObject fields) field = Ok a.
Proof using.
  intros E. unfold ParseAddress, RequireString. cbn [json_find]. rewrite E. by rewrite bind_Ok, AddressFromHex_ToHex.
Qed.

Lemma ParseQuantity_wrapped x : ParseQuantity boost_what (wrapped "result" (quantity x)) "result" = Ok x.
Proof using. by apply ParseQuantity_member. Qed.

Lemma ParseHash_wrapped h : ParseHash boost_what (wrapped "result" (hex_hash h)) "result" = Ok h.
Proof using. by apply ParseHash_member. Qed.

Lemma ParseBytesResult_Encode data method : ParseBytesResult boost_what (JString (Encode data true)) method = Ok data.
Proof using. cbn [ParseBytesResult]. by rewrite Decode_Encode. Qed.

(** Reads the members of an object one after the other. *)
Ltac members := repeat match goal with
  | H : find_member ?field ?fields = Some (quantity ?x) |- context [ParseQuantity _ (JObject ?fields) ?field] =>
      rewrite (ParseQuantity_member fields field x H)
  | H : find_member ?field ?fields = Some (hex_hash ?h) |- context [ParseHash _ (JObject ?fields) ?field] =>
      rewrite (ParseHash_member fields field h H)
  | H : find_member ?field ?fields = Some (JString (AddressToHex ?a true)) |- context [ParseAddress _ (JObject ?fields) ?field] =>
      rewrite (ParseAddress_member fields field a H)
  | |- context [Ok _ ≫= _] => rewrite bind_Ok
  end.

Lemma block_of_result_encoded value block : encodes_block value block -> block_of_result boost_what value = Ok block.
Proof using.
  destruct block as [h|]; cbn [encodes_block]; [|by intros ->].
  intros (fields & -> & En & Eh & Ep & Et & Ef). unfold block_of_result. cbn [is_null is_object negb]. members.
  cbn [json_find]. destruct h as [number hash parent timestamp [fee|]]; cbn [bh_number bh_hash bh_parentHash bh_timestamp bh_baseFeePerGas] in *.
  - rewrite Ef. cbn [is_null quantity negb]. by members.
  - by destruct Ef as [-> | ->].
Qed.

Lemma log_of_json_encoded value log : encodes_log value log -> log_of_json boost_what value = Ok log.
Proof using.
  intros (fields & -> & Ea & Et & Ed & En & Eh & Eth & Eti & Eli & Er). unfold log_of_json.
  cbn [is_object negb json_find]. rewrite Et.
  rewrite (map_result_fmap _ _ id) by (intros h; by apply ParseHash_member). rewrite list_fmap_id, bind_Ok.
  assert (RequireString (JObject fields) "data" = Ok (Encode (lg_data log) true)) as ->.
  { unfold RequireString. cbn [json_find]. by rewrite Ed. }
  rewrite bind_Ok, Decode_Encode. cbn [invalid_as]. rewrite bind_Ok, Er. members. by destruct log.
Qed.

Lemma logs_of_result_encoded value logs : encodes_logs value logs -> logs_of_result boost_what value = Ok logs.
Proof using.
  intros (values & -> & Hl). apply map_result_Forall2. eapply Forall2_impl; [exact Hl|]. apply log_of_json_encoded.
Qed.

Lemma receipt_of_result_encoded value receipt :
  encodes_receipt value receipt -> receipt_of_result boost_what value = Ok receipt.
Proof using.
  destruct receipt as [r|]; cbn [encodes_receipt]; [|by intros ->].
  intros (fields & status & -> & E1 & E2 & E3 & E4 & Es & E5 & E6). unfold receipt_of_result.
  cbn [is_null is_object negb]. members. rewrite <-Es. by destruct r.
Qed.
End Decoding.

(** ** Normal requests *)

Lemma plain_ToQuantity x : plain (ToQuantity x) = true.
Proof.
  unfold ToQuantity. destruct (IsZero x); [done|]. change String.append with String.app. rewrite plain_app.
  apply andb_true_intro. split; [done|]. apply plain_unchars, Forall_reverse.
  assert (forall fuel r acc, Forall (fun c => ascii_z c < 128) acc -> Forall (fun c => ascii_z c < 128) (quantity_loop fuel r acc)) as H.
  { induction fuel as [|fuel IH]; intros r acc Hacc; cbn [quantity_loop]; [done|]. destruct (_ =? _); [done|].
    apply IH, Forall_app. split; [done|]. apply Forall_singleton, hex_char_plain. }
  by apply H.
Qed.

Lemma json_normal_quantity x : json_normal (JString (ToQuantity x)) = true.
Proof. apply plain_ToQuantity. Qed.
Lemma json_normal_bytes data : json_normal (JString (Encode data true)) = true.
Proof. apply plain_Encode. Qed.
Lemma json_normal_hash h : json_normal (JString (HashToHex h)) = true.
Proof. apply plain_Encode. Qed.
Lemma json_normal_address a : json_normal (JString (AddressToHex a true)) = true.
Proof. apply plain_Encode. Qed.

Lemma json_normal_call call : json_normal (EncodeCall call) = true.
Proof.
  unfold EncodeCall. destruct (tc_from call) as [from|], (negb (IsZero (tc_value call)));
    cbn [app json_normal fmap list_fmap fst snd forallb]; unfold AddressToHex, EncodeArray, Encode;
    by rewrite !plain_Encode, ?plain_ToQuantity.
Qed.

Lemma json_normal_filter filter : json_normal (EncodeFilter filter) = true.
Proof.
  assert (forall topics, forallb json_normal ((fun topic : option Hash256 => match topic with
    | Some t => JString (HashToHex t) | None => JNull end) <$> topics) = true) as Ht.
  { induction topics as [|[t|] topics IH]; [done| |exact IH].
    rewrite fmap_cons. cbn [forallb]. by rewrite json_normal_hash, IH. }
  unfold EncodeFilter. destruct filter as [f t a topics]. cbn [lf_address lf_fromBlock lf_toBlock lf_topics].
  specialize (Ht topics). destruct topics as [|topic topics]; [|set (value := JArray _);
    assert (json_normal value = true) as Hv by exact Ht; clearbody value];
    destruct f, t, a; cbn [fmap option_fmap option_map optional_member app json_normal list_fmap fst snd forallb keys_sorted];
    unfold AddressToHex, EncodeArray; by rewrite ?plain_Encode, ?plain_ToQuantity, ?Hv.
Qed.

Lemma payload_normal method parameters id :
  plain method = true -> json_normal parameters = true -> uint64 id -> json_normal (payload id method parameters) = true.
Proof.
  intros Hm Hp Hid%number_normal. unfold payload. cbn [json_normal fmap list_fmap fst snd forallb].
  cbn [json_normal] in Hid. by rewrite Hid, Hm, Hp.
Qed.

Lemma json_normal_block block : plain block = true -> json_normal (JString block) = true.
Proof. done. Qed.

Lemma json_normal_array values : forallb json_normal values = true -> json_normal (JArray values) = true.
Proof. done. Qed.

#[local] Hint Resolve json_normal_quantity json_normal_bytes json_normal_hash json_normal_address json_normal_call
  json_normal_filter json_normal_block : core.

(** The parameters of every method are in normal form. *)
Ltac parameters_normal := intros; apply payload_normal; [done| |done]; apply json_normal_array; cbn [forallb];
  rewrite ?andb_true_r; repeat first [solve [auto] | apply andb_true_intro; split].

(** ** A node behind HTTP *)

Section Speaking.
Context {N : Type} `{HttpTransport N} `{LawfulJsonText} (boost_what : exn -> string).
Context (observer : bool) (client : nat) (endpoint : ParsedEndpoint) (timeout : Z).
(** The reachable states of the outside world, and those in which a failure may leave it. *)
Context (J fails : N -> Prop).
(** What the node answers to a method and its parameters. *)
Context (node : string -> json -> json).

(** An operation of the connection, with its error code as an exception. *)
Definition timed {A} (operation : N -> (string + A) * N) : prog N A := fun net =>
  let '(r, net') := operation net in
  (match r with inl message => Throw (SystemError message) | inr a => Ok a end, net').

Definition http_request (body : string) : HttpRequest :=
  MkHttpRequest (pe_target endpoint) (pe_host endpoint +:+ ":" +:+ pe_port endpoint) "application/json" "dlp-cpp-rpc/1.0" body.

Definition round_trip (body : string) : prog N HttpResponse :=
  timed (http_connect (pe_host endpoint) (pe_port endpoint) timeout);;
  timed (http_write (http_request body) timeout);;
  timed (http_read timeout).

(** The endpoint speaks for the node: a request is answered with what the node answers, or the
    transport fails: with an error code or with a status. *)
Definition speaks : Prop := forall id method parameters body net,
  J net -> uint64 id -> json_normal (payload id method parameters) = true ->
  dump (payload id method parameters) = Ok body ->
  wp (round_trip body)
    (fun response net' =>
       (rs_status response = 200 /\ J net'
        /\ exists value, parse (rs_body response) = Ok value /\ is_answer id (node method parameters) value)
       \/ (rs_status response <> 200 /\ fails net'))
    (fun _ net' => fails net') net.

(** The state of the outside and of the counters. *)
Definition counted (P : N -> Prop) (st : RpcNet N) : Prop := P (rn_net st) /\ map_Forall (fun _ id => uint64 id) (rn_nextRequestId st).

Context (speaking : speaks).

Lemma fetch_add_counted st : counted J st -> uint64 (next_id client st)
  /\ map_Forall (fun _ id => uint64 id) (<[client := u64 (next_id client st + 1)]> (rn_nextRequestId st)).
Proof using.
  intros [_ Hids]. split.
  - unfold next_id. destruct (rn_nextRequestId st !! client) as [id|] eqn:E; cbn; [by eapply Hids|]. unfold uint64. lia.
  - apply map_Forall_insert_2; [|done]. unfold uint64, u64. apply Z.mod_pos_bound. lia.
Qed.

(** [Call] returns what the node answers. *)
Lemma Call_truth method parameters st :
  counted J st -> (forall id, uint64 id -> json_normal (payload id method parameters) = true) ->
  wp (Call client endpoint timeout method parameters) (fun r st' => r = node method parameters /\ counted J st')
    (fun _ st' => counted fails st') st.
Proof using speaking H1.
  intros Hst Hn. destruct (fetch_add_counted st Hst) as [Hid Hids]. specialize (Hn _ Hid).
  destruct (parse_dump _ Hn) as (body & Ed & _).
  pose proof (speaking _ _ _ body (rn_net st) (proj1 Hst) Hid Hn Ed) as Hs.
  unfold Call. apply wp_bind. unfold wp at 1. cbn [fetch_add]. apply wp_catch_all. unfold exchange.
  unfold wp, round_trip, timed, mbind, prog_bind in Hs.
  apply wp_bind. unfold wp at 1, RunTimedOperation. cbn [rn_net rn_nextRequestId].
  destruct (http_connect _ _ _ _) as [[message|[]] net1]; [by apply wp_throw|]. cbn [rn_net rn_nextRequestId].
  apply wp_bind. unfold lift. rewrite Ed. unfold wp at 1.
  apply wp_bind. unfold wp at 1. cbn [rn_net rn_nextRequestId]. fold (http_request body).
  destruct (http_write (http_request body) _ _) as [[message|[]] net2]; [by apply wp_throw|]. cbn [rn_net rn_nextRequestId].
  apply wp_bind. unfold wp at 1. cbn [rn_net rn_nextRequestId].
  destruct (http_read _ _) as [[message|response] net3]; [by apply wp_throw|]. cbn [rn_net rn_nextRequestId].
  destruct Hs as [(E200 & HJ & Ha) | (Hne & Hf)].
  - rewrite E200. cbn [Z.eqb Pos.eqb negb]. apply check_response_Ok in Ha. rewrite Ha. by split.
  - apply Z.eqb_neq in Hne. rewrite Hne. cbn [negb]. by apply wp_throw, wp_throw.
Qed.

Lemma decode_truth {A} method parameters (read : json -> result A) a :
  (forall id, uint64 id -> json_normal (payload id method parameters) = true) ->
  read (node method parameters) = Ok a ->
  truthful (counted J) (fun _ => counted fails) (r ← Call client endpoint timeout method parameters; lift (read r)) (fun x => x = a).
Proof using speaking H1.
  intros Hn Hr st Hst. apply wp_bind. eapply wp_mono; [by apply Call_truth| |done].
  intros r st' [-> Hst']. unfold lift. rewrite Hr. by split.
Qed.


(** A call that returns [a], unless the transport fails. *)
Definition yields {A} (call : prog (RpcNet N) A) (a : A) : Prop :=
  truthful (counted J) (fun _ => counted fails) call (fun x => x = a).

Abbreviation calls := (rpc_client boost_what observer client endpoint timeout).

Lemma yields_quantity method parameters x :
  (forall id, uint64 id -> json_normal (payload id method parameters) = true) -> node method parameters = quantity x ->
  yields (r ← Call client endpoint timeout method parameters; lift (ParseQuantity boost_what (wrapped "result" r) "result")) x.
Proof using speaking H1. intros Hn E. apply decode_truth; [done|]. rewrite E. apply ParseQuantity_wrapped. Qed.

Lemma GetChainId_truth id :
  node "eth_chainId" (JArray []) = quantity id -> yields (@client_GetChainId _ calls) id.
Proof using speaking H1. intros E. apply yields_quantity; [parameters_normal|done]. Qed.

Lemma GetBlockNumber_truth number :
  node "eth_blockNumber" (JArray []) = quantity number -> (observer = true -> value_ number < 2 ^ 64) ->
  yields (@client_GetBlockNumber _ calls) number.
Proof using speaking H1.
  intros E Ho st Hst. cbn [client_GetBlockNumber rpc_client]. unfold GetBlockNumber. apply wp_bind.
  eapply wp_mono; [apply Call_truth; [done|parameters_normal]| |done]. intros r st' [-> Hst'].
  rewrite E, ParseQuantity_wrapped. apply wp_bind. unfold wp at 1, lift.
  apply wp_bind, wp_if; intros Hb; [|by apply wp_ret, wp_ret].
  assert (ToUint64 number = Ok (value_ number)) as -> by (apply ToUint64_Ok; auto).
  apply wp_bind. unfold wp at 1. by apply wp_ret, wp_ret.
Qed.

Lemma GetBlockByNumber_truth number block :
  encodes_block (node "eth_getBlockByNumber" (JArray [JString (ToQuantity number); JBool false])) block ->
  yields (@client_GetBlockByNumber _ calls number) block.
Proof using speaking H1. intros E. apply decode_truth; [parameters_normal|]. by apply block_of_result_encoded. Qed.

Lemma GetLogs_truth filter logs :
  encodes_logs (node "eth_getLogs" (JArray [EncodeFilter filter])) logs -> yields (@client_GetLogs _ calls filter) logs.
Proof using speaking H1. intros E. apply decode_truth; [parameters_normal|]. by apply logs_of_result_encoded. Qed.

(** The filter of the logs of an address in one block. *)
Definition log_query (k : Z) (address : Address) : json := JObject [
  ("address", JString (AddressToHex address true)); ("fromBlock", quantity (U k)); ("toBlock", quantity (U k))].

(** What the node is known to serve of a chain. *)
Record NodeServes contracts chainId start head hdr pool_logs oracle_logs : Prop := {
  ns_id : node "eth_chainId" (JArray []) = quantity chainId;
  ns_head : node "eth_blockNumber" (JArray []) = quantity (U head);
  ns_block k : start <= k <= head ->
    encodes_header (node "eth_getBlockByNumber" (JArray [JString (ToQuantity (U k)); JBool false])) (hdr k);
  ns_pool k : start <= k <= head ->
    encodes_logs (node "eth_getLogs" (JArray [log_query k (cc_pool contracts)])) (pool_logs k);
  ns_oracle k : start <= k <= head ->
    encodes_logs (node "eth_getLogs" (JArray [log_query k (cc_oracle contracts)])) (oracle_logs k)
}.

Lemma http_client_serves contracts chainId start head hdr pool_logs oracle_logs :
  0 <= head < 2 ^ 64 -> NodeServes contracts chainId start head hdr pool_logs oracle_logs ->
  Serves contracts chainId start head hdr pool_logs oracle_logs (counted J) (fun _ => counted fails) calls.
Proof using speaking H1.
  intros Hhead []. split; intros.
  - by apply GetChainId_truth.
  - apply GetBlockNumber_truth; [done|]. intros _. rewrite U_value; lia.
  - by apply GetBlockByNumber_truth, ns_block0.
  - by apply GetLogs_truth, ns_pool0.
  - by apply GetLogs_truth, ns_oracle0.
Qed.
End Speaking.

(** Claim C39: what a node says reaches the caller: an endpoint that speaks for a node, and may fail in between,
    gives back through every call of the client the number, header, logs, receipt, bytes or hash the
    node has encoded in its answer to that method and those parameters, whatever other
    members the answer has, and no other value. *)
Theorem answers_decoded {N} `{HttpTransport N} `{LawfulJsonText} boost_what observer client endpoint timeout J fails node :
  speaks endpoint timeout J fails node ->
  let calls := rpc_client boost_what observer client endpoint timeout in
  let yields {A} (call : prog (RpcNet N) A) (a : A) := yields J fails call a in
  (forall id, node "eth_chainId" (JArray []) = quantity id -> yields (@client_GetChainId _ calls) id)
  /\ (forall n, node "eth_blockNumber" (JArray []) = quantity n -> (observer = true -> value_ n < 2 ^ 64) ->
        yields (@client_GetBlockNumber _ calls) n)
  /\ (forall n block, encodes_block (node "eth_getBlockByNumber" (JArray [JString (ToQuantity n); JBool false])) block ->
        yields (@client_GetBlockByNumber _ calls n) block)
  /\ (forall filter logs, encodes_logs (node "eth_getLogs" (JArray [EncodeFilter filter])) logs ->
        yields (@client_GetLogs _ calls filter) logs)
  /\ (forall call block data, plain block = true ->
        node "eth_call" (JArray [EncodeCall call; JString block]) = JString (Encode data true) ->
        yields (@client_EthCall _ calls call block) data)
  /\ (forall call gas, node "eth_estimateGas" (JArray [EncodeCall call]) = quantity gas ->
        yields (@client_EstimateGas _ calls call) gas)
  /\ (forall address block n, plain block = true ->
        node "eth_getTransactionCount" (JArray [JString (AddressToHex address true); JString block]) = quantity n ->
        yields (@client_GetTransactionCount _ calls address block) n)
  /\ (forall fee, node "eth_maxPriorityFeePerGas" (JArray []) = quantity fee ->
        yields (@client_GetMaxPriorityFeePerGas _ calls) fee)
  /\ (forall raw hash, node "eth_sendRawTransaction" (JArray [JString (Encode raw true)]) = hex_hash hash ->
        yields (@client_SendRawTransaction _ calls raw) hash)
  /\ (forall hash receipt, encodes_receipt (node "eth_getTransactionReceipt" (JArray [JString (HashToHex hash)])) receipt ->
        yields (@client_GetTransactionReceipt _ calls hash) receipt).
Proof.
  intros Hs calls yields'. repeat split; intros.
  - by apply (GetChainId_truth _ _ _ _ _ _ _ _ Hs).
  - by apply (GetBlockNumber_truth _ _ _ _ _ _ _ _ Hs).
  - by apply (GetBlockByNumber_truth _ _ _ _ _ _ _ _ Hs).
  - by apply (GetLogs_truth _ _ _ _ _ _ _ _ Hs).
  - apply (decode_truth _ _ _ _ _ _ Hs); [parameters_normal|]. match goal with E : node _ _ = _ |- _ => rewrite E end. apply ParseBytesResult_Encode.
  - apply (yields_quantity _ _ _ _ _ _ _ Hs); [parameters_normal|done].
  - apply (yields_quantity _ _ _ _ _ _ _ Hs); [parameters_normal|done].
  - apply (yields_quantity _ _ _ _ _ _ _ Hs); [parameters_normal|done].
  - apply (decode_truth _ _ _ _ _ _ Hs); [parameters_normal|]. match goal with E : node _ _ = _ |- _ => rewrite E end. apply ParseHash_wrapped.
  - apply (decode_truth _ _ _ _ _ _ Hs); [parameters_normal|]. by apply receipt_of_result_encoded.
Qed.

(** ** A node that is down at some connections *)

Section Node.
Context (down : string -> Z -> bool) (node : string -> json -> json).

#[local] Existing Instance coded_json.

Definition node_reply (body : string) : HttpResponse :=
  match parse body with
  | Ok request =>
      match json_find "id" request, json_find "method" request, json_find "params" request with
      | Some id, Some (JString method), Some parameters =>
          match dump (JObject [("id", id); ("jsonrpc", JString "2.0"); ("result", node method parameters)]) with
          | Ok text => MkHttpResponse 200 text
          | Throw _ => MkHttpResponse 500 ""
          end
      | _, _, _ => MkHttpResponse 400 ""
      end
  | Throw _ => MkHttpResponse 400 ""
  end.

(** The state: the number of connections, and the request that was written. *)
Definition node_transport : HttpTransport (Z * string) := {|
  http_connect host port timeout net :=
    (if down host net.1 then inl "The socket was closed due to a timeout" else inr tt, (net.1 + 1, EmptyString));
  http_write request timeout net := (inr tt, (net.1, rq_body request));
  http_read timeout net := (inr (node_reply net.2), net)
|}.

Lemma node_transport_speaks endpoint timeout (fails : Z * string -> Prop) :
  (forall n, down (pe_host endpoint) n = true -> fails (n + 1, EmptyString)) ->
  @speaks _ node_transport coded_json endpoint timeout (fun _ => True) fails node.
Proof using.
  intros Hf id method parameters body net _ Hid _ Hd. unfold round_trip, timed, http_connect, http_write, http_read.
  cbn [node_transport]. apply wp_bind. unfold wp at 1. destruct (down _ net.1) eqn:Edown; [by apply Hf|].
  apply wp_bind. unfold wp at 1, wp. cbn [http_request rq_body fst snd]. left.
  assert (parse body = Ok (payload id method parameters)) as Ep.
  { destruct (coded_json_total (payload id method parameters)) as (text & Ed & Et). congruence. }
  unfold node_reply. rewrite Ep. cbn [payload json_find find_member String.eqb Ascii.eqb Bool.eqb].
  destruct (coded_json_total (JObject [("id", JNumber id); ("jsonrpc", JString "2.0"); ("result", node method parameters)]))
    as (text & -> & Et). split; [done|]. split; [done|]. eexists. split; [exact Et|].
  eexists _, id. repeat split; [by apply u64_uint64|done].
Qed.
End Node.

(** ** The demonstration chain behind such a node *)

Definition header_json (h : BlockHeader) : json := JObject [
  ("hash", hex_hash (bh_hash h)); ("nonce", JNumber 0); ("number", quantity (bh_number h));
  ("parentHash", hex_hash (bh_parentHash h)); ("timestamp", quantity (bh_timestamp h))].

Definition log_json (log : RpcLog) : json := JObject [
  ("address", JString (AddressToHex (lg_address log) true));
  ("blockHash", hex_hash (lg_blockHash log));
  ("blockNumber", quantity (lg_blockNumber log));
  ("data", JString (Encode (lg_data log) true));
  ("logIndex", quantity (lg_logIndex log));
  ("removed", JBool (lg_removed log));
  ("topics", JArray (hex_hash <$> lg_topics log));
  ("transactionHash", hex_hash (lg_transactionHash log));
  ("transactionIndex", quantity (lg_transactionIndex log))].

Definition member_text (field : string) (value : json) : string :=
  match json_find field value with Some (JString s) => s | _ => EmptyString end.

(** The number a parameter denotes. *)
Definition block_parameter (text : string) : Z := match FromHex text with Ok k => value_ k | Throw _ => 0 end.

Definition demo_node (method : string) (parameters : json) : json :=
  match parameters with
  | JArray [] => if String.eqb method "eth_chainId" then quantity (U 1) else quantity (U 11)
  | JArray [filter] =>
      if String.eqb (member_text "address" filter) (AddressToHex (cc_pool sample_contracts) true)
      then JArray (log_json <$> demo_logs (block_parameter (member_text "fromBlock" filter)))
      else JArray []
  | JArray (JString number :: _) => header_json (demo_header (block_parameter number))
  | _ => JNull
  end.

Lemma header_json_encodes h : bh_baseFeePerGas h = None -> encodes_header (header_json h) h.
Proof. intros Hb. eexists. split; [done|]. rewrite Hb. repeat (split; [done|]). by left. Qed.

Lemma log_json_encodes log : encodes_log (log_json log) log.
Proof. eexists. split; [done|]. by repeat split. Qed.

Lemma logs_json_encode logs : encodes_logs (JArray (log_json <$> logs)) logs.
Proof. eexists. split; [done|]. apply Forall2_fmap_l, Forall_Forall2_diag, Forall_true. apply log_json_encodes. Qed.

Lemma block_parameter_quantity k : 0 <= k < 2 ^ 256 -> block_parameter (ToQuantity (U k)) = k.
Proof. intros Hk. unfold block_parameter. by rewrite FromHex_ToQuantity, U_value. Qed.

Lemma demo_node_serves :
  NodeServes demo_node sample_contracts (U 1) 10 11 demo_header demo_logs (fun _ => []).
Proof.
  split; [done|done|..]; intros k Hk.
  - cbn [demo_node]. rewrite block_parameter_quantity by lia. by apply header_json_encodes.
  - cbn [demo_node]. unfold log_query, quantity, member_text. cbn [json_find find_member String.eqb Ascii.eqb Bool.eqb].
    rewrite String.eqb_refl, block_parameter_quantity by lia. apply logs_json_encode.
  - cbn [demo_node]. unfold log_query, quantity, member_text. cbn [json_find find_member String.eqb Ascii.eqb Bool.eqb].
    rewrite (proj2 (String.eqb_neq _ _)); [apply (logs_json_encode [])|].
    intros E%AddressToHex_inj. vm_compute in E. discriminate E.
Qed.

Definition node_endpoint : ParsedEndpoint := MkParsedEndpoint "node" "8545" "/".

(** It is down at every other connection. *)
Abbreviation flaky_transport := (node_transport (fun _ => Z.odd) demo_node).
Abbreviation flaky_client := (@rpc_client _ flaky_transport coded_json (fun _ => "") true 0 node_endpoint 5000).

Lemma answers_decoded_witness :
  let yields {A} := @yields (Z * string) (fun _ => True) (fun _ => True) A in
  yields (@client_GetChainId _ flaky_client) (U 1)
  /\ yields (@client_GetLogs _ flaky_client (block_filter 10 (cc_pool sample_contracts))) (demo_logs 10)
  /\ fst (@client_GetBlockByNumber _ flaky_client (U 11) (MkRpcNet ∅ (0, EmptyString))) = Ok (Some (demo_header 11)).
Proof.
  intros yields'.
  pose proof (@answers_decoded _ flaky_transport coded_json coded_json_lawful (fun _ => "") true 0 node_endpoint 5000
    (fun _ => True) (fun _ => True) demo_node (node_transport_speaks (fun _ => Z.odd) demo_node node_endpoint 5000 (fun _ => True)
      (fun _ _ => I))) as (Hid & _ & _ & Hlogs & _).
  split; [by apply Hid|]. split; [|vm_compute; reflexivity].
  apply Hlogs. by apply (ns_pool _ _ _ _ _ _ _ _ demo_node_serves).
Defined.
