(* ===== verification/RiskCalculator.v ===== *)
(** * RiskCalculator: health of positions and liquidation candidates
    ([RiskTypes.hpp], [RiskCalculator.cpp])

    The members of the class are definitions of the same name; [std::uint64_t] arguments
    are integers, assumed in range where a theorem needs it. *)

From S2P Require Import Prelude Text Uint256 Hex.
Import Math.
Set Default Goal Selector "!".
#[local] Open Scope Z_scope.
#[local] Open Scope u256_scope.

(** ** [RiskTypes.hpp] *)

Record IndexedPosition := MkIndexedPosition {
  ip_user : Address;
  ip_wethCollateral : Uint256;
  ip_scaledUsdcDebt : Uint256
}.

Record Position := MkPosition {
  po_user : Address;
  po_wethCollateral : Uint256;
  po_usdcDebt : Uint256
}.

Record MarketSnapshot := MkMarketSnapshot {
  mk_chainId : Uint256;
  mk_indexedBlock : Z;
  mk_indexedBlockHash : Hash256;
  mk_pool : Address;
  mk_oracle : Address;
  mk_weth : Address;
  mk_usdc : Address;
  mk_borrowIndex : Uint256;
  mk_wethPrice : Uint256;
  mk_wethPriceUpdatedAt : Uint256;
  mk_wethMaxPriceAge : Uint256;
  mk_usdcPrice : Uint256;
  mk_usdcPriceUpdatedAt : Uint256;
  mk_usdcMaxPriceAge : Uint256;
  mk_observedAt : Z;
  mk_availableUsdcLiquidity : Uint256;
  mk_totalScaledUsdcDebt : Uint256;
  mk_lastInterestTimestamp : Uint256;
  mk_canonicalVersion : Z
}.

Record PositionRisk := MkPositionRisk {
  pr_position : Position;
  pr_collateralValue : Uint256;
  pr_debtValue : Uint256;
  pr_maxBorrow : Uint256;
  pr_healthFactor : Uint256;
  pr_liquidatable : bool;
  pr_blockNumber : Z;
  pr_blockHash : Hash256
}.

Record LiquidationCandidate := MkLiquidationCandidate {
  lc_borrower : Address;
  lc_healthFactor : Uint256;
  lc_debtAsset : Address;
  lc_collateralAsset : Address;
  lc_maxRepay : Uint256;
  lc_expectedBonus : Uint256;
  lc_expectedCollateral : Uint256;
  lc_expectedBadDebt : Uint256;
  lc_blockNumber : Z;
  lc_blockHash : Hash256;
  lc_chainId : Uint256;
  lc_canonicalVersion : Z
}.

(** ** The constants *)
Definition Bps : Uint256 := U 10000.
Definition OracleScale : Uint256 := U 100000000.
Definition UsdcValueMultiplier : Uint256 := U 10000.
Definition CloseFactorBps : Uint256 := U 5000.
Definition LiquidationBonusBps : Uint256 := U 500.
Definition MinimumUsdcBorrow : Uint256 := U 1000000.
Definition OptimalUtilization : Uint256 := U 800000000000000000000000000.
Definition BaseRate : Uint256 := U 20000000000000000000000000.
Definition SlopeOne : Uint256 := U 80000000000000000000000000.
Definition SlopeTwo : Uint256 := U 1000000000000000000000000000.
Definition SecondsPerYear : Uint256 := U 31536000.
Definition Wad : Uint256 := U 1000000000000000000.
Definition Ray : Uint256 := U 1000000000000000000000000000.
Definition MaximumUint256 : Uint256 :=
  U 115792089237316195423570985008687907853269984665640564039457584007913129639935.
Definition LtvBasisPoints : Uint256 := U 7500.
Definition LiquidationThresholdBasisPoints : Uint256 := U 8000.

Definition Minimum (left right : Uint256) : Uint256 := if u_ltb left right then left else right.

(** ** [RiskCalculator] *)

Definition DebtAtIndex (scaledDebt borrowIndex : Uint256) : result Uint256 :=
  MulDivUp scaledDebt borrowIndex Ray.

Definition ProjectedBorrowIndex (market : MarketSnapshot) (evaluatedAt : Z) : result Uint256 :=
  if IsZero (mk_totalScaledUsdcDebt market) then Ok (mk_borrowIndex market)
  else
    lastUpdate ← ToUint64 (mk_lastInterestTimestamp market);
    if evaluatedAt <=? lastUpdate then Ok (mk_borrowIndex market)
    else
      totalDebt ← DebtAtIndex (mk_totalScaledUsdcDebt market) (mk_borrowIndex market);
      funds ← mk_availableUsdcLiquidity market +! totalDebt;
      utilization ← MulDivDown totalDebt Ray funds;
      borrowRate ←
        (if u_leb utilization OptimalUtilization then
           slope ← MulDivDown utilization SlopeOne OptimalUtilization;
           BaseRate +! slope
         else
           rate ← BaseRate +! SlopeOne;
           excess ← utilization -! OptimalUtilization;
           range ← Ray -! OptimalUtilization;
           slope ← MulDivDown excess SlopeTwo range;
           rate +! slope);
      interest ← MulDivDown borrowRate (U (u64 (evaluatedAt - lastUpdate))) SecondsPerYear;
      growth ← Ray +! interest;
      MulDivDown (mk_borrowIndex market) growth Ray.

Definition CollateralValue (wethAmount wethPrice : Uint256) : result Uint256 :=
  MulDivDown wethAmount wethPrice OracleScale.

Definition DebtValue (usdcAmount usdcPrice : Uint256) : result Uint256 :=
  product ← usdcAmount *! usdcPrice;
  product *! UsdcValueMultiplier.

Definition RequireFreshPrice (price updatedAt maxAge : Uint256) (evaluatedAt : Z) (asset : string) : result unit :=
  if IsZero price || IsZero updatedAt || IsZero maxAge
  then Throw (RuntimeError (asset +:+ " price is unavailable"))
  else
    updated ← ToUint64 updatedAt;
    maximumAge ← ToUint64 maxAge;
    if (evaluatedAt <? updated) || (maximumAge <? u64 (evaluatedAt - updated))
    then Throw (RuntimeError (asset +:+ " price is stale"))
    else Ok tt.

Definition Evaluate (position : Position) (market : MarketSnapshot) (evaluatedAt : Z) : result PositionRisk :=
  if IsZero (po_usdcDebt position) then
    collateralValue ← (if IsZero (mk_wethPrice market) then Ok (U 0)
                       else CollateralValue (po_wethCollateral position) (mk_wethPrice market));
    maxBorrow ← (if IsZero (mk_wethPrice market) then Ok (U 0)
                 else v ← CollateralValue (po_wethCollateral position) (mk_wethPrice market);
                      MulDivDown v LtvBasisPoints Bps);
    Ok (MkPositionRisk position collateralValue (U 0) maxBorrow MaximumUint256 false
          (mk_indexedBlock market) (mk_indexedBlockHash market))
  else
    _ ← RequireFreshPrice (mk_wethPrice market) (mk_wethPriceUpdatedAt market)
          (mk_wethMaxPriceAge market) evaluatedAt "WETH";
    _ ← RequireFreshPrice (mk_usdcPrice market) (mk_usdcPriceUpdatedAt market)
          (mk_usdcMaxPriceAge market) evaluatedAt "USDC";
    collateralValue ← CollateralValue (po_wethCollateral position) (mk_wethPrice market);
    debtValue ← DebtValue (po_usdcDebt position) (mk_usdcPrice market);
    maxBorrow ← MulDivDown collateralValue LtvBasisPoints Bps;
    adjustedCollateral ← MulDivDown collateralValue LiquidationThresholdBasisPoints Bps;
    healthFactor ← MulDivDown adjustedCollateral Wad debtValue;
    Ok (MkPositionRisk position collateralValue debtValue maxBorrow healthFactor
          (u_ltb healthFactor Wad) (mk_indexedBlock market) (mk_indexedBlockHash market)).

Definition EvaluateIndexed (position : IndexedPosition) (market : MarketSnapshot) (evaluatedAt : Z) :
    result PositionRisk :=
  index ← ProjectedBorrowIndex market evaluatedAt;
  debt ← DebtAtIndex (ip_scaledUsdcDebt position) index;
  Evaluate (MkPosition (ip_user position) (ip_wethCollateral position) debt) market evaluatedAt.

Definition BuildCandidate (risk : PositionRisk) (market : MarketSnapshot) (requestedRepay : option Uint256) :
    result (option LiquidationCandidate) :=
  let debt := po_usdcDebt (pr_position risk) in
  let collateral := po_wethCollateral (pr_position risk) in
  if negb (pr_liquidatable risk) || IsZero debt || IsZero collateral then Ok None
  else
    let requested := default debt requestedRepay in
    if IsZero requested then Ok None
    else
      half ← MulDivDown debt CloseFactorBps Bps;
      rest ← debt -! half;
      let closeFactorLimit := if u_ltb rest MinimumUsdcBorrow then debt else half in
      bonusBps ← Bps +! LiquidationBonusBps;
      collateralLimitedValue ← MulDivDown (pr_collateralValue risk) Bps bonusBps;
      valueAtTokenPrecision ← MulDivDown collateralLimitedValue (U 1) (mk_usdcPrice market);
      collateralLimitedRepay ← MulDivDown valueAtTokenPrecision (U 1) Bps;
      let repay := Minimum requested (Minimum closeFactorLimit collateralLimitedRepay) in
      let collateralLimited := u_leb collateralLimitedRepay requested
                               && u_leb collateralLimitedRepay closeFactorLimit in
      remainingDebt ← debt -! repay;
      repay ← (if negb collateralLimited && negb (IsZero remainingDebt)
                  && u_ltb remainingDebt MinimumUsdcBorrow
               then debt -! MinimumUsdcBorrow else Ok repay);
      if IsZero repay then Ok None
      else
        repayValue ← DebtValue repay (mk_usdcPrice market);
        collateralValueWithBonus ← MulDivDown repayValue bonusBps Bps;
        seized ← MulDivDown collateralValueWithBonus OracleScale (mk_wethPrice market);
        let collateralSeized := if collateralLimited then collateral else seized in
        if IsZero collateralSeized then Ok None
        else
          seizedValue ← CollateralValue collateralSeized (mk_wethPrice market);
          repaidValue ← DebtValue repay (mk_usdcPrice market);
          bonus ← (if u_gtb seizedValue repaidValue then seizedValue -! repaidValue else Ok (U 0));
          badDebt ← (if collateralLimited && u_gtb debt repay then debt -! repay else Ok (U 0));
          Ok (Some (MkLiquidationCandidate (po_user (pr_position risk)) (pr_healthFactor risk)
                (mk_usdc market) (mk_weth market) repay bonus collateralSeized badDebt
                (pr_blockNumber risk) (pr_blockHash risk) (mk_chainId market)
                (mk_canonicalVersion market))).

(** ** Values of the constants *)
Lemma Bps_value : value_ Bps = 10000.
Proof. reflexivity. Qed.
Lemma OracleScale_value : value_ OracleScale = 10 ^ 8.
Proof. reflexivity. Qed.
Lemma UsdcValueMultiplier_value : value_ UsdcValueMultiplier = 10000.
Proof. reflexivity. Qed.
Lemma CloseFactorBps_value : value_ CloseFactorBps = 5000.
Proof. reflexivity. Qed.
Lemma LiquidationBonusBps_value : value_ LiquidationBonusBps = 500.
Proof. reflexivity. Qed.
Lemma MinimumUsdcBorrow_value : value_ MinimumUsdcBorrow = 10 ^ 6.
Proof. reflexivity. Qed.
Lemma OptimalUtilization_value : value_ OptimalUtilization = 8 * 10 ^ 26.
Proof. reflexivity. Qed.
Lemma BaseRate_value : value_ BaseRate = 2 * 10 ^ 25.
Proof. reflexivity. Qed.
Lemma SlopeOne_value : value_ SlopeOne = 8 * 10 ^ 25.
Proof. reflexivity. Qed.
Lemma SlopeTwo_value : value_ SlopeTwo = 10 ^ 27.
Proof. reflexivity. Qed.
Lemma SecondsPerYear_value : value_ SecondsPerYear = 31536000.
Proof. reflexivity. Qed.
Lemma Wad_value : value_ Wad = 10 ^ 18.
Proof. reflexivity. Qed.
Lemma RiskRay_value : value_ Ray = 10 ^ 27.
Proof. reflexivity. Qed.
Lemma 
  LtvBasisPoints_value : value_ LtvBasisPoints = 7500.
Proof. reflexivity. Qed.
Lemma LiquidationThresholdBasisPoints_value : value_ LiquidationThresholdBasisPoints = 8000.
Proof. reflexivity. Qed.
Lemma RiskU0_value : value_ (U 0) = 0.
Proof. reflexivity. Qed.
Lemma U1_value : value_ (U 1) = 1.
Proof. reflexivity. Qed.

Create Rewrite HintDb constants.
#[export] Hint Rewrite Bps_value OracleScale_value UsdcValueMultiplier_value CloseFactorBps_value
  LiquidationBonusBps_value MinimumUsdcBorrow_value OptimalUtilization_value BaseRate_value
  SlopeOne_value SlopeTwo_value SecondsPerYear_value Wad_value RiskRay_value 
  LtvBasisPoints_value LiquidationThresholdBasisPoints_value RiskU0_value U1_value : constants.

Ltac constants := autorewrite with constants in *.

(** ** Freshness and health *)

(** What the oracle contract requires of a price read at time [t]. *)
Definition fresh (price updatedAt maxAge : Uint256) (t : Z) : Prop :=
  0 < value_ price /\ 0 < value_ updatedAt <= t /\ 0 < value_ maxAge < 2 ^ 64
  /\ t - value_ updatedAt <= value_ maxAge.

Lemma RequireFreshPrice_Ok price updatedAt maxAge t asset :
  0 <= t < 2 ^ 64 ->
  RequireFreshPrice price updatedAt maxAge t asset = Ok tt <-> fresh price updatedAt maxAge t.
Proof.
  intros Ht. unfold RequireFreshPrice, fresh, IsZero.
  pose proof (uval_range price). pose proof (uval_range updatedAt). pose proof (uval_range maxAge).
  destruct (Z.eqb_spec (value_ price) 0), (Z.eqb_spec (value_ updatedAt) 0),
    (Z.eqb_spec (value_ maxAge) 0); cbn [orb]; try (split; [done|lia]).
  destruct (ToUint64 updatedAt) as [u|] eqn:Eu; msimpl.
  - apply ToUint64_Ok in Eu as [-> Hu]. destruct (ToUint64 maxAge) as [a|] eqn:Ea; msimpl.
    + apply ToUint64_Ok in Ea as [-> Ha].
      destruct (Z.ltb_spec t (value_ updatedAt)); cbn [orb]; [split; [done|lia]|].
      rewrite u64_small by lia. destruct (Z.ltb_spec (value_ maxAge) (t - value_ updatedAt));
        (split; [try done; lia | try done; lia]).
    + split; [done|]. intros (_ & _ & Ha & _).
      enough (ToUint64 maxAge = Ok (value_ maxAge)) by congruence. apply ToUint64_Ok. lia.
  - split; [done|]. intros (_ & Hu & _).
    enough (ToUint64 updatedAt = Ok (value_ updatedAt)) by congruence. apply ToUint64_Ok. lia.
Qed.

(** The value of collateral and of debt in USD with 18 decimals. *)
Definition collateral_wad (m : MarketSnapshot) (weth : Z) : Z := weth * value_ (mk_wethPrice m) / 10 ^ 8.
Definition debt_wad (m : MarketSnapshot) (usdc : Z) : Z := usdc * value_ (mk_usdcPrice m) * 10000.

Lemma DebtValue_Ok x p v : DebtValue x p = Ok v <-> value_ v = value_ x * value_ p * 10000.
Proof.
  unfold DebtValue. split.
  - intros H. invert_bind. exact_values. constants. lia.
  - intros H. pose proof (uval_range v). pose proof (uval_range x). pose proof (uval_range p).
    destruct (mul_fits x p) as (q & Eq & Vq); [nia|]. rewrite Eq. msimpl. apply mul_Ok.
    constants. lia.
Qed.

Lemma CollateralValue_Ok x p v : CollateralValue x p = Ok v <-> value_ v = value_ x * value_ p / 10 ^ 8.
Proof. unfold CollateralValue. rewrite MathLemmas.MulDivDown_Ok. constants. lia. Qed.

(** The exact meaning of a successful evaluation of a position with debt. *)
Definition evaluated (p : Position) (m : MarketSnapshot) (t : Z) (r : PositionRisk) : Prop :=
  let cv := collateral_wad m (value_ (po_wethCollateral p)) in
  let dv := debt_wad m (value_ (po_usdcDebt p)) in
  fresh (mk_wethPrice m) (mk_wethPriceUpdatedAt m) (mk_wethMaxPriceAge m) t
  /\ fresh (mk_usdcPrice m) (mk_usdcPriceUpdatedAt m) (mk_usdcMaxPriceAge m) t
  /\ value_ (pr_collateralValue r) = cv /\ value_ (pr_debtValue r) = dv
  /\ value_ (pr_maxBorrow r) = cv * 7500 / 10000
  /\ value_ (pr_healthFactor r) = cv * 8000 / 10000 * 10 ^ 18 / dv
  /\ (pr_liquidatable r = true <-> cv * 8000 / 10000 < dv).

Lemma health_below_wad a d : 0 <= a -> 0 < d -> (a * 10 ^ 18 / d < 10 ^ 18 <-> a < d).
Proof.
  intros Ha Hd. split; intros H.
  - destruct (Z.lt_ge_cases a d) as [|Hge]; [done|]. exfalso.
    assert (10 ^ 18 <= a * 10 ^ 18 / d); [|lia]. apply Z.div_le_lower_bound; nia.
  - apply Z.div_lt_upper_bound; nia.
Qed.

Lemma Evaluate_debt p m t r :
  0 <= t < 2 ^ 64 -> value_ (po_usdcDebt p) <> 0 -> Evaluate p m t = Ok r ->
  pr_position r = p /\ evaluated p m t r.
Proof.
  intros Ht Hd. unfold Evaluate, IsZero. destruct (Z.eqb_spec (value_ (po_usdcDebt p)) 0); [done|].
  intros H. invert_bind. destruct a, a0.
  apply RequireFreshPrice_Ok in Hb, Hb0; [|done|done]. apply CollateralValue_Ok in Hb1.
  apply DebtValue_Ok in Hb2. exact_values. split; [done|].
  constants.
  unfold evaluated, collateral_wad, debt_wad. cbn. pose proof (uval_range (po_usdcDebt p)).
  destruct Hb0 as (Hp & ?). repeat (split; [by rewrite ?Hb5, ?Hb4, ?Hb3, ?Hb2, ?Hb1|]).
  unfold u_ltb. rewrite Z.ltb_lt, Wad_value, Hb5, Hb4, Hb1, Hb2.
  pose proof (uval_range (po_wethCollateral p)). pose proof (uval_range (mk_wethPrice m)).
  apply health_below_wad; [|nia]. apply Z.div_pos; [|lia]. apply Z.mul_nonneg_nonneg; [|lia].
  apply Z.div_pos; nia.
Qed.

(** ** Accrued interest *)

(** The borrow rate per year, with 27 decimals, at a utilization. *)
Definition rate_ray (utilization : Z) : Z :=
  if utilization <=? 8 * 10 ^ 26 then 2 * 10 ^ 25 + utilization * (8 * 10 ^ 25) / (8 * 10 ^ 26)
  else 10 ^ 26 + (utilization - 8 * 10 ^ 26) * 10 ^ 27 / (2 * 10 ^ 26).

Lemma rate_ray_bounds u : 0 <= u <= 10 ^ 27 -> 2 * 10 ^ 25 <= rate_ray u <= 11 * 10 ^ 26.
Proof.
  intros Hu. unfold rate_ray. destruct (Z.leb_spec u (8 * 10 ^ 26)).
  - split; [pose proof (Z.div_pos (u * (8 * 10 ^ 25)) (8 * 10 ^ 26)); lia|].
    assert (u * (8 * 10 ^ 25) / (8 * 10 ^ 26) <= 8 * 10 ^ 25); [|lia].
    apply Z.div_le_upper_bound; lia.
  - split; [pose proof (Z.div_pos ((u - 8 * 10 ^ 26) * 10 ^ 27) (2 * 10 ^ 26)); lia|].
    assert ((u - 8 * 10 ^ 26) * 10 ^ 27 / (2 * 10 ^ 26) <= 10 ^ 27); [|lia].
    apply Z.div_le_upper_bound; lia.
Qed.

(** [ProjectedBorrowIndex] as a formula over the integers. *)
Definition accrued_index (m : MarketSnapshot) (t : Z) : Z :=
  let index := value_ (mk_borrowIndex m) in
  let debt := MathLemmas.cdiv (value_ (mk_totalScaledUsdcDebt m) * index) (10 ^ 27) in
  let utilization := debt * 10 ^ 27 / (value_ (mk_availableUsdcLiquidity m) + debt) in
  let elapsed := t - value_ (mk_lastInterestTimestamp m) in
  if (value_ (mk_totalScaledUsdcDebt m) =? 0) || (elapsed <=? 0) then index
  else index * (10 ^ 27 + rate_ray utilization * elapsed / 31536000) / 10 ^ 27.

Lemma ProjectedBorrowIndex_Ok m t i :
  0 <= t < 2 ^ 64 -> ProjectedBorrowIndex m t = Ok i -> value_ i = accrued_index m t.
Proof.
  intros Ht. unfold ProjectedBorrowIndex, accrued_index, DebtAtIndex, IsZero.
  destruct (Z.eqb_spec (value_ (mk_totalScaledUsdcDebt m)) 0); cbn [orb]; [by intros [= <-]|].
  intros H. invert_bind. apply ToUint64_Ok in Hb as [-> Hl].
  pose proof (uval_range (mk_lastInterestTimestamp m)).
  destruct (Z.leb_spec t (value_ (mk_lastInterestTimestamp m)));
    destruct (Z.leb_spec (t - value_ (mk_lastInterestTimestamp m)) 0); try lia; [by simplify_eq|].
  invert_bind. rewrite u64_small in Hb3 by lia. unfold rate_ray.
  exact_values. rewrite U_value in Hb3 by lia. constants.
  rewrite Hb0, Hb in Hb1. rewrite <-Hb1. rewrite H, Hb4, Hb3. do 5 f_equal.
  unfold u_leb in Hb2. rewrite OptimalUtilization_value in Hb2.
  destruct (Z.leb_spec (value_ a1) (8 * 10 ^ 26)); invert_bind; exact_values; constants.
  - by rewrite Hb2, Hb5.
  - rewrite Hb2, Hb5, Hb8, Hb7, Hb6. reflexivity.
Qed.

Lemma accrued_index_bounds m t :
  let index := value_ (mk_borrowIndex m) in
  let elapsed := Z.max 0 (t - value_ (mk_lastInterestTimestamp m)) in
  index <= accrued_index m t <= index + index * (11 * 10 ^ 26 * elapsed / 31536000) / 10 ^ 27.
Proof.
  intros index elapsed. unfold accrued_index. fold index. pose proof (uval_range (mk_borrowIndex m)).
  assert (0 <= 11 * 10 ^ 26 * elapsed / 31536000) by (apply Z.div_pos; lia).
  assert (0 <= index * (11 * 10 ^ 26 * elapsed / 31536000) / 10 ^ 27) by (apply Z.div_pos; nia).
  destruct (Z.eqb_spec (value_ (mk_totalScaledUsdcDebt m)) 0); cbn [orb]; [lia|].
  destruct (Z.leb_spec (t - value_ (mk_lastInterestTimestamp m)) 0); [lia|].
  set (debt := MathLemmas.cdiv _ _).
  set (u := debt * 10 ^ 27 / _).
  assert (0 <= debt) as Hd by (apply Z.div_pos; pose proof (uval_range (mk_totalScaledUsdcDebt m)); nia).
  pose proof (uval_range (mk_availableUsdcLiquidity m)) as Ha.
  assert (0 <= u <= 10 ^ 27) as Hu.
  { unfold u. destruct (Z.eq_dec (value_ (mk_availableUsdcLiquidity m) + debt) 0) as [->|].
    - rewrite Z.div_0_r. lia.
    - split; [apply Z.div_pos; lia|]. apply Z.div_le_upper_bound; nia. }
  pose proof (rate_ray_bounds u Hu). replace (t - _) with elapsed by lia.
  assert (0 <= rate_ray u * elapsed / 31536000 <= 11 * 10 ^ 26 * elapsed / 31536000) as Hr.
  { split; [apply Z.div_pos; nia|]. apply Z.div_le_mono; nia. }
  rewrite Z.mul_add_distr_l, Z.add_comm, Z.div_add by lia. split.
  - pose proof (Z.div_pos (index * (rate_ray u * elapsed / 31536000)) (10 ^ 27)). nia.
  - rewrite Z.add_comm. apply Z.add_le_mono_l, Z.div_le_mono; nia.
Qed.

(** ** Liquidation amounts over the integers *)

Definition close_limit (debt : Z) : Z :=
  let half := debt * 5000 / 10000 in if debt - half <? 10 ^ 6 then debt else half.

(** The repayment whose collateral with bonus is worth all the collateral. *)
Definition collateral_limit (m : MarketSnapshot) (weth : Z) : Z :=
  collateral_wad m weth * 10000 / 10500 / value_ (mk_usdcPrice m) / 10000.

Definition limited_by_collateral (m : MarketSnapshot) (debt weth requested : Z) : bool :=
  (collateral_limit m weth <=? requested) && (collateral_limit m weth <=? close_limit debt).

Definition capped_repay (m : MarketSnapshot) (debt weth requested : Z) : Z :=
  Z.min requested (Z.min (close_limit debt) (collateral_limit m weth)).

(** A capped repayment would leave a debt below the protocol's minimum. *)
Definition leaves_dust (m : MarketSnapshot) (debt weth requested : Z) : bool :=
  let rest := debt - capped_repay m debt weth requested in
  negb (limited_by_collateral m debt weth requested) && negb (rest =? 0) && (rest <? 10 ^ 6).

Definition planned_repay (m : MarketSnapshot) (debt weth requested : Z) : Z :=
  if leaves_dust m debt weth requested then debt - 10 ^ 6 else capped_repay m debt weth requested.

Definition collateral_for (m : MarketSnapshot) (repay : Z) : Z :=
  debt_wad m repay * 10500 / 10000 * 10 ^ 8 / value_ (mk_wethPrice m).

Definition planned_seizure (m : MarketSnapshot) (debt weth requested : Z) : Z :=
  if limited_by_collateral m debt weth requested then weth
  else collateral_for m (planned_repay m debt weth requested).

Lemma close_limit_bounds debt : 0 <= debt -> 0 <= close_limit debt <= debt.
Proof.
  intros H. unfold close_limit. pose proof (Z.div_pos (debt * 5000) 10000 ltac:(lia) ltac:(lia)).
  pose proof (Z.div_le_upper_bound (debt * 5000) 10000 debt ltac:(lia) ltac:(lia)).
  destruct (Z.ltb_spec (debt - debt * 5000 / 10000) (10 ^ 6)); lia.
Qed.

Lemma collateral_wad_nonneg m weth : 0 <= weth -> 0 <= collateral_wad m weth.
Proof. intros. apply Z.div_pos; [|lia]. pose proof (uval_range (mk_wethPrice m)). nia. Qed.

Section Amounts.
Context (m : MarketSnapshot) (debt weth requested : Z).
Context (Hw : 0 < value_ (mk_wethPrice m)) (Hu : 0 < value_ (mk_usdcPrice m)).
Context (Hd : 0 <= debt) (Hc : 0 <= weth) (Hr : 0 <= requested).

Lemma collateral_limit_spec :
  0 <= collateral_limit m weth
  /\ collateral_limit m weth * 10000 * value_ (mk_usdcPrice m) * 10500 <= collateral_wad m weth * 10000.
Proof using Hu Hc.
  pose proof (collateral_wad_nonneg m weth Hc). unfold collateral_limit.
  set (q1 := collateral_wad m weth * 10000 / 10500). set (q2 := q1 / value_ (mk_usdcPrice m)).
  assert (0 <= q1) by (apply Z.div_pos; lia). assert (0 <= q2) by (apply Z.div_pos; lia).
  split; [apply Z.div_pos; lia|].
  pose proof (Z.mul_div_le (collateral_wad m weth * 10000) 10500 ltac:(lia)). fold q1 in H2.
  pose proof (Z.mul_div_le q1 (value_ (mk_usdcPrice m)) Hu). fold q2 in H3.
  pose proof (Z.mul_div_le q2 10000 ltac:(lia)). nia.
Qed.

Lemma capped_repay_bounds :
  0 <= capped_repay m debt weth requested <= debt
  /\ capped_repay m debt weth requested <= requested
  /\ capped_repay m debt weth requested <= collateral_limit m weth.
Proof using Hu Hc Hd Hr.
  pose proof (close_limit_bounds debt Hd). destruct collateral_limit_spec. unfold capped_repay. lia.
Qed.

Lemma planned_repay_bounds :
  planned_repay m debt weth requested <= debt
  /\ planned_repay m debt weth requested <= requested
  /\ planned_repay m debt weth requested <= collateral_limit m weth
  /\ (leaves_dust m debt weth requested = false \/ 10 ^ 6 <= debt ->
      0 <= planned_repay m debt weth requested).
Proof using Hu Hc Hd Hr.
  pose proof capped_repay_bounds. unfold planned_repay.
  destruct (leaves_dust m debt weth requested) eqn:E; [|lia].
  unfold leaves_dust in E. boolify. lia.
Qed.

(** Collateral with bonus for a repayment within the limit is worth at most all of it. *)
Lemma collateral_for_bounds repay :
  0 <= repay <= collateral_limit m weth ->
  0 <= debt_wad m repay <= debt_wad m repay * 10500 / 10000
  /\ debt_wad m repay * 10500 / 10000 <= collateral_wad m weth
  /\ 0 <= collateral_for m repay <= weth.
Proof using Hw Hu Hc.
  intros Hrep. destruct collateral_limit_spec as [_ Hl]. pose proof (collateral_wad_nonneg m weth Hc).
  assert (0 <= debt_wad m repay) by (unfold debt_wad; nia).
  assert (debt_wad m repay * 10500 / 10000 <= collateral_wad m weth) as Hv.
  { apply Z.div_le_upper_bound; [lia|]. unfold debt_wad. nia. }
  assert (debt_wad m repay <= debt_wad m repay * 10500 / 10000) by (apply Z.div_le_lower_bound; lia).
  repeat split; auto; unfold collateral_for.
  - apply Z.div_pos; lia.
  - apply Z.div_le_upper_bound; [lia|].
    pose proof (Z.mul_div_le (weth * value_ (mk_wethPrice m)) (10 ^ 8) ltac:(lia)) as Hm.
    fold (collateral_wad m weth) in Hm. nia.
Qed.
End Amounts.

(** ** [BuildCandidate] *)

Lemma Minimum_value x y : value_ (Minimum x y) = Z.min (value_ x) (value_ y).
Proof. unfold Minimum, u_ltb. destruct (Z.ltb_spec (value_ x) (value_ y)); lia. Qed.

(** A risk the calculator has evaluated against this market, for a position that can be
    liquidated. *)
Definition liquidatable_in (m : MarketSnapshot) (r : PositionRisk) : Prop :=
  pr_liquidatable r = true
  /\ 0 < value_ (po_usdcDebt (pr_position r)) /\ 0 < value_ (po_wethCollateral (pr_position r))
  /\ 0 < value_ (mk_wethPrice m) /\ 0 < value_ (mk_usdcPrice m)
  /\ value_ (pr_collateralValue r) = collateral_wad m (value_ (po_wethCollateral (pr_position r))).

(** The candidate for given amounts. *)
Definition candidate_of (m : MarketSnapshot) (r : PositionRisk) (repay seized : Z) (limited : bool) :
    LiquidationCandidate :=
  let debt := value_ (po_usdcDebt (pr_position r)) in
  MkLiquidationCandidate (po_user (pr_position r)) (pr_healthFactor r) (mk_usdc m) (mk_weth m)
    (U repay) (U (Z.max 0 (collateral_wad m seized - debt_wad m repay))) (U seized)
    (U (if limited then debt - repay else 0))
    (pr_blockNumber r) (pr_blockHash r) (mk_chainId m) (mk_canonicalVersion m).

Definition requested_amount (r : PositionRisk) (requestedRepay : option Uint256) : Z :=
  value_ (default (po_usdcDebt (pr_position r)) requestedRepay).

Lemma u_of_value x z : value_ x = z -> x = U z.
Proof. intros <-. by rewrite U_of_value. Qed.

(** The last part of [BuildCandidate], from a repayment within the collateral limit. *)
Lemma build_candidate_tail m r repay (limited : bool) bonusBps :
  liquidatable_in m r -> value_ bonusBps = 10500 ->
  let debt := po_usdcDebt (pr_position r) in
  let collateral := po_wethCollateral (pr_position r) in
  0 <= value_ repay <= collateral_limit m (value_ collateral) -> value_ repay <= value_ debt ->
  let seized := if limited then value_ collateral else collateral_for m (value_ repay) in
  (if IsZero repay then Ok None
   else
     repayValue ← DebtValue repay (mk_usdcPrice m);
     collateralValueWithBonus ← MulDivDown repayValue bonusBps Bps;
     seized ← MulDivDown collateralValueWithBonus OracleScale (mk_wethPrice m);
     let collateralSeized := if limited then collateral else seized in
     if IsZero collateralSeized then Ok None
     else
       seizedValue ← CollateralValue collateralSeized (mk_wethPrice m);
       repaidValue ← DebtValue repay (mk_usdcPrice m);
       bonus ← (if u_gtb seizedValue repaidValue then seizedValue -! repaidValue else Ok (U 0));
       badDebt ← (if limited && u_gtb debt repay then debt -! repay else Ok (U 0));
       Ok (Some (MkLiquidationCandidate (po_user (pr_position r)) (pr_healthFactor r)
             (mk_usdc m) (mk_weth m) repay bonus collateralSeized badDebt
             (pr_blockNumber r) (pr_blockHash r) (mk_chainId m) (mk_canonicalVersion m))))
  = Ok (if (value_ repay =? 0) || (seized =? 0) then None
        else Some (candidate_of m r (value_ repay) seized limited)).
Proof.
  intros (_ & Hd & Hc & Hw & Hu & Hcv) Hbps debt collateral Hrep Hle seized.
  pose proof (uval_range collateral).
  pose proof (collateral_for_bounds m (value_ collateral) Hw Hu ltac:(lia) (value_ repay) Hrep)
    as (Hdv & Hbv & Hsz).
  pose proof (uval_range (pr_collateralValue r)) as Hcr. rewrite Hcv in Hcr. fold collateral in Hcr.
  unfold IsZero at 1. destruct (Z.eqb_spec (value_ repay) 0) as [|Hnz]; cbn [orb]; [done|].
  assert (DebtValue repay (mk_usdcPrice m) = Ok (U (debt_wad m (value_ repay)))) as EDV.
  { apply DebtValue_Ok. rewrite U_value by lia. done. }
  rewrite EDV. mstep.
  destruct (MulDivDown_fits (U (debt_wad m (value_ repay))) bonusBps Bps) as (cb & -> & Vcb).
  { done. } { rewrite Hbps, Bps_value, U_value by lia. lia. }
  rewrite Hbps, Bps_value, U_value in Vcb by lia. mstep.
  destruct (MulDivDown_fits cb OracleScale (mk_wethPrice m)) as (sz & -> & Vsz).
  { lia. } { rewrite Vcb, OracleScale_value. fold (collateral_for m (value_ repay)). lia. }
  rewrite Vcb, OracleScale_value in Vsz. fold (collateral_for m (value_ repay)) in Vsz. mstep.
  set (cs := if limited then collateral else sz).
  assert (value_ cs = seized) as Vcs by (unfold cs, seized; by destruct limited).
  unfold IsZero. rewrite Vcs. destruct (Z.eqb_spec seized 0); [done|].
  assert (seized <= value_ collateral) by (unfold seized; destruct limited; lia).
  assert (collateral_wad m seized <= collateral_wad m (value_ collateral)) as Hmono.
  { apply Z.div_le_mono; nia. }
  assert (0 <= collateral_wad m seized) by (apply collateral_wad_nonneg; pose proof (uval_range cs); lia).
  assert (CollateralValue cs (mk_wethPrice m) = Ok (U (collateral_wad m seized))) as ->.
  { apply CollateralValue_Ok. rewrite U_value, Vcs by lia. done. }
  mstep. unfold u_gtb. rewrite !U_value by lia.
  assert ((if debt_wad m (value_ repay) <? collateral_wad m seized
           then U (collateral_wad m seized) -! U (debt_wad m (value_ repay)) else Ok (U 0))
          = Ok (U (Z.max 0 (collateral_wad m seized - debt_wad m (value_ repay))))) as ->.
  { destruct (Z.ltb_spec (debt_wad m (value_ repay)) (collateral_wad m seized)).
    - rewrite sub_le by (rewrite !U_value by lia; lia). rewrite !U_value by lia.
      by rewrite Z.max_r by lia.
    - by rewrite Z.max_l by lia. }
  mstep.
  assert ((if limited && (value_ repay <? value_ debt) then debt -! repay else Ok (U 0))
          = Ok (U (if limited then value_ debt - value_ repay else 0))) as ->.
  { destruct limited; cbn [andb]; [|done].
    destruct (Z.ltb_spec (value_ repay) (value_ debt)); [by rewrite sub_le by lia|].
    replace (value_ debt - value_ repay) with 0 by lia. done. }
  mstep. unfold candidate_of. rewrite <-Vcs, !U_of_value. done.
Qed.

(** [BuildCandidate] as a formula: the only exception is the underflow of a request that
    would leave dust on a debt below the minimum. *)
Lemma BuildCandidate_eq m r req :
  liquidatable_in m r ->
  let debt := value_ (po_usdcDebt (pr_position r)) in
  let weth := value_ (po_wethCollateral (pr_position r)) in
  let requested := requested_amount r req in
  let repay := planned_repay m debt weth requested in
  let seized := planned_seizure m debt weth requested in
  0 < requested ->
  BuildCandidate r m req =
    if leaves_dust m debt weth requested && (debt <? 10 ^ 6)
    then Throw (OverflowError "uint256 subtraction underflow")
    else Ok (if (repay =? 0) || (seized =? 0) then None
             else Some (candidate_of m r repay seized (limited_by_collateral m debt weth requested))).
Proof.
  intros HL debt weth requested repay seized Hreq. destruct (HL) as (Hl & Hd & Hc & Hw & Hu & Hcv).
  unfold BuildCandidate, IsZero. rewrite Hl. cbn [negb orb].
  destruct (Z.eqb_spec (value_ (po_usdcDebt (pr_position r))) 0); [lia|].
  destruct (Z.eqb_spec (value_ (po_wethCollateral (pr_position r))) 0); [lia|]. cbn [orb].
  fold (requested_amount r req). fold requested. fold debt in Hd |- *.
  destruct (Z.eqb_spec requested 0); [lia|].
  pose proof (uval_range (po_usdcDebt (pr_position r))) as Hdr. fold debt in Hdr.
  destruct (MulDivDown_fits (po_usdcDebt (pr_position r)) CloseFactorBps Bps) as (half & -> & Vhalf).
  { done. } { fold debt. constants. apply Z.div_lt_upper_bound; lia. }
  constants. fold debt in Vhalf. mstep.
  destruct (sub_fits (po_usdcDebt (pr_position r)) half) as (rest & -> & Vrest).
  { fold debt. rewrite Vhalf. apply Z.div_le_upper_bound; lia. }
  fold debt in Vrest. mstep.
  set (limit := if u_ltb rest MinimumUsdcBorrow then po_usdcDebt (pr_position r) else half).
  assert (value_ limit = close_limit debt) as Vlimit.
  { unfold limit, close_limit, u_ltb. rewrite Vrest, Vhalf. constants. by destruct (_ <? _). }
  destruct (add_fits Bps LiquidationBonusBps) as (bonusBps & -> & Vbonus).
  { constants. lia. }
  constants. mstep. pose proof (uval_range (pr_collateralValue r)) as Hcr.
  destruct (MulDivDown_fits (pr_collateralValue r) Bps bonusBps) as (v1 & -> & V1).
  { lia. } { rewrite Vbonus. constants. apply Z.div_lt_upper_bound; lia. }
  mstep. pose proof (uval_range v1).
  destruct (MulDivDown_fits v1 (U 1) (mk_usdcPrice m)) as (v2 & -> & V2).
  { lia. } { constants. apply Z.div_lt_upper_bound; nia. }
  mstep. pose proof (uval_range v2).
  destruct (MulDivDown_fits v2 (U 1) Bps) as (v3 & -> & V3).
  { done. } { constants. apply Z.div_lt_upper_bound; lia. }
  constants. mstep.
  assert (value_ v3 = collateral_limit m weth) as Vv3.
  { rewrite V3, V2, V1, Vbonus, Hcv, !Z.mul_1_r. reflexivity. }
  set (req' := default (po_usdcDebt (pr_position r)) req).
  set (repay0 := Minimum req' (Minimum limit v3)).
  assert (value_ repay0 = capped_repay m debt weth requested) as Vrepay0.
  { unfold repay0. rewrite !Minimum_value, Vlimit, Vv3. reflexivity. }
  assert (u_leb v3 req' && u_leb v3 limit = limited_by_collateral m debt weth requested) as ->.
  { unfold u_leb, limited_by_collateral. rewrite Vlimit, Vv3. reflexivity. }
  pose proof (capped_repay_bounds m debt weth requested Hu ltac:(lia) ltac:(unfold weth; lia) ltac:(lia)) as Hcap.
  pose proof (planned_repay_bounds m debt weth requested Hu ltac:(lia) ltac:(unfold weth; lia) ltac:(lia)) as Hplan.
  destruct (sub_fits (po_usdcDebt (pr_position r)) repay0) as (remaining & -> & Vrem).
  { fold debt. lia. }
  fold debt in Vrem. mstep. rewrite Vrem, Vrepay0.
  assert (u_ltb remaining MinimumUsdcBorrow = (debt - capped_repay m debt weth requested <? 10 ^ 6)) as ->.
  { unfold u_ltb. rewrite Vrem, Vrepay0. constants. reflexivity. }
  change (negb _ && negb _ && _) with (leaves_dust m debt weth requested).
  unfold seized, planned_seizure, repay, planned_repay in Hplan |- *.
  destruct (leaves_dust m debt weth requested) eqn:Edust; cbn [andb].
  - destruct (Z.ltb_spec debt (10 ^ 6)).
    + rewrite sub_lt; [done|]. fold debt. constants. lia.
    + destruct (sub_fits (po_usdcDebt (pr_position r)) MinimumUsdcBorrow) as (rp & -> & Vrp).
      { fold debt. constants. lia. }
      fold debt in Vrp. rewrite MinimumUsdcBorrow_value in Vrp. mstep. rewrite <-Vrp.
      apply build_candidate_tail; auto; [fold weth; lia | fold debt; lia].
  - mstep. rewrite <-Vrepay0. apply build_candidate_tail; auto; [fold weth; lia | fold debt; lia].
Qed.

Lemma BuildCandidate_none r m req :
  pr_liquidatable r = false \/ value_ (po_usdcDebt (pr_position r)) = 0
  \/ value_ (po_wethCollateral (pr_position r)) = 0 -> BuildCandidate r m req = Ok None.
Proof.
  intros H. unfold BuildCandidate, IsZero. destruct (pr_liquidatable r); cbn [negb orb]; [|done].
  destruct (Z.eqb_spec (value_ (po_usdcDebt (pr_position r))) 0); cbn [orb]; [done|].
  destruct (Z.eqb_spec (value_ (po_wethCollateral (pr_position r))) 0); [done|]. by destruct H as [|[|]].
Qed.

Lemma Evaluate_position p m t r : Evaluate p m t = Ok r -> pr_position r = p.
Proof.
  unfold Evaluate. intros H. destruct (IsZero (po_usdcDebt p)); invert_bind; done.
Qed.

Lemma Evaluate_exact_debt p m t r :
  Evaluate p m t = Ok r -> value_ (po_usdcDebt p) = 0 ->
  pr_liquidatable r = false /\ pr_healthFactor r = MaximumUint256.
Proof.
  intros H Hd. unfold Evaluate, IsZero in H. rewrite Hd in H. cbn [Z.eqb] in H. by invert_bind.
Qed.

(** Whatever [Evaluate] returns is either not liquidatable or meets [liquidatable_in]. *)
(** What a candidate takes over from the evaluated position and the market. *)
Lemma BuildCandidate_origin r m req c :
  BuildCandidate r m req = Ok (Some c) ->
  pr_liquidatable r = true /\ lc_borrower c = po_user (pr_position r) /\ lc_healthFactor c = pr_healthFactor r
  /\ lc_debtAsset c = mk_usdc m /\ lc_collateralAsset c = mk_weth m
  /\ lc_blockNumber c = pr_blockNumber r /\ lc_blockHash c = pr_blockHash r
  /\ lc_chainId c = mk_chainId m /\ lc_canonicalVersion c = mk_canonicalVersion m.
Proof.
  destruct (pr_liquidatable r) eqn:El; [|by rewrite BuildCandidate_none by auto].
  unfold BuildCandidate. intros H.
  repeat match goal with
  | H : (if ?b then Ok None else _) = Ok _ |- _ => destruct b; [discriminate H|]
  | H : mbind _ _ = Ok _ |- _ => apply bind_Ok_inv in H as (? & _ & H)
  | H : (let _ := _ in _) = Ok _ |- _ => cbv zeta in H
  end. injection H as <-. done.
Qed.

Lemma Evaluate_liquidatable p m t r :
  0 <= t < 2 ^ 64 -> Evaluate p m t = Ok r ->
  (pr_liquidatable r = false \/ value_ (po_usdcDebt (pr_position r)) = 0
   \/ value_ (po_wethCollateral (pr_position r)) = 0) \/ liquidatable_in m r.
Proof.
  intros Ht H. pose proof (Evaluate_position _ _ _ _ H) as E.
  pose proof (uval_range (po_usdcDebt (pr_position r))).
  pose proof (uval_range (po_wethCollateral (pr_position r))).
  destruct (pr_liquidatable r) eqn:El; [|tauto].
  destruct (Z.eq_dec (value_ (po_usdcDebt (pr_position r))) 0); [tauto|].
  destruct (Z.eq_dec (value_ (po_wethCollateral (pr_position r))) 0); [tauto|]. right.
  rewrite E in *. apply Evaluate_debt in H as [_ (F1 & F2 & Hcv & _)]; [|done|done].
  destruct F1, F2. repeat split; auto; rewrite ?E; lia.
Qed.

(** A request for the whole debt never leaves dust. *)
Lemma whole_debt_no_dust m debt weth :
  0 <= debt -> leaves_dust m debt weth debt = false.
Proof.
  intros Hd. pose proof (close_limit_bounds debt Hd).
  unfold leaves_dust, limited_by_collateral, capped_repay.
  destruct (Z.leb_spec (collateral_limit m weth) (close_limit debt)).
  { destruct (Z.leb_spec (collateral_limit m weth) debt); [done|lia]. }
  replace (Z.min debt _) with (close_limit debt) by lia. rewrite andb_false_r. unfold close_limit.
  destruct (Z.ltb_spec (debt - debt * 5000 / 10000) (10 ^ 6)) as [|Hge]; [by rewrite Z.sub_diag|].
  apply Z.ltb_ge in Hge. by rewrite Hge, andb_false_r.
Qed.

Lemma whole_debt_plan m debt weth :
  0 < value_ (mk_wethPrice m) -> 0 < value_ (mk_usdcPrice m) -> 0 <= debt -> 0 <= weth ->
  let repay := planned_repay m debt weth debt in
  let seized := planned_seizure m debt weth debt in
  0 <= repay <= debt /\ 0 <= seized <= weth
  /\ (repay <= debt * 5000 / 10000 \/ debt - debt * 5000 / 10000 < 10 ^ 6)
  /\ (if limited_by_collateral m debt weth debt then seized = weth
      else debt - repay = 0 \/ 10 ^ 6 <= debt - repay).
Proof.
  intros Hw Hu Hd Hc repay seized. pose proof (whole_debt_no_dust m debt weth Hd) as Hnd.
  pose proof (planned_repay_bounds m debt weth debt Hu Hd Hc Hd) as (B1 & _ & B2 & B3).
  specialize (B3 (or_introl Hnd)).
  destruct (collateral_for_bounds m weth Hw Hu Hc _ (conj B3 B2)) as (_ & _ & B4).
  pose proof (close_limit_bounds debt Hd) as HCL.
  unfold seized, repay, planned_seizure, planned_repay in *. rewrite Hnd in *.
  unfold limited_by_collateral, capped_repay, close_limit in *.
  destruct (Z.ltb_spec (debt - debt * 5000 / 10000) (10 ^ 6)), (Z.leb_spec (collateral_limit m weth) debt);
    cbn [andb]; try (case_match; lia); lia.
Qed.

(** ** The contract's computation ([LiquidationManager.sol], [RiskManager.sol])

    [mulDiv] is OpenZeppelin's [Math.mulDiv] rounding down, outside the sources; the
    prices are those the oracle returns in the same block. *)
Section Contract.
Context (mulDiv : Uint256 -> Uint256 -> Uint256 -> result Uint256).

(** The documented behaviour of [Math.mulDiv]: the floor of the exact quotient when it
    is a [uint256], and a revert otherwise. *)
Definition mulDiv_floor : Prop := forall x y d q,
  mulDiv x y d = Ok q <-> value_ d <> 0 /\ value_ q = value_ x * value_ y / value_ d.

Context (wethPrice usdcPrice : Uint256).

Definition sol_collateralValue (wethAmount : Uint256) : result Uint256 :=
  mulDiv wethAmount wethPrice OracleScale.
Definition sol_debtValue (usdcAmount : Uint256) : result Uint256 :=
  product ← usdcAmount *! usdcPrice; product *! UsdcValueMultiplier.
Definition sol_collateralAmountForValueDown (usdValueWad : Uint256) : result Uint256 :=
  mulDiv usdValueWad OracleScale wethPrice.
Definition sol_debtAmountForValueDown (usdValueWad : Uint256) : result Uint256 :=
  valueAtTokenPrecision ← mulDiv usdValueWad (U 1) usdcPrice;
  mulDiv valueAtTokenPrecision (U 1) Bps.

Definition sol_calculateLiquidation (debt collateral requestedRepay : Uint256) :
    result (Uint256 * Uint256) :=
  half ← mulDiv debt CloseFactorBps Bps;
  rest ← debt -! half;
  let closeFactorLimit := if u_ltb rest MinimumUsdcBorrow then debt else half in
  collateralValue ← sol_collateralValue collateral;
  bonusBps ← Bps +! LiquidationBonusBps;
  collateralLimitedValueWad ← mulDiv collateralValue Bps bonusBps;
  collateralLimitedRepay ← sol_debtAmountForValueDown collateralLimitedValueWad;
  let repaidAmount := Minimum requestedRepay (Minimum closeFactorLimit collateralLimitedRepay) in
  remainingDebt ← debt -! repaidAmount;
  let collateralLimited := u_leb collateralLimitedRepay requestedRepay
                           && u_leb collateralLimitedRepay closeFactorLimit in
  repaidAmount ← (if negb collateralLimited && negb (IsZero remainingDebt)
                     && u_ltb remainingDebt MinimumUsdcBorrow
                  then debt -! MinimumUsdcBorrow else Ok repaidAmount);
  if IsZero repaidAmount then Throw (RuntimeError "LiquidationAmountTooSmall")
  else
    repaidValue ← sol_debtValue repaidAmount;
    collateralValueWithBonusWad ← mulDiv repaidValue bonusBps Bps;
    collateralSeized ← sol_collateralAmountForValueDown collateralValueWithBonusWad;
    if IsZero collateralSeized then Throw (RuntimeError "LiquidationAmountTooSmall")
    else Ok (repaidAmount, if collateralLimited then collateral else collateralSeized).
End Contract.

(** What the contract computes, as the same formulas. *)
Lemma sol_calculateLiquidation_Ok mulDiv m debt collateral requested x y :
  mulDiv_floor mulDiv ->
  sol_calculateLiquidation mulDiv (mk_wethPrice m) (mk_usdcPrice m) debt collateral requested = Ok (x, y) ->
  let d := value_ debt in let w := value_ collateral in let q := value_ requested in
  value_ x = planned_repay m d w q /\ value_ y = planned_seizure m d w q
  /\ value_ x <> 0 /\ collateral_for m (value_ x) <> 0
  /\ (leaves_dust m d w q && (d <? 10 ^ 6)) = false.
Proof.
  intros HM H d w q. unfold sol_calculateLiquidation, sol_collateralValue, sol_debtValue,
    sol_collateralAmountForValueDown, sol_debtAmountForValueDown in H. invert_bind.
  destruct (IsZero a6) eqn:E6; [done|]. invert_bind. destruct (IsZero a10) eqn:E10; [done|].
  repeat match goal with E : mulDiv _ _ _ = Ok _ |- _ => apply HM in E as [_ E] end.
  set (limit := if u_ltb a0 MinimumUsdcBorrow then debt else a) in *.
  set (repay0 := Minimum requested (Minimum limit a4)) in *.
  injection H as <- <-. apply sub_Ok in Hb0, Hb5. apply add_Ok in Hb2. apply mul_Ok in Hb8, Hb11.
  constants. rewrite Hb2, Hb1 in Hb3. rewrite Hb3, Z.mul_1_r in Hb7. rewrite Hb7, Z.mul_1_r in Hb4.
  change (value_ a4 = collateral_limit m w) in Hb4.
  assert (value_ limit = close_limit d) as Vl.
  { unfold limit, close_limit, u_ltb. rewrite Hb0, Hb. constants. by destruct (_ <? _). }
  assert (value_ repay0 = capped_repay m d w q) as Vr.
  { unfold repay0. rewrite !Minimum_value, Vl, Hb4. reflexivity. }
  assert (u_leb a4 requested && u_leb a4 limit = limited_by_collateral m d w q) as EL.
  { unfold u_leb, limited_by_collateral. by rewrite Vl, Hb4. }
  rewrite EL in *. fold d in Hb5. rewrite Vr in Hb5.
  assert (negb (IsZero a5) && u_ltb a5 MinimumUsdcBorrow
          = negb (d - capped_repay m d w q =? 0) && (d - capped_repay m d w q <? 10 ^ 6)) as ED.
  { unfold IsZero, u_ltb. rewrite Hb5. constants. done. }
  rewrite <-andb_assoc, ED, andb_assoc in Hb6. fold (leaves_dust m d w q) in Hb6.
  assert (value_ a6 = planned_repay m d w q /\ (leaves_dust m d w q && (d <? 10 ^ 6)) = false) as [V6 Hnd].
  { unfold planned_repay. destruct (leaves_dust m d w q); invert_bind; [|done].
    apply sub_Ok in Hb6. constants. fold d in Hb6. split; [done|]. pose proof (uval_range a6).
    destruct (Z.ltb_spec d (10 ^ 6)); [lia|done]. }
  assert (value_ a10 = collateral_for m (value_ a6)) as V10.
  { rewrite Hb10, Hb9, Hb8, Hb11, Hb2. reflexivity. }
  exact_values. rewrite V10 in E10. split; [done|]. split; [|done]. unfold planned_seizure.
  destruct (limited_by_collateral m d w q); [done|]. by rewrite V10, V6.
Qed.

Lemma MulDivDown_floor : mulDiv_floor MulDivDown.
Proof. intros x y d q. apply MathLemmas.MulDivDown_Ok. Qed.

(** ** Sample data for the witnesses *)
Definition sample_market (wethPrice : Z) : MarketSnapshot :=
  MkMarketSnapshot (U 1) 20 (array_copy 32 []) (array_copy 20 []) (array_copy 20 [])
    (array_copy 20 [x03]) (array_copy 20 [x04]) Ray (U wethPrice) (U 900) (U 3600) (U (10 ^ 8)) (U 950)
    (U 86400) 0 (U (5 * 10 ^ 9)) (U (10 ^ 10)) (U 500) 7.

(** One WETH against 1900 USDC of debt. *)
Definition sample_position : Position := MkPosition (array_copy 20 [x09]) (U (10 ^ 18)) (U 1900000000).
(** One wei against two units of USDC. *)
Definition tiny_position : Position := MkPosition (array_copy 20 [x0a]) (U 1) (U 2).

Definition risk_of (r : result PositionRisk) : PositionRisk :=
  match r with
  | Ok r => r
  | Throw _ => MkPositionRisk sample_position (U 0) (U 0) (U 0) (U 0) false 0 (array_copy 32 [])
  end.

Definition sample_risk : PositionRisk := risk_of (Evaluate sample_position (sample_market (2000 * 10 ^ 8)) 1000).

(** ** Properties *)

(** Claim C27: an evaluation that returns is exact.  A position without debt has the
    maximal health factor and is never liquidatable, whatever the prices; with debt, both
    prices are positive and no older than their maximal age, the reported values are the
    exact collateral value (rounded down) and debt value, and the position is liquidatable
    exactly when 80% of its collateral value is below its debt value: the rounding of the
    health factor itself never decides. *)
Theorem Evaluate_exact p m t r :
  0 <= t < 2 ^ 64 -> Evaluate p m t = Ok r ->
  pr_position r = p
  /\ (value_ (po_usdcDebt p) = 0 -> pr_liquidatable r = false /\ pr_healthFactor r = MaximumUint256)
  /\ (value_ (po_usdcDebt p) <> 0 -> evaluated p m t r).
Proof.
  intros Ht H. split; [by eapply Evaluate_position|]. split.
  - by eapply Evaluate_exact_debt.
  - intros Hd. by apply Evaluate_debt.
Qed.

Lemma Evaluate_exact_witness :
  pr_liquidatable sample_risk = true /\ evaluated sample_position (sample_market (2000 * 10 ^ 8)) 1000 sample_risk.
Proof.
  split; [reflexivity|].
  apply (Evaluate_exact sample_position (sample_market (2000 * 10 ^ 8)) 1000 sample_risk).
  - lia.
  - vm_compute. reflexivity.
  - vm_compute. discriminate.
Defined.

(** The projected borrow index never falls below the stored one and never grows
    faster than the highest borrow rate, 110% per year, for the seconds since the last
    accrual; without debt, or before that time, it is unchanged. *)
Theorem ProjectedBorrowIndex_bounds m t i :
  0 <= t < 2 ^ 64 -> ProjectedBorrowIndex m t = Ok i ->
  let index := value_ (mk_borrowIndex m) in
  let elapsed := Z.max 0 (t - value_ (mk_lastInterestTimestamp m)) in
  index <= value_ i <= index + index * (11 * 10 ^ 26 * elapsed / 31536000) / 10 ^ 27
  /\ (value_ (mk_totalScaledUsdcDebt m) = 0 \/ elapsed = 0 -> i = mk_borrowIndex m).
Proof.
  intros Ht H index elapsed. rewrite (ProjectedBorrowIndex_Ok m t i Ht H).
  split; [apply accrued_index_bounds|]. intros Hz.
  apply uval_inj. rewrite (ProjectedBorrowIndex_Ok m t i Ht H). unfold accrued_index.
  destruct (Z.eqb_spec (value_ (mk_totalScaledUsdcDebt m)) 0); cbn [orb]; [done|].
  destruct (Z.leb_spec (t - value_ (mk_lastInterestTimestamp m)) 0); [done|]. unfold elapsed in Hz. lia.
Qed.

Lemma ProjectedBorrowIndex_bounds_witness :
  exists i, ProjectedBorrowIndex (sample_market (2000 * 10 ^ 8)) 1000 = Ok i /\ 10 ^ 27 < value_ i
  /\ value_ i <= 10 ^ 27 + 10 ^ 27 * (11 * 10 ^ 26 * 500 / 31536000) / 10 ^ 27.
Proof.
  eexists. split; [vm_compute; reflexivity|]. split; [reflexivity|].
  apply (ProjectedBorrowIndex_bounds (sample_market (2000 * 10 ^ 8)) 1000).
  - lia.
  - vm_compute. reflexivity.
Defined.

(** Claim C16: for every risk that [Evaluate] returns, building a candidate without an
    explicit request never throws, and a candidate it builds can be executed: it repays a
    positive amount no larger than the debt, within the close factor unless that would
    leave less than 1 USDC, and seizes a positive amount of collateral no larger than the
    position holds; the debt left is zero, at least 1 USDC, or written off as the expected
    bad debt with all collateral seized. *)
Theorem BuildCandidate_safe p m t r :
  0 <= t < 2 ^ 64 -> Evaluate p m t = Ok r ->
  exists o, BuildCandidate r m None = Ok o /\ forall c, o = Some c ->
    let debt := value_ (po_usdcDebt p) in let rest := debt - value_ (lc_maxRepay c) in
    pr_liquidatable r = true /\ lc_borrower c = po_user p
    /\ 0 < value_ (lc_maxRepay c) <= debt
    /\ (value_ (lc_maxRepay c) <= debt * 5000 / 10000 \/ debt - debt * 5000 / 10000 < 10 ^ 6)
    /\ 0 < value_ (lc_expectedCollateral c) <= value_ (po_wethCollateral p)
    /\ (value_ (lc_expectedBadDebt c) = 0 /\ (rest = 0 \/ 10 ^ 6 <= rest)
        \/ value_ (lc_expectedBadDebt c) = rest /\ lc_expectedCollateral c = po_wethCollateral p).
Proof.
  intros Ht H. pose proof (Evaluate_position _ _ _ _ H) as E.
  destruct (Evaluate_liquidatable _ _ _ _ Ht H) as [Hn|HL].
  { exists None. split; [by apply BuildCandidate_none|done]. }
  pose proof HL as (Hl & Hd & Hc & Hw & Hu & _). rewrite E in Hd, Hc.
  pose proof (BuildCandidate_eq m r None HL) as HB. cbv zeta in HB. unfold requested_amount in HB.
  simpl default in HB. rewrite E in HB. specialize (HB Hd).
  set (debt := value_ (po_usdcDebt p)) in *. set (weth := value_ (po_wethCollateral p)) in *.
  rewrite (whole_debt_no_dust m debt weth) in HB by lia. eexists. split; [exact HB|]. intros c Hcand.
  destruct (whole_debt_plan m debt weth Hw Hu ltac:(lia) ltac:(lia)) as (B1 & B2 & B3 & B4).
  destruct (Z.eqb_spec (planned_repay m debt weth debt) 0); cbn [orb] in Hcand; [done|].
  destruct (Z.eqb_spec (planned_seizure m debt weth debt) 0); [done|]. injection Hcand as <-.
  pose proof (uval_range (po_usdcDebt p)) as R1. pose proof (uval_range (po_wethCollateral p)) as R2.
  fold debt in R1. fold weth in R2. unfold candidate_of. cbv zeta.
  cbn [lc_maxRepay lc_borrower lc_expectedCollateral lc_expectedBadDebt]. rewrite E. fold debt.
  rewrite (U_value (planned_repay m debt weth debt)), (U_value (planned_seizure m debt weth debt)) by lia.
  repeat (split; [done || lia|]).
  destruct (limited_by_collateral m debt weth debt); rewrite U_value by lia; [right|left; lia].
  rewrite B4. unfold weth. by rewrite U_of_value.
Qed.

Lemma BuildCandidate_safe_witness :
  exists c, BuildCandidate sample_risk (sample_market (2000 * 10 ^ 8)) None = Ok (Some c)
  /\ 0 < value_ (lc_maxRepay c) <= 1900000000 /\ 0 < value_ (lc_expectedCollateral c) <= 10 ^ 18.
Proof.
  destruct (BuildCandidate_safe sample_position (sample_market (2000 * 10 ^ 8)) 1000 sample_risk)
    as (o & E & H).
  - lia.
  - vm_compute. reflexivity.
  - destruct o as [c|].
    + exists c. split; [exact E|]. destruct (H c eq_refl) as (_ & _ & H1 & _ & H2 & _). split; assumption.
    + vm_compute in E. discriminate E.
Defined.

(** Claim C21: whenever the contract accepts a liquidation, the engine computes the same one:
    if [LiquidationManager._calculateLiquidation] returns a repayment and a seizure for an
    evaluated liquidatable position and a request, [BuildCandidate] for that request
    proposes exactly these amounts. *)
Theorem candidate_matches_contract mulDiv p m t r requested x y :
  mulDiv_floor mulDiv -> 0 <= t < 2 ^ 64 -> Evaluate p m t = Ok r ->
  pr_liquidatable r = true -> value_ (po_wethCollateral p) <> 0 ->
  sol_calculateLiquidation mulDiv (mk_wethPrice m) (mk_usdcPrice m)
    (po_usdcDebt p) (po_wethCollateral p) requested = Ok (x, y) ->
  exists c, BuildCandidate r m (Some requested) = Ok (Some c)
    /\ lc_maxRepay c = x /\ lc_expectedCollateral c = y.
Proof.
  intros HM Ht H Hl Hc HS. pose proof (Evaluate_position _ _ _ _ H) as E.
  destruct (sol_calculateLiquidation_Ok _ m _ _ _ _ _ HM HS) as (Hx & Hy & Hx0 & Hs0 & Hnd).
  destruct (Evaluate_liquidatable _ _ _ _ Ht H) as [Hn|HL].
  { rewrite E in Hn. destruct Hn as [Hn|[Hn|Hn]]; [congruence| |done].
    destruct (Evaluate_exact_debt p m t r H Hn). congruence. }
  pose proof HL as (_ & Hd & _ & Hw & Hu & _). rewrite E in Hd.
  pose proof (uval_range (po_wethCollateral p)). pose proof (uval_range requested). pose proof (uval_range x).
  pose proof (planned_repay_bounds m _ _ _ Hu (Z.lt_le_incl _ _ Hd) (proj1 H0) (proj1 H1)) as HB.
  pose proof (BuildCandidate_eq m r (Some requested) HL) as HC. cbv zeta in HC.
  unfold requested_amount in HC. simpl default in HC. rewrite E in HC. specialize (HC ltac:(lia)).
  rewrite Hnd, <-Hx, <-Hy in HC. destruct (Z.eqb_spec (value_ x) 0); [done|]. cbn [orb] in HC.
  destruct (Z.eqb_spec (value_ y) 0) as [Hy0|].
  { exfalso. rewrite Hy in Hy0. unfold planned_seizure in Hy0. rewrite <-Hx in Hy0.
    by destruct (limited_by_collateral _ _ _ _). }
  eexists. split; [exact HC|]. unfold candidate_of. simpl. by rewrite !U_of_value.
Qed.

Lemma candidate_matches_contract_witness :
  exists c, BuildCandidate sample_risk (sample_market (2000 * 10 ^ 8)) (Some (U (10 ^ 9)))
    = Ok (Some c) /\ lc_maxRepay c = U 950000000 /\ lc_expectedCollateral c = U 498750000000000000.
Proof.
  apply (candidate_matches_contract MulDivDown sample_position (sample_market (2000 * 10 ^ 8)) 1000).
  - exact MulDivDown_floor.
  - lia.
  - vm_compute. reflexivity.
  - reflexivity.
  - vm_compute. discriminate.
  - vm_compute. reflexivity.
Defined.

(** The converse fails in one corner.  For a collateral-limited position whose
    exact seizure rounds to zero the contract reverts ([LiquidationAmountTooSmall] is
    checked before the seizure is raised to the whole collateral), but the engine, which
    checks afterwards, proposes a candidate. *)
Theorem candidate_the_contract_rejects :
  let m := sample_market (2 * 10 ^ 20) in
  match BuildCandidate (risk_of (Evaluate tiny_position m 1000)) m None with
  | Ok (Some c) =>
      sol_calculateLiquidation MulDivDown (mk_wethPrice m) (mk_usdcPrice m)
        (po_usdcDebt tiny_position) (po_wethCollateral tiny_position) (lc_maxRepay c)
      = Throw (RuntimeError "LiquidationAmountTooSmall")
  | _ => False
  end.
Proof. vm_compute. reflexivity. Qed.
