(* ===== verification/RiskEngine.v ===== *)
(** * RiskEngine: evaluation of the indexed positions ([RiskEngine.hpp], [RiskEngine.cpp])

    The engine reads the market and the positions through the interface [RiskRepository], one
    call each, and evaluates every position against the market. *)

From S2P Require Import Prelude Effects Uint256 Hex RiskCalculator.
Set Default Goal Selector "!".
#[local] Open Scope Z_scope.

Class RiskRepository (W : Type) := {
  repo_LoadMarket : Uint256 -> prog W MarketSnapshot;
  repo_LoadPosition : Uint256 -> Address -> prog W (option IndexedPosition);
  repo_LoadPositions : Uint256 -> Z -> prog W (list IndexedPosition)
}.

Record RiskScanResult := MkRiskScanResult {
  rs_positionsScanned : Z;
  rs_candidates : list LiquidationCandidate
}.

(** The body of the loop of [ScanWithStats]. *)
Definition assess (market : MarketSnapshot) (evaluatedAt : Z) (position : IndexedPosition) :
    result (option LiquidationCandidate) :=
  risk ← EvaluateIndexed position market evaluatedAt;
  BuildCandidate risk market None.

Section Engine.
Context {W : Type} `{RiskRepository W} (chainId_ : Uint256).

Definition LoadMarket : prog W MarketSnapshot := repo_LoadMarket chainId_.

Definition Evaluate (user : Address) (evaluatedAt : Z) : prog W (option PositionRisk) :=
  position ← repo_LoadPosition chainId_ user;
  match position with
  | None => mret None
  | Some position =>
      market ← repo_LoadMarket chainId_;
      risk ← lift (EvaluateIndexed position market evaluatedAt);
      mret (Some risk)
  end.

Definition ScanWithStats (limit evaluatedAt : Z) : prog W RiskScanResult :=
  market ← repo_LoadMarket chainId_;
  positions ← repo_LoadPositions chainId_ limit;
  candidates ← lift (map_result (assess market evaluatedAt) positions);
  mret (MkRiskScanResult (Z.of_nat (length positions)) (omap id candidates)).

Definition Scan (limit evaluatedAt : Z) : prog W (list LiquidationCandidate) :=
  scan ← ScanWithStats limit evaluatedAt;
  mret (rs_candidates scan).
End Engine.
