(* ===== verification/PostgresRiskRepository.v ===== *)
(** * PostgresRiskRepository: the market and the positions in the tables of the indexer
    ([PostgresRiskRepository.cpp])

    Every call reads in a transaction of its own, so the indexer may commit between two of them. *)

From S2P Require Import Prelude Effects Text Sql Uint256 Hex Abi IndexerTypes PostgresStore RiskCalculator RiskEngine.
Set Default Goal Selector "!".
#[local] Open Scope Z_scope.

Definition RiskParseHash (value : string) : result Hash256 :=
  parse_hash "database block hash must contain 32 bytes" value.

Definition ParsePosition (row : PositionRow) : result IndexedPosition :=
  user ← AddressFromHex (pr_user_address row);
  wethCollateral ← FromDecimal (pr_weth_collateral row);
  scaledUsdcDebt ← FromDecimal (pr_scaled_usdc_debt row);
  Ok (MkIndexedPosition user wethCollateral scaledUsdcDebt).

(** [FROM markets m JOIN sync_state s ON s.chain_id = m.chain_id
    JOIN chain_versions v ON v.chain_id = m.chain_id WHERE m.chain_id = $1] *)
Definition market_rows (chain : string) (db : IxDb) : list (MarketRow * SyncRow * VersionRow) :=
  m ← filter (fun m => mr_chain_id m = chain) (db_markets db);
  s ← filter (fun s => sr_chain_id s = mr_chain_id m) (db_sync_state db);
  v ← filter (fun v => vr_chain_id v = mr_chain_id m) (db_chain_versions db);
  [(m, s, v)].

Definition snapshot_of_row (chainId : Uint256) (m : MarketRow) (s : SyncRow) (v : VersionRow) :
    result MarketSnapshot :=
  indexedBlock ← uint64_column (sr_block_number s);
  indexedBlockHash ← RiskParseHash (sr_block_hash s);
  pool ← AddressFromHex (mr_pool_address m);
  oracle ← AddressFromHex (mr_oracle_address m);
  weth ← AddressFromHex (mr_weth_address m);
  usdc ← AddressFromHex (mr_usdc_address m);
  borrowIndex ← FromDecimal (mr_borrow_index m);
  wethPrice ← FromDecimal (mr_weth_price m);
  wethPriceUpdatedAt ← FromDecimal (mr_weth_price_updated_at m);
  wethMaxPriceAge ← FromDecimal (mr_weth_max_price_age m);
  usdcPrice ← FromDecimal (mr_usdc_price m);
  usdcPriceUpdatedAt ← FromDecimal (mr_usdc_price_updated_at m);
  usdcMaxPriceAge ← FromDecimal (mr_usdc_max_price_age m);
  availableUsdcLiquidity ← FromDecimal (mr_available_usdc_liquidity m);
  totalScaledUsdcDebt ← FromDecimal (mr_total_scaled_usdc_debt m);
  lastInterestTimestamp ← FromDecimal (mr_last_interest_timestamp m);
  canonicalVersion ← uint64_column (vr_canonical_version v);
  Ok (MkMarketSnapshot chainId indexedBlock indexedBlockHash pool oracle weth usdc borrowIndex
        wethPrice wethPriceUpdatedAt wethMaxPriceAge usdcPrice usdcPriceUpdatedAt usdcMaxPriceAge 0
        availableUsdcLiquidity totalScaledUsdcDebt lastInterestTimestamp canonicalVersion).

Definition LoadMarket (chainId : Uint256) (db : IxDb) : result MarketSnapshot :=
  match market_rows (ToDecimal chainId) db with
  | [] => Throw (RuntimeError "indexed market state is unavailable")
  | (m, s, v) :: _ => snapshot_of_row chainId m s v
  end.

Definition LoadPosition (chainId : Uint256) (user : Address) (db : IxDb) : result (option IndexedPosition) :=
  match filter (fun row => pr_chain_id row = ToDecimal chainId /\ pr_user_address row = AddressToHex user true)
          (db_positions db) with
  | [] => Ok None
  | row :: _ => Some <$> ParsePosition row
  end.

Section Order.
Context `{TextOrder}.

(** [ORDER BY user_address] *)
Definition user_before (r1 r2 : PositionRow) : bool := text_before (pr_user_address r1) (pr_user_address r2).

Definition LoadPositions (chainId : Uint256) (limit : Z) (db : IxDb) : result (list IndexedPosition) :=
  _ ← bigint_parameter limit;
  map_result ParsePosition (take (Z.to_nat limit) (std_sort user_before
    (filter (fun row => pr_chain_id row = ToDecimal chainId /\ 0 < numeric (pr_scaled_usdc_debt row))
       (db_positions db)))).

#[global] Instance postgres_risk_repository : RiskRepository (World IxDb) := {
  repo_LoadMarket chainId := query (LoadMarket chainId);
  repo_LoadPosition chainId user := query (LoadPosition chainId user);
  repo_LoadPositions chainId limit := query (LoadPositions chainId limit)
}.
End Order.
