(* ===== verification/RiskWorker.v ===== *)
(** * RiskWorker: one event per liquidation candidate ([RiskWorker.hpp], [RiskWorker.cpp])

    A scan is committed with the id of the event that caused it, which makes the work on one
    event idempotent; the events of the candidates enter the outbox in the same transaction. *)

From S2P Require Import Prelude Effects Text Json Sql Uint256 Hex Abi IndexerTypes PostgresStore Event.
From S2P Require Import RiskCalculator RiskEngine.
Set Default Goal Selector "!".
#[local] Open Scope Z_scope.

Class RiskEventStore (W : Type) := {
  event_CommitScan : string -> list LiquidationCandidate -> prog W bool
}.

Record RiskWorkResult := MkRiskWorkResult {
  rw_committed : bool;
  rw_positionsScanned : Z;
  rw_liquidationCandidates : Z
}.

(** ** [PostgresRiskEventStore] *)

Definition RiskEventId (candidate : LiquidationCandidate) : string :=
  RISK_LIQUIDATION_DETECTED +:+ ":" +:+ ToDecimal (lc_chainId candidate) +:+ ":"
  +:+ EncodeArray (lc_blockHash candidate) false +:+ ":" +:+ AddressToHex (lc_borrower candidate) false.

(** The members in the order of their keys. *)
Definition CandidatePayload (candidate : LiquidationCandidate) : json := JObject [
  ("borrower", JString (AddressToHex (lc_borrower candidate) true));
  ("collateralAsset", JString (AddressToHex (lc_collateralAsset candidate) true));
  ("debtAsset", JString (AddressToHex (lc_debtAsset candidate) true));
  ("expectedBadDebt", JString (ToDecimal (lc_expectedBadDebt candidate)));
  ("expectedBonus", JString (ToDecimal (lc_expectedBonus candidate)));
  ("expectedCollateral", JString (ToDecimal (lc_expectedCollateral candidate)));
  ("healthFactor", JString (ToDecimal (lc_healthFactor candidate)));
  ("maxRepay", JString (ToDecimal (lc_maxRepay candidate)))].

(** [INSERT INTO processed_events ... ON CONFLICT DO NOTHING], and whether it inserted. *)
Definition insert_processed (consumer eventId : string) : prog IxDb bool :=
  db ← get;
  if bool_decide ((consumer, eventId) ∈ db_processed_events db) then mret false
  else modify (set_processed_events (db_processed_events db ++ [(consumer, eventId)]));; mret true.

Definition insert_candidate (candidate : LiquidationCandidate) : prog IxDb unit :=
  InsertOutboxEvent (RiskEventId candidate) RISK_LIQUIDATION_DETECTED
    ("position:" +:+ AddressToHex (lc_borrower candidate) false) (ToDecimal (lc_chainId candidate))
    (lc_blockNumber candidate) (lc_blockHash candidate) (lc_canonicalVersion candidate)
    (CandidatePayload candidate).

Definition CommitScan (sourceEventId : string) (candidates : list LiquidationCandidate) : prog IxDb bool :=
  transaction (
    inserted ← insert_processed "risk-engine" sourceEventId;
    if negb inserted then mret false
    else for_each insert_candidate candidates;; mret true).

#[global] Instance postgres_risk_events : RiskEventStore (World IxDb) := {
  event_CommitScan sourceEventId candidates := execute (CommitScan sourceEventId candidates)
}.

(** ** [RiskWorker] *)

Section Worker.
Context {W : Type} `{RiskRepository W} `{RiskEventStore W} (chainId_ : Uint256) (scanLimit_ : Z).

Definition ProcessWithStats (sourceEventId : string) (evaluatedAt : Z) : prog W RiskWorkResult :=
  scan ← ScanWithStats chainId_ scanLimit_ evaluatedAt;
  committed ← event_CommitScan sourceEventId (rs_candidates scan);
  mret (MkRiskWorkResult committed (rs_positionsScanned scan) (Z.of_nat (length (rs_candidates scan)))).

Definition Process (sourceEventId : string) (evaluatedAt : Z) : prog W bool :=
  work ← ProcessWithStats sourceEventId evaluatedAt;
  mret (rw_committed work).

Definition RescanWithStats (evaluatedAt : Z) : prog W RiskWorkResult :=
  market ← LoadMarket chainId_;
  ProcessWithStats ("risk.rescan:" +:+ ToDecimal (mk_chainId market) +:+ ":"
    +:+ to_string (mk_canonicalVersion market) +:+ ":" +:+ to_string evaluatedAt) evaluatedAt.

Definition Rescan (evaluatedAt : Z) : prog W bool :=
  work ← RescanWithStats evaluatedAt;
  mret (rw_committed work).
End Worker.
