(* ===== verification/RiskProperties.v ===== *)
(** * RiskProperties: the risk engine over the tables of the indexer

    What [LoadMarket] and [LoadPositions] read is the derived state of the indexer; a scan after
    [SyncToHead] finds exactly the positions of the chain that can be liquidated; a scan is
    committed at most once per source event. *)

From S2P Require Import Prelude Effects Text Json Sql Uint256 Hex Abi IndexerTypes RpcTypes StateProjector Indexer.
From S2P Require Import IndexerSync PostgresStore PostgresRefinement IndexerProperties Event RiskCalculator.
From S2P Require Import RiskEngine PostgresRiskRepository RiskWorker.
Import Math.
Set Default Goal Selector "!".
#[local] Open Scope Z_scope.

(** ** Reading the tables *)

(** The snapshot of a derived state at a block, under a version. *)
Definition snapshot (chainId : Uint256) (st : DerivedState) (number : Z) (hash : Hash256) (version : Z) :
    MarketSnapshot :=
  let m := ds_market st in
  MkMarketSnapshot chainId number hash (cc_pool (ms_contracts m)) (cc_oracle (ms_contracts m))
    (cc_weth (ms_contracts m)) (cc_usdc (ms_contracts m)) (ms_borrowIndex m)
    (ms_wethPrice m) (ms_wethPriceUpdatedAt m) (ms_wethMaxPriceAge m)
    (ms_usdcPrice m) (ms_usdcPriceUpdatedAt m) (ms_usdcMaxPriceAge m) 0
    (ms_availableUsdcLiquidity m) (ms_totalScaledUsdcDebt m) (ms_lastInterestTimestamp m) version.

Definition indexed (entry : Address * PositionState) : IndexedPosition :=
  MkIndexedPosition (entry.1) (ps_wethCollateral (entry.2)) (ps_scaledUsdcDebt (entry.2)).

(** The positions with debt. *)
Definition debtors (st : DerivedState) : list (Address * PositionState) :=
  filter (fun entry => 0 < value_ (ps_scaledUsdcDebt (entry.2))) (map_to_list (ds_positions st)).

Lemma snapshot_of_market_row chainId st s v number hash version :
  sr_block_number s = number -> RiskParseHash (sr_block_hash s) = Ok hash -> vr_canonical_version v = version ->
  0 <= number -> 0 <= version ->
  snapshot_of_row chainId (market_row (ToDecimal chainId) (ds_market st)) s v
  = Ok (snapshot chainId st number hash version).
Proof.
  intros <- Eh <- Hn Hv. unfold snapshot_of_row. rewrite Eh, !uint64_column_Ok by done. unfold market_row.
  cbn [mr_pool_address mr_oracle_address mr_weth_address mr_usdc_address mr_borrow_index mr_weth_price
    mr_weth_price_updated_at mr_weth_max_price_age mr_usdc_price mr_usdc_price_updated_at mr_usdc_max_price_age
    mr_available_usdc_liquidity mr_total_scaled_usdc_debt mr_last_interest_timestamp].
  rewrite !AddressFromHex_ToHex, !FromDecimal_ToDecimal. by mstep.
Qed.

Lemma LoadMarket_view contracts chainId budget db v number hash :
  represents_view contracts chainId budget db v -> v_cursor v = Some (number, hash) -> 0 <= number ->
  LoadMarket chainId db = Ok (snapshot chainId (v_state v) number hash (version_of (ToDecimal chainId) db))
  /\ 0 < version_of (ToDecimal chainId) db.
Proof.
  intros Hr Hc Hn. pose proof (rv_rows _ _ _ _ _ Hr ltac:(by rewrite Hc)) as [Hrows Hv]. pose proof (dr_market _ _ _ Hrows) as Hm.
  pose proof (rv_cursor _ _ _ _ _ Hr) as Hcur. rewrite Hc in Hcur. unfold LoadCursor in Hcur.
  split; [|done]. unfold LoadMarket, market_rows. rewrite Hm. cbn [mbind list_bind app].
  cbn [mr_chain_id market_row]. destruct (filter _ (db_sync_state db)) as [|s srows]; [done|].
  apply bind_Ok_inv in Hcur as (num & Enum & Hcur). apply bind_Ok_inv in Hcur as (h & Eh & [= -> ->]).
  unfold uint64_column in Enum. destruct (Z.leb_spec 0 (sr_block_number s)) as [_|]; [injection Enum as Es|done].
  unfold version_of in *. destruct (filter _ (db_chain_versions db)) as [|vr vrows]; [done|]. cbn in Hv.
  cbn [mbind list_bind app head fmap option_fmap option_map default from_option].
  apply snapshot_of_market_row; try done; cbn; [|lia]. unfold RiskParseHash, ParseHash, parse_hash in *.
  apply bind_Ok_inv in Eh as (bytes & -> & Eh). mstep. by case_bool_decide.
Qed.

Lemma ParsePosition_row chain entry : ParsePosition (position_row chain entry) = Ok (indexed entry).
Proof.
  unfold ParsePosition, position_row. cbn [pr_user_address pr_weth_collateral pr_scaled_usdc_debt].
  rewrite AddressFromHex_ToHex, !FromDecimal_ToDecimal. by mstep.
Qed.

Section Positions.
Context `{TextOrder}.

(** The rows of [LoadPositions]: the debtors in some order, up to the limit. *)
Lemma LoadPositions_rows chainId st db limit :
  derived_rows chainId st db -> 0 <= limit < 2 ^ 63 ->
  exists entries, LoadPositions chainId limit db = Ok (indexed <$> take (Z.to_nat limit) entries)
    /\ entries ≡ₚ debtors st.
Proof.
  intros Hrows Hl. pose proof (dr_positions _ _ _ Hrows) as Hp. unfold LoadPositions, bigint_parameter. rewrite (proj2 (sql_bigint_true limit) Hl), bind_Ok.
  assert (filter (fun row => pr_chain_id row = ToDecimal chainId /\ 0 < numeric (pr_scaled_usdc_debt row))
            (db_positions db) = position_row (ToDecimal chainId) <$> debtors st) as ->.
  { transitivity (filter (fun row => 0 < numeric (pr_scaled_usdc_debt row))
      (filter (fun row => pr_chain_id row = ToDecimal chainId) (db_positions db))).
    - rewrite list_filter_filter. apply list_filter_iff. tauto.
    - rewrite Hp. apply list_filter_fmap. intros entry. cbn [pr_scaled_usdc_debt position_row].
      by rewrite numeric_ToDecimal. }
  pose proof (std_sort_perm user_before (position_row (ToDecimal chainId) <$> debtors st)) as Hs.
  apply Permutation_map_inv in Hs as (entries & E & Hs). rewrite E. exists entries. split; [|done].
  rewrite <-fmap_take. apply map_result_fmap. intros entry. apply ParsePosition_row.
Qed.
End Positions.

(** ** Positions without debt *)

Lemma scaled_zero x y d q : MulDivUp x y d = Ok q -> value_ x = 0 -> value_ q = 0.
Proof.
  intros [Hd E]%MathLemmas.MulDivUp_Ok Hx. pose proof (uval_range d). rewrite E, Hx, Z.mul_0_l.
  unfold MathLemmas.cdiv. apply Z.div_small. lia.
Qed.

Lemma DebtAtIndex_eq scaled index : DebtAtIndex scaled index = MulDivUp scaled index Ray.
Proof. reflexivity. Qed.

Lemma assess_no_debt market t position c :
  value_ (ip_scaledUsdcDebt position) = 0 -> assess market t position <> Ok (Some c).
Proof.
  intros Hz E. unfold assess in E. apply bind_Ok_inv in E as (risk & Er & Ec).
  unfold EvaluateIndexed in Er. apply bind_Ok_inv in Er as (index & _ & Er).
  apply bind_Ok_inv in Er as (debt & Ed & Er). rewrite DebtAtIndex_eq in Ed. pose proof (scaled_zero _ _ _ _ Ed Hz) as Ez.
  destruct (Evaluate_exact_debt _ _ _ _ Er Ez) as [El _].
  rewrite (BuildCandidate_none risk market None (or_introl El)) in Ec. discriminate Ec.
Qed.

(** ** A scan of the stored state *)

(** What a scan of all positions of [st] may return. *)
Definition scan_result (market : MarketSnapshot) (t : Z) (st : DerivedState) (r : result RiskScanResult) : Prop :=
  match r with
  | Ok scan =>
      rs_positionsScanned scan = Z.of_nat (length (debtors st))
      /\ (forall user p, ds_positions st !! user = Some p -> 0 < value_ (ps_scaledUsdcDebt p) ->
           is_ok (assess market t (indexed (user, p))) = true)
      /\ forall c, c ∈ rs_candidates scan <-> exists user p, ds_positions st !! user = Some p
           /\ assess market t (indexed (user, p)) = Ok (Some c)
  | Throw e => exists user p, ds_positions st !! user = Some p /\ assess market t (indexed (user, p)) = Throw e
  end.

Lemma elem_of_debtors user p st :
  (user, p) ∈ debtors st <-> 0 < value_ (ps_scaledUsdcDebt p) /\ ds_positions st !! user = Some p.
Proof. unfold debtors. by rewrite list_elem_of_filter, elem_of_map_to_list. Qed.

Lemma map_result_Throw {A B} (f : A -> result B) l e :
  map_result f l = Throw e -> exists a, a ∈ l /\ f a = Throw e.
Proof.
  induction l as [|a l IH]; cbn [map_result]; [done|]. destruct (f a) as [b|e'] eqn:E.
  - rewrite bind_Ok. destruct (map_result f l) as [bs|e'] eqn:El; [done|]. rewrite bind_Throw. intros [= ->].
    destruct IH as (x & Hx & Ex); [done|]. exists x. split; [by apply list_elem_of_further|done].
  - rewrite bind_Throw. intros [= ->]. exists a. split; [apply list_elem_of_here|done].
Qed.

Lemma scan_all `{TextOrder} chainId st db limit t market :
  derived_rows chainId st db -> LoadMarket chainId db = Ok market ->
  Z.of_nat (length (debtors st)) <= limit < 2 ^ 63 ->
  exists r, ScanWithStats chainId limit t (MkWorld db []) = (r, MkWorld db []) /\ scan_result market t st r.
Proof.
  intros Hd Hm Hl. destruct (LoadPositions_rows chainId st db limit Hd) as (entries & Ep & Hperm); [lia|].
  rewrite take_ge in Ep by (rewrite Hperm; lia).
  unfold ScanWithStats. cbn [repo_LoadMarket repo_LoadPositions postgres_risk_repository].
  rewrite (bind_run _ _ _ market (MkWorld db [])) by (rewrite query_quiet; by rewrite Hm).
  rewrite (bind_run _ _ _ (indexed <$> entries) (MkWorld db [])) by (rewrite query_quiet; by rewrite Ep).
  destruct (map_result (assess market t) (indexed <$> entries)) as [candidates|e] eqn:Er.
  - rewrite (bind_run _ _ _ candidates (MkWorld db [])) by done. eexists. split; [reflexivity|].
    apply map_result_Forall2 in Er. split; [|split]; cbn [rs_positionsScanned rs_candidates].
    + by rewrite length_fmap, Hperm.
    + intros user p Hp Hz. assert (indexed (user, p) ∈ indexed <$> entries) as Hin.
      { apply list_elem_of_fmap_2. rewrite Hperm. by apply elem_of_debtors. }
      apply list_elem_of_lookup_1 in Hin as [i Hi].
      destruct (Forall2_lookup_l _ _ _ _ _ Er Hi) as (o & _ & ->). done.
    + intros c. rewrite list_elem_of_omap. split.
      * intros (o & Ho & [= ->]). destruct (Forall2_in_r _ _ _ _ Er Ho) as (ip & Hip & Ea).
        apply list_elem_of_fmap in Hip as ([user p] & -> & Hin). rewrite Hperm in Hin.
        apply elem_of_debtors in Hin as [_ Hin]. by exists user, p.
      * intros (user & p & Hp & Ea). exists (Some c). split; [|done].
        assert ((user, p) ∈ debtors st) as Hin.
        { apply elem_of_debtors. split; [|done].
          destruct (decide (value_ (ps_scaledUsdcDebt p) = 0)) as [Ez|Ez];
            [by apply (assess_no_debt market t (indexed (user, p)) c) in Ez|].
          pose proof (uval_range (ps_scaledUsdcDebt p)). lia. }
        rewrite <-Hperm in Hin. apply (list_elem_of_fmap_2 indexed), list_elem_of_lookup_1 in Hin as [i Hi].
        destruct (Forall2_lookup_l _ _ _ _ _ Er Hi) as (o & Ho & Eo). rewrite Ea in Eo. injection Eo as <-.
        by eapply list_elem_of_lookup_2.
  - exists (Throw e). split; [done|]. apply map_result_Throw in Er as (ip & Hip & Ee).
    apply list_elem_of_fmap in Hip as ([user p] & -> & Hin). rewrite Hperm in Hin.
    apply elem_of_debtors in Hin as [_ Hin]. by exists user, p.
Qed.

(** After [SyncToHead] on a chain that stands still, the tables hold the state [Rebuild] gives for
    the logs of the chain, and [LoadMarket] reads its head under a canonical version. *)
Lemma synced_rows {N} `{ChainClient N} keccak contracts chainId start c head hdr (I : N -> Prop) w f n
    fuel db v status logs st :
  StableChain keccak contracts chainId start c head hdr I -> I w ->
  represents_view contracts chainId (2 * fuel) db v -> holds_segment keccak contracts chainId start c v f n ->
  Z.max 0 (head + 1 - start) + 1 < Z.of_nat fuel -> start <= head ->
  logs ≡ₚ segment_logs c start (fun k => bh_hash (hdr k)) (Z.to_nat (head + 1 - start)) ->
  Rebuild keccak contracts logs = Ok st ->
  exists db' status' count version w',
    SyncToHead keccak contracts start fuel (MkIxState db w status) = (Ok (Some count), MkIxState db' w' status')
    /\ 0 < version /\ derived_rows chainId st db'
    /\ LoadMarket chainId db' = Ok (snapshot chainId st head (bh_hash (hdr head)) version).
Proof.
  intros Hst Hw Hr Hseg Hf Hsh Hlogs HR. pose proof (cf_range _ _ _ _ _ _ _ Hst).
  destruct (SyncToHead_run keccak contracts chainId start c head hdr I Hst f n fuel db status w)
    as (db' & status' & count & w' & E & _ & v' & Hr' & Hseg'); [by exists v|done|done|].
  assert (v_state v' = st) as Est.
  { pose proof (hs_state _ _ _ _ _ _ _ _ Hseg') as Es.
    rewrite <-(Rebuild_perm keccak contracts logs) in Es; [congruence| |].
    - eapply segment_distinct; [apply Hseg'|exact Hlogs].
    - by rewrite Hlogs, (hs_logs _ _ _ _ _ _ _ _ Hseg'). }
  pose proof (hs_cursor _ _ _ _ _ _ _ _ Hseg') as Hc. rewrite decide_False in Hc by lia.
  replace (start + Z.of_nat (Z.to_nat (head + 1 - start)) - 1) with head in Hc by lia.
  destruct (LoadMarket_view _ _ _ _ _ _ _ Hr' Hc) as [Hm Hv]; [lia|]. rewrite Est in Hm.
  destruct (rv_rows _ _ _ _ _ Hr') as [Hd _]; [by rewrite Hc|]. rewrite Est in Hd.
  by exists db', status', count, (version_of (ToDecimal chainId) db'), w'.
Qed.

(** Claim C9: after [SyncToHead] on a chain that stands still, a scan whose limit admits every position
    reads the head of that chain under its canonical version, and returns the candidates of
    exactly the positions [Rebuild] gives for the logs of the chain; it throws only if the
    evaluation of one of these positions throws. *)
Theorem scan_after_sync {N} `{ChainClient N} `{TextOrder} keccak contracts chainId start c head hdr (I : N -> Prop) w f n
    fuel db v status logs st limit t :
  StableChain keccak contracts chainId start c head hdr I -> I w ->
  represents_view contracts chainId (2 * fuel) db v -> holds_segment keccak contracts chainId start c v f n ->
  Z.max 0 (head + 1 - start) + 1 < Z.of_nat fuel -> start <= head ->
  logs ≡ₚ segment_logs c start (fun k => bh_hash (hdr k)) (Z.to_nat (head + 1 - start)) ->
  Rebuild keccak contracts logs = Ok st ->
  Z.of_nat (size (ds_positions st)) <= limit < 2 ^ 63 ->
  exists db' status' count version r w',
    SyncToHead keccak contracts start fuel (MkIxState db w status) = (Ok (Some count), MkIxState db' w' status')
    /\ 0 < version
    /\ ScanWithStats chainId limit t (MkWorld db' []) = (r, MkWorld db' [])
    /\ scan_result (snapshot chainId st head (bh_hash (hdr head)) version) t st r.
Proof.
  intros Hst Hw Hr Hseg Hf Hsh Hlogs HR Hlim.
  destruct (synced_rows keccak contracts chainId start c head hdr I w f n fuel db v status logs st Hst Hw Hr Hseg Hf Hsh Hlogs HR)
    as (db' & status' & count & version & w' & E & Hv & Hd & Hm).
  destruct (scan_all chainId st db' limit t _ Hd Hm) as (r & Es & Hs).
  { assert (length (debtors st) <= size (ds_positions st))%nat; [|lia]. rewrite <-length_map_to_list.
    apply sublist_length, sublist_filter. }
  by exists db', status', count, version, r, w'.
Qed.

#[local] Existing Instance demo_chain.

Definition demo_state : DerivedState :=
  state_of (Rebuild prefix_hash sample_contracts (segment_logs demo_contents 10 block_hash 2)).

Lemma demo_rebuild : Rebuild prefix_hash sample_contracts (segment_logs demo_contents 10 block_hash 2) = Ok demo_state.
Proof.
  pose proof (cf_projects _ _ _ _ _ _ _ demo_stable 2 (proj1 (Z.leb_le 2 2) eq_refl)) as Hok.
  unfold demo_state. change (fun k => bh_hash (demo_header k)) with block_hash in Hok.
  revert Hok. generalize (Rebuild prefix_hash sample_contracts (segment_logs demo_contents 10 block_hash 2)).
  by intros [].
Qed.

Lemma demo_size : (Z.of_nat (size (ds_positions demo_state)) <=? 100) = true.
Proof. vm_compute. reflexivity. Qed.

Lemma scan_after_sync_witness : exists db' status' count version r w',
  SyncToHead prefix_hash sample_contracts 10 5 (MkIxState fork_db tt (MkIndexerStatus 0 0 0))
    = (Ok (Some count), MkIxState db' w' status')
  /\ 0 < version
  /\ @ScanWithStats _ (@postgres_risk_repository byte_order) (U 1) 100 1000 (MkWorld db' []) = (r, MkWorld db' [])
  /\ scan_result (snapshot (U 1) demo_state 11 (block_hash 11) version) 1000 demo_state r.
Proof.
  exact (@scan_after_sync unit demo_chain byte_order prefix_hash sample_contracts (U 1) 10 demo_contents 11
    demo_header (fun _ => True) tt (fun _ => fork_hash) 1 5 fork_db fork_view (MkIndexerStatus 0 0 0)
    (segment_logs demo_contents 10 block_hash 2) demo_state 100 1000
    demo_stable Logic.I fork_represents fork_segment eq_refl (proj1 (Z.leb_le 10 11) eq_refl) (reflexivity _)
    demo_rebuild (conj (proj1 (Z.leb_le _ 100) demo_size) (proj1 (Z.ltb_lt 100 (2 ^ 63)) eq_refl))).
Defined.

(** ** Committing a scan *)

(** The row of the event of a candidate. *)
Definition candidate_row (now : Z) (c : LiquidationCandidate) : EventRow :=
  MkEventRow (RiskEventId c) RISK_LIQUIDATION_DETECTED ("position:" +:+ AddressToHex (lc_borrower c) false)
    (ToDecimal (lc_chainId c)) (lc_blockNumber c) (hash_text (lc_blockHash c)) None None
    (lc_canonicalVersion c) (CandidatePayload c) now None.

(** [new] are the rows added to [old] for [candidates]: one for each event id that was not there. *)
Record events_added (now : Z) (candidates : list LiquidationCandidate) (old new : list EventRow) : Prop := {
  ea_fresh row : row ∈ new -> er_event_id row ∉ er_event_id <$> old;
  ea_distinct : NoDup (er_event_id <$> new);
  ea_rows row : row ∈ new -> exists c, c ∈ candidates /\ row = candidate_row now c;
  ea_complete c : c ∈ candidates -> RiskEventId c ∈ er_event_id <$> (old ++ new)
}.

Lemma insert_candidate_wp c db :
  wp (insert_candidate c)
    (fun _ db' => exists new, db' = set_outbox_events (db_outbox_events db ++ new) db
                  /\ events_added (db_now db) [c] (db_outbox_events db) new) (fun _ _ => True) db.
Proof.
  unfold insert_candidate, InsertOutboxEvent. repeat sql_step; [|done]. unfold insert_unless.
  destruct (existsb _ _) eqn:Ex.
  - exists []. rewrite app_nil_r. split; [done|]. split; try (intros row ?%not_elem_of_nil; done).
    + constructor.
    + intros c' ->%list_elem_of_singleton. rewrite app_nil_r. apply existsb_true in Ex as (row & Hrow & E).
      apply bool_decide_eq_true in E. rewrite <-E. by apply list_elem_of_fmap_2.
  - exists [candidate_row (db_now db) c]. split; [done|]. rewrite existsb_false in Ex. split.
    + intros row ->%list_elem_of_singleton (row' & E & Hrow)%list_elem_of_fmap.
      specialize (Ex row' Hrow). apply bool_decide_eq_false in Ex. by apply Ex.
    + apply NoDup_singleton.
    + intros row ->%list_elem_of_singleton. exists c. split; [apply list_elem_of_here|done].
    + intros c' ->%list_elem_of_singleton. rewrite fmap_app. apply elem_of_app. right. apply list_elem_of_here.
Qed.

Lemma events_added_app now cs1 cs2 old new1 new2 :
  events_added now cs1 old new1 -> events_added now cs2 (old ++ new1) new2 ->
  events_added now (cs1 ++ cs2) old (new1 ++ new2).
Proof.
  intros [F1 D1 R1 C1] [F2 D2 R2 C2]. split.
  - intros row [Hr|Hr]%elem_of_app; [by apply F1|]. intros Ho. apply (F2 row Hr).
    rewrite fmap_app. apply elem_of_app. by left.
  - rewrite fmap_app. apply NoDup_app. split; [done|]. split; [|done].
    intros id Hid (row & -> & Hr)%list_elem_of_fmap. apply (F2 row Hr). rewrite fmap_app. apply elem_of_app. by right.
  - intros row [Hr|Hr]%elem_of_app; [destruct (R1 row Hr) as (c & Hc & E)|destruct (R2 row Hr) as (c & Hc & E)];
      exists c; (split; [apply elem_of_app; auto|done]).
  - intros c [Hc|Hc]%elem_of_app; rewrite app_assoc; [|by apply C2].
    rewrite fmap_app. apply elem_of_app. left. by apply C1.
Qed.

Lemma insert_candidates_wp cs db :
  wp (for_each insert_candidate cs)
    (fun _ db' => exists new, db' = set_outbox_events (db_outbox_events db ++ new) db
                  /\ events_added (db_now db) cs (db_outbox_events db) new) (fun _ _ => True) db.
Proof.
  revert db. induction cs as [|c cs IH]; intros db; cbn [for_each].
  - apply wp_ret. exists []. rewrite app_nil_r. split; [by destruct db|].
    split; try (intros ? ?%not_elem_of_nil; done). constructor.
  - apply wp_bind. eapply wp_mono; [apply insert_candidate_wp| |done]. cbn. intros _ db1 (new1 & -> & H1).
    eapply wp_mono; [apply IH| |done]. cbn [db_outbox_events db_now set_outbox_events].
    intros _ db2 (new2 & -> & H2). exists (new1 ++ new2). split; [by rewrite app_assoc|].
    by apply (events_added_app _ [c] cs).
Qed.

(** The outcome of [CommitScan]: [false] when the source event was processed before, and nothing
    changes; [true] when it was not, and then the event is recorded, the outbox gains one event
    for each candidate whose event id is new, and any later commit for the same event does
    nothing; after an exception nothing has changed, so the event can be processed again. *)
Theorem CommitScan_once sourceEventId candidates db :
  match CommitScan sourceEventId candidates db with
  | (Ok true, db') =>
      (("risk-engine", sourceEventId) ∉ db_processed_events db)
      /\ (exists new, db' = set_outbox_events (db_outbox_events db ++ new)
            (set_processed_events (db_processed_events db ++ [("risk-engine", sourceEventId)]) db)
          /\ events_added (db_now db) candidates (db_outbox_events db) new)
      /\ (forall candidates', CommitScan sourceEventId candidates' db' = (Ok false, db'))
  | (Ok false, db') => (("risk-engine", sourceEventId) ∈ db_processed_events db) /\ db' = db
  | (Throw _, db') => (("risk-engine", sourceEventId) ∉ db_processed_events db) /\ db' = db
  end.
Proof.
  assert (forall cs db', ("risk-engine", sourceEventId) ∈ db_processed_events db' ->
    CommitScan sourceEventId cs db' = (Ok false, db')) as Hskip.
  { intros cs db' Hin. apply transaction_Ok. unfold insert_processed.
    rewrite (bind_run _ _ _ false db'); [done|]. rewrite get_run. by rewrite bool_decide_eq_true_2. }
  destruct (decide (("risk-engine", sourceEventId) ∈ db_processed_events db)) as [Hin|Hnin].
  { by rewrite Hskip. }
  unfold CommitScan at 1. unfold transaction.
  set (db1 := set_processed_events (db_processed_events db ++ [("risk-engine", sourceEventId)]) db).
  rewrite (bind_run _ _ _ true db1).
  2:{ unfold insert_processed. rewrite get_run. by rewrite bool_decide_eq_false_2. }
  cbn [negb]. pose proof (insert_candidates_wp candidates db1) as Hw. unfold wp in Hw.
  destruct (for_each insert_candidate candidates db1) as [[[]|e] db2] eqn:E.
  - rewrite (bind_run _ _ _ _ _ E). cbn. destruct Hw as (new & -> & Hn). split; [done|]. split; [by exists new|].
    intros cs. apply Hskip. cbn. apply elem_of_app. right. apply list_elem_of_here.
  - unfold mbind, prog_bind. by rewrite E.
Qed.
