(* ===== verification/ApiStore.v ===== *)
(** * ApiStore: what the API reads from the tables of the indexer ([ApiTypes.hpp], [ApiStore.hpp],
    [ApiStore.cpp])

    Every call reads in a transaction of its own. *)

From S2P Require Import Prelude Effects Text Sql Uint256 Hex Abi IndexerTypes StateProjector PostgresStore.
From S2P Require Import PostgresRefinement RiskCalculator.
Import Math.
Set Default Goal Selector "!".
#[local] Open Scope Z_scope.

Record LiquidationRecord := MkLiquidationRecord {
  rec_blockNumber : Z;
  rec_transactionHash : Hash256;
  rec_liquidator : Address;
  rec_borrower : Address;
  rec_repaidAmount : Uint256;
  rec_collateralSeized : Uint256
}.

Record ProtocolStats := MkProtocolStats {
  pst_positionCount : Z;
  pst_liquidationCount : Z;
  pst_totalWethCollateral : Uint256;
  pst_totalScaledUsdcDebt : Uint256;
  pst_availableUsdcLiquidity : Uint256;
  pst_protocolReserve : Uint256;
  pst_badDebt : Uint256
}.

Class ApiStore (W : Type) := {
  api_LoadLiquidations : Uint256 -> Z -> prog W (list LiquidationRecord);
  api_LoadProtocolStats : Uint256 -> prog W ProtocolStats;
  api_LoadUsdcSupply : Uint256 -> Address -> prog W Uint256
}.

(** ** [PostgresApiStore] *)

Definition ApiParseHash (value : string) : result Hash256 :=
  parse_hash "database transaction hash must contain 32 bytes" value.

Definition ParseLiquidation (row : LiquidationRow) : result LiquidationRecord :=
  blockNumber ← uint64_column (qr_block_number row);
  transactionHash ← ApiParseHash (qr_transaction_hash row);
  liquidator ← AddressFromHex (qr_liquidator_address row);
  borrower ← AddressFromHex (qr_borrower_address row);
  repaidAmount ← FromDecimal (qr_repaid_amount row);
  collateralSeized ← FromDecimal (qr_collateral_seized row);
  Ok (MkLiquidationRecord blockNumber transactionHash liquidator borrower repaidAmount collateralSeized).

(** [ORDER BY block_number DESC, log_index DESC] *)
Definition newest_first (r1 r2 : LiquidationRow) : bool :=
  if negb (qr_block_number r1 =? qr_block_number r2) then qr_block_number r2 <? qr_block_number r1
  else qr_log_index r2 <? qr_log_index r1.

Definition LoadLiquidations (chainId : Uint256) (limit : Z) (db : IxDb) : result (list LiquidationRecord) :=
  _ ← bigint_parameter limit;
  map_result ParseLiquidation (take (Z.to_nat limit) (std_sort newest_first
    (filter (fun row => qr_chain_id row = ToDecimal chainId) (db_liquidations db)))).

(** [(SELECT COUNT( * ) ...)] *)
Definition LoadProtocolStats (chainId : Uint256) (db : IxDb) : result ProtocolStats :=
  let chain := ToDecimal chainId in
  match filter (fun row => mr_chain_id row = chain) (db_markets db) with
  | [] => Throw (RuntimeError "indexed protocol statistics are unavailable")
  | row :: _ =>
      let position_count := Z.of_nat (length (filter (fun row => pr_chain_id row = chain) (db_positions db))) in
      let liquidation_count := Z.of_nat (length (filter (fun row => qr_chain_id row = chain) (db_liquidations db))) in
      totalWethCollateral ← FromDecimal (mr_total_weth_collateral row);
      totalScaledUsdcDebt ← FromDecimal (mr_total_scaled_usdc_debt row);
      availableUsdcLiquidity ← FromDecimal (mr_available_usdc_liquidity row);
      protocolReserve ← FromDecimal (mr_protocol_reserve row);
      badDebt ← FromDecimal (mr_bad_debt row);
      Ok (MkProtocolStats position_count liquidation_count totalWethCollateral totalScaledUsdcDebt
            availableUsdcLiquidity protocolReserve badDebt)
  end.

(** [FROM positions p JOIN markets m ON m.chain_id = p.chain_id
    WHERE p.chain_id = $1 AND p.user_address = $2] *)
Definition supply_rows (chain user : string) (db : IxDb) : list (PositionRow * MarketRow) :=
  p ← filter (fun row => pr_chain_id row = chain /\ pr_user_address row = user) (db_positions db);
  m ← filter (fun row => mr_chain_id row = pr_chain_id p) (db_markets db);
  [(p, m)].

Definition LoadUsdcSupply (chainId : Uint256) (user : Address) (db : IxDb) : result Uint256 :=
  match supply_rows (ToDecimal chainId) (AddressToHex user true) db with
  | [] => Ok (U 0)
  | (p, m) :: _ =>
      scaledUsdcSupply ← FromDecimal (pr_scaled_usdc_supply p);
      liquidityIndex ← FromDecimal (mr_liquidity_index m);
      MulDivDown scaledUsdcSupply liquidityIndex Ray
  end.

#[global] Instance postgres_api_store : ApiStore (World IxDb) := {
  api_LoadLiquidations chainId limit := query (LoadLiquidations chainId limit);
  api_LoadProtocolStats chainId := query (LoadProtocolStats chainId);
  api_LoadUsdcSupply chainId user := query (LoadUsdcSupply chainId user)
}.

(** ** Reading a stored state *)

Definition liquidation_record (l : LiquidationState) : LiquidationRecord :=
  MkLiquidationRecord (ls_blockNumber l) (ls_transactionHash l) (ls_liquidator l) (ls_borrower l) (ls_repaidAmount l)
    (ls_collateralSeized l).

Lemma ParseLiquidation_row chain l :
  0 <= ls_blockNumber l -> ParseLiquidation (liquidation_row chain l) = Ok (liquidation_record l).
Proof.
  intros Hn. unfold ParseLiquidation, liquidation_row.
  cbn [qr_block_number qr_transaction_hash qr_liquidator_address qr_borrower_address qr_repaid_amount qr_collateral_seized].
  unfold hash_text, ApiParseHash. by rewrite uint64_column_Ok, parse_hash_Encode, !AddressFromHex_ToHex, !FromDecimal_ToDecimal.
Qed.

Lemma StronglySorted_comparable {A} (R : A -> A -> Prop) l x y :
  StronglySorted R l -> x ∈ l -> y ∈ l -> x = y \/ R x y \/ R y x.
Proof.
  induction 1 as [|z l _ IH Hz]; [by intros ?%not_elem_of_nil|]. rewrite list.Forall_forall in Hz. rewrite !elem_of_cons.
  intros [-> | Hx] [-> | Hy]; auto.
Qed.

Lemma newest_first_strict_weak : strict_weak newest_first.
Proof.
  split; unfold sort_le, newest_first; [intros x y|intros x y z];
    repeat match goal with |- context [?a =? ?b] => destruct (Z.eqb_spec a b) end; cbn [negb]; rewrite ?Z.ltb_ge; lia.
Qed.

(** The rows of a stored state are in the order of the chain, so the newest come first in reverse. *)
Lemma newest_rows chain l :
  StronglySorted liquidation_order l ->
  std_sort newest_first (liquidation_row chain <$> l) = liquidation_row chain <$> reverse l.
Proof.
  intros HS. rewrite <-(std_sort_strict newest_first (liquidation_row chain <$> reverse l) newest_first_strict_weak).
  - apply std_sort_unique; [apply newest_first_strict_weak| |by rewrite reverse_Permutation].
    intros r1 r2 (x & -> & Hx)%list_elem_of_fmap (y & -> & Hy)%list_elem_of_fmap. unfold sort_le, newest_first.
    cbn [qr_block_number qr_log_index liquidation_row]. intros H1 H2. f_equal.
    assert (ls_blockNumber x = ls_blockNumber y /\ ls_logIndex x = ls_logIndex y) as [Eb El].
    { revert H1 H2. repeat match goal with |- context [?a =? ?b] => destruct (Z.eqb_spec a b) end; cbn [negb];
        rewrite ?Z.ltb_ge; lia. }
    destruct (StronglySorted_comparable _ _ x y HS Hx Hy) as [-> | [[?|[]] | [?|[]]]]; [done|lia..].
  - clear -HS. induction HS as [|x l HS IH Hx]; [constructor|]. rewrite reverse_cons, fmap_app. cbn [fmap list_fmap].
    apply StronglySorted_app_2; [|exact IH|by repeat constructor].
    intros r1 r2 (y & -> & Hy)%list_elem_of_fmap ->%list_elem_of_singleton. rewrite elem_of_reverse in Hy.
    rewrite list.Forall_forall in Hx. unfold newest_first. cbn [qr_block_number qr_log_index liquidation_row].
    destruct (Hx y Hy) as [?|[E ?]]; destruct (Z.eqb_spec (ls_blockNumber y) (ls_blockNumber x)); cbn [negb];
      apply Z.ltb_lt; lia.
Qed.

Section Stored.
Context (chainId : Uint256) (st : DerivedState) (db : IxDb) (rows : derived_rows chainId st db).

Lemma LoadLiquidations_stored limit : 0 <= limit < 2 ^ 63 ->
  LoadLiquidations chainId limit db = Ok (liquidation_record <$> take (Z.to_nat limit) (reverse (ds_liquidations st))).
Proof using rows.
  intros Hl. unfold LoadLiquidations, bigint_parameter. rewrite (proj2 (sql_bigint_true limit) Hl), bind_Ok.
  rewrite (dr_liquidations _ _ _ rows). destruct (dr_storable _ _ _ rows) as [_ Hr Ho _].
  rewrite newest_rows, <-fmap_take by done. apply map_result_fmap_in. intros l Hin.
  assert (l ∈ reverse (ds_liquidations st)) as Hin'.
  { rewrite <-(take_drop (Z.to_nat limit) (reverse (ds_liquidations st))). apply elem_of_app. by left. }
  rewrite elem_of_reverse in Hin'. rewrite list.Forall_forall in Hr. apply ParseLiquidation_row. destruct (Hr l Hin'). lia.
Qed.

(** The statistics of a derived state. *)
Definition stats_of : ProtocolStats :=
  let m := ds_market st in
  MkProtocolStats (Z.of_nat (size (ds_positions st))) (Z.of_nat (length (ds_liquidations st)))
    (ms_totalWethCollateral m) (ms_totalScaledUsdcDebt m) (ms_availableUsdcLiquidity m) (ms_protocolReserve m) (ms_badDebt m).

Lemma LoadProtocolStats_stored : LoadProtocolStats chainId db = Ok stats_of.
Proof using rows.
  unfold LoadProtocolStats. rewrite (dr_market _ _ _ rows), (dr_positions _ _ _ rows), (dr_liquidations _ _ _ rows).
  rewrite !length_fmap, length_map_to_list. unfold market_row.
  cbn [mr_total_weth_collateral mr_total_scaled_usdc_debt mr_available_usdc_liquidity mr_protocol_reserve mr_bad_debt].
  by rewrite !FromDecimal_ToDecimal.
Qed.

(** The position of a user in the tables. *)
Lemma position_rows user :
  filter (fun row => pr_chain_id row = ToDecimal chainId /\ pr_user_address row = AddressToHex user true) (db_positions db)
  = match ds_positions st !! user with
    | Some p => [position_row (ToDecimal chainId) (user, p)]
    | None => []
    end.
Proof using rows.
  transitivity (filter (fun row => pr_user_address row = AddressToHex user true)
    (filter (fun row => pr_chain_id row = ToDecimal chainId) (db_positions db))).
  { rewrite list_filter_filter. apply list_filter_iff. tauto. }
  rewrite (dr_positions _ _ _ rows).
  rewrite (list_filter_fmap _ _ (fun entry => entry.1 = user)).
  2:{ intros entry. cbn [pr_user_address position_row]. split; [apply AddressToHex_inj|by intros ->]. }
  transitivity (position_row (ToDecimal chainId) <$> match ds_positions st !! user with Some p => [(user, p)] | None => [] end);
    [|by destruct (ds_positions st !! user)].
  f_equal. apply filter_key.
Qed.

Lemma LoadUsdcSupply_stored user :
  LoadUsdcSupply chainId user db =
    match ds_positions st !! user with
    | Some p => MulDivDown (ps_scaledUsdcSupply p) (ms_liquidityIndex (ds_market st)) Ray
    | None => Ok (U 0)
    end.
Proof using rows.
  unfold LoadUsdcSupply, supply_rows. rewrite position_rows. destruct (ds_positions st !! user) as [p|]; [|done].
  cbn [mbind list_bind pr_chain_id position_row]. rewrite (dr_market _ _ _ rows). cbn [mbind list_bind app].
  unfold position_row, market_row. cbn [pr_scaled_usdc_supply mr_liquidity_index]. by rewrite !FromDecimal_ToDecimal.
Qed.
End Stored.
