(* ===== verification/ApiChain.v ===== *)
(** * ApiChain: the head of the chain for the API ([ApiChain.hpp], [ApiChain.cpp])

    Reads fail over between the endpoints of one chain.  The members are guarded by a mutex that
    is not held over a request; the model runs the calls one after the other. *)

From S2P Require Import Prelude Effects Uint256 RpcTypes Failover.
Set Default Goal Selector "!".
#[local] Open Scope Z_scope.

Class ApiChain (W : Type) := { api_GetBlockNumber : prog W Z }.

(** The mutable members of [Impl], and the outside world the endpoints share. *)
Record ApiPool (N : Type) := MkApiPool {
  ap_validated : list bool;
  ap_chainId : option Uint256;
  ap_activeIndex : nat;
  ap_net : N
}.
Arguments MkApiPool {N} _ _ _ _.
Arguments ap_validated {N} _.
Arguments ap_chainId {N} _.
Arguments ap_activeIndex {N} _.
Arguments ap_net {N} _.

Section Client.
Context {N : Type} (clients_ : list (RpcCalls N)).

Abbreviation M := (prog (ApiPool N)).

Definition ActiveIndex : M nat := st ← get; mret (ap_activeIndex st).
Definition SetActiveIndex (index : nat) (st : ApiPool N) : ApiPool N :=
  MkApiPool (ap_validated st) (ap_chainId st) index (ap_net st).
Definition set_chainId (chainId : Uint256) (st : ApiPool N) : ApiPool N :=
  MkApiPool (ap_validated st) (Some chainId) (ap_activeIndex st) (ap_net st).
Definition set_validated (index : nat) (st : ApiPool N) : ApiPool N :=
  MkApiPool (<[index := true]> (ap_validated st)) (ap_chainId st) (ap_activeIndex st) (ap_net st).

(** The constructor. *)
Definition new_pool (net : N) : result (ApiPool N) :=
  match clients_ with
  | [] => Throw (InvalidArgument "API requires at least one RPC endpoint")
  | _ => Ok (MkApiPool (replicate (length clients_) false) None 0 net)
  end.

(** A call of [*clients_[index]]. *)
Definition on_client {A} (index : nat) (operation : RpcCalls N -> prog N A) : M A := fun st =>
  match clients_ !! index with
  | Some client =>
      let '(r, net) := operation client (ap_net st) in
      (r, MkApiPool (ap_validated st) (ap_chainId st) (ap_activeIndex st) net)
  | None => (Throw Undefined, st)
  end.

Definition Validate (index : nat) : M unit :=
  st ← get;
  if default false (ap_validated st !! index) then mret tt
  else
    chainId ← on_client index (@client_GetChainId N);
    st ← get;
    match ap_chainId st with
    | None => modify (set_chainId chainId)
    | Some known =>
        if u_neb chainId known
        then throw (RuntimeError "read-only RPC endpoint belongs to a different chain") else mret tt
    end;;
    modify (set_validated index).

Definition Execute {A} (operation : RpcCalls N -> prog N A) : M A :=
  start ← ActiveIndex;
  ExecuteFrom Validate (fun index => on_client index operation) SetActiveIndex start (length clients_).

Definition GetBlockNumber : M Z :=
  Execute (fun client => number ← @client_GetBlockNumber N client; lift (ToUint64 number)).

Definition GetChainId : M Uint256 := Execute (@client_GetChainId N).

Definition rpc_api_chain : ApiChain (ApiPool N) := {| api_GetBlockNumber := GetBlockNumber |}.
End Client.

(** ** Properties *)

Section Answers.
Context {N : Type} (clients_ : list (RpcCalls N)).

(** A validated endpoint has reported the chain id of the pool, some time before. *)
Definition one_chain (reported : nat -> Uint256 -> Prop) (st : ApiPool N) : Prop :=
  length (ap_validated st) = length clients_ /\ (ap_activeIndex st < length clients_)%nat
  /\ forall index, ap_validated st !! index = Some true -> exists id, ap_chainId st = Some id /\ reported index id.

(** What the clients report in some state of the outside world. *)
Definition reports (index : nat) (id : Uint256) : Prop := exists client net net',
  clients_ !! index = Some client /\ @client_GetChainId N client net = (Ok id, net').

Lemma api_on_client_wp {A} index (operation : RpcCalls N -> prog N A) (Q : A -> ApiPool N -> Prop) E st :
  (forall client a net, clients_ !! index = Some client -> operation client (ap_net st) = (Ok a, net) ->
     Q a (MkApiPool (ap_validated st) (ap_chainId st) (ap_activeIndex st) net)) ->
  (forall e net, E e (MkApiPool (ap_validated st) (ap_chainId st) (ap_activeIndex st) net)) ->
  wp (on_client clients_ index operation) Q E st.
Proof using.
  intros HQ HE. unfold wp, on_client. destruct (clients_ !! index) as [client|] eqn:Ec.
  - destruct (operation client (ap_net st)) as [[a|e] net] eqn:Eo; eauto.
  - destruct st. apply HE.
Qed.

(** The validation keeps the invariant, and marks the endpoint. *)
Lemma api_Validate_wp index st :
  one_chain reports st ->
  wp (Validate clients_ index)
    (fun _ st' => one_chain reports st' /\ ap_activeIndex st' = ap_activeIndex st
       /\ ((index < length clients_)%nat -> exists id, ap_chainId st' = Some id /\ reports index id)
       /\ (is_Some (ap_chainId st) -> ap_chainId st' = ap_chainId st))
    (fun _ st' => one_chain reports st' /\ ap_activeIndex st' = ap_activeIndex st
       /\ (is_Some (ap_chainId st) -> ap_chainId st' = ap_chainId st)) st.
Proof using.
  intros (Hl & Ha & Hv). unfold Validate. apply wp_bind, wp_get. apply wp_if; intros Ev.
  { apply wp_ret. split; [done|]. split; [done|]. split; [|done]. intros _. apply Hv.
    by destruct (ap_validated st !! index) as [[]|]. }
  apply wp_bind, api_on_client_wp; [|intros e net; done]. intros client id net Hc Eid. apply wp_bind, wp_get. cbn [ap_chainId].
  assert (reports index id) as Hr by (by exists client, (ap_net st), net).
  assert (forall id', (is_Some (ap_chainId st) -> ap_chainId st = Some id') -> reports index id' ->
    one_chain reports (MkApiPool (<[index := true]> (ap_validated st)) (Some id') (ap_activeIndex st) net)) as Hone.
  { intros id' Hold Hnew. split; [cbn [ap_validated]; by rewrite length_insert|]. split; [done|]. cbn [ap_validated ap_chainId].
    intros i [(-> & _ & _) | [_ Hi]]%list_lookup_insert_Some; [by exists id'|].
    destruct (Hv i Hi) as (x & Ex & Hx). exists x. split; [|done]. by rewrite <-Hold, Ex by by rewrite Ex. }
  apply wp_bind. destruct (ap_chainId st) as [known|] eqn:Ek.
  - destruct (u_neb id known) eqn:En.
    + apply wp_throw. split; [|by cbn [ap_chainId]].
      split; [done|]. split; [done|]. exact Hv.
    + assert (id = known) as -> by (by apply uval_inj, Z.eqb_eq, negb_false_iff). apply wp_ret, wp_modify.
      unfold set_validated. cbn [ap_validated ap_chainId ap_activeIndex ap_net]. rewrite ?Ek.
      split; [by apply Hone|]. split; [done|]. split; [intros _; by exists known|done].
  - apply wp_modify, wp_modify. unfold set_validated, set_chainId. cbn [ap_validated ap_chainId ap_activeIndex ap_net].
    split; [apply Hone; [by intros []|done]|]. split; [done|]. split; [intros _; by exists id|by intros []].
Qed.

Lemma one_chain_net net st : one_chain reports st ->
  one_chain reports (MkApiPool (ap_validated st) (ap_chainId st) (ap_activeIndex st) net).
Proof using. done. Qed.

(** One attempt: the answer comes from the endpoint that becomes active, and it has reported the
    chain id of the pool. *)
Lemma api_attempt_wp {A} (operation : RpcCalls N -> prog N A) index st :
  (index < length clients_)%nat -> one_chain reports st ->
  wp (attempt (Validate clients_) (fun index => on_client clients_ index operation) SetActiveIndex index)
    (fun a st' => one_chain reports st' /\ ap_activeIndex st' = index
       /\ (exists id, ap_chainId st' = Some id /\ reports index id) /\ (is_Some (ap_chainId st) -> ap_chainId st' = ap_chainId st)
       /\ exists client net, clients_ !! index = Some client /\ operation client net = (Ok a, ap_net st'))
    (fun _ st' => one_chain reports st' /\ ap_activeIndex st' = ap_activeIndex st
       /\ (is_Some (ap_chainId st) -> ap_chainId st' = ap_chainId st)) st.
Proof using.
  intros Hi Hst. unfold attempt. apply wp_bind. eapply wp_mono; [by apply api_Validate_wp| |done].
  intros [] st1 (Hst1 & Ea & Hid & Hkeep). specialize (Hid Hi).
  apply wp_bind, api_on_client_wp; [|by intros e net; split; [apply one_chain_net|]].
  intros client a net Hc Eo. apply wp_bind, wp_modify, wp_ret. unfold SetActiveIndex.
  cbn [ap_validated ap_chainId ap_activeIndex ap_net]. destruct Hst1 as (Hl & _ & Hv).
  split; [done|]. split; [done|]. split; [done|]. split; [done|]. by exists client, (ap_net st1).
Qed.

Lemma api_attempts_wp {A} (operation : RpcCalls N -> prog N A) order last st :
  (forall index, index ∈ order -> (index < length clients_)%nat) -> one_chain reports st ->
  wp (attempts (Validate clients_) (fun index => on_client clients_ index operation) SetActiveIndex order last)
    (fun a st' => one_chain reports st' /\ (is_Some (ap_chainId st) -> ap_chainId st' = ap_chainId st)
       /\ (exists id, ap_chainId st' = Some id /\ reports (ap_activeIndex st') id)
       /\ exists client net, clients_ !! ap_activeIndex st' = Some client /\ operation client net = (Ok a, ap_net st'))
    (fun _ st' => one_chain reports st' /\ ap_activeIndex st' = ap_activeIndex st
       /\ (is_Some (ap_chainId st) -> ap_chainId st' = ap_chainId st)) st.
Proof using.
  revert last st. induction order as [|index order IH]; intros last st Hall Hst; cbn [attempts].
  - by apply wp_throw.
  - apply wp_catch_all. eapply wp_mono; [apply api_attempt_wp; [apply Hall, list_elem_of_here|done]| |].
    + intros a st' (Hst' & <- & Hid & Hkeep & Hc). done.
    + intros e st1 (Hst1 & Ea & Hkeep). eapply wp_mono; [apply IH; [|done]| |].
      * intros i Hi. by apply Hall, list_elem_of_further.
      * intros a st' (H1 & H2 & H3 & H4). split; [done|]. split; [|done]. intros Hs.
        rewrite H2; [by apply Hkeep|]. by rewrite Hkeep.
      * intros e' st' (H1 & H2 & H3). split; [done|]. split; [congruence|]. intros Hs.
        rewrite H3; [by apply Hkeep|]. by rewrite Hkeep.
Qed.
End Answers.

(** The head the API reports is the answer of one endpoint, which is then the active one
    and has reported the chain id of the pool; the chain id never changes once it is known; when
    no endpoint answers, the active endpoint stays. *)
Theorem api_head_answered {N} (clients : list (RpcCalls N)) st :
  one_chain clients (reports clients) st ->
  wp (GetBlockNumber clients)
    (fun head st' => one_chain clients (reports clients) st' /\ (is_Some (ap_chainId st) -> ap_chainId st' = ap_chainId st)
       /\ (exists id, ap_chainId st' = Some id /\ reports clients (ap_activeIndex st') id)
       /\ exists client number net, clients !! ap_activeIndex st' = Some client
          /\ @client_GetBlockNumber N client net = (Ok number, ap_net st') /\ head = value_ number /\ value_ number < 2 ^ 64)
    (fun _ st' => one_chain clients (reports clients) st' /\ ap_activeIndex st' = ap_activeIndex st) st.
Proof.
  intros Hst. unfold GetBlockNumber, Execute. apply wp_bind. unfold ActiveIndex. apply wp_bind, wp_get, wp_ret.
  eapply wp_mono; [apply api_attempts_wp; [|done]| |].
  - intros index. apply ring_range.
  - intros a st' (H1 & H2 & H3 & client & net & Hc & Ea). split; [done|]. split; [done|]. split; [done|].
    apply bind_run_inv in Ea as (number & net1 & En & El). apply lift_run_inv in El as [Et ->].
    apply ToUint64_Ok in Et as [-> Hlt]. by exists client, number, net.
  - intros e st' (H1 & H2 & _). done.
Qed.
