(* ===== verification/ApiService.v ===== *)
(** * ApiService: the answers of the API ([ApiService.hpp], [ApiService.cpp])

    [Handle] routes a request, answers it from the risk engine, the store and the head of the
    chain, and turns every exception into a status.  A route reads the outside in several
    calls, each in its own state of the outside. *)

From Stdlib Require Import Ascii.
From S2P Require Import Prelude Effects Text Json Uint256 Hex RiskCalculator RiskEngine ApiStore ApiChain RpcClient.
Set Default Goal Selector "!".
#[local] Open Scope Z_scope.

Record ApiRequest := MkApiRequest { req_method : string; req_target : string; req_body : string }.
Record ApiResponse := MkApiResponse { resp_status : Z; resp_body : string }.

(** [std::chrono::system_clock], in seconds. *)
Class SystemClock (W : Type) := { UnixTime : prog W Z }.

(** ** Documents *)

(** The members of every object are in the order of their keys. *)
Definition decimal (x : Uint256) : json := JString (ToDecimal x).
Definition hex_address (a : Address) : json := JString (AddressToHex a true).

Definition Freshness (market : MarketSnapshot) (chainHead : Z) : json := JObject [
  ("chainHead", JNumber chainHead);
  ("indexLag", JNumber (if mk_indexedBlock market <? chainHead then u64 (chainHead - mk_indexedBlock market) else 0));
  ("indexedBlock", JNumber (mk_indexedBlock market));
  ("indexedBlockHash", JString (EncodeArray (mk_indexedBlockHash market) true))].

Definition RiskMembers (value : PositionRisk) : list (string * json) := [
  ("address", hex_address (po_user (pr_position value)));
  ("collateralValueUsdWad", decimal (pr_collateralValue value));
  ("debtValueUsdWad", decimal (pr_debtValue value));
  ("healthFactorWad", decimal (pr_healthFactor value));
  ("liquidatable", JBool (pr_liquidatable value));
  ("maxBorrowUsdWad", decimal (pr_maxBorrow value));
  ("usdcDebt", decimal (po_usdcDebt (pr_position value)));
  ("wethCollateral", decimal (po_wethCollateral (pr_position value)))].
Definition RiskJson (value : PositionRisk) : json := JObject (RiskMembers value).

(** [data["usdcSupply"] = supply] *)
Definition with_supply (value : PositionRisk) (supply : Uint256) : json :=
  JObject (take 7 (RiskMembers value) ++ ("usdcSupply", decimal supply) :: drop 7 (RiskMembers value)).

Definition HealthJson (value : PositionRisk) : json := JObject [
  ("address", hex_address (po_user (pr_position value)));
  ("healthFactorWad", decimal (pr_healthFactor value));
  ("liquidatable", JBool (pr_liquidatable value))].

Definition MarketJson (market : MarketSnapshot) : json := JObject [
  ("borrowIndex", decimal (mk_borrowIndex market));
  ("chainId", decimal (mk_chainId market));
  ("liquidationThresholdBps", decimal LiquidationThresholdBasisPoints);
  ("ltvBps", decimal LtvBasisPoints);
  ("oracle", hex_address (mk_oracle market));
  ("pool", hex_address (mk_pool market));
  ("priceDecimals", JNumber 8);
  ("usdc", hex_address (mk_usdc market));
  ("usdcDecimals", JNumber 6);
  ("usdcPrice", decimal (mk_usdcPrice market));
  ("weth", hex_address (mk_weth market));
  ("wethDecimals", JNumber 18);
  ("wethPrice", decimal (mk_wethPrice market))].

Definition LiquidationJson (value : LiquidationRecord) : json := JObject [
  ("blockNumber", JNumber (rec_blockNumber value));
  ("borrower", hex_address (rec_borrower value));
  ("collateralSeized", decimal (rec_collateralSeized value));
  ("liquidator", hex_address (rec_liquidator value));
  ("repaidAmount", decimal (rec_repaidAmount value));
  ("transactionHash", JString (EncodeArray (rec_transactionHash value) true))].

Definition StatsJson (stats : ProtocolStats) : json := JObject [
  ("availableUsdcLiquidity", decimal (pst_availableUsdcLiquidity stats));
  ("badDebt", decimal (pst_badDebt stats));
  ("liquidationCount", JNumber (pst_liquidationCount stats));
  ("positionCount", JNumber (pst_positionCount stats));
  ("protocolReserve", decimal (pst_protocolReserve stats));
  ("totalScaledUsdcDebt", decimal (pst_totalScaledUsdcDebt stats));
  ("totalWethCollateral", decimal (pst_totalWethCollateral stats))].

(** The body of a successful answer. *)
Definition document (data freshness : json) : json := JObject [("data", data); ("freshness", freshness)].
Definition error_document (message : string) : json := JObject [("error", JString message)].

(** ** Requests *)

Definition set_prices (wethPrice usdcPrice : Uint256) (now : Z) (m : MarketSnapshot) : MarketSnapshot :=
  MkMarketSnapshot (mk_chainId m) (mk_indexedBlock m) (mk_indexedBlockHash m) (mk_pool m) (mk_oracle m) (mk_weth m)
    (mk_usdc m) (mk_borrowIndex m) wethPrice (U now) (U 86400) usdcPrice (U now) (U 86400) (mk_observedAt m)
    (mk_availableUsdcLiquidity m) (mk_totalScaledUsdcDebt m) (mk_lastInterestTimestamp m) (mk_canonicalVersion m).

(** [Uint256::FromDecimal(request.at(key).get<std::string>())] *)
Definition amount_at (key : string) (request : json) : result Uint256 :=
  member ← json_at key request; text ← get_string member; FromDecimal text.

(** [if(request.contains(key)) price = ...] *)
Definition price_at (key : string) (request : json) (price : Uint256) : result Uint256 :=
  if json_contains key request then amount_at key request else Ok price.

Definition POSITIONS_PREFIX : list ascii := chars "/positions/".
Definition HEALTH_SUFFIX : list ascii := chars "/health".

(** [starts_with] and [ends_with] *)
Definition starts_with (prefix l : list ascii) : bool := bool_decide (take (length prefix) l = prefix).
Definition ends_with (suffix l : list ascii) : bool :=
  (length suffix <=? length l)%nat && bool_decide (drop (length l - length suffix) l = suffix).

Section Service.
Context {W : Type} `{RiskRepository W} `{!ApiStore W} `{!ApiChain W} `{!SystemClock W} `{JsonText}.
Context (boost_what : exn -> string) (chainId_ : Uint256).

Abbreviation M := (prog W).

Definition JsonResponse (status : Z) (value : json) : M ApiResponse :=
  text ← lift (dump value); mret (MkApiResponse status text).

(** The answer with the freshness of a market. *)
Definition Respond (market : MarketSnapshot) (data : json) : M ApiResponse :=
  head ← api_GetBlockNumber;
  JsonResponse 200 (document data (Freshness market head)).

Definition Markets : M ApiResponse :=
  market ← RiskEngine.LoadMarket chainId_;
  Respond market (JArray [MarketJson market]).

Definition Position (address : string) (healthOnly : bool) : M ApiResponse :=
  user ← lift (AddressFromHex address);
  now ← UnixTime;
  value ← RiskEngine.Evaluate chainId_ user now;
  match value with
  | None => JsonResponse 404 (error_document "position not found")
  | Some value =>
      market ← RiskEngine.LoadMarket chainId_;
      data ← (if healthOnly then mret (HealthJson value)
              else supply ← api_LoadUsdcSupply chainId_ user; mret (with_supply value supply));
      Respond market data
  end.

Definition Liquidations : M ApiResponse :=
  values ← api_LoadLiquidations chainId_ 100;
  market ← RiskEngine.LoadMarket chainId_;
  Respond market (JArray (LiquidationJson <$> values)).

Definition Stats : M ApiResponse :=
  stats ← api_LoadProtocolStats chainId_;
  market ← RiskEngine.LoadMarket chainId_;
  Respond market (StatsJson stats).

Definition Simulate (body : string) : M ApiResponse :=
  request ← lift (parse body);
  market ← RiskEngine.LoadMarket chainId_;
  wethPrice ← lift (price_at "wethPrice" request (mk_wethPrice market));
  usdcPrice ← lift (price_at "usdcPrice" request (mk_usdcPrice market));
  now ← UnixTime;
  position ← lift (
    member ← json_at "address" request; text ← get_string member; user ← AddressFromHex text;
    wethCollateral ← amount_at "wethCollateral" request;
    usdcDebt ← amount_at "usdcDebt" request;
    Ok (MkPosition user wethCollateral usdcDebt));
  let market := set_prices wethPrice usdcPrice now market in
  value ← lift (RiskCalculator.Evaluate position market now);
  Respond market (RiskJson value).

(** The [try] block of [Handle]. *)
Definition Route (request : ApiRequest) : M ApiResponse :=
  let GET := bool_decide (req_method request = "GET") in
  if GET && bool_decide (req_target request = "/health") then
    JsonResponse 200 (JObject [("status", JString "healthy")])
  else if GET && bool_decide (req_target request = "/ready") then
    JsonResponse 200 (JObject [("status", JString "ready")])
  else if GET && bool_decide (req_target request = "/markets") then Markets
  else if GET && bool_decide (req_target request = "/liquidations") then Liquidations
  else if GET && bool_decide (req_target request = "/protocol/stats") then Stats
  else if bool_decide (req_method request = "POST") && bool_decide (req_target request = "/risk/simulate") then
    Simulate (req_body request)
  else if GET && starts_with POSITIONS_PREFIX (chars (req_target request)) then
    let address := drop (length POSITIONS_PREFIX) (chars (req_target request)) in
    if ends_with HEALTH_SUFFIX address
    then Position (unchars (take (length address - length HEALTH_SUFFIX) address)) true
    else Position (unchars address) false
  else JsonResponse 404 (error_document "route not found").

(** The line that is logged. *)
Definition log_entry (request : ApiRequest) (e : exn) : json := JObject [
  ("error", JString (what boost_what e));
  ("event", JString "api_request_failed");
  ("method", JString (req_method request));
  ("target", JString (req_target request))].

Definition Handle (request : ApiRequest) : M ApiResponse :=
  catch_all (Route request) (fun e =>
    match e with
    | JsonException _ | InvalidArgument _ => JsonResponse 400 (error_document "invalid request")
    | Undefined => throw e
    | _ => lift (dump (log_entry request e));; JsonResponse 500 (error_document "internal server error")
    end).
End Service.
