(* ===== verification/ApiProperties.v ===== *)
(** * ApiProperties: what the API answers

    Every request is answered with a well-formed document, whatever the store, the risk engine and
    the endpoints answer; after a synchronisation the answers are those of the chain. *)

From Stdlib Require Import Ascii.
From S2P Require Import Prelude Effects Text Json Sql Uint256 Hex Event Abi IndexerTypes StateProjector Indexer IndexerSync.
From S2P Require Import PostgresStore PostgresRefinement IndexerProperties RpcClient RiskCalculator RiskEngine.
From S2P Require Import RpcTypes PostgresRiskRepository RiskWorker RiskProperties ApiStore ApiChain ApiService.
Import Math.
Set Default Goal Selector "!".
#[local] Open Scope Z_scope.

(** ** Well-formed documents *)

Lemma decimal_normal x : json_normal (decimal x) = true.
Proof. apply plain_ToDecimal. Qed.
Lemma hex_address_normal a : json_normal (hex_address a) = true.
Proof. apply plain_Encode. Qed.
Lemma array_text_normal {n} (a : array n) : json_normal (JString (EncodeArray a true)) = true.
Proof. apply plain_Encode. Qed.

Lemma forallb_In {A} (f : A -> bool) l : (forall x, x ∈ l -> f x = true) -> forallb f l = true.
Proof. intros H. apply forallb_forall. intros x Hx%list_elem_of_In. auto. Qed.

Create Rewrite HintDb normal.
#[local] Hint Rewrite decimal_normal hex_address_normal @array_text_normal : normal.

(** An object with sorted plain keys whose members are normal. *)
Lemma object_normal fields :
  keys_sorted (fst <$> fields) = true -> forallb (fun field => plain field.1) fields = true ->
  forallb (fun field => json_normal field.2) fields = true -> json_normal (JObject fields) = true.
Proof.
  intros Hk Hp Hn. cbn [json_normal]. rewrite Hk. cbn [andb]. apply forallb_In. intros field Hf%list_elem_of_In.
  rewrite forallb_forall in Hp, Hn. by rewrite Hp, Hn.
Qed.

Ltac object := apply object_normal; [reflexivity|reflexivity|]; cbn [forallb snd app take drop RiskMembers];
  autorewrite with normal; rewrite ?number_normal by done; try reflexivity.

Lemma Freshness_normal market head :
  uint64 (mk_indexedBlock market) -> uint64 head -> json_normal (Freshness market head) = true.
Proof.
  intros Hi Hh. unfold Freshness.
  assert (uint64 (if mk_indexedBlock market <? head then u64 (head - mk_indexedBlock market) else 0)) as Hl.
  { unfold uint64, u64. destruct (_ <? _); [apply Z.mod_pos_bound|]; lia. }
  object.
Qed.

Lemma RiskJson_normal value : json_normal (RiskJson value) = true.
Proof. unfold RiskJson. object. Qed.
Lemma with_supply_normal value supply : json_normal (with_supply value supply) = true.
Proof. unfold with_supply. object. Qed.
Lemma HealthJson_normal value : json_normal (HealthJson value) = true.
Proof. unfold HealthJson. object. Qed.
Lemma MarketJson_normal market : json_normal (JArray [MarketJson market]) = true.
Proof. cbn [json_normal forallb]. rewrite andb_true_r. unfold MarketJson. object. Qed.
Lemma StatsJson_normal stats :
  uint64 (pst_positionCount stats) -> uint64 (pst_liquidationCount stats) -> json_normal (StatsJson stats) = true.
Proof. intros Hp Hl. unfold StatsJson. object. Qed.
Lemma LiquidationJson_normal values :
  Forall (fun value => uint64 (rec_blockNumber value)) values -> json_normal (JArray (LiquidationJson <$> values)) = true.
Proof.
  intros Hv. cbn [json_normal]. apply forallb_In. intros x (value & -> & Hin)%list_elem_of_fmap.
  rewrite list.Forall_forall in Hv. specialize (Hv value Hin). unfold LiquidationJson. object.
Qed.
Lemma document_normal data freshness :
  json_normal data = true -> json_normal freshness = true -> json_normal (document data freshness) = true.
Proof. intros Hd Hf. unfold document. apply object_normal; [done|done|]. cbn [forallb snd]. by rewrite Hd, Hf. Qed.
Lemma error_document_normal message : plain message = true -> json_normal (error_document message) = true.
Proof. intros Hm. unfold error_document. apply object_normal; [done|done|]. cbn [forallb snd json_normal]. by rewrite Hm. Qed.

(** ** Exceptions *)

Definition is_invalid (e : exn) : Prop := exists msg, e = InvalidArgument msg.

Lemma Decode_invalid s : throws is_invalid (Decode s).
Proof.
  unfold Decode. destruct (negb _); [apply throws_Throw; by eexists|].
  induction (strip_0x (chars s)) as [| |c0 c1 l IH] using list_pair_ind; cbn [decode_pairs]; [apply throws_Ok..|].
  apply throws_bind; [intros e ->%decode_nibble_throw; by eexists|]. intros d0.
  apply throws_bind; [intros e ->%decode_nibble_throw; by eexists|]. intros d1.
  apply throws_bind; [exact IH|]. intros rest. apply throws_Ok.
Qed.

Lemma AddressFromHex_invalid s : throws is_invalid (AddressFromHex s).
Proof.
  unfold AddressFromHex. apply throws_bind; [apply Decode_invalid|]. intros bytes.
  destruct (negb _); [apply throws_Throw; by eexists|apply throws_Ok].
Qed.

Lemma plain_of_chars l : plain (unchars l) = forallb (fun c => ascii_z c <? 128) l.
Proof. unfold plain. by rewrite chars_unchars. Qed.

Lemma is_hex_plain c : is_hex c -> (ascii_z c <? 128) = true.
Proof.
  intros [i E]. unfold DecodeNibble, decode_nibble in E.
  change (ascii_z "0") with 48 in E. change (ascii_z "9") with 57 in E. change (ascii_z "a") with 97 in E.
  change (ascii_z "f") with 102 in E. change (ascii_z "A") with 65 in E. change (ascii_z "F") with 70 in E.
  split_ifs; try discriminate; boolify; apply Z.ltb_lt; lia.
Qed.

(** The characters of a text that is read as an address. *)
Lemma AddressFromHex_chars s a :
  AddressFromHex s = Ok a -> Forall (fun c => is_hex c \/ c = "x"%char \/ c = "X"%char) (chars s).
Proof.
  intros E. apply bind_Ok_inv in E as (bytes & E & _). unfold Decode in E. destruct (negb _) eqn:En; [discriminate|].
  apply decode_pairs_inv in E.
  2: { boolify. exists (Z.to_nat (Z.of_nat (length (strip_0x (chars s))) / 2)). Z.div_mod_to_equations. lia. }
  assert (Forall (fun c => is_hex c \/ c = "x"%char \/ c = "X"%char) (strip_0x (chars s))) as Hs.
  { eapply Forall_impl; [exact E|]. auto. }
  destruct (chars s) as [|c0 [|c1 l]]; [done|done|]. cbn [strip_0x] in Hs.
  destruct (bool_decide (c0 = "0"%char) && _) eqn:E0; [|done]. apply andb_true_iff in E0 as [->%bool_decide_eq_true E1].
  constructor; [left; by exists 0|]. constructor; [|exact Hs]. right.
  by apply orb_prop in E1 as [->%bool_decide_eq_true | ->%bool_decide_eq_true]; auto.
Qed.

Lemma AddressFromHex_plain s a : AddressFromHex s = Ok a -> plain s = true.
Proof.
  intros E%AddressFromHex_chars. unfold plain. apply forallb_In. intros c Hc. rewrite list.Forall_forall in E.
  by destruct (E c Hc) as [?%is_hex_plain | [-> | ->]].
Qed.

Lemma address_no_slash a : "/"%char ∉ chars (AddressToHex a true).
Proof.
  intros Hc. pose proof (AddressFromHex_chars _ _ (AddressFromHex_ToHex a true)) as E. rewrite list.Forall_forall in E.
  by destruct (E _ Hc) as [[i ?] | [? | ?]].
Qed.

(** ** Every request is answered *)

Section Answers.
Context {W : Type} `{RiskRepository W} `{!ApiStore W} `{!ApiChain W} `{!SystemClock W} `{LawfulJsonText}.
Context (boost_what : exn -> string) (chainId : Uint256).

(** An exception [Handle] can report: [dump] takes its message. *)
Definition reported (e : exn) : Prop :=
  match e with
  | JsonException _ | InvalidArgument _ => True
  | Undefined => False
  | e => plain (what boost_what e) = true
  end.

(** One that is not the client's. *)
Definition internal (e : exn) : Prop :=
  match e with
  | JsonException _ | InvalidArgument _ | Undefined => False
  | e => plain (what boost_what e) = true
  end.

Lemma internal_reported {A} (r : result A) : throws internal r -> throws reported r.
Proof using. intros Hr. eapply throws_weaken; [exact Hr|]. by intros []. Qed.

(** The outside in the states [I]: its values are those of their types, its exceptions can be
    reported. *)
Record regular_outside (I : W -> Prop) : Prop := {
  ro_market w : I w -> wp (repo_LoadMarket chainId) (fun m w' => uint64 (mk_indexedBlock m) /\ I w') (fun e w' => reported e /\ I w') w;
  ro_position user w : I w -> wp (repo_LoadPosition chainId user) (fun _ => I) (fun e w' => reported e /\ I w') w;
  ro_liquidations limit w : I w -> wp (api_LoadLiquidations chainId limit)
    (fun l w' => Forall (fun value => uint64 (rec_blockNumber value)) l /\ I w') (fun e w' => reported e /\ I w') w;
  ro_stats w : I w -> wp (api_LoadProtocolStats chainId)
    (fun s w' => (uint64 (pst_positionCount s) /\ uint64 (pst_liquidationCount s)) /\ I w') (fun e w' => reported e /\ I w') w;
  ro_supply user w : I w -> wp (api_LoadUsdcSupply chainId user) (fun _ => I) (fun e w' => reported e /\ I w') w;
  ro_head w : I w -> wp api_GetBlockNumber (fun head w' => uint64 head /\ I w') (fun e w' => reported e /\ I w') w;
  ro_clock w : I w -> wp UnixTime (fun _ => I) (fun e w' => reported e /\ I w') w;
  ro_parse text : throws (fun e => exists msg, e = JsonException msg) (parse text);
  ro_boost e : plain (boost_what e) = true
}.

(** A response of this status whose body is the text of this document. *)
Definition answers (status : Z) (value : json) (response : ApiResponse) : Prop :=
  exists text, dump value = Ok text /\ parse text = Ok value /\ response = MkApiResponse status text.

Definition error_answers : list (Z * string) :=
  [(400, "invalid request"); (404, "position not found"); (404, "route not found"); (500, "internal server error")].

Definition answered (response : ApiResponse) : Prop := exists status value,
  answers status value response /\ json_normal value = true
  /\ (status = 200 \/ (exists message : string, (status, message) ∈ error_answers /\ value = error_document message)).

Lemma JsonResponse_wp status value (w : W) :
  json_normal value = true -> wp (JsonResponse status value) (fun r w' => answers status value r /\ w' = w) (fun _ _ => False) w.
Proof using H1.
  intros Hn. destruct (parse_dump value Hn) as (text & Ed & Ep). unfold JsonResponse.
  apply wp_bind. unfold wp, lift. rewrite Ed. split; [|done]. by exists text.
Qed.

Context (I : W -> Prop) (regular : regular_outside I).

(** A handler that answers or throws what can be reported. *)
Definition handles (m : prog W ApiResponse) : Prop :=
  forall w, I w -> wp m (fun r w' => answered r /\ I w') (fun e w' => reported e /\ I w') w.

Lemma handles_value value : json_normal value = true -> handles (JsonResponse 200 value).
Proof using H1.
  intros Hn w Hw. eapply wp_mono; [by apply JsonResponse_wp| |by intros]. intros r w' [Ha ->]. split; [|done].
  exists 200, value. auto.
Qed.

Lemma handles_error status message :
  (status, message) ∈ error_answers ->
  forall w, I w -> wp (JsonResponse status (error_document message)) (fun r w' => answered r /\ I w') (fun _ _ => False) w.
Proof using H1.
  intros Hin w Hw. assert (json_normal (error_document message) = true) as Hn.
  { apply error_document_normal. revert Hin. unfold error_answers. rewrite !elem_of_cons. intros [[= _ ->]|[[= _ ->]|[[= _ ->]|[[= _ ->]|Hx]]]]; try done.
    by apply not_elem_of_nil in Hx. }
  eapply wp_mono; [by apply JsonResponse_wp| |by intros]. intros r w' [Ha ->]. split; [|done].
  exists status, (error_document message). split; [done|]. split; [done|]. right. by exists message.
Qed.

Lemma handles_respond market data :
  uint64 (mk_indexedBlock market) -> json_normal data = true -> handles (Respond market data).
Proof using H1 regular.
  intros Hm Hd w Hw. apply wp_bind. eapply wp_mono; [by apply (ro_head I regular)| |done].
  intros head w1 [Hh Hw1]. apply handles_value; [|done]. apply document_normal; [done|]. by apply Freshness_normal.
Qed.

Lemma handles_bind {A} (m : prog W A) (k : A -> prog W ApiResponse) (P : A -> Prop) :
  (forall w, I w -> wp m (fun a w' => P a /\ I w') (fun e w' => reported e /\ I w') w) ->
  (forall a, P a -> handles (k a)) -> handles (a ← m; k a).
Proof using.
  intros Hm Hk w Hw. apply wp_bind. eapply wp_mono; [by apply Hm| |done]. intros a w1 [Ha Hw1]. by apply Hk.
Qed.

Lemma handles_lift {A} (r : result A) (k : A -> prog W ApiResponse) :
  throws reported r -> (forall a, r = Ok a -> handles (k a)) -> handles (a ← lift r; k a).
Proof using.
  intros Hr Hk w Hw. apply wp_bind, wp_lift; [intros a Ha; by apply Hk|]. intros e He. split; [by apply Hr|done].
Qed.

Lemma handles_market (k : MarketSnapshot -> prog W ApiResponse) :
  (forall market, uint64 (mk_indexedBlock market) -> handles (k market)) -> handles (market ← RiskEngine.LoadMarket chainId; k market).
Proof using regular. apply handles_bind. apply (ro_market I regular). Qed.

(** *** What the calculations throw *)

Section Calculations.
Context (boost_plain : forall e, plain (boost_what e) = true).

Lemma storage_internal z : throws internal (storage z).
Proof using boost_plain. intros e [-> _]%storage_Throw. apply boost_plain. Qed.

Lemma sub_internal x y : throws internal (sub x y).
Proof using boost_plain. unfold sub. destruct (_ <? _); [by apply throws_Throw|apply storage_internal]. Qed.

Lemma ToUint64_internal x : throws internal (ToUint64 x).
Proof using. unfold ToUint64. destruct (_ <? _); [by apply throws_Throw|apply throws_Ok]. Qed.

Lemma MulDivDown_internal x y d : throws internal (MulDivDown x y d).
Proof using.
  rewrite MathLemmas.MulDivDown_eq. repeat destruct (_ =? _); repeat destruct (_ <? _); first [by apply throws_Throw|apply throws_Ok].
Qed.

Lemma MulDivUp_internal x y d : throws internal (MulDivUp x y d).
Proof using.
  rewrite MathLemmas.MulDivUp_eq. repeat destruct (_ =? _); repeat destruct (_ <? _); first [by apply throws_Throw|apply throws_Ok].
Qed.

Hint Resolve storage_internal sub_internal ToUint64_internal MulDivDown_internal MulDivUp_internal : throws.

(** Follows the calculation through its tests. *)
Ltac calculating := repeat first
  [ progress cbv zeta | solve [auto with throws] | apply throws_bind; [|intros ?]
  | match goal with |- throws _ (if ?b then _ else _) => destruct b end
  | by apply throws_Throw ].

Lemma RequireFreshPrice_internal price updatedAt maxAge t asset :
  plain asset = true -> throws internal (RequireFreshPrice price updatedAt maxAge t asset).
Proof using boost_plain.
  intros Ha. unfold RequireFreshPrice. calculating; apply throws_Throw; unfold internal, what; by rewrite plain_app, Ha.
Qed.

Lemma Evaluate_internal position market t : throws internal (RiskCalculator.Evaluate position market t).
Proof using boost_plain.
  unfold RiskCalculator.Evaluate, CollateralValue, DebtValue, mul. calculating; by apply RequireFreshPrice_internal.
Qed.

Lemma EvaluateIndexed_internal position market t : throws internal (EvaluateIndexed position market t).
Proof using boost_plain.
  unfold EvaluateIndexed, ProjectedBorrowIndex, DebtAtIndex, add. calculating. apply Evaluate_internal.
Qed.

Lemma FromDecimal_reported s : throws reported (FromDecimal s).
Proof using boost_plain.
  unfold FromDecimal. case_bool_decide; [by apply throws_Throw|]. apply throws_fold. intros r c.
  destruct (_ || _); [by apply throws_Throw|]. apply internal_reported. calculating.
Qed.
End Calculations.

Lemma AddressFromHex_reported s : throws reported (AddressFromHex s).
Proof using. eapply throws_weaken; [apply AddressFromHex_invalid|]. by intros e [msg ->]. Qed.

Hint Resolve FromDecimal_reported AddressFromHex_reported ro_boost : throws.

Ltac reporting := repeat first
  [ solve [eauto with throws] | apply throws_bind; [|intros ?] | by apply throws_Throw ].

Lemma amount_at_reported key request : throws reported (amount_at key request).
Proof using regular.
  unfold amount_at, json_at, get_string, result_of. reporting.
  - destruct request; try by apply throws_Throw. destruct (find_member key fields); [apply throws_Ok|by apply throws_Throw].
  - match goal with |- throws _ (match ?v with _ => _ end) => destruct v end; first [apply throws_Ok|by apply throws_Throw].
Qed.

Lemma price_at_reported key request price : throws reported (price_at key request price).
Proof using regular. unfold price_at. destruct (json_contains _ _); [apply amount_at_reported|apply throws_Ok]. Qed.

Hint Resolve amount_at_reported : throws.

(** *** The handlers *)

Lemma Markets_handles : handles (Markets chainId).
Proof using H1 regular. apply handles_market. intros market Hm. apply handles_respond; [done|apply MarketJson_normal]. Qed.

Lemma Liquidations_handles : handles (Liquidations chainId).
Proof using H1 regular.
  apply (handles_bind _ _ (Forall (fun value => uint64 (rec_blockNumber value)))); [apply (ro_liquidations I regular)|].
  intros values Hv. apply handles_market. intros market Hm. apply handles_respond; [done|by apply LiquidationJson_normal].
Qed.

Lemma Stats_handles : handles (Stats chainId).
Proof using H1 regular.
  apply (handles_bind _ _ (fun stats => uint64 (pst_positionCount stats) /\ uint64 (pst_liquidationCount stats))); [apply (ro_stats I regular)|].
  intros stats [Hp Hl]. apply handles_market. intros market Hm. apply handles_respond; [done|by apply StatsJson_normal].
Qed.

Lemma read_handles {A} (m : prog W A) (k : A -> prog W ApiResponse) :
  (forall w, I w -> wp m (fun _ => I) (fun e w' => reported e /\ I w') w) -> (forall a, handles (k a)) -> handles (a ← m; k a).
Proof using.
  intros Hm Hk. apply (handles_bind _ _ (fun _ => True)); [|auto]. intros w Hw.
  eapply wp_mono; [by apply Hm|by intros|done].
Qed.

Lemma Simulate_handles body : handles (Simulate chainId body).
Proof using H1 regular.
  apply handles_lift; [eapply throws_weaken; [apply (ro_parse I regular)|by intros e [msg ->]]|]. intros request _.
  apply handles_market. intros market Hm.
  apply handles_lift; [apply price_at_reported|]. intros wethPrice _.
  apply handles_lift; [apply price_at_reported|]. intros usdcPrice _.
  apply read_handles; [apply (ro_clock I regular)|]. intros now. apply handles_lift.
  - apply throws_bind; [|intros member; apply throws_bind; [|intros text; reporting]].
    + unfold json_at, result_of. destruct request; try by apply throws_Throw.
      destruct (find_member "address" fields); [apply throws_Ok|by apply throws_Throw].
    + destruct member; first [apply throws_Ok|by apply throws_Throw].
  - intros position _. apply handles_lift; [by apply internal_reported, Evaluate_internal, (ro_boost I regular)|]. intros value _.
    apply handles_respond; [done|apply RiskJson_normal].
Qed.

(** Once the address has been read, [Position] behaves as the other handlers. *)
Lemma Position_handles user (healthOnly : bool) : handles (
  now ← UnixTime;
  value ← RiskEngine.Evaluate chainId user now;
  match value with
  | None => JsonResponse 404 (error_document "position not found")
  | Some value =>
      market ← RiskEngine.LoadMarket chainId;
      data ← (if healthOnly then mret (HealthJson value)
              else supply ← api_LoadUsdcSupply chainId user; mret (with_supply value supply));
      Respond market data
  end).
Proof using H1 regular.
  apply read_handles; [apply (ro_clock I regular)|]. intros now. apply read_handles.
  - intros w Hw. unfold RiskEngine.Evaluate. apply wp_bind. eapply wp_mono; [by apply (ro_position I regular)| |done].
    intros [position|] w1 Hw1; [|by apply wp_ret]. apply wp_bind. eapply wp_mono; [by apply (ro_market I regular)| |done].
    intros market w2 [_ Hw2]. apply wp_bind, wp_lift; [intros risk _; by apply wp_ret|].
    intros e He. split; [by eapply internal_reported, He; apply EvaluateIndexed_internal, (ro_boost I regular)|done].
  - intros [value|].
    + apply handles_market. intros market Hm. apply (handles_bind _ _ (fun data => json_normal data = true)).
      * intros w Hw. destruct healthOnly; [apply wp_ret; split; [apply HealthJson_normal|done]|].
        apply wp_bind. eapply wp_mono; [by apply (ro_supply I regular)| |done]. intros supply w1 Hw1. apply wp_ret.
        split; [apply with_supply_normal|done].
      * intros data Hd. by apply handles_respond.
    + intros w Hw. eapply wp_mono; [apply handles_error; [|done]|done|by intros ? ? []]. unfold error_answers. set_solver.
Qed.

(** *** The routes *)

(** An exception [Handle] answers: one of the client's, or one it can write to the log. *)
Definition failure (request : ApiRequest) (e : exn) : Prop :=
  is_invalid e \/ reported e /\ plain (req_method request) = true /\ plain (req_target request) = true.

Definition guarded (request : ApiRequest) (m : prog W ApiResponse) : Prop :=
  forall w, I w -> wp m (fun r w' => answered r /\ I w') (fun e w' => failure request e /\ I w') w.

Lemma handles_guarded method target body m :
  plain method = true -> plain target = true -> handles m -> guarded (MkApiRequest method target body) m.
Proof using.
  intros Hm Ht Hh w Hw. eapply wp_mono; [by apply Hh|done|]. intros e w' [He Hw']. split; [by right|done].
Qed.

Lemma Position_guarded request address healthOnly :
  req_method request = "GET" -> (plain address = true -> plain (req_target request) = true) ->
  guarded request (Position chainId address healthOnly).
Proof using H1 regular.
  intros Eg Ht w Hw. unfold Position. apply wp_bind, wp_lift.
  - intros user Hu. eapply wp_mono; [by apply Position_handles|done|]. intros e w' [He Hw']. split; [|done].
    right. split; [done|]. rewrite Eg. split; [done|]. by apply Ht, (AddressFromHex_plain _ user).
  - intros e He. split; [left; by eapply AddressFromHex_invalid|done].
Qed.

Lemma starts_with_app prefix l : starts_with prefix l = true -> l = prefix ++ drop (length prefix) l.
Proof using. unfold starts_with. intros E%bool_decide_eq_true. rewrite <-E at 1. by rewrite take_drop. Qed.

Lemma ends_with_app suffix l : ends_with suffix l = true -> l = take (length l - length suffix) l ++ suffix.
Proof using.
  unfold ends_with. intros [_ E%bool_decide_eq_true]%andb_prop. rewrite <-E at 2. by rewrite take_drop.
Qed.

Lemma plain_chars s : plain s = forallb (fun c => ascii_z c <? 128) (chars s).
Proof using. done. Qed.

Lemma Route_guarded request : guarded request (Route chainId request).
Proof using H1 regular.
  destruct request as [method target body]. unfold Route. cbn [req_method req_target req_body].
  repeat match goal with
  | |- guarded _ (if bool_decide (method = ?m) && bool_decide (target = ?t) then _ else _) =>
      destruct (bool_decide (method = m) && bool_decide (target = t)) eqn:E;
        [apply andb_prop in E as [->%bool_decide_eq_true ->%bool_decide_eq_true]; apply handles_guarded; [reflexivity|reflexivity|]
        |clear E]
  end.
  - by apply handles_value.
  - by apply handles_value.
  - apply Markets_handles.
  - apply Liquidations_handles.
  - apply Stats_handles.
  - apply Simulate_handles.
  - destruct (bool_decide (method = "GET") && _) eqn:E.
    + apply andb_prop in E as [->%bool_decide_eq_true E]. apply starts_with_app in E.
      set (address := drop (length POSITIONS_PREFIX) (chars target)) in *.
      destruct (ends_with HEALTH_SUFFIX address) eqn:Es; apply Position_guarded; try done; cbn [req_target];
        rewrite plain_of_chars; intros Ha; rewrite plain_chars, E, forallb_app.
      * apply ends_with_app in Es. rewrite Es, forallb_app, Ha. done.
      * by rewrite Ha.
    + intros w Hw. eapply wp_mono; [apply handles_error; [|done]|done|by intros ? ? []]. unfold error_answers. set_solver.
Qed.

Lemma log_entry_normal request e :
  plain (what boost_what e) = true -> plain (req_method request) = true -> plain (req_target request) = true ->
  json_normal (log_entry boost_what request e) = true.
Proof using.
  intros He Hm Ht. unfold log_entry. apply object_normal; [done|done|]. cbn [forallb snd json_normal]. by rewrite He, Hm, Ht.
Qed.

Lemma Handle_answers request w :
  I w -> wp (Handle boost_what chainId request) (fun r w' => answered r /\ I w') (fun _ _ => False) w.
Proof using H1 regular.
  intros Hw. unfold Handle. apply wp_catch_all. eapply wp_mono; [by apply Route_guarded|done|].
  intros e w1 [He Hw1].
  assert (is_invalid e \/ (exists m, e = JsonException m) -> wp (JsonResponse 400 (error_document "invalid request"))
    (fun r w' => answered r /\ I w') (fun _ _ => False) w1) as H400.
  { intros _. apply handles_error; [|done]. unfold error_answers. set_solver. }
  destruct He as [[msg ->] | (He & Hm & Ht)]; [apply H400; left; by eexists|].
  assert (e <> Undefined -> plain (what boost_what e) = true -> wp (
    lift (dump (log_entry boost_what request e));; JsonResponse 500 (error_document "internal server error"))
    (fun r w' => answered r /\ I w') (fun _ _ => False) w1) as H500.
  { intros _ Hp. apply wp_bind. destruct (parse_dump _ (log_entry_normal request e Hp Hm Ht)) as (text & Ed & _).
    unfold wp at 1, lift. rewrite Ed. apply handles_error; [|done]. unfold error_answers. set_solver. }
  destruct e; cbn in He; first [done | by apply H400; unfold is_invalid; eauto | by apply H500].
Qed.
End Answers.

(** Claim C29: every request is answered: whatever the method, the target and the body are, and whatever the store,
    the risk engine, the endpoints and the clock answer or throw, [Handle] returns a response whose
    body is the text of a well-formed JSON document, and which is 200, or 400, 404 or 500 with
    one of four fixed messages; no exception escapes, not even from the line that logs a
    failure. *)
Theorem every_request_answered {W} `{RiskRepository W} `{!ApiStore W} `{!ApiChain W} `{!SystemClock W} `{LawfulJsonText}
    boost_what chainId (I : W -> Prop) request w :
  regular_outside boost_what chainId I -> I w ->
  wp (Handle boost_what chainId request) (fun response w' => answered response /\ I w') (fun _ _ => False) w.
Proof. intros Hr Hw. by apply Handle_answers. Qed.

(** ** The service over Postgres *)

(** The database, the endpoints, and how often the clock has been read. *)
Record ApiState (C : Type) := MkApiState { as_db : World IxDb; as_chain : C; as_reads : nat }.
Arguments MkApiState {C} _ _ _.
Arguments as_db {C} _.
Arguments as_chain {C} _.
Arguments as_reads {C} _.

Section Deployed.
Context {C : Type} `{ApiChain C} `{TextOrder} (clock : nat -> Z).

Definition on_db {A} (m : prog (World IxDb) A) : prog (ApiState C) A := fun st =>
  let '(r, db) := m (as_db st) in (r, MkApiState db (as_chain st) (as_reads st)).
Definition on_chain {A} (m : prog C A) : prog (ApiState C) A := fun st =>
  let '(r, chain) := m (as_chain st) in (r, MkApiState (as_db st) chain (as_reads st)).

#[local] Instance deployed_repository : RiskRepository (ApiState C) := {
  repo_LoadMarket chainId := on_db (repo_LoadMarket chainId);
  repo_LoadPosition chainId user := on_db (repo_LoadPosition chainId user);
  repo_LoadPositions chainId limit := on_db (repo_LoadPositions chainId limit)
}.
#[local] Instance deployed_store : ApiStore (ApiState C) := {
  api_LoadLiquidations chainId limit := on_db (api_LoadLiquidations chainId limit);
  api_LoadProtocolStats chainId := on_db (api_LoadProtocolStats chainId);
  api_LoadUsdcSupply chainId user := on_db (api_LoadUsdcSupply chainId user)
}.
#[local] Instance deployed_chain : ApiChain (ApiState C) := { api_GetBlockNumber := on_chain api_GetBlockNumber }.
#[local] Instance deployed_clock : SystemClock (ApiState C) := {
  UnixTime st := (Ok (clock (as_reads st)), MkApiState (as_db st) (as_chain st) (S (as_reads st)))
}.

Context `{LawfulJsonText} (boost_what : exn -> string) (chainId : Uint256).

(** [Handle] answers a [GET] request with this status and document. *)
Definition replies (target : string) (w : ApiState C) (status : Z) (value : json) : Prop :=
  forall body, exists response w',
    Handle boost_what chainId (MkApiRequest "GET" target body) w = (Ok response, w') /\ answers status value response.

Context (st : DerivedState) (db : IxDb) (market : MarketSnapshot) (rows : derived_rows chainId st db).
Context (loaded : PostgresRiskRepository.LoadMarket chainId db = Ok market) (indexed_range : uint64 (mk_indexedBlock market)).
Context (chain chain' : C) (chainHead : Z) (reads : nat).
Context (asked : api_GetBlockNumber chain = (Ok chainHead, chain')) (head_range : uint64 chainHead).

Abbreviation quiet := (MkApiState (MkWorld db []) chain).
Abbreviation fresh := (Freshness market chainHead).

Lemma Handle_Ok request w response w' :
  Route chainId request w = (Ok response, w') -> Handle boost_what chainId request w = (Ok response, w').
Proof using. intros E. unfold Handle, catch_all. by rewrite E. Qed.

Lemma JsonResponse_run status value (w : ApiState C) :
  json_normal value = true -> exists response, JsonResponse status value w = (Ok response, w) /\ answers status value response.
Proof using H2.
  intros Hn. destruct (parse_dump value Hn) as (text & Ed & Ep). exists (MkApiResponse status text). split; [|by exists text].
  unfold JsonResponse, mbind, prog_bind, lift. by rewrite Ed.
Qed.

Lemma Respond_run data n :
  json_normal data = true -> exists response,
    Respond market data (quiet n) = (Ok response, MkApiState (MkWorld db []) chain' n) /\ answers 200 (document data fresh) response.
Proof using H2 asked head_range indexed_range.
  intros Hd. destruct (JsonResponse_run 200 (document data fresh) (MkApiState (MkWorld db []) chain' n)) as (response & E & Ha).
  { apply document_normal; [done|]. by apply Freshness_normal. }
  exists response. split; [|done]. unfold Respond.
  rewrite (bind_run _ _ _ chainHead (MkApiState (MkWorld db []) chain' n)); [done|].
  cbn [api_GetBlockNumber deployed_chain]. unfold on_chain. cbn [as_chain as_db as_reads]. by rewrite asked.
Qed.

Lemma market_run n : RiskEngine.LoadMarket chainId (quiet n) = (Ok market, quiet n).
Proof using loaded.
  unfold RiskEngine.LoadMarket. cbn [repo_LoadMarket deployed_repository postgres_risk_repository]. unfold on_db.
  cbn [as_db as_chain as_reads]. rewrite query_quiet. by rewrite loaded.
Qed.

Lemma markets_reply : replies "/markets" (quiet reads) 200 (document (JArray [MarketJson market]) fresh).
Proof using H2 asked head_range indexed_range loaded.
  intros body. destruct (Respond_run _ reads (MarketJson_normal market)) as (response & E & Ha).
  exists response, (MkApiState (MkWorld db []) chain' reads). split; [|done]. apply Handle_Ok.
  change (Route chainId (MkApiRequest "GET" "/markets" body)) with (Markets (W := ApiState C) chainId). unfold Markets.
  by rewrite (bind_run _ _ _ _ _ (market_run reads)).
Qed.

Lemma liquidations_reply : replies "/liquidations" (quiet reads) 200 (document
  (JArray (LiquidationJson <$> (liquidation_record <$> take 100 (reverse (ds_liquidations st))))) fresh).
Proof using H2 asked head_range indexed_range loaded rows.
  intros body. set (records := liquidation_record <$> take 100 (reverse (ds_liquidations st))).
  assert (Forall (fun value => uint64 (rec_blockNumber value)) records) as Hr.
  { apply Forall_fmap, Forall_take, Forall_reverse. eapply Forall_impl; [apply (st_liquidations _ _ (dr_storable _ _ _ rows))|].
    intros l (_ & Hl & _). unfold compose, uint64. cbn. lia. }
  destruct (Respond_run _ reads (LiquidationJson_normal records Hr)) as (response & E & Ha).
  exists response, (MkApiState (MkWorld db []) chain' reads). split; [|done]. apply Handle_Ok.
  change (Route chainId (MkApiRequest "GET" "/liquidations" body)) with (Liquidations (W := ApiState C) chainId). unfold Liquidations.
  rewrite (bind_run _ _ _ records (quiet reads)).
  - by rewrite (bind_run _ _ _ _ _ (market_run reads)).
  - cbn [api_LoadLiquidations deployed_store postgres_api_store]. unfold on_db. cbn [as_db as_chain as_reads]. rewrite query_quiet.
    by rewrite (LoadLiquidations_stored chainId st db rows 100) by lia.
Qed.

Lemma stats_reply :
  uint64 (Z.of_nat (size (ds_positions st))) -> uint64 (Z.of_nat (length (ds_liquidations st))) ->
  replies "/protocol/stats" (quiet reads) 200 (document (StatsJson (stats_of st)) fresh).
Proof using H2 asked head_range indexed_range loaded rows.
  intros Hp Hl body. destruct (Respond_run _ reads (StatsJson_normal (stats_of st) Hp Hl)) as (response & E & Ha).
  exists response, (MkApiState (MkWorld db []) chain' reads). split; [|done]. apply Handle_Ok.
  change (Route chainId (MkApiRequest "GET" "/protocol/stats" body)) with (Stats (W := ApiState C) chainId). unfold Stats.
  rewrite (bind_run _ _ _ (stats_of st) (quiet reads)).
  - by rewrite (bind_run _ _ _ _ _ (market_run reads)).
  - cbn [api_LoadProtocolStats deployed_store postgres_api_store]. unfold on_db. cbn [as_db as_chain as_reads]. rewrite query_quiet.
    by rewrite (LoadProtocolStats_stored chainId st db rows).
Qed.

(** *** Positions *)

Lemma LoadPosition_stored user :
  PostgresRiskRepository.LoadPosition chainId user db = Ok ((fun p => indexed (user, p)) <$> ds_positions st !! user).
Proof using rows.
  unfold PostgresRiskRepository.LoadPosition. rewrite (position_rows chainId st db rows user).
  destruct (ds_positions st !! user) as [p|]; [|done]. by rewrite ParsePosition_row.
Qed.

(** The evaluation of a user, read in one piece. *)
Lemma evaluate_run user now n :
  RiskEngine.Evaluate chainId user now (quiet n) =
    (match ds_positions st !! user with
     | Some p => Some <$> EvaluateIndexed (indexed (user, p)) market now
     | None => Ok None
     end, quiet n).
Proof using rows loaded.
  unfold RiskEngine.Evaluate.
  rewrite (bind_run _ _ _ ((fun p => indexed (user, p)) <$> ds_positions st !! user) (quiet n)).
  2:{ cbn [repo_LoadPosition deployed_repository postgres_risk_repository]. unfold on_db. cbn [as_db as_chain as_reads].
      rewrite query_quiet. by rewrite LoadPosition_stored. }
  destruct (ds_positions st !! user) as [p|]; [|done]. cbn [fmap option_fmap option_map].
  rewrite (bind_run _ _ _ _ _ (market_run n)). unfold mbind, prog_bind, lift.
  by destruct (EvaluateIndexed _ _ _).
Qed.

Lemma ends_with_suffix (suffix l : list ascii) :
  ends_with suffix (l ++ suffix) = true /\ take (length (l ++ suffix) - length suffix) (l ++ suffix) = l.
Proof using.
  unfold ends_with. rewrite length_app, Nat.add_sub, take_app_length, drop_app_length. split; [|done].
  rewrite bool_decide_eq_true_2, andb_true_r by done. apply Nat.leb_le. lia.
Qed.

Definition position_target (user : Address) : string := "/positions/" +:+ AddressToHex user true.
Definition health_target (user : Address) : string := "/positions/" +:+ AddressToHex user true +:+ "/health".

Lemma Route_positions rest body :
  Route (W := ApiState C) chainId (MkApiRequest "GET" ("/positions/" +:+ rest) body)
  = if ends_with HEALTH_SUFFIX (chars rest)
    then Position chainId (unchars (take (length (chars rest) - length HEALTH_SUFFIX) (chars rest))) true
    else Position chainId rest false.
Proof using.
  unfold Route. cbn [req_method req_target req_body].
  rewrite (bool_decide_eq_true_2 ("GET" = "GET")) by done. cbn [andb].
  do 6 rewrite (bool_decide_eq_false_2 (_ = _)) by discriminate. cbn [andb].
  assert (chars ("/positions/" +:+ rest) = POSITIONS_PREFIX ++ chars rest) as -> by done.
  unfold starts_with. rewrite take_app_length, drop_app_length, bool_decide_eq_true_2 by done. by rewrite unchars_chars.
Qed.

Lemma Route_position user body :
  Route (W := ApiState C) chainId (MkApiRequest "GET" (position_target user) body)
  = Position chainId (AddressToHex user true) false.
Proof using.
  unfold position_target. rewrite Route_positions. destruct (ends_with _ _) eqn:E; [|done]. apply ends_with_app in E.
  exfalso. apply (address_no_slash user). rewrite E. apply elem_of_app. right. apply list_elem_of_here.
Qed.

Lemma Route_health user body :
  Route (W := ApiState C) chainId (MkApiRequest "GET" (health_target user) body)
  = Position chainId (AddressToHex user true) true.
Proof using.
  unfold health_target. rewrite Route_positions.
  assert (chars (AddressToHex user true +:+ "/health") = chars (AddressToHex user true) ++ HEALTH_SUFFIX) as ->.
  { apply unchars_inj. rewrite unchars_chars. generalize (AddressToHex user true) as s. intros s.
    rewrite <-(unchars_chars s) at 1. generalize (chars s) as l. intros l. induction l as [|c l IH]; [done|].
    change (unchars (c :: l)) with (String c (unchars l)). change (String c (unchars l) +:+ "/health") with (String c (unchars l +:+ "/health")).
    by rewrite IH. }
  destruct (ends_with_suffix HEALTH_SUFFIX (chars (AddressToHex user true))) as [-> ->]. by rewrite unchars_chars.
Qed.

(** The [data] of an answer about a stored position. *)
Definition position_data (healthOnly : bool) (user : Address) (p : PositionState) (now : Z) : result json :=
  risk ← EvaluateIndexed (indexed (user, p)) market now;
  if healthOnly then Ok (HealthJson risk)
  else supply ← MulDivDown (ps_scaledUsdcSupply p) (ms_liquidityIndex (ds_market st)) Ray; Ok (with_supply risk supply).

Lemma position_data_normal healthOnly user p now data :
  position_data healthOnly user p now = Ok data -> json_normal data = true.
Proof using.
  intros E. apply bind_Ok_inv in E as (risk & _ & E). destruct healthOnly; [injection E as <-; apply HealthJson_normal|].
  apply bind_Ok_inv in E as (supply & _ & [= <-]). apply with_supply_normal.
Qed.

Lemma position_data_internal (boost_plain : forall e, plain (boost_what e) = true) healthOnly user p now :
  throws (internal boost_what) (position_data healthOnly user p now).
Proof using.
  apply throws_bind; [by apply EvaluateIndexed_internal|]. intros risk. destruct healthOnly; [apply throws_Ok|].
  apply throws_bind; [apply MulDivDown_internal|]. intros supply. apply throws_Ok.
Qed.

(** What [Position] does with an address the program has written. *)
Definition position_outcome (healthOnly : bool) (user : Address) (r : result ApiResponse) : Prop :=
  match ds_positions st !! user with
  | None => exists response, r = Ok response /\ answers 404 (error_document "position not found") response
  | Some p =>
      match position_data healthOnly user p (clock reads) with
      | Throw e => r = Throw e
      | Ok data => exists response, r = Ok response /\ answers 200 (document data fresh) response
      end
  end.

Lemma bind_eval {St A B} (m : prog St A) (k : A -> prog St B) s r s' :
  m s = (r, s') -> (m ≫= k) s = match r with Ok a => k a s' | Throw e => (Throw e, s') end.
Proof using. intros E. unfold mbind, prog_bind. by rewrite E. Qed.

Lemma supply_run user p (risk : PositionRisk) n : ds_positions st !! user = Some p ->
  (supply ← api_LoadUsdcSupply chainId user; mret (with_supply risk supply)) (quiet n)
  = (supply ← MulDivDown (ps_scaledUsdcSupply p) (ms_liquidityIndex (ds_market st)) Ray; Ok (with_supply risk supply), quiet n).
Proof using rows.
  intros Ep. unfold mbind at 1, prog_bind. cbn [api_LoadUsdcSupply deployed_store postgres_api_store]. unfold on_db.
  cbn [as_db as_chain as_reads]. rewrite query_quiet, (LoadUsdcSupply_stored chainId st db rows user), Ep.
  by destruct (MulDivDown _ _ _).
Qed.

Lemma Position_run user (healthOnly : bool) :
  position_outcome healthOnly user (Position chainId (AddressToHex user true) healthOnly (quiet reads)).1.
Proof using rows loaded H2 asked head_range indexed_range.
  unfold position_outcome, Position. pose proof (evaluate_run user (clock reads) (S reads)) as Ee.
  rewrite (bind_run _ _ _ user (quiet reads)) by by rewrite AddressFromHex_ToHex.
  rewrite (bind_run _ _ _ (clock reads) (quiet (S reads))) by done.
  destruct (ds_positions st !! user) as [p|] eqn:Ep.
  2:{ rewrite (bind_run _ _ _ _ _ Ee). destruct (JsonResponse_run 404 (error_document "position not found") (quiet (S reads)))
        as (response & E & Ha); [by apply error_document_normal|]. exists response. by rewrite E. }
  pose proof (position_data_normal healthOnly user p (clock reads)) as Hn. unfold position_data in Hn |- *.
  destruct (EvaluateIndexed (indexed (user, p)) market (clock reads)) as [risk|e].
  2:{ rewrite bind_Throw. unfold mbind at 1, prog_bind at 1. by rewrite Ee. }
  rewrite bind_Ok in Hn |- *. rewrite (bind_run _ _ _ _ _ Ee), (bind_run _ _ _ _ _ (market_run (S reads))).
  assert (forall data, json_normal data = true -> exists response,
    (Respond market data (quiet (S reads))).1 = Ok response /\ answers 200 (document data fresh) response) as Hok.
  { intros data Hd. destruct (Respond_run data (S reads) Hd) as (response & E & Ha). exists response. by rewrite E. }
  destruct healthOnly; [by apply Hok, Hn|]. rewrite (bind_eval _ _ _ _ _ (supply_run user p risk (S reads) Ep)).
  destruct (MulDivDown _ _ _) as [supply|e]; [|done]. by apply Hok, Hn.
Qed.

(** The answer about a user: a stored position is evaluated at the time of the clock; when the
    evaluation throws, the answer is 500. *)
Definition position_reply (healthOnly : bool) (user : Address) (target : string) : Prop :=
  match ds_positions st !! user with
  | None => replies target (quiet reads) 404 (error_document "position not found")
  | Some p =>
      match position_data healthOnly user p (clock reads) with
      | Ok data => replies target (quiet reads) 200 (document data fresh)
      | Throw _ => replies target (quiet reads) 500 (error_document "internal server error")
      end
  end.

Lemma Handle_internal request w e w' :
  Route chainId request w = (Throw e, w') -> internal boost_what e ->
  plain (req_method request) = true -> plain (req_target request) = true ->
  exists response w'', Handle boost_what chainId request w = (Ok response, w'')
    /\ answers 500 (error_document "internal server error") response.
Proof using H2.
  intros E He Hm Ht. destruct (JsonResponse_run 500 (error_document "internal server error") w') as (response & Er & Ha);
    [by apply error_document_normal|].
  exists response, w'. split; [|done].
  assert (plain (what boost_what e) = true -> (lift (dump (log_entry boost_what request e));;
    JsonResponse 500 (error_document "internal server error")) w' = (Ok response, w')) as Hlog.
  { intros Hp. destruct (parse_dump _ (log_entry_normal boost_what request e Hp Hm Ht)) as (text & Ed & _).
    unfold mbind, prog_bind, lift. by rewrite Ed. }
  unfold Handle, catch_all. rewrite E. destruct e; cbn in He; first [done|by apply Hlog].
Qed.

Lemma position_replies (boost_plain : forall e, plain (boost_what e) = true) user healthOnly target :
  plain target = true ->
  (forall body, Route (W := ApiState C) chainId (MkApiRequest "GET" target body) = Position chainId (AddressToHex user true) healthOnly) ->
  position_reply healthOnly user target.
Proof using rows loaded H2 asked head_range indexed_range.
  intros Ht Hroute. pose proof (Position_run user healthOnly) as Hp. unfold position_outcome in Hp. unfold position_reply.
  pose proof (position_data_internal boost_plain healthOnly user) as Hi.
  destruct (Position chainId (AddressToHex user true) healthOnly (quiet reads)) as [r w'] eqn:E. cbn [fst] in Hp.
  assert (forall status value, (exists response, r = Ok response /\ answers status value response) ->
    replies target (quiet reads) status value) as Hok.
  { intros status value (response & -> & Ha) body. exists response, w'. split; [|done]. apply Handle_Ok. by rewrite Hroute. }
  destruct (ds_positions st !! user) as [p|]; [|by apply Hok]. specialize (Hi p (clock reads)).
  destruct (position_data _ _ _ _) as [data|e]; [by apply Hok|]. subst r. intros body.
  apply (Handle_internal (MkApiRequest "GET" target body) (quiet reads) e w'); [by rewrite Hroute|by apply Hi|done|done].
Qed.

Lemma position_answer (boost_plain : forall e, plain (boost_what e) = true) user :
  position_reply false user (position_target user) /\ position_reply true user (health_target user).
Proof using rows loaded H2 asked head_range indexed_range.
  pose proof (AddressFromHex_plain _ user (AddressFromHex_ToHex user true)) as Hp.
  split.
  - apply position_replies; [exact boost_plain| |intros body; apply Route_position]. unfold position_target. by rewrite plain_app, Hp.
  - apply position_replies; [exact boost_plain| |intros body; apply Route_health]. unfold health_target. by rewrite !plain_app, Hp.
Qed.
End Deployed.

(** Claim C10: after [SyncToHead] on a chain that stands still the API answers with the state
    [Rebuild] gives for the logs of that chain, as of its head: [/markets] with the market, [/liquidations]
    with the hundred newest liquidations, [/protocol/stats] with the totals and the counts, and
    [/positions/<address>], with or without [/health], with the risk of that position at the time
    of the clock and its supply, 404 for an address without position, and 500 exactly when the
    calculation fails.  Every answer gives the head of the chain and how far the index is behind
    it. *)
Theorem api_after_sync {N} `{ChainClient N} `{TextOrder} `{LawfulJsonText} keccak contracts chainId start c head hdr (I : N -> Prop) w f n
    fuel db v status logs st {C} `{ApiChain C} (chain chain' : C) chainHead clock reads boost_what :
  StableChain keccak contracts chainId start c head hdr I -> I w ->
  represents_view contracts chainId (2 * fuel) db v -> holds_segment keccak contracts chainId start c v f n ->
  Z.max 0 (head + 1 - start) + 1 < Z.of_nat fuel -> start <= head ->
  logs ≡ₚ segment_logs c start (fun k => bh_hash (hdr k)) (Z.to_nat (head + 1 - start)) ->
  Rebuild keccak contracts logs = Ok st ->
  uint64 (Z.of_nat (size (ds_positions st))) -> uint64 (Z.of_nat (length (ds_liquidations st))) ->
  api_GetBlockNumber chain = (Ok chainHead, chain') -> uint64 chainHead -> (forall e, plain (boost_what e) = true) ->
  exists db' status' count version w',
    SyncToHead keccak contracts start fuel (MkIxState db w status) = (Ok (Some count), MkIxState db' w' status')
    /\ let market := snapshot chainId st head (bh_hash (hdr head)) version in
       let service := MkApiState (MkWorld db' []) chain reads in
       replies clock boost_what chainId "/markets" service 200 (document (JArray [MarketJson market]) (Freshness market chainHead))
       /\ replies clock boost_what chainId "/liquidations" service 200 (document
            (JArray (LiquidationJson <$> (liquidation_record <$> take 100 (reverse (ds_liquidations st))))) (Freshness market chainHead))
       /\ replies clock boost_what chainId "/protocol/stats" service 200 (document (StatsJson (stats_of st)) (Freshness market chainHead))
       /\ forall user,
            position_reply clock boost_what chainId st db' market chain chainHead reads false user (position_target user)
            /\ position_reply clock boost_what chainId st db' market chain chainHead reads true user (health_target user).
Proof.
  intros Hst Hw Hr Hseg Hf Hsh Hlogs HR Hp Hl Hask Hhead Hboost.
  destruct (synced_rows keccak contracts chainId start c head hdr I w f n fuel db v status logs st Hst Hw Hr Hseg Hf Hsh Hlogs HR)
    as (db' & status' & count & version & w' & E & Hv & Hd & Hm).
  exists db', status', count, version, w'. split; [exact E|]. cbn zeta.
  assert (uint64 (mk_indexedBlock (snapshot chainId st head (bh_hash (hdr head)) version))) as Hi.
  { pose proof (cf_range _ _ _ _ _ _ _ Hst). unfold uint64. cbn [mk_indexedBlock snapshot]. lia. }
  split; [by eapply markets_reply|]. split; [by eapply liquidations_reply|]. split; [by eapply stats_reply|].
  intros user. by eapply position_answer.
Qed.

(** ** Witnesses *)

Section Demo.
#[local] Existing Instances byte_order coded_json coded_json_lawful demo_chain.

(** An outside without state that answers some calls and throws on others. *)
#[local] Instance quiet_repository : RiskRepository unit := {
  repo_LoadMarket _ := mret (snapshot (U 1) demo_state 11 (block_hash 11) 1);
  repo_LoadPosition _ _ := mret (Some (MkIndexedPosition (mk_pool (snapshot (U 1) demo_state 11 (block_hash 11) 1)) (U 5) (U 7)));
  repo_LoadPositions _ _ := mret []
}.
#[local] Instance quiet_store : ApiStore unit := {
  api_LoadLiquidations _ _ := mret [];
  api_LoadProtocolStats _ := throw (RuntimeError "indexed protocol statistics are unavailable");
  api_LoadUsdcSupply _ _ := mret (U 9)
}.
#[local] Instance quiet_chain : ApiChain unit := { api_GetBlockNumber := mret 12 }.
#[local] Instance quiet_clock : SystemClock unit := { UnixTime := mret 1000 }.

Lemma quiet_regular : regular_outside (fun _ => "") (U 1) (fun _ : unit => True).
Proof.
  split; try (intros; apply wp_ret; repeat split; by try constructor).
  - intros w _. by apply wp_throw.
  - intros text. unfold parse, coded_json. destruct (decode _) as [t|]; [|by apply throws_Throw; eexists]. apply throws_Ok.
  - done.
Qed.

Lemma every_request_answered_witness :
  (exists response, Handle (fun _ => "") (U 1) (MkApiRequest "GET" "/protocol/stats" "") tt = (Ok response, tt)
     /\ resp_status response = 500)
  /\ wp (Handle (fun _ => "") (U 1) (MkApiRequest "POST" "/risk/simulate" "{"))
       (fun response w' => answered response /\ True) (fun _ _ => False) tt.
Proof.
  split; [eexists; split; vm_compute; reflexivity|].
  exact (every_request_answered (fun _ => "") (U 1) (fun _ => True) _ tt quiet_regular Logic.I).
Defined.

(** An endpoint that counts its calls. *)
#[local] Instance counting_chain : ApiChain nat := { api_GetBlockNumber calls := (Ok 13, S calls) }.

Lemma demo_liquidations_count : (Z.of_nat (length (ds_liquidations demo_state)) <? 2 ^ 64) = true.
Proof. vm_compute. reflexivity. Qed.

(** The chain of the indexer's examples, whose head is two blocks ahead of the index; the zero
    address has no position there. *)
Lemma api_after_sync_witness : exists db' status' count version w',
  SyncToHead prefix_hash sample_contracts 10 5 (MkIxState fork_db tt (MkIndexerStatus 0 0 0))
    = (Ok (Some count), MkIxState db' w' status')
  /\ replies (fun n => 1000 + Z.of_nat n) (fun _ => "") (U 1) "/protocol/stats" (MkApiState (MkWorld db' []) 0%nat 0) 200
       (document (StatsJson (stats_of demo_state)) (Freshness (snapshot (U 1) demo_state 11 (block_hash 11) version) 13))
  /\ replies (fun n => 1000 + Z.of_nat n) (fun _ => "") (U 1) (position_target (array_copy 20 [])) (MkApiState (MkWorld db' []) 0%nat 0) 404
       (error_document "position not found").
Proof.
  destruct (api_after_sync prefix_hash sample_contracts (U 1) 10 demo_contents 11
    demo_header (fun _ => True) tt (fun _ => fork_hash) 1 5 fork_db fork_view (MkIndexerStatus 0 0 0)
    (segment_logs demo_contents 10 block_hash 2) demo_state 0%nat 1%nat 13 (fun n => 1000 + Z.of_nat n) 0 (fun _ => "")
    demo_stable Logic.I fork_represents fork_segment eq_refl (proj1 (Z.leb_le 10 11) eq_refl) (reflexivity _)
    demo_rebuild) as (db' & status' & count & version & w' & E & _ & _ & Hs & Hu).
  - pose proof demo_size as Hn. apply Z.leb_le in Hn. unfold uint64. lia.
  - pose proof demo_liquidations_count as Hn. apply Z.ltb_lt in Hn. unfold uint64. lia.
  - done.
  - done.
  - done.
  - exists db', status', count, version, w'. split; [exact E|]. split; [exact Hs|].
    destruct (Hu (array_copy 20 [])) as [Hp _]. unfold position_reply in Hp.
    replace (ds_positions demo_state !! (array_copy 20 [] : Address)) with (@None PositionState) in Hp by (vm_compute; reflexivity).
    exact Hp.
Defined.
End Demo.
