(* ===== verification/HttpServer.v ===== *)
(** * HttpServer: one connection, and the rate limit ([HttpServer.hpp], [HttpServer.cpp])

    A connection carries one request.  The limiter is shared by the workers of the pool and
    guarded by a mutex; the clock is read before the mutex is taken.  [http::read] is a
    parameter: what it gives is an argument of [ServeConnection]. *)

From Stdlib Require Import Ascii.
From S2P Require Import Prelude Effects Text Json Uint256 RiskEngine ApiStore ApiChain ApiService ApiProperties.
Set Default Goal Selector "!".
#[local] Open Scope Z_scope.

Definition REQUESTS_PER_SECOND : Z := 100.
(** [std::chrono::seconds{1}]: the clock counts nanoseconds. *)
Definition second : Z := 1000000000.

(** ** [RequestRateLimiter] *)

Record RequestRateLimiter := MkRateLimiter { windowStart_ : Z; requestCount_ : Z }.

(** [now] is the reading of the clock. *)
Definition Allow (now : Z) (limiter : RequestRateLimiter) : bool * RequestRateLimiter :=
  let '(MkRateLimiter start count) :=
    if second <=? now - windowStart_ limiter then MkRateLimiter now 0 else limiter in
  let count := u64 (count + 1) in
  (count <=? REQUESTS_PER_SECOND, MkRateLimiter start count).

(** ** [ServeConnection] *)

(** What [http::read] gives: the error [body_limit] (a body of more than 16 KiB), another error,
    or a request with its HTTP version. *)
Inductive ReadOutcome :=
| BodyLimit
| ReadFailed
| Received (request : ApiRequest) (version : Z).

Record HttpResponse := MkHttpResponse { http_status : Z; http_version : Z; http_body : string }.

Definition quote : string := String (ascii_of_nat 34) "".
(** A body [{"error":"..."}] *)
Definition error_body (message : string) : string :=
  "{" +:+ quote +:+ "error" +:+ quote +:+ ":" +:+ quote +:+ message +:+ quote +:+ "}".

Section Server.
Context {W : Type} `{RiskRepository W} `{!ApiStore W} `{!ApiChain W} `{!SystemClock W} `{JsonText}.
Context (boost_what : exn -> string) (chainId : Uint256).

Abbreviation M := (prog (RequestRateLimiter * W)).

Definition limiter_Allow (now : Z) : M bool := fun '(limiter, w) =>
  let '(allowed, limiter) := Allow now limiter in (Ok allowed, (limiter, w)).
Definition service_Handle (request : ApiRequest) : M ApiResponse := fun '(limiter, w) =>
  let '(r, w) := Handle boost_what chainId request w in (r, (limiter, w)).

(** The response that is written, if any; an error of the write is ignored. *)
Definition ServeConnection (outcome : ReadOutcome) (now : Z) : M (option HttpResponse) :=
  match outcome with
  | BodyLimit => mret (Some (MkHttpResponse 413 11 (error_body "request body too large")))
  | ReadFailed => mret None
  | Received request version =>
      allowed ← limiter_Allow now;
      if negb allowed then mret (Some (MkHttpResponse 429 version (error_body "request rate limit exceeded")))
      else
        result ← service_Handle request;
        mret (Some (MkHttpResponse (resp_status result) version (resp_body result)))
  end.
End Server.

(** ** The rate limit *)

(** The readings at which the limiter allows a request. *)
Fixpoint allowed_at (limiter : RequestRateLimiter) (readings : list Z) : list Z :=
  match readings with
  | [] => []
  | now :: readings =>
      let '(allowed, limiter') := Allow now limiter in
      (if allowed then [now] else []) ++ allowed_at limiter' readings
  end.

(** The limiter after these readings. *)
Definition limiter_after (limiter : RequestRateLimiter) (readings : list Z) : RequestRateLimiter :=
  foldl (fun limiter now => (Allow now limiter).2) limiter readings.

(** How many of these times are in [a, b). *)
Definition within (a b : Z) (times : list Z) : nat := length (filter (fun t => a <= t < b) times).

Lemma within_app a b l1 l2 : within a b (l1 ++ l2) = (within a b l1 + within a b l2)%nat.
Proof. unfold within. by rewrite filter_app, length_app. Qed.

Lemma within_1 a b t : within a b [t] = if decide (a <= t < b) then 1%nat else 0%nat.
Proof. unfold within. rewrite filter_cons. by destruct (decide _). Qed.

Lemma within_nil a b : within a b [] = 0%nat.
Proof. done. Qed.

Lemma within_split a b c l : a <= b <= c -> within a c l = (within a b l + within b c l)%nat.
Proof.
  intros Hb. induction l as [|t l IH]; [done|]. change (t :: l) with ([t] ++ l). rewrite !within_app, !within_1, IH.
  repeat destruct (decide _); lia.
Qed.

Lemma within_mono a b a' b' l : a' <= a -> b <= b' -> (within a b l <= within a' b' l)%nat.
Proof.
  intros Ha Hb. induction l as [|t l IH]; [done|]. change (t :: l) with ([t] ++ l). rewrite !within_app, !within_1.
  repeat destruct (decide _); lia.
Qed.

Lemma allowed_at_app limiter l1 l2 :
  allowed_at limiter (l1 ++ l2) = allowed_at limiter l1 ++ allowed_at (limiter_after limiter l1) l2.
Proof.
  revert limiter. induction l1 as [|now l1 IH]; intros limiter; [done|]. cbn [app allowed_at]. unfold limiter_after. cbn [foldl].
  destruct (Allow now limiter) as [allowed limiter']. cbn [snd]. by rewrite IH, app_assoc.
Qed.

(** The limiter after [n] requests, the last at [now], of which those at the times [times] were allowed. *)
Record limiter_inv (n now : Z) (times : list Z) (limiter : RequestRateLimiter) : Prop := {
  li_start : windowStart_ limiter <= now;
  li_window : now < windowStart_ limiter + second;
  li_count : 0 <= requestCount_ limiter <= n;
  li_current : Z.of_nat (within (windowStart_ limiter) (now + 1) times) = Z.min (requestCount_ limiter) REQUESTS_PER_SECOND;
  li_times t : t ∈ times -> t <= now;
  li_before : Z.of_nat (within (windowStart_ limiter - second) (windowStart_ limiter) times) <= REQUESTS_PER_SECOND;
  li_second a : Z.of_nat (within a (a + second) times) <= 2 * REQUESTS_PER_SECOND
}.

Lemma within_up_to a b b' l : (forall t, t ∈ l -> t < b) -> within a b' l = within a (Z.min b b') l.
Proof.
  induction l as [|t l IH]; intros Hl; [done|]. change (t :: l) with ([t] ++ l). rewrite !within_app, !within_1, IH.
  - assert (t < b) by (apply Hl, list_elem_of_here). repeat destruct (decide _); lia.
  - intros x Hx. by apply Hl, list_elem_of_further.
Qed.

(** The limiter just after its construction. *)
Lemma limiter_inv_new start : limiter_inv 0 start [] (MkRateLimiter start 0).
Proof. split; intros; cbn [windowStart_ requestCount_]; rewrite ?within_nil; unfold second, REQUESTS_PER_SECOND; try lia. by apply not_elem_of_nil in H. Qed.

(** A request that opens a new window. *)
Lemma limiter_inv_opened n now times limiter now' :
  limiter_inv n now times limiter -> now <= now' -> second <= now' - windowStart_ limiter ->
  limiter_inv (n + 1) now' (times ++ [now']) (MkRateLimiter now' 1).
Proof.
  intros [Hs Hw Hc Hcur Ht Hb H2] Hn Ho. unfold second, REQUESTS_PER_SECOND in *.
  assert (forall t, t ∈ times -> t < now + 1) as Ht' by (intros t Hin; apply Ht in Hin; lia).
  split; cbn [windowStart_ requestCount_]; rewrite ?within_app, ?within_1;
    unfold second, REQUESTS_PER_SECOND; try lia.
  - rewrite (within_up_to _ _ _ _ Ht'), decide_True by lia.
    assert (within now' (Z.min (now + 1) (now' + 1)) times <= within now' (now + 1) times)%nat by (apply within_mono; lia).
    assert (within now' (now + 1) times = 0)%nat; [|lia]. unfold within. apply length_zero_iff_nil, elem_of_nil_inv.
    intros t [Hin Hx]%list_elem_of_filter. apply Ht in Hx. lia.
  - intros t [Hx|Hx]%elem_of_app; [apply Ht in Hx; lia|]. apply list_elem_of_singleton in Hx. lia.
  - rewrite decide_False by lia. rewrite (within_up_to _ _ _ _ Ht').
    assert (within (now' - 1000000000) (Z.min (now + 1) now') times <= within (windowStart_ limiter) (now + 1) times)%nat
      by (apply within_mono; lia). lia.
  - intros a. specialize (H2 a). rewrite within_app, within_1. case_decide; [|lia].
    rewrite (within_up_to _ _ _ _ Ht').
    assert (within a (Z.min (now + 1) (a + 1000000000)) times <= within (windowStart_ limiter) (now + 1) times)%nat
      by (apply within_mono; lia). lia.
Qed.

(** A request in the current window. *)
Lemma limiter_inv_counted n now times limiter now' :
  limiter_inv n now times limiter -> now <= now' < windowStart_ limiter + second -> 
  limiter_inv (n + 1) now' (times ++ (if requestCount_ limiter + 1 <=? REQUESTS_PER_SECOND then [now'] else []))
    (MkRateLimiter (windowStart_ limiter) (requestCount_ limiter + 1)).
Proof.
  intros [Hs Hw Hc Hcur Ht Hb H2] Hn. unfold second, REQUESTS_PER_SECOND in *.
  assert (forall t, t ∈ times -> t < now + 1) as Ht' by (intros t Hin; apply Ht in Hin; lia).
  remember (if requestCount_ limiter + 1 <=? 100 then [now'] else []) as new eqn:En.
  assert (forall t, t ∈ new -> t = now') as Hin.
  { intros t. rewrite En. destruct (_ <=? 100); [apply list_elem_of_singleton|by intros ?%not_elem_of_nil]. }
  assert (forall a b, within a b new = if decide (requestCount_ limiter + 1 <= 100 /\ a <= now' < b) then 1%nat else 0%nat) as Hnew.
  { intros a b. rewrite En. destruct (Z.leb_spec (requestCount_ limiter + 1) 100); [rewrite within_1|rewrite within_nil];
      repeat destruct (decide _); lia. }
  clear En. split; cbn [windowStart_ requestCount_]; rewrite ?within_app, ?Hnew; unfold second, REQUESTS_PER_SECOND; try lia.
  - rewrite (within_up_to _ _ _ _ Ht'), (Z.min_l (now + 1) (now' + 1)) by lia. clear Hnew. case_decide; lia.
  - intros t [Hx%Ht|Hx%Hin]%elem_of_app; lia.
  - rewrite decide_False by lia. lia.
  - intros a. specialize (H2 a). rewrite within_app, Hnew. clear Hnew. case_decide; [|lia]. rewrite (within_up_to _ _ _ _ Ht').
    assert (within a (Z.min (now + 1) (a + 1000000000)) times
      <= within (windowStart_ limiter - 1000000000) (windowStart_ limiter) times
         + within (windowStart_ limiter) (now + 1) times)%nat; [|lia].
    rewrite <-within_split by lia. apply within_mono; lia.
Qed.

Lemma limiter_inv_Allow n now times limiter now' :
  limiter_inv n now times limiter -> now <= now' -> n + 1 < 2 ^ 64 ->
  let '(allowed, limiter') := Allow now' limiter in
  limiter_inv (n + 1) now' (times ++ if allowed then [now'] else []) limiter'
  /\ (allowed = false -> REQUESTS_PER_SECOND <= Z.of_nat (within (now' - second + 1) (now' + 1) times)).
Proof.
  intros Hi Hn Hr. pose proof Hi as [Hs Hw Hc Hcur Ht Hb H2]. unfold Allow.
  destruct (Z.leb_spec second (now' - windowStart_ limiter)) as [Ho|Ho].
  - change (u64 (0 + 1)) with 1. split; [|done]. by eapply limiter_inv_opened.
  - destruct limiter as [start count]. cbn [windowStart_ requestCount_] in *. unfold u64. rewrite Z.mod_small by lia.
    split; [eapply (limiter_inv_counted n now times (MkRateLimiter start count)); [done|cbn; lia]|].
    intros He%Z.leb_gt. unfold second, REQUESTS_PER_SECOND in *.
    assert (within start (now + 1) times <= within (now' - 1000000000 + 1) (now' + 1) times)%nat by (apply within_mono; lia). lia.
Qed.

(** Readings that never go back. *)
Fixpoint ascending (from : Z) (readings : list Z) : Prop :=
  match readings with
  | [] => True
  | now :: readings => from <= now /\ ascending now readings
  end.

Lemma limiter_inv_after n now times limiter readings :
  limiter_inv n now times limiter -> ascending now readings -> n + Z.of_nat (length readings) < 2 ^ 64 ->
  exists last, limiter_inv (n + Z.of_nat (length readings)) last (times ++ allowed_at limiter readings) (limiter_after limiter readings)
    /\ (forall now', ascending now (readings ++ [now']) -> last <= now').
Proof.
  revert n now times limiter. induction readings as [|now' readings IH]; intros n now times limiter Hi Ha Hr.
  - exists now. cbn [length allowed_at limiter_after foldl]. rewrite app_nil_r, Z.add_0_r. split; [done|]. by intros now' [? _].
  - cbn [length] in Hr. destruct Ha as [Hn Ha]. cbn [length allowed_at]. unfold limiter_after. cbn [foldl].
    pose proof (limiter_inv_Allow n now times limiter now' Hi Hn) as Hstep.
    destruct (Allow now' limiter) as [allowed limiter']. destruct Hstep as [Hi' _]; [lia|].
    destruct (IH (n + 1) now' _ limiter' Hi' Ha) as (last & Hl & Hlast); [lia|]. exists last. split.
    + rewrite <-app_assoc in Hl. by replace (n + Z.of_nat (S (length readings))) with (n + 1 + Z.of_nat (length readings)) by lia.
    + intros x [_ Hx]. by apply Hlast.
Qed.

(** Claim C30: the limiter of the API admits at most 200 requests in any second, whatever the sequence of
    (non-decreasing) readings of the clock is, and it refuses a request only when it has
    admitted at least 100 requests within the second that ends with it.  (The windows are fixed, not
    sliding, so the bound for an arbitrary second is twice the limit of a window.) *)
Theorem rate_limited start readings now :
  ascending start (readings ++ [now]) -> Z.of_nat (length readings) + 1 < 2 ^ 64 ->
  let limiter := MkRateLimiter start 0 in
  (forall a, Z.of_nat (within a (a + second) (allowed_at limiter (readings ++ [now]))) <= 2 * REQUESTS_PER_SECOND)
  /\ ((Allow now (limiter_after limiter readings)).1 = false ->
       REQUESTS_PER_SECOND <= Z.of_nat (within (now - second + 1) (now + 1) (allowed_at limiter readings))).
Proof.
  intros Ha Hr. cbn zeta. split.
  - destruct (limiter_inv_after 0 start [] (MkRateLimiter start 0) (readings ++ [now]) (limiter_inv_new start) Ha)
      as (last & Hi & _); [rewrite length_app; cbn [length]; lia|]. exact (li_second _ _ _ _ Hi).
  - destruct (limiter_inv_after 0 start [] (MkRateLimiter start 0) readings (limiter_inv_new start)) as (last & Hi & Hlast).
    + revert Ha. generalize start. induction readings as [|x l IH]; intros s; [done|]. cbn. intros [? ?]. split; [done|]. apply IH; [|done].
      cbn [length] in Hr. lia.
    + lia.
    + pose proof (limiter_inv_Allow _ _ _ _ now Hi (Hlast now Ha)) as Hstep.
      destruct (Allow now _) as [allowed limiter']. destruct Hstep as [_ Hd]; [lia|]. exact Hd.
Qed.

(** A hundred requests at one time are admitted and the next one is refused. *)
Lemma rate_limited_witness :
  let readings := replicate 100 5 in
  (Allow 5 (limiter_after (MkRateLimiter 0 0) readings)).1 = false
  /\ REQUESTS_PER_SECOND <= Z.of_nat (within (5 - second + 1) (5 + 1) (allowed_at (MkRateLimiter 0 0) readings)).
Proof.
  cbn zeta. assert ((Allow 5 (limiter_after (MkRateLimiter 0 0) (replicate 100 5))).1 = false) as Hd by (vm_compute; reflexivity).
  split; [exact Hd|].
  assert (forall n from, from <= 5 -> ascending from (replicate n 5 ++ [5])) as Ha.
  { intros n. induction n as [|n IH]; intros from Hf; cbn; split; auto. apply IH. lia. }
  exact (proj2 (rate_limited 0 (replicate 100 5) 5 (Ha _ 0 ltac:(lia)) eq_refl) Hd).
Defined.

(** ** A connection *)

Section Connections.
Context {W : Type} `{RiskRepository W} `{!ApiStore W} `{!ApiChain W} `{!SystemClock W} `{LawfulJsonText}.
Context (boost_what : exn -> string) (chainId : Uint256).

(** What a connection gets: nothing if its request could not be read, 413 for a body that is too
    long, 429 beyond the limit, and otherwise the answer of [Handle]; only a request that was
    read counts against the limit. *)
Definition served (outcome : ReadOutcome) (now : Z) (limiter limiter' : RequestRateLimiter) (r : option HttpResponse) : Prop :=
  match outcome with
  | BodyLimit => limiter' = limiter /\ http_status <$> r = Some 413
  | ReadFailed => limiter' = limiter /\ r = None
  | Received request version =>
      limiter' = (Allow now limiter).2
      /\ if (Allow now limiter).1
         then exists response, answered response /\ r = Some (MkHttpResponse (resp_status response) version (resp_body response))
         else r = Some (MkHttpResponse 429 version (error_body "request rate limit exceeded"))
  end.

Lemma connection_served (I : W -> Prop) outcome now limiter w :
  regular_outside boost_what chainId I -> I w ->
  wp (ServeConnection boost_what chainId outcome now)
    (fun r '(limiter', w') => served outcome now limiter limiter' r /\ I w') (fun _ _ => False) (limiter, w).
Proof using H1.
  intros Hr Hw. destruct outcome as [| |request version]; [by apply wp_ret..|]. unfold ServeConnection. apply wp_bind.
  unfold wp at 1, limiter_Allow. unfold served. destruct (Allow now limiter) as [[] limiter']; cbn [fst snd]; [|by apply wp_ret].
  cbn [negb]. apply wp_bind. unfold wp at 1, service_Handle. pose proof (Handle_answers boost_what chainId I Hr request w Hw) as Ha.
  unfold wp in Ha. destruct (Handle boost_what chainId request w) as [[response|e] w']; [|done]. destruct Ha as [Ha Hw'].
  apply wp_ret. split; [|done]. split; [done|]. by exists response.
Qed.
End Connections.
