(* ===== verification/TxManager.v ===== *)
(** * TxManager: submission, replacement and confirmation of transactions
    ([TxTypes.hpp], [TxTypes.cpp], [TxManager.hpp], [TxManager.cpp], the interfaces
    [TransactionStore.hpp] and [TransactionRpc.hpp])

    The manager is modelled against the two interfaces, whose implementations are
    arguments: [store_*] is the transaction store, [rpc_*] the Ethereum node, each a
    function of a state of its own.  Keccak and secp256k1 are parameters.  [TxState] holds
    what a member function can reach: the job passed by reference, the local flag of
    [Submit], the two states and the list of calls made so far, newest first. *)

From S2P Require Import Prelude Effects Text Uint256 Hex Rlp Transaction Abi RpcTypes.
Import Math.
Set Default Goal Selector "!".
#[local] Open Scope Z_scope.
#[local] Open Scope u256_scope.

(** ** [TxTypes] *)

Inductive TxStatus := Pending | Submitted | Included | Finalized | Failed | Replaced | Reorged.
#[global] Instance TxStatus_eq_dec : EqDecision TxStatus.
Proof. solve_decision. Defined.

Definition ToString (status : TxStatus) : string :=
  match status with
  | Pending => "Pending"
  | Submitted => "Submitted"
  | Included => "Included"
  | Finalized => "Finalized"
  | Failed => "Failed"
  | Replaced => "Replaced"
  | Reorged => "Reorged"
  end.

Definition TxStatusFromString (value : string) : result TxStatus :=
  if bool_decide (value = "Pending") then Ok Pending
  else if bool_decide (value = "Submitted") then Ok Submitted
  else if bool_decide (value = "Included") then Ok Included
  else if bool_decide (value = "Finalized") then Ok Finalized
  else if bool_decide (value = "Failed") then Ok Failed
  else if bool_decide (value = "Replaced") then Ok Replaced
  else if bool_decide (value = "Reorged") then Ok Reorged
  else Throw (InvalidArgument "unknown transaction status").

Record TxJob := MkTxJob {
  tj_jobId : string;
  tj_chainId : Uint256;
  tj_wallet : Address;
  tj_to : Address;
  tj_value : Uint256;
  tj_data : Bytes;
  tj_status : TxStatus;
  tj_nonce : option Uint256;
  tj_maxPriorityFeePerGas : option Uint256;
  tj_maxFeePerGas : option Uint256;
  tj_gasLimit : option Uint256;
  tj_rawTransaction : Bytes;
  tj_transactionHash : option Hash256;
  tj_retryCount : Z;
  tj_submittedBlockNumber : option Z;
  tj_includedBlockNumber : option Z;
  tj_includedBlockHash : option Hash256;
  tj_confirmationCount : Z;
  tj_errorMessage : string
}.

Record FeeQuote := MkFeeQuote {
  fq_maxPriorityFeePerGas : Uint256;
  fq_maxFeePerGas : Uint256
}.

(** ** The interfaces *)

Class TransactionStore (S : Type) := {
  store_Insert : TxJob -> S -> result bool * S;
  store_LoadActive : Uint256 -> Address -> S -> result (list TxJob);
  store_LoadHighestNonce : Uint256 -> Address -> S -> result (option Uint256);
  store_Save : TxJob -> S -> result unit * S
}.

Class TransactionRpc (N : Type) := {
  rpc_GetChainId : N -> result Uint256 * N;
  rpc_GetBlockNumber : N -> result Z * N;
  rpc_GetBlock : Z -> N -> result (option BlockHeader) * N;
  rpc_GetPendingNonce : Address -> N -> result Uint256 * N;
  rpc_EstimateGas : TransactionCall -> N -> result Uint256 * N;
  rpc_GetFeeQuote : N -> result FeeQuote * N;
  rpc_SendRawTransaction : Bytes -> N -> result Hash256 * N;
  rpc_GetReceipt : Hash256 -> N -> result (option TransactionReceipt) * N
}.

(** ** Configuration *)

Record ApprovedCall := MkApprovedCall {
  ac_destination : Address;
  ac_selector : FunctionSelector;
  ac_calldataSize : Z
}.

Record TxManagerConfig := MkTxManagerConfig {
  tm_confirmationDepth : Z;
  tm_replacementAfterBlocks : Z;
  tm_maximumRetries : Z;
  tm_approvedCalls : list ApprovedCall
}.

Record TxManagerRunResult := MkTxManagerRunResult {
  rr_active : Z;
  rr_included : Z;
  rr_finalized : Z;
  rr_reorged : Z;
  rr_failed : Z;
  rr_confirmationBlocks : list Z
}.

(** ** Assignments to one member of a job *)
Definition set_status (v : TxStatus) (j : TxJob) : TxJob :=
  MkTxJob (tj_jobId j) (tj_chainId j) (tj_wallet j) (tj_to j) (tj_value j) (tj_data j) v
    (tj_nonce j) (tj_maxPriorityFeePerGas j) (tj_maxFeePerGas j) (tj_gasLimit j)
    (tj_rawTransaction j) (tj_transactionHash j) (tj_retryCount j) (tj_submittedBlockNumber
    j) (tj_includedBlockNumber j) (tj_includedBlockHash j) (tj_confirmationCount j)
    (tj_errorMessage j).
Definition set_nonce (v : option Uint256) (j : TxJob) : TxJob :=
  MkTxJob (tj_jobId j) (tj_chainId j) (tj_wallet j) (tj_to j) (tj_value j) (tj_data j)
    (tj_status j) v (tj_maxPriorityFeePerGas j) (tj_maxFeePerGas j) (tj_gasLimit j)
    (tj_rawTransaction j) (tj_transactionHash j) (tj_retryCount j) (tj_submittedBlockNumber
    j) (tj_includedBlockNumber j) (tj_includedBlockHash j) (tj_confirmationCount j)
    (tj_errorMessage j).
Definition set_maxPriorityFeePerGas (v : option Uint256) (j : TxJob) : TxJob :=
  MkTxJob (tj_jobId j) (tj_chainId j) (tj_wallet j) (tj_to j) (tj_value j) (tj_data j)
    (tj_status j) (tj_nonce j) v (tj_maxFeePerGas j) (tj_gasLimit j) (tj_rawTransaction j)
    (tj_transactionHash j) (tj_retryCount j) (tj_submittedBlockNumber j)
    (tj_includedBlockNumber j) (tj_includedBlockHash j) (tj_confirmationCount j)
    (tj_errorMessage j).
Definition set_maxFeePerGas (v : option Uint256) (j : TxJob) : TxJob :=
  MkTxJob (tj_jobId j) (tj_chainId j) (tj_wallet j) (tj_to j) (tj_value j) (tj_data j)
    (tj_status j) (tj_nonce j) (tj_maxPriorityFeePerGas j) v (tj_gasLimit j)
    (tj_rawTransaction j) (tj_transactionHash j) (tj_retryCount j) (tj_submittedBlockNumber
    j) (tj_includedBlockNumber j) (tj_includedBlockHash j) (tj_confirmationCount j)
    (tj_errorMessage j).
Definition set_gasLimit (v : option Uint256) (j : TxJob) : TxJob :=
  MkTxJob (tj_jobId j) (tj_chainId j) (tj_wallet j) (tj_to j) (tj_value j) (tj_data j)
    (tj_status j) (tj_nonce j) (tj_maxPriorityFeePerGas j) (tj_maxFeePerGas j) v
    (tj_rawTransaction j) (tj_transactionHash j) (tj_retryCount j) (tj_submittedBlockNumber
    j) (tj_includedBlockNumber j) (tj_includedBlockHash j) (tj_confirmationCount j)
    (tj_errorMessage j).
Definition set_rawTransaction (v : Bytes) (j : TxJob) : TxJob :=
  MkTxJob (tj_jobId j) (tj_chainId j) (tj_wallet j) (tj_to j) (tj_value j) (tj_data j)
    (tj_status j) (tj_nonce j) (tj_maxPriorityFeePerGas j) (tj_maxFeePerGas j) (tj_gasLimit
    j) v (tj_transactionHash j) (tj_retryCount j) (tj_submittedBlockNumber j)
    (tj_includedBlockNumber j) (tj_includedBlockHash j) (tj_confirmationCount j)
    (tj_errorMessage j).
Definition set_transactionHash (v : option Hash256) (j : TxJob) : TxJob :=
  MkTxJob (tj_jobId j) (tj_chainId j) (tj_wallet j) (tj_to j) (tj_value j) (tj_data j)
    (tj_status j) (tj_nonce j) (tj_maxPriorityFeePerGas j) (tj_maxFeePerGas j) (tj_gasLimit
    j) (tj_rawTransaction j) v (tj_retryCount j) (tj_submittedBlockNumber j)
    (tj_includedBlockNumber j) (tj_includedBlockHash j) (tj_confirmationCount j)
    (tj_errorMessage j).
Definition set_retryCount (v : Z) (j : TxJob) : TxJob :=
  MkTxJob (tj_jobId j) (tj_chainId j) (tj_wallet j) (tj_to j) (tj_value j) (tj_data j)
    (tj_status j) (tj_nonce j) (tj_maxPriorityFeePerGas j) (tj_maxFeePerGas j) (tj_gasLimit
    j) (tj_rawTransaction j) (tj_transactionHash j) v (tj_submittedBlockNumber j)
    (tj_includedBlockNumber j) (tj_includedBlockHash j) (tj_confirmationCount j)
    (tj_errorMessage j).
Definition set_submittedBlockNumber (v : option Z) (j : TxJob) : TxJob :=
  MkTxJob (tj_jobId j) (tj_chainId j) (tj_wallet j) (tj_to j) (tj_value j) (tj_data j)
    (tj_status j) (tj_nonce j) (tj_maxPriorityFeePerGas j) (tj_maxFeePerGas j) (tj_gasLimit
    j) (tj_rawTransaction j) (tj_transactionHash j) (tj_retryCount j) v
    (tj_includedBlockNumber j) (tj_includedBlockHash j) (tj_confirmationCount j)
    (tj_errorMessage j).
Definition set_includedBlockNumber (v : option Z) (j : TxJob) : TxJob :=
  MkTxJob (tj_jobId j) (tj_chainId j) (tj_wallet j) (tj_to j) (tj_value j) (tj_data j)
    (tj_status j) (tj_nonce j) (tj_maxPriorityFeePerGas j) (tj_maxFeePerGas j) (tj_gasLimit
    j) (tj_rawTransaction j) (tj_transactionHash j) (tj_retryCount j)
    (tj_submittedBlockNumber j) v (tj_includedBlockHash j) (tj_confirmationCount j)
    (tj_errorMessage j).
Definition set_includedBlockHash (v : option Hash256) (j : TxJob) : TxJob :=
  MkTxJob (tj_jobId j) (tj_chainId j) (tj_wallet j) (tj_to j) (tj_value j) (tj_data j)
    (tj_status j) (tj_nonce j) (tj_maxPriorityFeePerGas j) (tj_maxFeePerGas j) (tj_gasLimit
    j) (tj_rawTransaction j) (tj_transactionHash j) (tj_retryCount j)
    (tj_submittedBlockNumber j) (tj_includedBlockNumber j) v (tj_confirmationCount j)
    (tj_errorMessage j).
Definition set_confirmationCount (v : Z) (j : TxJob) : TxJob :=
  MkTxJob (tj_jobId j) (tj_chainId j) (tj_wallet j) (tj_to j) (tj_value j) (tj_data j)
    (tj_status j) (tj_nonce j) (tj_maxPriorityFeePerGas j) (tj_maxFeePerGas j) (tj_gasLimit
    j) (tj_rawTransaction j) (tj_transactionHash j) (tj_retryCount j)
    (tj_submittedBlockNumber j) (tj_includedBlockNumber j) (tj_includedBlockHash j) v
    (tj_errorMessage j).
Definition set_errorMessage (v : string) (j : TxJob) : TxJob :=
  MkTxJob (tj_jobId j) (tj_chainId j) (tj_wallet j) (tj_to j) (tj_value j) (tj_data j)
    (tj_status j) (tj_nonce j) (tj_maxPriorityFeePerGas j) (tj_maxFeePerGas j) (tj_gasLimit
    j) (tj_rawTransaction j) (tj_transactionHash j) (tj_retryCount j)
    (tj_submittedBlockNumber j) (tj_includedBlockNumber j) (tj_includedBlockHash j)
    (tj_confirmationCount j) v.

(** ** The manager *)

(** A call the manager made: a job saved, a raw transaction handed to the node, or a line of
    the audit log. *)
Inductive TxEffect :=
| Saved (job : TxJob)
| Sent (raw : Bytes)
| Audited (action : string) (job : TxJob).

Record TxState (S N : Type) := MkTxState {
  tx_job : TxJob;
  tx_broadcastAttempted : bool;
  tx_store : S;
  tx_net : N;
  tx_trace : list TxEffect
}.
Arguments MkTxState {S N} _ _ _ _ _.
Arguments tx_job {S N} _.
Arguments tx_broadcastAttempted {S N} _.
Arguments tx_store {S N} _.
Arguments tx_net {S N} _.
Arguments tx_trace {S N} _.

Definition BumpFee (value : Uint256) : result Uint256 := MulDivUp value (U 1125) (U 1000).

(** The four tests of the policy for one approved call. *)
Definition matches_call (job : TxJob) (approved : ApprovedCall) : bool :=
  bool_decide (tj_to job = ac_destination approved)
  && (Z.of_nat (length (tj_data job)) =? ac_calldataSize approved)
  && (4 <=? Z.of_nat (length (tj_data job)))
  && bool_decide (take 4 (tj_data job) = array_list (ac_selector approved)).

Section Manager.
Context {S N : Type} `{TransactionStore S} `{TransactionRpc N}.
Context (keccak : Bytes -> Hash256) (sign_recoverable : Hash256 -> option (array 64 * Z)).
Context (signer_address : Address) (config_ : TxManagerConfig) (chainId_ : Uint256).

Abbreviation St := (TxState S N).
Abbreviation M := (prog St).

Definition get_job : M TxJob := fun st => (Ok (tx_job st), st).
Definition update (f : TxJob -> TxJob) : M unit := modify (fun st =>
  MkTxState (f (tx_job st)) (tx_broadcastAttempted st) (tx_store st) (tx_net st) (tx_trace st)).
Definition set_job (j : TxJob) : M unit := update (fun _ => j).
Definition set_attempted (b : bool) : M unit := modify (fun st =>
  MkTxState (tx_job st) b (tx_store st) (tx_net st) (tx_trace st)).
Definition record (e : TxEffect) : M unit := modify (fun st =>
  MkTxState (tx_job st) (tx_broadcastAttempted st) (tx_store st) (tx_net st) (e :: tx_trace st)).

(** [store_.Save(job)]: a failed [UPDATE] is not recorded as saved. *)
Definition Save : M unit := fun st =>
  match store_Save (tx_job st) (tx_store st) with
  | (Ok _, s') => (Ok tt, MkTxState (tx_job st) (tx_broadcastAttempted st) s' (tx_net st)
                            (Saved (tx_job st) :: tx_trace st))
  | (Throw e, s') => (Throw e, MkTxState (tx_job st) (tx_broadcastAttempted st) s' (tx_net st)
                                 (tx_trace st))
  end.
Definition query {A} (f : S -> result A) : M A := fun st => (f (tx_store st), st).
Definition call {A} (f : N -> result A * N) : M A := fun st =>
  let '(r, n') := f (tx_net st) in
  (r, MkTxState (tx_job st) (tx_broadcastAttempted st) (tx_store st) n' (tx_trace st)).
Definition Audit (action : string) : M unit :=
  job ← get_job; record (Audited action job).
(** [*optional] *)
Definition deref {A} (o : option A) : M A := lift (result_of o Undefined).

(** The constructor: the chain id is read first, then the configuration is checked. *)
Definition construct (n : N) : result Uint256 * N :=
  let '(r, n') := rpc_GetChainId n in
  (chainId ← r;
   if tm_confirmationDepth config_ =? 0
   then Throw (InvalidArgument "transaction confirmation depth must be positive")
   else Ok chainId, n').

Definition new_job (jobId : string) (to : Address) (data : Bytes) (value : Uint256) : TxJob :=
  MkTxJob jobId chainId_ signer_address to value data Pending None None None None [] None 0 None
    None None 0 EmptyString.

Definition Queue (jobId : string) (to : Address) (data : Bytes) (value : Uint256) (s : S) :
    result bool * S :=
  store_Insert (new_job jobId to data value) s.

Definition AllocateNonce : M Uint256 :=
  rpcNonce ← call (rpc_GetPendingNonce signer_address);
  storedNonce ← query (store_LoadHighestNonce chainId_ signer_address);
  match storedNonce with
  | None => mret rpcNonce
  | Some storedNonce =>
      nextStored ← lift (storedNonce +! U 1);
      mret (if u_gtb nextStored rpcNonce then nextStored else rpcNonce)
  end.

Definition IsApproved (job : TxJob) : bool :=
  if u_neb (tj_value job) (U 0) then false
  else existsb (matches_call job) (tm_approvedCalls config_).

(** The part of the [try] block that fixes nonce, gas limit and fees. *)
Definition submit_prepare (retry : bool) : M unit :=
  job ← get_job;
  match tj_nonce job with
  | Some _ => mret tt
  | None => nonce ← AllocateNonce; update (set_nonce (Some nonce))
  end;;
  job ← get_job;
  match tj_gasLimit job with
  | Some _ => mret tt
  | None =>
      gas ← call (rpc_EstimateGas
                   (MkTransactionCall (Some signer_address) (tj_to job) (tj_data job) (tj_value job)));
      update (set_gasLimit (Some gas))
  end;;
  job ← get_job;
  match retry, tj_maxPriorityFeePerGas job, tj_maxFeePerGas job with
  | true, Some priority, Some fee =>
      update (set_status Replaced);; Save;; Audit "replaced";;
      priority ← lift (BumpFee priority);
      update (set_maxPriorityFeePerGas (Some priority));;
      fee ← lift (BumpFee fee);
      update (set_maxFeePerGas (Some fee))
  | _, _, _ =>
      fees ← call rpc_GetFeeQuote;
      update (set_maxPriorityFeePerGas (Some (fq_maxPriorityFeePerGas fees)));;
      update (set_maxFeePerGas (Some (fq_maxFeePerGas fees)))
  end.

(** The part that signs, saves and broadcasts. *)
Definition submit_broadcast : M unit :=
  job ← get_job;
  nonce ← deref (tj_nonce job);
  priority ← deref (tj_maxPriorityFeePerGas job);
  fee ← deref (tj_maxFeePerGas job);
  gas ← deref (tj_gasLimit job);
  raw ← lift (SignTransaction keccak sign_recoverable (MkEip1559Transaction chainId_ nonce priority fee gas
                (Some (tj_to job)) (tj_value job) (tj_data job)));
  update (set_rawTransaction raw);;
  update (set_status Submitted);;
  head ← call rpc_GetBlockNumber;
  update (set_submittedBlockNumber (Some head));;
  update (set_transactionHash (Some (TransactionHash keccak raw)));;
  update (set_includedBlockNumber None);;
  update (set_includedBlockHash None);;
  update (set_confirmationCount 0);;
  update (set_errorMessage EmptyString);;
  Save;; Audit "approved";;
  set_attempted true;;
  record (Sent raw);;
  submittedHash ← call (rpc_SendRawTransaction raw);
  update (set_transactionHash (Some submittedHash));;
  Save;; Audit "broadcast".

(** The [catch] block. *)
Definition submit_failed (kind : RpcErrorKind) (what : string) : M unit :=
  update (set_errorMessage what);;
  st ← get;
  if tx_broadcastAttempted st && (bool_decide (kind = Transport) || bool_decide (kind = Http)) then
    update (set_status Submitted);; Save;; Audit "broadcast_uncertain"
  else
    update (set_status (if tm_maximumRetries config_ <=? tj_retryCount (tx_job st)
                        then Failed else Pending));;
    Save;;
    job ← get_job;
    Audit (if bool_decide (tj_status job = Failed) then "failed" else "retry_pending").

Definition Submit (retry : bool) : M unit :=
  job ← get_job;
  if negb (IsApproved job) then
    update (set_status Failed);;
    update (set_errorMessage "transaction rejected by approval policy");;
    Save;; Audit "rejected"
  else
    set_attempted false;;
    catch_rpc
      (if retry && (tm_maximumRetries config_ <=? tj_retryCount job) then
         update (set_status Failed);;
         update (set_errorMessage "transaction retry limit reached");;
         Save;; Audit "failed"
       else
         when retry (update (set_retryCount (u32 (tj_retryCount job + 1))));;
         submit_prepare retry;;
         submit_broadcast)
      submit_failed.

Definition poll_submitted : M unit :=
  job ← get_job;
  hash ← deref (tj_transactionHash job);
  receipt ← call (rpc_GetReceipt hash);
  match receipt with
  | Some receipt =>
      number ← lift (ToUint64 (rc_blockNumber receipt));
      update (set_includedBlockNumber (Some number));;
      update (set_includedBlockHash (Some (rc_blockHash receipt)));;
      update (set_status (if rc_succeeded receipt then Included else Failed));;
      when (negb (rc_succeeded receipt)) (update (set_errorMessage "transaction execution reverted"));;
      Save;;
      Audit (if rc_succeeded receipt then "included" else "execution_failed")
  | None =>
      head ← call rpc_GetBlockNumber;
      job ← get_job;
      match tj_submittedBlockNumber job with
      | Some submitted =>
          if u64 (submitted + tm_replacementAfterBlocks config_) <=? head then
            if tm_maximumRetries config_ <=? tj_retryCount job then
              update (set_status Failed);;
              update (set_errorMessage "transaction was not included before the replacement limit");;
              Save;; Audit "failed"
            else Submit true
          else mret tt
      | None => mret tt
      end
  end.

Definition poll_included : M unit :=
  job ← get_job;
  number ← deref (tj_includedBlockNumber job);
  block ← call (rpc_GetBlock number);
  canonical ← (match block with
               | None => mret false
               | Some block => h ← deref (tj_includedBlockHash job); mret (bool_decide (bh_hash block = h))
               end);
  if negb canonical then
    update (set_status Reorged);;
    update (set_errorMessage "included block is no longer canonical");;
    Save;; Audit "reorged"
  else
    head ← call rpc_GetBlockNumber;
    update (set_confirmationCount (if number <=? head then u64 (head - number + 1) else 0));;
    job ← get_job;
    when (tm_confirmationDepth config_ <=? tj_confirmationCount job) (update (set_status Finalized));;
    Save;;
    job ← get_job;
    when (bool_decide (tj_status job = Finalized)) (Audit "finalized").

Definition Poll : M unit :=
  job ← get_job;
  match tj_status job with
  | Submitted => poll_submitted
  | Included => poll_included
  | _ => mret tt
  end.

(** The counters of one iteration of [RunOnce]. *)
Definition count_job (previousStatus : TxStatus) (job : TxJob) (result : TxManagerRunResult) :
    TxManagerRunResult :=
  let status := tj_status job in
  let changed := negb (bool_decide (previousStatus = status)) in
  let becomes st := changed && bool_decide (status = st) in
  let latency := match tj_submittedBlockNumber job, tj_includedBlockNumber job with
                 | Some submitted, Some included => [u64 (included - submitted + 1)]
                 | _, _ => []
                 end in
  MkTxManagerRunResult
    (rr_active result + Z.b2z (bool_decide (status = Pending) || bool_decide (status = Submitted)))
    (rr_included result + Z.b2z (becomes Included))
    (rr_finalized result + Z.b2z (becomes Finalized))
    (rr_reorged result + Z.b2z (becomes Reorged))
    (rr_failed result + Z.b2z (becomes Failed))
    (rr_confirmationBlocks result ++ if becomes Finalized then latency else []).

Definition run_job (job : TxJob) : M unit :=
  set_job job;;
  match tj_status job with
  | Pending => Submit (negb (bool_decide (tj_errorMessage job = EmptyString)))
  | _ => Poll
  end.

Fixpoint run_jobs (jobs : list TxJob) (result : TxManagerRunResult) : M TxManagerRunResult :=
  match jobs with
  | [] => mret result
  | job :: jobs =>
      run_job job;;
      after ← get_job;
      run_jobs jobs (count_job (tj_status job) after result)
  end.

Definition RunOnce : M TxManagerRunResult :=
  jobs ← query (store_LoadActive chainId_ signer_address);
  run_jobs jobs (MkTxManagerRunResult 0 0 0 0 0 []).
End Manager.

(** ** The contract of the manager

    What the manager does to one job, as an automaton over the calls it makes: which saves
    may follow which, and which transactions may be broadcast. *)

(** The statuses a saved job may move between. *)
Inductive tx_step : TxStatus -> TxStatus -> Prop :=
| step_submit a : a = Pending \/ a = Replaced -> tx_step a Submitted
| step_rejected a : a = Pending \/ a = Submitted \/ a = Replaced -> tx_step a Failed
| step_retry a : a = Pending \/ a = Submitted \/ a = Replaced -> tx_step a Pending
| step_replace a : a = Pending \/ a = Submitted -> tx_step a Replaced
| step_broadcast : tx_step Submitted Submitted
| step_include : tx_step Submitted Included
| step_confirm : tx_step Included Included
| step_finalize : tx_step Included Finalized
| step_reorg : tx_step Included Reorged.

(** What a job carries when it is loaded in a status. *)
Definition job_ok (j : TxJob) : Prop :=
  (tj_status j = Submitted -> is_Some (tj_transactionHash j))
  /\ (tj_status j = Included -> is_Some (tj_includedBlockNumber j) /\ is_Some (tj_includedBlockHash j)).

Section Contract.
Context (keccak : Bytes -> Hash256) (sign_recoverable : Hash256 -> option (array 64 * Z)).
Context (config_ : TxManagerConfig) (chainId_ : Uint256).
(** What the node must have answered before a job is saved with a new status. *)
Context (observed : TxJob -> TxJob -> Prop).

(** A job may evolve in memory: the call it was queued with, and a nonce or gas limit once
    set, never change; retries only grow, up to the limit. *)
Record evolves (j j' : TxJob) : Prop := {
  ev_jobId : tj_jobId j' = tj_jobId j;
  ev_chainId : tj_chainId j' = tj_chainId j;
  ev_wallet : tj_wallet j' = tj_wallet j;
  ev_to : tj_to j' = tj_to j;
  ev_value : tj_value j' = tj_value j;
  ev_data : tj_data j' = tj_data j;
  ev_nonce : is_Some (tj_nonce j) -> tj_nonce j' = tj_nonce j;
  ev_gasLimit : is_Some (tj_gasLimit j) -> tj_gasLimit j' = tj_gasLimit j;
  ev_retries : tj_retryCount j <= tj_retryCount j'
               <= Z.max (tj_retryCount j) (tm_maximumRetries config_)
}.

(** The fees of a replacement: both raised by an eighth, rounded up. *)
Definition fees_bumped (j j' : TxJob) : Prop :=
  exists p f p' f', tj_maxPriorityFeePerGas j = Some p /\ tj_maxFeePerGas j = Some f
  /\ tj_maxPriorityFeePerGas j' = Some p' /\ tj_maxFeePerGas j' = Some f'
  /\ BumpFee p = Ok p' /\ BumpFee f = Ok f'.

(** The save before a replacement: the job has its nonce, and still its fees. *)
Definition replacement_starts (j j' : TxJob) : Prop :=
  is_Some (tj_nonce j') /\ tj_maxPriorityFeePerGas j' = tj_maxPriorityFeePerGas j
  /\ tj_maxFeePerGas j' = tj_maxFeePerGas j.

Record save_step (j j' : TxJob) : Prop := {
  ss_evolves : evolves j j';
  ss_status : tx_step (tj_status j) (tj_status j');
  ss_fees : tj_status j = Replaced -> tj_status j' = Submitted -> fees_bumped j j';
  ss_final : tj_status j' = Finalized -> tm_confirmationDepth config_ <= tj_confirmationCount j';
  ss_ok : job_ok j';
  ss_observed : observed j j'
}.

(** The saved job from which a raw transaction is signed, after the approval policy. *)
Record authorised (j : TxJob) (raw : Bytes) : Prop := {
  au_approved : IsApproved config_ j = true;
  au_status : tj_status j = Submitted;
  au_raw : tj_rawTransaction j = raw;
  au_hash : tj_transactionHash j = Some (TransactionHash keccak raw);
  au_signed : exists nonce priority fee gas,
    tj_nonce j = Some nonce /\ tj_maxPriorityFeePerGas j = Some priority
    /\ tj_maxFeePerGas j = Some fee /\ tj_gasLimit j = Some gas
    /\ SignTransaction keccak sign_recoverable
         (MkEip1559Transaction chainId_ nonce priority fee gas (Some (tj_to j)) (tj_value j) (tj_data j))
       = Ok raw
}.

(** [job_run j0 tr j]: from the stored job [j0], the calls [tr] (newest first) are allowed
    and leave [j] stored. *)
Inductive job_run (j0 : TxJob) : list TxEffect -> TxJob -> Prop :=
| run_start : job_run j0 [] j0
| run_save tr j j' : job_run j0 tr j -> save_step j j' ->
    (tj_status j' = Replaced -> tr = [] /\ replacement_starts j j') -> job_run j0 (Saved j' :: tr) j'
| run_audit tr j action j' : job_run j0 tr j -> job_run j0 (Audited action j' :: tr) j
| run_send tr j raw :
    job_run j0 (Audited "approved" j :: Saved j :: tr) j -> authorised j raw ->
    job_run j0 (Sent raw :: Audited "approved" j :: Saved j :: tr) j.

(** One pass over the loaded jobs, in order. *)
Inductive pass : list TxJob -> list TxEffect -> Prop :=
| pass_nil : pass [] []
| pass_cons jobs tr j new jl : pass jobs tr -> job_run j new jl -> pass (jobs ++ [j]) (new ++ tr).
End Contract.

(** ** Lemmas *)

(** A computation that never ends in undefined behaviour. *)
Definition defined {A} (r : result A) : Prop := r <> Throw Undefined.

Lemma BumpFee_defined x : defined (BumpFee x).
Proof. unfold defined, BumpFee. rewrite MathLemmas.MulDivUp_eq. by repeat case_match. Qed.

Lemma add_defined x y : defined (x +! y).
Proof. unfold defined, add, storage, result_of. by destruct (u256 _). Qed.

Lemma ToUint64_defined x : defined (ToUint64 x).
Proof. unfold defined, ToUint64. by case_match. Qed.

Lemma SignTransaction_defined keccak sr t : defined (SignTransaction keccak sr t).
Proof.
  unfold defined, SignTransaction, Sign, Uint256FromSignaturePart.
  destruct (sr _) as [[compact v]|]; [|done].
  rewrite !FromBytes_value, !bind_Ok. done.
Qed.

Create HintDb tx.
#[export] Hint Resolve BumpFee_defined add_defined ToUint64_defined SignTransaction_defined : tx.

Ltac job_fields :=
  cbn [tj_jobId tj_chainId tj_wallet tj_to tj_value tj_data tj_status tj_nonce
    tj_maxPriorityFeePerGas tj_maxFeePerGas tj_gasLimit tj_rawTransaction tj_transactionHash
    tj_retryCount tj_submittedBlockNumber tj_includedBlockNumber tj_includedBlockHash
    tj_confirmationCount tj_errorMessage set_status set_nonce set_maxPriorityFeePerGas
    set_maxFeePerGas set_gasLimit set_rawTransaction set_transactionHash set_retryCount
    set_submittedBlockNumber set_includedBlockNumber set_includedBlockHash set_confirmationCount
    set_errorMessage tx_job tx_trace tx_broadcastAttempted tx_store tx_net] in *.

(** The members that [evolves] does not restrict. *)
Definition same_call (j j' : TxJob) : Prop :=
  tj_jobId j' = tj_jobId j /\ tj_chainId j' = tj_chainId j /\ tj_wallet j' = tj_wallet j
  /\ tj_to j' = tj_to j /\ tj_value j' = tj_value j /\ tj_data j' = tj_data j
  /\ tj_nonce j' = tj_nonce j /\ tj_gasLimit j' = tj_gasLimit j /\ tj_retryCount j' = tj_retryCount j.

Lemma IsApproved_ext config j j' :
  tj_to j' = tj_to j -> tj_value j' = tj_value j -> tj_data j' = tj_data j ->
  IsApproved config j' = IsApproved config j.
Proof.
  intros Ht Hv Hd. unfold IsApproved. rewrite Hv. destruct (u_neb _ _); [done|].
  induction (tm_approvedCalls config) as [|c l IH]; [done|]. simpl. rewrite IH. f_equal.
  unfold matches_call. by rewrite Ht, Hd.
Qed.

Section Evolves.
Context (config_ : TxManagerConfig).
Implicit Types j : TxJob.

Lemma evolves_refl j : evolves config_ j j.
Proof using. constructor; auto; lia. Qed.

Lemma evolves_same j j1 j2 : evolves config_ j j1 -> same_call j1 j2 -> evolves config_ j j2.
Proof using.
  intros [] (? & ? & ? & ? & ? & ? & Hn & Hg & Hr).
  constructor; try congruence; rewrite ?Hn, ?Hg, ?Hr; auto.
Qed.

Lemma evolves_nonce j j1 n :
  evolves config_ j j1 -> tj_nonce j1 = None -> evolves config_ j (set_nonce (Some n) j1).
Proof using.
  intros [] Hn. constructor; job_fields; auto. intros Hs. rewrite <-ev_nonce0 in Hs by done.
  rewrite Hn in Hs. by destruct Hs.
Qed.

Lemma evolves_gas j j1 g :
  evolves config_ j j1 -> tj_gasLimit j1 = None -> evolves config_ j (set_gasLimit (Some g) j1).
Proof using.
  intros [] Hn. constructor; job_fields; auto. intros Hs. rewrite <-ev_gasLimit0 in Hs by done.
  rewrite Hn in Hs. by destruct Hs.
Qed.

Lemma evolves_retry j :
  0 <= tj_retryCount j < tm_maximumRetries config_ -> tm_maximumRetries config_ < 2 ^ 32 ->
  evolves config_ j (set_retryCount (u32 (tj_retryCount j + 1)) j).
Proof using.
  intros Hr Hm. constructor; job_fields; auto. unfold u32. rewrite Z.mod_small by lia. lia.
Qed.

Lemma evolves_trans j1 j2 j3 :
  evolves config_ j1 j2 -> evolves config_ j2 j3 -> evolves config_ j1 j3.
Proof using.
  intros [] []. constructor; try congruence; try lia.
  - intros Hs. rewrite ev_nonce1; [auto|]. by rewrite ev_nonce0.
  - intros Hs. rewrite ev_gasLimit1; [auto|]. by rewrite ev_gasLimit0.
Qed.
End Evolves.

(** ** Allocation of nonces *)
Section Nonces.
Context {S N : Type} `{TransactionStore S} `{TransactionRpc N}.
Context (signer_address : Address) (chainId_ : Uint256).

Lemma AllocateNonce_exact (st : TxState S N) nonce st' :
  AllocateNonce signer_address chainId_ st = (Ok nonce, st') ->
  exists rpcNonce stored,
    fst (rpc_GetPendingNonce signer_address (tx_net st)) = Ok rpcNonce
    /\ store_LoadHighestNonce chainId_ signer_address (tx_store st) = Ok stored
    /\ value_ nonce = Z.max (value_ rpcNonce) (from_option (fun s => value_ s + 1) 0 stored)
    /\ tx_store st' = tx_store st.
Proof using.
  unfold AllocateNonce, call, query, lift, mbind, prog_bind. simpl.
  destruct (rpc_GetPendingNonce signer_address (tx_net st)) as [[rpcNonce|e] n']; [|done]. simpl.
  destruct (store_LoadHighestNonce chainId_ signer_address (tx_store st)) as [stored|e] eqn:Es; [|done].
  intros HR. exists rpcNonce, stored. pose proof (uval_range rpcNonce).
  destruct stored as [stored|]; simpl.
  - destruct (add stored (U 1)) as [next|e] eqn:Ea; [|done]. apply add_Ok in Ea.
    change (value_ (U 1)) with 1 in Ea. injection HR as <- <-. repeat split; auto.
    unfold u_gtb. destruct (Z.ltb_spec (value_ rpcNonce) (value_ next)); lia.
  - injection HR as <- <-. repeat split; auto. lia.
Qed.
End Nonces.
