(* ===== verification/TxRefinement.v ===== *)
(** * TxRefinement: the manager keeps to its contract

    The proof that every execution of [run_job] and [RunOnce], whatever the store and the
    node answer and wherever they throw, makes only the calls the automaton [job_run] of
    [TxManager.v] allows, and the consequences of that contract. *)

From S2P Require Import Prelude Effects Text Uint256 Hex Rlp Transaction Abi RpcTypes TxManager.
Set Default Goal Selector "!".
#[local] Open Scope Z_scope.

(** ** Refinement: every execution keeps to the contract *)
Section Refinement.
Context {S N : Type} `{TransactionStore S} `{TransactionRpc N}.
Context (keccak : Bytes -> Hash256) (sign_recoverable : Hash256 -> option (array 64 * Z)).
Context (signer_address : Address) (config_ : TxManagerConfig) (chainId_ : Uint256).
Context (retries_fit : tm_maximumRetries config_ < 2 ^ 32).

(** What the node answered before a job is saved as included, confirmed or reorged: a receipt of
    its transaction; the block of that receipt under its number, and a head as far beyond it as
    the job counts; another block under that number, or none. *)
Definition included_by_receipt (j j' : TxJob) : Prop := exists hash receipt number n n',
  tj_transactionHash j = Some hash /\ rpc_GetReceipt hash n = (Ok (Some receipt), n')
  /\ rc_succeeded receipt = true /\ ToUint64 (rc_blockNumber receipt) = Ok number
  /\ tj_includedBlockNumber j' = Some number /\ tj_includedBlockHash j' = Some (rc_blockHash receipt).

Definition seen_canonical (j j' : TxJob) : Prop := exists number block head n0 n1 n2,
  tj_includedBlockNumber j = Some number /\ tj_includedBlockHash j = Some (bh_hash block)
  /\ rpc_GetBlock number n0 = (Ok (Some block), n1) /\ rpc_GetBlockNumber n1 = (Ok head, n2)
  /\ tj_confirmationCount j' = if number <=? head then u64 (head - number + 1) else 0.

Definition seen_replaced (j : TxJob) : Prop := exists number hash answer n0 n1,
  tj_includedBlockNumber j = Some number /\ tj_includedBlockHash j = Some hash
  /\ rpc_GetBlock number n0 = (Ok answer, n1) /\ (bh_hash <$> answer) <> Some hash.

Definition observed (j j' : TxJob) : Prop :=
  match tj_status j' with
  | Included => match tj_status j with Submitted => included_by_receipt j j' | _ => seen_canonical j j' end
  | Finalized => seen_canonical j j'
  | Reorged => seen_replaced j
  | _ => True
  end.

Abbreviation St := (TxState S N).
Abbreviation job_run := (job_run keccak sign_recoverable config_ chainId_ observed).
Abbreviation evolves := (evolves config_).

(** Some call into the store or the node ended in undefined behaviour of its own. *)
Inductive env_undefined : Prop :=
| ud_save j s : fst (store_Save j s) = Throw Undefined -> env_undefined
| ud_highest s : store_LoadHighestNonce chainId_ signer_address s = Throw Undefined -> env_undefined
| ud_active s : store_LoadActive chainId_ signer_address s = Throw Undefined -> env_undefined
| ud_nonce n : fst (rpc_GetPendingNonce signer_address n) = Throw Undefined -> env_undefined
| ud_gas c n : fst (rpc_EstimateGas c n) = Throw Undefined -> env_undefined
| ud_fee n : fst (rpc_GetFeeQuote n) = Throw Undefined -> env_undefined
| ud_head n : fst (rpc_GetBlockNumber n) = Throw Undefined -> env_undefined
| ud_send raw n : fst (rpc_SendRawTransaction raw n) = Throw Undefined -> env_undefined
| ud_receipt h n : fst (rpc_GetReceipt h n) = Throw Undefined -> env_undefined
| ud_block b n : fst (rpc_GetBlock b n) = Throw Undefined -> env_undefined.

(** *** Rules for the primitives *)
Lemma wp_update f (Q : unit -> St -> Prop) E j b s n tr :
  Q tt (MkTxState (f j) b s n tr) -> wp (update f) Q E (MkTxState j b s n tr).
Proof using. done. Qed.

Lemma wp_get_job (Q : TxJob -> St -> Prop) E st : Q (tx_job st) st -> wp get_job Q E st.
Proof using. done. Qed.

Lemma wp_call {A} (f : N -> result A * N) (Q : A -> St -> Prop) (E : exn -> St -> Prop) j b s n tr :
  (forall a n', f n = (Ok a, n') -> Q a (MkTxState j b s n' tr)) ->
  (forall e n', fst (f n) = Throw e -> E e (MkTxState j b s n' tr)) ->
  wp (call f) Q E (MkTxState j b s n tr).
Proof using. intros HQ HE. unfold wp, call. simpl. destruct (f n) as [[a|e] n']; auto. Qed.

Lemma wp_query {A} (f : S -> result A) (Q : A -> St -> Prop) (E : exn -> St -> Prop) st :
  (forall a, f (tx_store st) = Ok a -> Q a st) -> (forall e, f (tx_store st) = Throw e -> E e st) ->
  wp (query f) Q E st.
Proof using. intros HQ HE. unfold wp, query. destruct (f _); auto. Qed.

Lemma wp_Save (Q : unit -> St -> Prop) (E : exn -> St -> Prop) j b s n tr :
  (forall s', Q tt (MkTxState j b s' n (Saved j :: tr))) ->
  (forall e s', (e = Undefined -> env_undefined) -> E e (MkTxState j b s' n tr)) ->
  wp Save Q E (MkTxState j b s n tr).
Proof using.
  intros HQ HE. unfold wp, Save. simpl. destruct (store_Save j s) as [[a|e] s'] eqn:E1; auto.
  apply HE. intros ->. apply (ud_save j s). by rewrite E1.
Qed.

Lemma wp_Audit action (Q : unit -> St -> Prop) E j b s n tr :
  Q tt (MkTxState j b s n (Audited action j :: tr)) -> wp (Audit action) Q E (MkTxState j b s n tr).
Proof using. done. Qed.

Lemma wp_deref {A} (o : option A) (Q : A -> St -> Prop) E st :
  is_Some o -> (forall a, o = Some a -> Q a st) -> wp (deref o) Q E st.
Proof using. intros [a ->] HQ. by apply HQ. Qed.

(** *** What holds when a block ends *)
Section Job.
Context (j0 : TxJob) (tr0 : list TxEffect).

(** The calls made so far are allowed. *)
Definition run_ok (st : St) : Prop := exists tr jl, tx_trace st = tr ++ tr0 /\ job_run j0 tr jl.

(** ... and the job in memory evolved from the stored one, whose status is that of a
submission in progress. *)
Definition in_progress (st : St) : Prop := exists tr jl,
tx_trace st = tr ++ tr0 /\ job_run j0 tr jl /\ evolves jl (tx_job st)
/\ (tj_status jl = Pending \/ tj_status jl = Submitted \/ tj_status jl = Replaced)
/\ (tx_broadcastAttempted st = true ->
  tj_status jl = Submitted /\ is_Some (tj_transactionHash (tx_job st))).

Definition prepared (st : St) : Prop := exists tr jl,
tx_trace st = tr ++ tr0 /\ job_run j0 tr jl /\ evolves jl (tx_job st)
/\ (tj_status jl = Pending \/ tj_status jl = Submitted \/ tj_status jl = Replaced)
/\ (tj_status jl = Replaced -> fees_bumped jl (tx_job st))
/\ tx_broadcastAttempted st = false /\ IsApproved config_ (tx_job st) = true
/\ is_Some (tj_nonce (tx_job st)) /\ is_Some (tj_maxPriorityFeePerGas (tx_job st))
/\ is_Some (tj_maxFeePerGas (tx_job st)) /\ is_Some (tj_gasLimit (tx_job st)).

(** What the manager relies on for a job it loads. *)
Definition loadable (j : TxJob) : Prop :=
(tj_status j = Pending \/ tj_status j = Submitted \/ tj_status j = Included)
/\ job_ok j /\ 0 <= tj_retryCount j.

Definition run_failed (e : exn) (st : St) : Prop := run_ok st /\ (e = Undefined -> env_undefined).
Definition submit_threw (e : exn) (st : St) : Prop := in_progress st /\ (e = Undefined -> env_undefined).

Lemma in_progress_ok st : in_progress st -> run_ok st.
Proof using. intros (tr & jl & ? & ? & _). by exists tr, jl. Qed.

Ltac tx_step :=
lazymatch goal with
| |- wp get_job _ _ _ => apply wp_get_job
| |- wp (update _) _ _ _ => apply wp_update
| |- wp (Audit _) _ _ _ => apply wp_Audit
| |- wp (call _) _ _ _ => apply wp_call; [intros ? ? _ | intros ? ? ?]
| |- wp (query _) _ _ _ => apply wp_query; [intros ? ? | intros ? ?]
| |- wp Save _ _ _ => apply wp_Save; [intros ? | intros ? ? ?]
| _ => wp_step
end.
Ltac tx_run := repeat (first [progress cbv beta | tx_step]).

(** A failed call, with the stored job and the job in memory as they were. *)
Lemma threw_in_progress e st tr jl :
tx_trace st = tr ++ tr0 -> job_run j0 tr jl -> evolves jl (tx_job st) ->
(tj_status jl = Pending \/ tj_status jl = Submitted \/ tj_status jl = Replaced) ->
tx_broadcastAttempted st = false -> (e = Undefined -> env_undefined) -> submit_threw e st.
Proof using.
intros Ht HR HE HS Hb HU. split; [|done]. exists tr, jl. repeat (split; [done|]). rewrite Hb. discriminate.
Qed.

Lemma lift_defined {A} (r : result A) e : defined r -> r = Throw e -> e = Undefined -> env_undefined.
Proof using. intros Hd -> ->. by destruct Hd. Qed.

Hint Constructors env_undefined : tx.
Hint Resolve evolves_refl evolves_nonce evolves_gas lift_defined threw_in_progress : tx.
Hint Extern 1 (_ = Throw Undefined) => congruence : tx.
Hint Extern 2 (same_call _ _) => (repeat split; reflexivity) : tx.

Lemma AllocateNonce_wp (Q : Uint256 -> St -> Prop) (E : exn -> St -> Prop) j b s n tr :
(forall nonce n', Q nonce (MkTxState j b s n' tr)) ->
(forall e n', (e = Undefined -> env_undefined) -> E e (MkTxState j b s n' tr)) ->
wp (AllocateNonce signer_address chainId_) Q E (MkTxState j b s n tr).
Proof using.
intros HQ HE. unfold AllocateNonce. tx_run; auto; apply HE; intros ->; eauto with tx.
Qed.

Section Prepare.
Context (retry : bool) (HS : tj_status j0 = Pending \/ tj_status j0 = Submitted).

(** The job in memory, with the fees it was loaded with. *)
Definition same_fees (j : TxJob) : Prop :=
  tj_maxPriorityFeePerGas j = tj_maxPriorityFeePerGas j0 /\ tj_maxFeePerGas j = tj_maxFeePerGas j0.

(** Between the blocks of [submit_prepare]: nothing saved yet. *)
Definition stage (P : TxJob -> Prop) (st : St) : Prop := exists j s n,
  st = MkTxState j false s n tr0 /\ evolves j0 j /\ same_fees j /\ IsApproved config_ j = true /\ P j.

Lemma stage_threw e j s n :
  evolves j0 j -> (e = Undefined -> env_undefined) ->
  submit_threw e (MkTxState j false s n tr0).
Proof using HS. intros HE HU. apply (threw_in_progress e _ [] j0); auto; [constructor|tauto]. Qed.
Hint Resolve stage_threw : tx.

Lemma prepare_nonce j s n :
  evolves j0 j -> same_fees j -> IsApproved config_ j = true ->
  wp (match tj_nonce j with
    | Some _ => mret tt
    | None => nonce ← AllocateNonce signer_address chainId_; update (set_nonce (Some nonce))
    end) (fun _ => stage (fun j => is_Some (tj_nonce j))) submit_threw
   (MkTxState j false s n tr0).
Proof using HS.
  intros HE HF HA. destruct (tj_nonce j) eqn:Hn; tx_run; [exists j, s, n; eauto 10|].
  apply AllocateNonce_wp; [intros nonce n'|intros e n' HU; by apply stage_threw]. tx_run.
  eexists _, _, _. split; [reflexivity|]. split; [eauto with tx|]. split; [exact HF|].
  rewrite (IsApproved_ext _ j) by done. job_fields. eauto.
Qed.

Lemma prepare_gas j s n :
  evolves j0 j -> same_fees j -> IsApproved config_ j = true -> is_Some (tj_nonce j) ->
  wp (match tj_gasLimit j with
    | Some _ => mret tt
    | None =>
        gas ← call (rpc_EstimateGas
          (MkTransactionCall (Some signer_address) (tj_to j) (tj_data j) (tj_value j)));
        update (set_gasLimit (Some gas))
    end) (fun _ => stage (fun j => is_Some (tj_nonce j) /\ is_Some (tj_gasLimit j))) submit_threw
   (MkTxState j false s n tr0).
Proof using HS.
  intros HE HF HA HN. destruct (tj_gasLimit j) eqn:Hg; tx_run.
  - exists j, s, n. rewrite Hg. eauto 10.
  - eexists _, _, _. split; [reflexivity|]. split; [eauto with tx|]. split; [exact HF|].
  rewrite (IsApproved_ext _ j) by done. job_fields. eauto.
  - apply stage_threw; [done|]. intros ->. eauto with tx.
Qed.

(** The two ways of setting the fees. *)
Lemma prepare_quote j s n :
  evolves j0 j -> same_fees j -> IsApproved config_ j = true -> is_Some (tj_nonce j) -> is_Some (tj_gasLimit j) ->
  wp (fees ← call rpc_GetFeeQuote;
    update (set_maxPriorityFeePerGas (Some (fq_maxPriorityFeePerGas fees)));;
    update (set_maxFeePerGas (Some (fq_maxFeePerGas fees))))
   (fun _ => prepared) submit_threw (MkTxState j false s n tr0).
Proof using HS.
  intros HE HF HA HN HG. tx_run; [|apply stage_threw; [done|]; intros ->; eauto with tx].
  exists [], j0. split; [reflexivity|]. split; [constructor|]. job_fields.
  split; [eapply evolves_same; [exact HE|repeat split]|]. split; [tauto|].
  split; [intros E; destruct HS; congruence|]. split; [done|].
  rewrite (IsApproved_ext _ j) by done. eauto 10.
Qed.

Lemma prepare_replacement j s n p f :
  evolves j0 j -> same_fees j -> IsApproved config_ j = true -> is_Some (tj_nonce j) -> is_Some (tj_gasLimit j) ->
  tj_maxPriorityFeePerGas j = Some p -> tj_maxFeePerGas j = Some f ->
  wp (update (set_status Replaced);; Save;; Audit "replaced";;
    priority ← lift (BumpFee p);
    update (set_maxPriorityFeePerGas (Some priority));;
    fee ← lift (BumpFee f);
    update (set_maxFeePerGas (Some fee)))
   (fun _ => prepared) submit_threw (MkTxState j false s n tr0).
Proof using HS.
  intros HE HF HA HN HG Hp Hf. destruct HF as [HFp HFf]. set (jr := set_status Replaced j).
  assert (evolves j0 jr) as HEr by (eapply evolves_same; [exact HE|repeat split]).
  assert (job_run j0 [Audited "replaced" jr; Saved jr] jr) as HRr.
  { apply run_audit, (run_save _ _ _ _ _ _ _ j0); [constructor| |by intros _].
  constructor; auto; try discriminate.
  - constructor. tauto.
  - done.
  - exact I. }
  assert (forall e j' s' n', evolves jr j' -> (e = Undefined -> env_undefined) ->
  submit_threw e (MkTxState j' false s' n' ([Audited "replaced" jr; Saved jr] ++ tr0)))
  as Hthrow.
  { intros e j' s' n' HE' HU. eapply threw_in_progress; [reflexivity|exact HRr|exact HE'| | |exact HU].
  - right; right; reflexivity.
  - reflexivity. }
  tx_run; try (by apply stage_threw);
  try (apply Hthrow; [eapply evolves_same; [apply evolves_refl|repeat split]|eauto with tx]).
  exists [Audited "replaced" jr; Saved jr], jr. split; [reflexivity|]. split; [exact HRr|].
  job_fields.
  split; [eapply evolves_same; [apply evolves_refl|repeat split]|]. split; [tauto|].
  split; [intros _; eexists p, f, _, _; eauto 10|]. split; [done|].
  rewrite (IsApproved_ext _ j) by done. eauto 10.
Qed.

Lemma submit_prepare_wp j s n :
  evolves j0 j -> same_fees j -> IsApproved config_ j = true ->
  wp (submit_prepare signer_address chainId_ retry) (fun _ => prepared) submit_threw
  (MkTxState j false s n tr0).
Proof using HS.
  intros HE HF HA. unfold submit_prepare. apply wp_bind, wp_get_job. apply wp_bind.
  eapply wp_mono; [by apply prepare_nonce| |done].
  intros [] st (j1 & s1 & n1 & -> & HE1 & HF1 & HA1 & HN1). apply wp_bind, wp_get_job. apply wp_bind.
  eapply wp_mono; [by apply prepare_gas| |done].
  intros [] st (j2 & s2 & n2 & -> & HE2 & HF2 & HA2 & HN2 & HG2). apply wp_bind, wp_get_job.
  job_fields. destruct retry; [|by apply prepare_quote].
  destruct (tj_maxPriorityFeePerGas j2) eqn:Hp; [|by apply prepare_quote].
  destruct (tj_maxFeePerGas j2) eqn:Hf; [|by apply prepare_quote].
  by apply prepare_replacement.
Qed.
End Prepare.

(** The job as [submit_broadcast] saves it. *)
Definition signed_job (raw : Bytes) (head : Z) (j : TxJob) : TxJob :=
set_errorMessage EmptyString (set_confirmationCount 0 (set_includedBlockHash None
(set_includedBlockNumber None (set_transactionHash (Some (TransactionHash keccak raw))
  (set_submittedBlockNumber (Some head) (set_status Submitted (set_rawTransaction raw j))))))).

Lemma signed_job_step jl j raw head :
evolves jl j -> (tj_status jl = Pending \/ tj_status jl = Submitted \/ tj_status jl = Replaced) ->
(tj_status jl = Replaced -> fees_bumped jl j) -> save_step config_ observed jl (signed_job raw head j).
Proof using.
intros HE HS HF. constructor; try discriminate.
- eapply evolves_same; [exact HE|repeat split].
- unfold signed_job. job_fields. destruct HS as [-> | [-> | ->]];
  [apply step_submit; auto | apply step_broadcast | apply step_submit; auto].
- intros E _. exact (HF E).
- split; [|discriminate]. unfold signed_job. job_fields. eauto.
- exact I.
Qed.

(** After the broadcast has been attempted. *)
Lemma broadcast_tail tr jb raw s n :
job_run j0 tr jb -> tj_status jb = Submitted -> is_Some (tj_transactionHash jb) ->
wp (submittedHash ← call (rpc_SendRawTransaction raw);
  update (set_transactionHash (Some submittedHash));;
  Save;; Audit "broadcast")
 (fun _ => run_ok) submit_threw (MkTxState jb true s n (tr ++ tr0)).
Proof using.
intros HR HS Hh. tx_run.
- eexists (_ :: _ :: tr), _. split; [reflexivity|]. eapply run_audit, run_save; [exact HR| |job_fields; congruence].
constructor; try discriminate.
+ eapply evolves_same; [apply evolves_refl|repeat split].
+ job_fields. rewrite HS. apply step_broadcast.
+ job_fields. congruence.
+ job_fields. congruence.
+ split; job_fields; [eauto|congruence].
+ unfold observed. job_fields. by rewrite HS.
- split; [|done]. exists tr, jb. split; [reflexivity|]. split; [exact HR|]. job_fields.
split; [eapply evolves_same; [apply evolves_refl|repeat split]|]. split; [tauto|]. eauto.
- split; [|intros ->; eauto with tx]. exists tr, jb. split; [reflexivity|]. split; [exact HR|].
job_fields. split; [apply evolves_refl|]. tauto.
Qed.

Lemma submit_broadcast_wp st :
prepared st -> wp (submit_broadcast keccak sign_recoverable chainId_) (fun _ => run_ok) submit_threw st.
Proof using.
destruct st as [j b s n t]. intros (tr & jl & Ht & HR & HE & HS & HF & Hb & HA & HN & HP & HM & HG).
job_fields. subst t b. unfold submit_broadcast. apply wp_bind, wp_get_job. job_fields.
apply wp_bind, wp_deref; [done|]. intros nonce Hn.
apply wp_bind, wp_deref; [done|]. intros priority Hp.
apply wp_bind, wp_deref; [done|]. intros fee Hf.
apply wp_bind, wp_deref; [done|]. intros gas Hg.
apply wp_bind, wp_lift; [|intros e He; eapply threw_in_progress; eauto with tx].
intros raw Hraw. do 2 (apply wp_bind, wp_update). apply wp_bind, wp_call.
2:{ intros e n' He. eapply threw_in_progress; [reflexivity|exact HR| |done|done|intros ->; eauto with tx].
  eapply evolves_same; [exact HE|repeat split]. }
intros head n1 _. do 6 (apply wp_bind, wp_update).
change (set_errorMessage _ _) with (signed_job raw head j).
pose proof (signed_job_step jl j raw head HE HS HF) as Hstep.
apply wp_bind, wp_Save.
2:{ intros e s' HU. eapply threw_in_progress; [reflexivity|exact HR| |done|done|done]. apply Hstep. }
intros s1. apply wp_bind, wp_Audit. apply wp_bind, wp_modify. apply wp_bind, wp_modify. job_fields.
change (Sent raw :: Audited "approved" (signed_job raw head j) :: Saved (signed_job raw head j) :: tr ++ tr0)
with ((Sent raw :: Audited "approved" (signed_job raw head j) :: Saved (signed_job raw head j) :: tr) ++ tr0).
apply broadcast_tail; [|done|unfold signed_job; job_fields; eauto].
apply run_send; [eapply run_audit, run_save; [exact HR|exact Hstep|discriminate]|].
constructor; try done. exists nonce, priority, fee, gas. done.
Qed.

Lemma submit_failed_wp kind msg st :
in_progress st -> wp (submit_failed config_ kind msg) (fun _ => run_ok) run_failed st.
Proof using.
destruct st as [j b s n t]. intros (tr & jl & Ht & HR & HE & HS & Hb). job_fields. subst t.
assert (run_ok (MkTxState j b s n (tr ++ tr0))) as Hok by (exists tr, jl; done).
assert (forall j', same_call j j' -> tx_step (tj_status jl) (tj_status j') -> job_ok j' ->
tj_status j' <> Finalized -> tj_status j' <> Replaced -> observed jl j' -> (tj_status j' = Submitted -> tj_status jl <> Replaced) ->
job_run j0 (Saved j' :: tr) j') as Hsave.
{ intros j' Hc Hs Hj Hf Hn Ho Hr. apply (run_save _ _ _ _ _ _ _ jl); [done| |done]. constructor; auto.
- by eapply evolves_same.
- intros E1 E2. by destruct (Hr E2).
- done. }
unfold submit_failed. apply wp_bind, wp_update. apply wp_bind, wp_get. job_fields. tx_run.
1: { boolify. destruct (Hb ltac:(done)) as [HS' Hh]. eexists (_ :: _ :: tr), _. split; [reflexivity|].
apply run_audit, Hsave; job_fields; [repeat split|rewrite HS'; apply step_broadcast|split; job_fields; [done|discriminate]|discriminate|discriminate|exact I|].
intros _. congruence. }
2: { eexists (_ :: _ :: tr), _. split; [reflexivity|]. apply run_audit, Hsave; job_fields; [repeat split| | | | | |];
destruct (_ <=? _); try discriminate; try exact I; try (constructor; tauto); split; discriminate. }
all: split; [exists tr, jl; split; [reflexivity|done]|done].
Qed.

(** A save directly after the job was loaded. *)
Lemma first_save j b s n (action : string) (E : exn -> St -> Prop) :
same_call j0 j -> tx_step (tj_status j0) (tj_status j) -> tj_status j0 <> Replaced -> tj_status j <> Replaced ->
(tj_status j = Finalized -> tm_confirmationDepth config_ <= tj_confirmationCount j) -> job_ok j -> observed j0 j ->
(forall e s', (e = Undefined -> env_undefined) -> E e (MkTxState j b s' n tr0)) ->
wp (Save;; Audit action) (fun _ => run_ok) E (MkTxState j b s n tr0).
Proof using.
intros Hc Hs Hr Hr' Hf Hj Ho HE. tx_run; [|by apply HE].
exists [Audited action j; Saved j], j. split; [done|].
eapply run_audit, run_save; [apply run_start| |done]. constructor; auto; [|done].
eapply evolves_same; [apply evolves_refl|exact Hc].
Qed.

Lemma failed_save j b s n action (E : exn -> St -> Prop) :
same_call j0 j -> tj_status j = Failed -> (tj_status j0 = Pending \/ tj_status j0 = Submitted) ->
(forall e s', (e = Undefined -> env_undefined) -> E e (MkTxState j b s' n tr0)) ->
wp (Save;; Audit action) (fun _ => run_ok) E (MkTxState j b s n tr0).
Proof using.
intros Hc Hs H0' HE. apply first_save; auto.
- rewrite Hs. apply step_rejected. tauto.
- destruct H0'; congruence.
- congruence.
- congruence.
- split; congruence.
- unfold observed. by rewrite Hs.
Qed.

(** Nothing saved yet. *)
Lemma start_failed e st :
tx_trace st = tr0 -> (e = Undefined -> env_undefined) -> run_failed e st.
Proof using. intros Ht HU. split; [|done]. exists [], j0. split; [done|constructor]. Qed.

Lemma start_threw e st :
tx_trace st = tr0 -> evolves j0 (tx_job st) -> tx_broadcastAttempted st = false ->
(tj_status j0 = Pending \/ tj_status j0 = Submitted) ->
(e = Undefined -> env_undefined) -> submit_threw e st.
Proof using.
intros Ht HE Hb HS HU. apply (threw_in_progress e st [] j0); auto; [constructor|tauto].
Qed.

Lemma Submit_wp retry b s n :
(tj_status j0 = Pending \/ tj_status j0 = Submitted) -> 0 <= tj_retryCount j0 ->
wp (Submit keccak sign_recoverable signer_address config_ chainId_ retry)
(fun _ => run_ok) run_failed (MkTxState j0 b s n tr0).
Proof using retries_fit.
intros HS Hr. unfold Submit. apply wp_bind, wp_get_job. job_fields. apply wp_if; intros Happ.
{ do 2 apply wp_bind, wp_update. apply failed_save; auto; [repeat split|].
intros. by apply start_failed. }
apply negb_false_iff in Happ. apply wp_bind, wp_modify. job_fields. apply wp_catch_rpc.
eapply (wp_mono _ (fun _ => run_ok) _ submit_threw); [|done|].
2:{ intros e st [Hp HU]. destruct e; try (split; [by apply in_progress_ok|done]).
  by apply submit_failed_wp. }
apply wp_if; intros Hlimit.
{ do 2 apply wp_bind, wp_update. apply failed_save; auto; [repeat split|].
intros. apply start_threw; auto. eapply evolves_same; [apply evolves_refl|repeat split]. }
set (j1 := if retry then set_retryCount (u32 (tj_retryCount j0 + 1)) j0 else j0).
assert (evolves j0 j1 /\ same_fees j1 /\ IsApproved config_ j1 = true) as (HE1 & HF1 & HA1).
{ unfold j1. destruct retry; [|split; [apply evolves_refl|done]]. cbn [andb] in Hlimit. boolify.
split; [apply evolves_retry; lia|]. split; [done|]. rewrite (IsApproved_ext _ j0); done. }
apply wp_bind, (wp_mono _ (fun _ st => st = MkTxState j1 false s n tr0) _ (fun _ _ => False)).
- unfold j1. destruct retry; done.
- intros [] st ->. apply wp_bind. eapply wp_mono.
+ by apply (submit_prepare_wp retry HS).
+ intros [] st Hp. by apply submit_broadcast_wp.
+ done.
- done.
Qed.

Lemma poll_submitted_wp b s n :
tj_status j0 = Submitted -> job_ok j0 -> 0 <= tj_retryCount j0 ->
wp (poll_submitted keccak sign_recoverable signer_address config_ chainId_)
(fun _ => run_ok) run_failed (MkTxState j0 b s n tr0).
Proof using retries_fit.
intros HS [Hh _] Hr. unfold poll_submitted. apply wp_bind, wp_get_job. job_fields.
apply wp_bind, wp_deref; [auto|]. intros hash Hhash. apply wp_bind, wp_call.
2:{ intros e n' He. apply start_failed; [done|]. intros ->. eauto with tx. }
intros [receipt|] n1 Hreceipt.
- apply wp_bind, wp_lift; [intros number Hn|intros e He; apply start_failed; eauto with tx].
do 3 apply wp_bind, wp_update. apply wp_bind.
destruct (rc_succeeded receipt) eqn:Hsucc; cbn [negb when].
+ apply wp_ret, first_save; [repeat split|job_fields|congruence|discriminate|discriminate| | |].
  * rewrite HS. apply step_include.
  * split; job_fields; [discriminate|eauto].
  * unfold observed. job_fields. rewrite HS. exists hash, receipt, number, n, n1. auto 10.
  * intros. by apply start_failed.
+ apply wp_update, failed_save; auto; [repeat split|]. intros. by apply start_failed.
- apply wp_bind, wp_call.
2:{ intros e n' He. apply start_failed; [done|]. intros ->. eauto with tx. }
intros head n2 _. apply wp_bind, wp_get_job. job_fields.
assert (run_ok (MkTxState j0 b s n2 tr0)) as Hok by (exists [], j0; split; [done|constructor]).
destruct (tj_submittedBlockNumber j0); [|done].
apply wp_if; intros _; [|done]. apply wp_if; intros _; [|by apply Submit_wp; auto].
do 2 apply wp_bind, wp_update. apply failed_save; auto; [repeat split|]. intros. by apply start_failed.
Qed.

Lemma poll_included_wp b s n :
tj_status j0 = Included -> job_ok j0 ->
wp (poll_included config_) (fun _ => run_ok) run_failed (MkTxState j0 b s n tr0).
Proof using.
intros HS [_ Hi]. destruct (Hi HS) as [Hn Hh]. unfold poll_included.
apply wp_bind, wp_get_job. job_fields. apply wp_bind, wp_deref; [done|]. intros number Hnum.
apply wp_bind, wp_call.
2:{ intros e n' He. apply start_failed; [done|]. intros ->. eauto with tx. }
intros block n1 Hblock. apply wp_bind, (wp_mono _ (fun canonical st => canonical = bool_decide (bh_hash <$> block = tj_includedBlockHash j0) /\ st = MkTxState j0 b s n1 tr0) _ (fun _ _ => False)).
{ destruct Hh as [h Eh]. rewrite Eh. destruct block as [block|]; [|done]. apply wp_bind, wp_deref; [done|].
  intros h' [= <-]. apply wp_ret. split; [|done]. apply bool_decide_ext. cbn. split; [by intros ->|congruence]. }
2:{ done. }
intros canonical st [Hcan ->]. apply wp_if; intros Hc0; rewrite Hcan in Hc0.
{ do 2 apply wp_bind, wp_update.
apply first_save; [repeat split|job_fields|congruence|discriminate|discriminate|split; discriminate| |].
- rewrite HS. apply step_reorg.
- destruct Hh as [h Eh]. unfold observed. job_fields. exists number, h, block, n, n1.
  apply negb_true_iff, bool_decide_eq_false in Hc0. rewrite Eh in Hc0. done.
- intros. by apply start_failed. }
apply wp_bind, wp_call.
2:{ intros e n' He. apply start_failed; [done|]. intros ->. eauto with tx. }
intros head n2 Hhead. apply wp_bind, wp_update. apply wp_bind, wp_get_job. job_fields.
set (count := if number <=? head then u64 (head - number + 1) else 0).
set (j1 := set_confirmationCount count j0).
assert (forall s', seen_canonical j0 (set_status s' j1)) as Hseen.
{ intros s'. apply negb_false_iff, bool_decide_eq_true in Hc0. destruct Hh as [h Eh]. rewrite Eh in Hc0.
  destruct block as [block|]; [|done]. injection Hc0 as Ehash. exists number, block, head, n, n1, n2.
  rewrite Eh, Ehash. done. }
apply wp_bind, (wp_mono _ (fun _ st => exists j, st = MkTxState j b s n2 tr0 /\ tj_status j <> Replaced /\ save_step config_ observed j0 j)
_ (fun _ _ => False)); [| |done].
{ apply wp_when; intros Hc; boolify.
- exists (set_status Finalized j1). split; [done|]. split; [discriminate|]. constructor; job_fields; try done.
  + eapply evolves_same; [apply evolves_refl|repeat split].
  + rewrite HS. apply step_finalize.
  + apply Hseen.
- exists j1. split; [done|]. split; [unfold j1; job_fields; congruence|]. constructor; unfold j1; job_fields; try congruence.
  + eapply evolves_same; [apply evolves_refl|repeat split].
  + rewrite HS. apply step_confirm.
  + split; job_fields; [congruence|]. by intros _.
  + unfold observed. job_fields. rewrite HS. exact (Hseen Included). }
intros [] st (j & -> & Hrep & Hstep). tx_run.
- eexists [_; _], _. split; [reflexivity|]. eapply run_audit, run_save; [constructor|done|done].
- eexists [_], _. split; [reflexivity|]. eapply run_save; [constructor|done|done].
- by apply start_failed.
Qed.

Lemma run_job_wp st :
loadable j0 -> tx_trace st = tr0 ->
wp (run_job keccak sign_recoverable signer_address config_ chainId_ j0) (fun _ => run_ok) run_failed st.
Proof using retries_fit.
destruct st as [j b s n t]. intros (HS & Hok & Hr) Ht. job_fields. subst t. unfold run_job.
apply wp_bind, wp_update. destruct HS as [HS|[HS|HS]]; rewrite HS.
- by apply Submit_wp; [left|].
- unfold Poll. apply wp_bind, wp_get_job. job_fields. rewrite HS. by apply poll_submitted_wp.
- unfold Poll. apply wp_bind, wp_get_job. job_fields. rewrite HS. by apply poll_included_wp.
Qed.
End Job.

(** A pass over some of the jobs, the last of them perhaps interrupted. *)
Definition passed (tr0 : list TxEffect) (jobs : list TxJob) (st : St) : Prop :=
  exists tr, tx_trace st = tr ++ tr0 /\ pass keccak sign_recoverable config_ chainId_ observed jobs tr.

Lemma run_jobs_wp tr0 jobs done result st :
  Forall loadable jobs -> passed tr0 done st ->
  wp (run_jobs keccak sign_recoverable signer_address config_ chainId_ jobs result)
    (fun _ st' => passed tr0 (done ++ jobs) st')
    (fun e st' => (exists some, some `prefix_of` done ++ jobs /\ passed tr0 some st')
                  /\ (e = Undefined -> env_undefined)) st.
Proof using retries_fit.
  revert done result st. induction jobs as [|j jobs IH]; intros done result st HL (tr & Ht & HP).
  { rewrite app_nil_r. by exists tr. }
  apply Forall_cons in HL as [Hj HL]. cbn [run_jobs]. apply wp_bind.
  assert (forall st', run_ok j (tx_trace st) st' -> passed tr0 (done ++ [j]) st') as Hstep.
  { intros st' (new & jl & Ht' & HR). exists (new ++ tr). rewrite Ht', Ht, app_assoc.
    split; [done|]. by econstructor. }
  eapply wp_mono; [by apply (run_job_wp j (tx_trace st))| |].
  - intros [] st' Hok. apply wp_bind, wp_get_job.
    replace (done ++ j :: jobs) with ((done ++ [j]) ++ jobs) by (by rewrite <-app_assoc). auto.
  - intros e st' [Hok HU]. split; [|done]. exists (done ++ [j]). split; [|auto].
    exists jobs. by rewrite <-app_assoc.
Qed.
End Refinement.

(** ** Consequences of the contract *)
Section Consequences.
Context (keccak : Bytes -> Hash256) (sign_recoverable : Hash256 -> option (array 64 * Z)).
Context (config_ : TxManagerConfig) (chainId_ : Uint256) (observed : TxJob -> TxJob -> Prop).
Abbreviation job_run := (job_run keccak sign_recoverable config_ chainId_ observed).
Abbreviation pass := (pass keccak sign_recoverable config_ chainId_ observed).
Abbreviation authorised := (authorised keccak sign_recoverable config_ chainId_).

Lemma job_run_evolves j0 tr jl : job_run j0 tr jl -> evolves config_ j0 jl.
Proof using.
  induction 1 as [|tr j j' HR IH [HE _]| |]; auto; [apply evolves_refl|].
  by eapply evolves_trans.
Qed.

Lemma job_run_tail j0 e tr jl : job_run j0 (e :: tr) jl -> exists j, job_run j0 tr j.
Proof using. inversion 1; subst; eauto. Qed.

Lemma job_run_suffix j0 new old jl : job_run j0 (new ++ old) jl -> exists j, job_run j0 old j.
Proof using.
  revert jl. induction new as [|e new IH]; intros jl HR; [eauto|].
  apply job_run_tail in HR as [j HR]. eauto.
Qed.

(** A broadcast comes directly after the save of the job it was signed from. *)
Lemma job_run_broadcast j0 jl new raw old :
  job_run j0 (new ++ Sent raw :: old) jl ->
  exists j old', old = Audited "approved" j :: Saved j :: old' /\ authorised j raw /\ evolves config_ j0 j.
Proof using.
  intros HR. apply job_run_suffix in HR as [j HR]. inversion HR; subst.
  eexists _, _. split; [reflexivity|]. split; [done|]. by eapply job_run_evolves.
Qed.

Lemma pass_broadcast jobs tr new raw old :
  pass jobs tr -> tr = new ++ Sent raw :: old ->
  exists j0 j old', j0 ∈ jobs /\ old = Audited "approved" j :: Saved j :: old'
    /\ authorised j raw /\ evolves config_ j0 j.
Proof using.
  intros HP. revert new old. induction HP as [|jobs tr j run jl HP IH HR]; intros new old E.
  { by destruct new. }
  apply app_eq_inv in E as [(k & -> & E)|(k & -> & E)].
  - destruct k as [|e k].
    + destruct (IH [] old (eq_sym E)) as (j0 & j' & old' & Hin & ?). exists j0, j', old'.
      split; [apply elem_of_app; by left|done].
    + injection E as <- ->. apply job_run_broadcast in HR as (j' & old' & -> & HA & HE).
      exists j, j', (old' ++ tr). split; [|done].
      apply elem_of_app. right. by apply list_elem_of_singleton.
  - destruct (IH k old E) as (j0 & j' & old' & Hin & ?). exists j0, j', old'.
      split; [apply elem_of_app; by left|done].
Qed.

(** A job that is saved in a terminal status is never touched again. *)
Definition terminal (s : TxStatus) : Prop := s = Finalized \/ s = Failed \/ s = Reorged.

Lemma terminal_final s s' : terminal s -> ~ tx_step s s'.
Proof using. intros [-> | [-> | ->]] Hs; inversion Hs; subst; intuition discriminate. Qed.

Lemma job_run_terminal j0 tr jl :
  job_run j0 tr jl -> forall new j old, tr = new ++ Saved j :: old -> terminal (tj_status j) -> jl = j.
Proof using.
  induction 1 as [|tr j1 j' HR IH [_ Hs _ _ _ _]|tr j1 a j' HR IH|tr j1 raw HR IH HA]; intros new j old E HT.
  - by destruct new.
  - destruct new as [|e new]; [by injection E as <- <-|]. injection E as <- E.
    rewrite (IH _ _ _ E HT) in Hs. by destruct (terminal_final _ _ HT Hs).
  - destruct new as [|e new]; [discriminate|]. injection E as <- E. eauto.
  - destruct new as [|e new]; [discriminate|]. injection E as <- E. eauto.
Qed.
End Consequences.
