(* ===== verification/PostgresTransactionStore.v ===== *)
(** * PostgresTransactionStore: the table of transaction jobs
    ([PostgresTransactionStore.cpp], table [tx_jobs] of [007_create_tx_jobs.sql])

    A row holds what the columns hold: text for [TEXT], [CHAR] and [NUMERIC] columns (a
    [NUMERIC] is kept as the decimal text the code writes and reads), integers for
    [INTEGER] and [BIGINT], [None] for [NULL].  The table is the list of its rows; each
    SQL statement is one function over it, constraints included.  A statement that violates
    a constraint throws and leaves the table as it was, as its transaction is rolled
    back. *)

From Stdlib Require Import Ascii.
From S2P Require Import Prelude Effects Text Uint256 Hex Rlp Transaction Abi RpcTypes Sql TxManager.
Set Default Goal Selector "!".
#[local] Open Scope Z_scope.

Record TxRow := MkTxRow {
  row_job_id : string;
  row_chain_id : string;
  row_wallet_address : string;
  row_to_address : string;
  row_value : string;
  row_calldata : string;
  row_status : string;
  row_nonce : option string;
  row_max_priority_fee_per_gas : option string;
  row_max_fee_per_gas : option string;
  row_gas_limit : option string;
  row_raw_transaction : option string;
  row_tx_hash : option string;
  row_retry_count : Z;
  row_submitted_block_number : option Z;
  row_included_block_number : option Z;
  row_included_block_hash : option string;
  row_confirmation_count : Z;
  row_error_message : option string;
  row_created_at : Z
}.

(** The table, and the time [NOW()] returns. *)
Record TxTable := MkTxTable {
  tt_rows : list TxRow;
  tt_now : Z
}.

(** ** Reading a row *)

(** [OptionalField] *)
Definition OptionalField {A B} (field : option A) (parser : A -> result B) : result (option B) :=
  match field with
  | None => Ok None
  | Some v => b ← parser v; Ok (Some b)
  end.

Definition ParseHash (value : string) : result Hash256 :=
  parse_hash "database transaction hash must contain 32 bytes" value.

Definition ParseJob (row : TxRow) : result TxJob :=
  chainId ← FromDecimal (row_chain_id row);
  wallet ← AddressFromHex (row_wallet_address row);
  to ← AddressFromHex (row_to_address row);
  value ← FromDecimal (row_value row);
  data ← Decode (row_calldata row);
  status ← TxStatusFromString (row_status row);
  nonce ← OptionalField (row_nonce row) FromDecimal;
  priority ← OptionalField (row_max_priority_fee_per_gas row) FromDecimal;
  fee ← OptionalField (row_max_fee_per_gas row) FromDecimal;
  gas ← OptionalField (row_gas_limit row) FromDecimal;
  raw ← (match row_raw_transaction row with None => Ok [] | Some text => Decode text end);
  hash ← OptionalField (row_tx_hash row) ParseHash;
  blockHash ← OptionalField (row_included_block_hash row) ParseHash;
  Ok (MkTxJob (row_job_id row) chainId wallet to value data status nonce priority fee gas raw hash
        (row_retry_count row) (row_submitted_block_number row) (row_included_block_number row)
        blockHash (row_confirmation_count row) (default EmptyString (row_error_message row))).

(** ** The statements *)

Definition hash_text (h : Hash256) : string := EncodeArray h true.

(** [Insert]: the row of a new job, the other columns at their defaults. *)
Definition insert_row (job : TxJob) (now : Z) : TxRow :=
  MkTxRow (tj_jobId job) (ToDecimal (tj_chainId job)) (AddressToHex (tj_wallet job) true)
    (AddressToHex (tj_to job) true) (ToDecimal (tj_value job)) (Encode (tj_data job) true)
    (ToString (tj_status job)) None None None None None None 0 None None None 0 None now.

(** [ON CONFLICT (job_id) DO NOTHING]; the result is [affected_rows() == 1]. *)
Definition Insert (job : TxJob) (t : TxTable) : result bool * TxTable :=
  if existsb (fun row => bool_decide (row_job_id row = tj_jobId job)) (tt_rows t)
  then (Ok false, t)
  else (Ok true, MkTxTable (tt_rows t ++ [insert_row job (tt_now t)]) (tt_now t)).

(** The columns [Save] sets. *)
Definition save_row (job : TxJob) (row : TxRow) : TxRow :=
  MkTxRow (row_job_id row) (row_chain_id row) (row_wallet_address row) (row_to_address row)
    (row_value row) (row_calldata row)
    (ToString (tj_status job))
    (ToDecimal <$> tj_nonce job)
    (ToDecimal <$> tj_maxPriorityFeePerGas job)
    (ToDecimal <$> tj_maxFeePerGas job)
    (ToDecimal <$> tj_gasLimit job)
    (match tj_rawTransaction job with [] => None | raw => Some (Encode raw true) end)
    (hash_text <$> tj_transactionHash job)
    (tj_retryCount job)
    (tj_submittedBlockNumber job)
    (tj_includedBlockNumber job)
    (hash_text <$> tj_includedBlockHash job)
    (tj_confirmationCount job)
    (if bool_decide (tj_errorMessage job = EmptyString) then None else Some (tj_errorMessage job))
    (row_created_at row).

Definition row_in_range (row : TxRow) : bool :=
  sql_integer (row_retry_count row) && sql_bigint (row_confirmation_count row)
  && from_option sql_bigint true (row_submitted_block_number row)
  && from_option sql_bigint true (row_included_block_number row).

(** The predicate of the partial unique index [tx_jobs_active_nonce]. *)
Definition in_nonce_index (row : TxRow) : bool :=
  match row_nonce row with
  | None => false
  | Some _ => negb (bool_decide (row_status row ∈ ["Failed"; "Replaced"; "Reorged"]))
  end.

Definition nonce_conflict (r1 r2 : TxRow) : bool :=
  in_nonce_index r1 && in_nonce_index r2
  && bool_decide (row_chain_id r1 = row_chain_id r2)
  && bool_decide (row_wallet_address r1 = row_wallet_address r2)
  && bool_decide (row_nonce r1 = row_nonce r2).

(** Whether a new version of a row collides with another row in the index. *)
Definition violates_nonce_index (row : TxRow) (rows : list TxRow) : bool :=
  existsb (fun other => negb (bool_decide (row_job_id other = row_job_id row)) && nonce_conflict row other) rows.

(** [UPDATE tx_jobs SET ... WHERE job_id = $1], then [commit]. *)
Definition Save (job : TxJob) (t : TxTable) : result unit * TxTable :=
  let update row := if bool_decide (row_job_id row = tj_jobId job) then save_row job row else row in
  let rows := update <$> tt_rows t in
  if existsb (fun row => bool_decide (row_job_id row = tj_jobId job) && negb (row_in_range row)) rows
  then (Throw (SqlError "value out of range"), t)
  else if existsb (fun row => bool_decide (row_job_id row = tj_jobId job) && violates_nonce_index row rows) rows
  then (Throw (SqlError "duplicate key value violates unique constraint tx_jobs_active_nonce"), t)
  else (Ok tt, MkTxTable rows (tt_now t)).

(** [ORDER BY created_at, job_id] *)
Definition row_before (r1 r2 : TxRow) : bool :=
  if negb (row_created_at r1 =? row_created_at r2) then row_created_at r1 <? row_created_at r2
  else String.ltb (row_job_id r1) (row_job_id r2).

Definition of_wallet (chainId : Uint256) (wallet : Address) (row : TxRow) : bool :=
  bool_decide (row_chain_id row = ToDecimal chainId)
  && bool_decide (row_wallet_address row = AddressToHex wallet true).

Definition LoadActive (chainId : Uint256) (wallet : Address) (t : TxTable) : result (list TxJob) :=
  map_result ParseJob
    (std_sort row_before
      (filter (fun row => of_wallet chainId wallet row
                          && bool_decide (row_status row ∈ ["Pending"; "Submitted"; "Included"]) = true)
        (tt_rows t))).

(** [MAX(nonce)] over the decimal texts of a [NUMERIC] column. *)
Definition max_numeric (texts : list string) : option string :=
  foldr (fun text acc =>
           match acc with
           | None => Some text
           | Some best => Some (if numeric best <? numeric text then text else best)
           end) None texts.

Definition LoadHighestNonce (chainId : Uint256) (wallet : Address) (t : TxTable) :
    result (option Uint256) :=
  let rows := filter (fun row => of_wallet chainId wallet row
                && negb (bool_decide (row_status row ∈ ["Failed"; "Reorged"])) = true) (tt_rows t) in
  match max_numeric (omap row_nonce rows) with
  | None => Ok None
  | Some text => nonce ← FromDecimal text; Ok (Some nonce)
  end.

#[global] Instance postgres_transaction_store : TransactionStore TxTable := {
  store_Insert := Insert;
  store_LoadActive := LoadActive;
  store_LoadHighestNonce := LoadHighestNonce;
  store_Save := Save
}.

(** ** The table as a list of jobs *)

(** The row of a job created at a time. *)
Definition row_of (job : TxJob * Z) : TxRow := save_row (job.1) (insert_row (job.1) (job.2)).

Definition job_id (job : TxJob * Z) : string := tj_jobId (job.1).

(** The table holds these jobs, each under its own id. *)
Definition holds (t : TxTable) (jobs : list (TxJob * Z)) : Prop :=
  tt_rows t = row_of <$> jobs /\ NoDup (job_id <$> jobs).

(** [Save] on the list: the job with that id, replaced. *)
Definition replace_job (job : TxJob) (jobs : list (TxJob * Z)) : list (TxJob * Z) :=
  (fun old => if bool_decide (job_id old = tj_jobId job) then (job, old.2) else old) <$> jobs.

Definition active_job (chainId : Uint256) (wallet : Address) (job : TxJob) : bool :=
  bool_decide (tj_chainId job = chainId) && bool_decide (tj_wallet job = wallet)
  && bool_decide (tj_status job ∈ [Pending; Submitted; Included]).

(** Jobs whose nonce [LoadHighestNonce] takes into account. *)
Definition holds_nonce (chainId : Uint256) (wallet : Address) (job : TxJob) : bool :=
  bool_decide (tj_chainId job = chainId) && bool_decide (tj_wallet job = wallet)
  && negb (bool_decide (tj_status job ∈ [Failed; Reorged])).

(** ** Lemmas *)

Lemma TxStatusFromString_ToString s : TxStatusFromString (ToString s) = Ok s.
Proof. by destruct s. Qed.

Lemma ToString_inj s1 s2 : ToString s1 = ToString s2 -> s1 = s2.
Proof.
  intros E. apply (f_equal TxStatusFromString) in E. rewrite !TxStatusFromString_ToString in E.
  congruence.
Qed.

Lemma OptionalField_fmap {A B} (o : option B) (print : B -> A) parser :
  (forall b, parser (print b) = Ok b) -> OptionalField (print <$> o) parser = Ok o.
Proof. intros Hp. destruct o as [b|]; [|done]. simpl. by rewrite Hp. Qed.

Lemma ParseHash_text h : ParseHash (hash_text h) = Ok h.
Proof. apply parse_hash_Encode. Qed.

Lemma ParseJob_row_of job now : ParseJob (row_of (job, now)) = Ok job.
Proof.
  unfold ParseJob, row_of, save_row, insert_row.
  cbn [row_job_id row_chain_id row_wallet_address row_to_address row_value row_calldata row_status
    row_nonce row_max_priority_fee_per_gas row_max_fee_per_gas row_gas_limit row_raw_transaction
    row_tx_hash row_retry_count row_submitted_block_number row_included_block_number
    row_included_block_hash row_confirmation_count row_error_message fst snd].
  rewrite !FromDecimal_ToDecimal, !AddressFromHex_ToHex, Decode_Encode, TxStatusFromString_ToString.
  rewrite !(OptionalField_fmap _ _ FromDecimal) by apply FromDecimal_ToDecimal.
  rewrite !(OptionalField_fmap _ _ ParseHash) by apply ParseHash_text. mstep.
  assert ((match match tj_rawTransaction job with [] => None | raw => Some (Encode raw true) end with
           | None => Ok [] | Some text => Decode text end) = Ok (tj_rawTransaction job)) as ->.
  { destruct (tj_rawTransaction job); [done|]. apply Decode_Encode. }
  mstep. destruct job. cbn. do 2 f_equal. by case_bool_decide.
Qed.

Lemma row_of_wallet chainId wallet job :
  of_wallet chainId wallet (row_of job)
  = bool_decide (tj_chainId (job.1) = chainId) && bool_decide (tj_wallet (job.1) = wallet).
Proof.
  unfold of_wallet. cbn. f_equal; apply bool_decide_ext; split; intros E; subst; auto.
  - by apply ToDecimal_inj.
  - by eapply AddressToHex_inj.
Qed.

Lemma status_in s (l : list TxStatus) : bool_decide (ToString s ∈ ToString <$> l) = bool_decide (s ∈ l).
Proof.
  apply bool_decide_ext. split; [|apply list_elem_of_fmap_2].
  intros (s' & E & Hs)%list_elem_of_fmap. by rewrite (ToString_inj _ _ E).
Qed.

(** *** [Insert] *)
Lemma Insert_holds t jobs job :
  holds t jobs -> row_of (job, tt_now t) = insert_row job (tt_now t) ->
  match Insert job t with
  | (Ok true, t') => holds t' (jobs ++ [(job, tt_now t)]) /\ tj_jobId job ∉ job_id <$> jobs
  | (Ok false, t') => t' = t /\ tj_jobId job ∈ job_id <$> jobs
  | (Throw _, _) => False
  end.
Proof.
  intros [Hr HN] Hrow. unfold Insert. rewrite Hr.
  destruct (existsb _ _) eqn:E.
  - split; [done|]. apply existsb_true in E as (row & Hin & Hid). boolify.
    apply list_elem_of_fmap in Hin as (j & -> & Hj). rewrite <-Hid.
    by apply (list_elem_of_fmap_2 job_id).
  - assert (tj_jobId job ∉ job_id <$> jobs) as Hn.
    { intros (j & Hid & Hj)%list_elem_of_fmap. rewrite existsb_false in E.
      specialize (E (row_of j) (list_elem_of_fmap_2 _ _ _ Hj)). boolify. by rewrite Hid in E. }
    split; [|done]. split; cbn [tt_rows].
    + by rewrite fmap_app, <-Hrow.
    + rewrite fmap_app. apply NoDup_app. split; [done|]. split; [|apply NoDup_singleton].
      intros x Hx Hx'%list_elem_of_singleton. subst. done.
Qed.

(** *** [Save] *)

(** The columns [Save] leaves alone agree. *)
Definition same_origin (job old : TxJob) : Prop :=
  tj_jobId job = tj_jobId old /\ tj_chainId job = tj_chainId old /\ tj_wallet job = tj_wallet old
  /\ tj_to job = tj_to old /\ tj_value job = tj_value old /\ tj_data job = tj_data old.

Lemma save_row_of job old now :
  same_origin job old -> save_row job (row_of (old, now)) = row_of (job, now).
Proof.
  intros (H1 & H2 & H3 & H4 & H5 & H6). unfold row_of, save_row, insert_row. cbn.
  by rewrite H1, H2, H3, H4, H5, H6.
Qed.

Lemma replace_job_ids job jobs : job_id <$> replace_job job jobs = job_id <$> jobs.
Proof.
  unfold replace_job. rewrite <-list_fmap_compose. apply list_fmap_ext. intros i [old at'] _. simpl.
  case_bool_decide as E; [|done]. exact (eq_sym E).
Qed.

Lemma Save_holds t jobs job t' :
  holds t jobs -> (forall old, old ∈ jobs -> job_id old = tj_jobId job -> same_origin job (old.1)) ->
  Save job t = (Ok tt, t') -> holds t' (replace_job job jobs).
Proof.
  intros [Hr HN] Ho HS. unfold Save in HS. rewrite Hr in HS. split_ifs; try done.
  injection HS as <-. split; cbn [tt_rows]; [|by rewrite replace_job_ids].
  unfold replace_job. rewrite <-!list_fmap_compose. apply list_fmap_ext. intros i [old at'] Hi.
  apply list_elem_of_lookup_2 in Hi. cbn -[row_of].
  change (row_job_id (row_of (old, at'))) with (job_id (old, at')).
  case_bool_decide as E; [|done]. apply save_row_of. exact (Ho _ Hi E).
Qed.

Lemma Save_failed t job e t' : Save job t = (Throw e, t') -> t' = t.
Proof. unfold Save. intros HS. split_ifs; congruence. Qed.

(** *** [LoadActive] *)
Lemma LoadActive_holds t jobs chainId wallet :
  holds t jobs -> exists loaded, LoadActive chainId wallet t = Ok (loaded.*1)
    /\ loaded ≡ₚ filter (fun job => active_job chainId wallet (job.1) = true) jobs.
Proof.
  intros [Hr _]. unfold LoadActive. rewrite Hr.
  rewrite (list_filter_fmap row_of _ (fun job => active_job chainId wallet (job.1) = true)).
  2:{ intros [j at']. rewrite row_of_wallet. unfold active_job.
      change ["Pending"; "Submitted"; "Included"] with (ToString <$> [Pending; Submitted; Included]).
      change (row_status (row_of (j, at'))) with (ToString (tj_status j)). by rewrite status_in. }
  set (l := filter _ _). pose proof (std_sort_perm row_before (row_of <$> l)) as Hp.
  apply Permutation_map_inv in Hp as (loaded & E & Hp'). exists loaded. split; [|done].
  change (std_sort row_before (row_of <$> l) = row_of <$> loaded) in E. rewrite E.
  rewrite (map_result_fmap _ _ fst); [done|]. intros [j at']. apply ParseJob_row_of.
Qed.

(** *** [LoadHighestNonce] *)
Lemma max_numeric_spec texts :
  match max_numeric texts with
  | None => texts = []
  | Some best => best ∈ texts /\ forall text, text ∈ texts -> numeric text <= numeric best
  end.
Proof.
  induction texts as [|text texts IH]; simpl; [done|].
  destruct (max_numeric texts) as [best|] eqn:E.
  - destruct IH as [Hin Hle]. destruct (Z.ltb_spec (numeric best) (numeric text)).
    + split; [apply list_elem_of_here|]. intros t [->|Ht]%elem_of_cons; [lia|]. specialize (Hle t Ht). lia.
    + split; [by apply list_elem_of_further|]. intros t [->|Ht]%elem_of_cons; [lia|auto].
  - subst. split; [apply list_elem_of_here|]. intros t Ht. apply list_elem_of_singleton in Ht. by subst.
Qed.

(** The nonces of the jobs that hold one. *)
Definition held_nonces (chainId : Uint256) (wallet : Address) (jobs : list (TxJob * Z)) : list Uint256 :=
  omap (fun job => tj_nonce (job.1)) (filter (fun job => holds_nonce chainId wallet (job.1) = true) jobs).

Lemma LoadHighestNonce_holds t jobs chainId wallet :
  holds t jobs ->
  exists highest, LoadHighestNonce chainId wallet t = Ok highest
  /\ match highest with
     | None => held_nonces chainId wallet jobs = []
     | Some h => h ∈ held_nonces chainId wallet jobs
                 /\ forall n, n ∈ held_nonces chainId wallet jobs -> value_ n <= value_ h
     end.
Proof.
  intros [Hr _]. unfold LoadHighestNonce. rewrite Hr.
  rewrite (list_filter_fmap row_of _ (fun job => holds_nonce chainId wallet (job.1) = true)).
  2:{ intros [j at']. rewrite row_of_wallet. unfold holds_nonce.
      change ["Failed"; "Reorged"] with (ToString <$> [Failed; Reorged]).
      change (row_status (row_of (j, at'))) with (ToString (tj_status j)). by rewrite status_in. }
  unfold held_nonces. set (l := filter _ _).
  assert (omap row_nonce (row_of <$> l) = ToDecimal <$> omap (fun job => tj_nonce (job.1)) l) as ->.
  { rewrite list_fmap_omap. by apply list_omap_fmap. }
  set (ns := omap _ l). pose proof (max_numeric_spec (ToDecimal <$> ns)) as Hm.
  destruct (max_numeric (ToDecimal <$> ns)) as [best|].
  - destruct Hm as [(h & -> & Hh)%list_elem_of_fmap Hle]. rewrite FromDecimal_ToDecimal. mstep.
    exists (Some h). split; [done|]. split; [done|]. intros n Hn.
    specialize (Hle _ (list_elem_of_fmap_2 ToDecimal _ _ Hn)). by rewrite !numeric_ToDecimal in Hle.
  - exists None. split; [done|]. by destruct ns.
Qed.

(** ** Sample data for the witnesses *)
Definition sample_address (z : Z) : Address := array_copy 20 (be_bytes 20 z).
Definition sample_job (id : string) (status : TxStatus) (nonce : option Uint256) : TxJob :=
  MkTxJob id (U 1) (sample_address 7) (sample_address 8) (U 0) [x0a; x0b] status nonce None None None []
    None 0 None None None 0 EmptyString.
Definition sample_jobs : list (TxJob * Z) :=
  [(sample_job "a" Submitted (Some (U 4)), 10); (sample_job "b" Failed (Some (U 9)), 11);
   (sample_job "c" Pending None, 12)].
Definition sample_table : TxTable := MkTxTable (row_of <$> sample_jobs) 13.

Lemma sample_table_holds : holds sample_table sample_jobs.
Proof. split; [done|]. apply (bool_decide_unpack _). vm_compute. exact I. Qed.

(** A node at a block height that accepts every transaction. *)
Definition sample_node : TransactionRpc Z := {|
  rpc_GetChainId n := (Ok (U 1), n);
  rpc_GetBlockNumber n := (Ok n, n);
  rpc_GetBlock b n := (Ok (Some (MkBlockHeader (U b) (array_copy 32 []) (array_copy 32 []) (U 0) (Some (U 7)))), n);
  rpc_GetPendingNonce _ n := (Ok (U 3), n);
  rpc_EstimateGas _ n := (Ok (U 21000), n);
  rpc_GetFeeQuote n := (Ok (MkFeeQuote (U 2) (U 16)), n);
  rpc_SendRawTransaction _ n := (Ok (array_copy 32 [x01]), n);
  rpc_GetReceipt _ n := (Ok None, n)
|}.

(** ** Properties *)

(** A row written by [Insert] and [Save] reads back as the job: the decimal,
    hexadecimal, status and [NULL] encodings of all nineteen members are inverted by
    [ParseJob], for every job. *)
Theorem transaction_row_round_trip job now :
  ParseJob (save_row job (insert_row job now)) = Ok job.
Proof. apply (ParseJob_row_of job now). Qed.

(** Claim C33: the table implements a list of jobs.  Inserting adds the job exactly when
    its id is new; a successful save replaces that job and no other, a failed one changes
    nothing; and the active jobs loaded for a wallet are exactly the jobs in the statuses
    [Pending], [Submitted] and [Included]: none is lost, invented or altered. *)
Theorem transaction_table_refines t jobs job chainId wallet :
  holds t jobs ->
  (row_of (job, tt_now t) = insert_row job (tt_now t) ->
   match Insert job t with
   | (Ok true, t') => holds t' (jobs ++ [(job, tt_now t)]) /\ tj_jobId job ∉ job_id <$> jobs
   | (Ok false, t') => t' = t /\ tj_jobId job ∈ job_id <$> jobs
   | (Throw _, _) => False
   end)
  /\ ((forall old, old ∈ jobs -> job_id old = tj_jobId job -> same_origin job (old.1)) ->
      match Save job t with
      | (Ok _, t') => holds t' (replace_job job jobs)
      | (Throw _, t') => t' = t
      end)
  /\ exists loaded, LoadActive chainId wallet t = Ok (loaded.*1)
      /\ loaded ≡ₚ filter (fun job => active_job chainId wallet (job.1) = true) jobs.
Proof.
  intros Hh. split; [intros Hr; by apply Insert_holds|]. split; [|by apply LoadActive_holds].
  intros Ho. destruct (Save job t) as [[[]|e] t'] eqn:E.
  - by eapply Save_holds.
  - by eapply Save_failed.
Qed.

Lemma transaction_table_refines_witness :
  LoadActive (U 1) (sample_address 7) sample_table
    = Ok [sample_job "a" Submitted (Some (U 4)); sample_job "c" Pending None]
  /\ exists loaded, LoadActive (U 1) (sample_address 7) sample_table = Ok (loaded.*1)
     /\ loaded ≡ₚ filter (fun job => active_job (U 1) (sample_address 7) (job.1) = true) sample_jobs.
Proof.
  split; [vm_compute; reflexivity|].
  apply (transaction_table_refines sample_table sample_jobs (sample_job "d" Pending None)).
  exact sample_table_holds.
Defined.

(** Over the table, an allocated nonce is fresh: it is at least the node's pending
    nonce and above the nonce of every job of the wallet that is not [Failed] or
    [Reorged], so saving it cannot collide with a live transaction. *)
Theorem allocated_nonce_fresh {N} `{TransactionRpc N} wallet chainId (st : TxState TxTable N) jobs nonce st' :
  holds (tx_store st) jobs -> AllocateNonce wallet chainId st = (Ok nonce, st') ->
  (exists pending, fst (rpc_GetPendingNonce wallet (tx_net st)) = Ok pending
     /\ value_ pending <= value_ nonce)
  /\ forall job, job ∈ jobs -> holds_nonce chainId wallet (job.1) = true -> tj_nonce (job.1) <> Some nonce.
Proof.
  intros Hh HA. apply AllocateNonce_exact in HA as (pending & stored & Hp & Hs & Hv & _).
  destruct (LoadHighestNonce_holds _ _ chainId wallet Hh) as (highest & E & Hmax).
  change (LoadHighestNonce chainId wallet (tx_store st) = Ok stored) in Hs.
  rewrite E in Hs. injection Hs as <-. split; [exists pending; split; [done|lia]|].
  intros job Hin Hn Hj. assert (nonce ∈ held_nonces chainId wallet jobs) as Hheld.
  { apply list_elem_of_omap. exists job. split; [|done]. by apply list_elem_of_filter. }
  destruct highest as [h|]; simpl in *.
  - destruct Hmax as [_ Hmax]. specialize (Hmax _ Hheld). lia.
  - rewrite Hmax in Hheld. by apply not_elem_of_nil in Hheld.
Qed.

Lemma allocated_nonce_fresh_witness :
  let st := MkTxState (sample_job "c" Pending None) false sample_table 100 [] in
  exists nonce st', @AllocateNonce TxTable Z _ sample_node (sample_address 7) (U 1) st = (Ok nonce, st')
  /\ value_ nonce = 5
  /\ forall job, job ∈ sample_jobs -> holds_nonce (U 1) (sample_address 7) (job.1) = true ->
      tj_nonce (job.1) <> Some nonce.
Proof.
  eexists _, _. split; [vm_compute; reflexivity|]. split; [reflexivity|].
  apply (@allocated_nonce_fresh Z sample_node (sample_address 7) (U 1)
    (MkTxState (sample_job "c" Pending None) false sample_table 100 []) sample_jobs _
    (MkTxState (sample_job "c" Pending None) false sample_table 100 [])).
  - exact sample_table_holds.
  - vm_compute. reflexivity.
Defined.
