(* ===== verification/TxProperties.v ===== *)
(** * TxProperties: what the transaction manager guarantees

    The properties of one [RunOnce] and one [run_job] for any store and node that implement the
    interfaces, with witnesses that run the manager over the table of
    [PostgresTransactionStore.v]. *)

From S2P Require Import Prelude Effects Text Uint256 Hex Rlp Transaction Abi RpcTypes TxManager TxRefinement.
From S2P Require Import PostgresTransactionStore.
Set Default Goal Selector "!".
#[local] Open Scope Z_scope.

Section Guarantees.
Context {S N : Type} `{TransactionStore S} `{TransactionRpc N}.
Context (keccak : Bytes -> Hash256) (sign_recoverable : Hash256 -> option (array 64 * Z)).
Context (signer_address : Address) (config_ : TxManagerConfig) (chainId_ : Uint256).

Abbreviation RunOnce := (RunOnce keccak sign_recoverable signer_address config_ chainId_).
Abbreviation run_job := (run_job keccak sign_recoverable signer_address config_ chainId_).

(** The store hands out jobs the manager can work on. *)
Definition loads_jobs (s : S) : Prop := forall jobs,
  store_LoadActive chainId_ signer_address s = Ok jobs -> Forall loadable jobs.

Lemma RunOnce_passes (st : TxState S N) r st' :
  tm_maximumRetries config_ < 2 ^ 32 -> loads_jobs (tx_store st) -> RunOnce st = (r, st') ->
  (exists jobs, passed keccak sign_recoverable config_ chainId_ (tx_trace st) jobs st'
   /\ match store_LoadActive chainId_ signer_address (tx_store st), r with
      | Ok all, Ok _ => jobs = all
      | Ok all, Throw _ => jobs `prefix_of` all
      | Throw _, _ => jobs = []
      end)
  /\ (r = Throw Undefined -> @env_undefined S N _ _ signer_address chainId_).
Proof using.
  intros Hm HL HR. unfold TxManager.RunOnce, mbind, prog_bind, query in HR.
  destruct (store_LoadActive chainId_ signer_address (tx_store st)) as [all|e] eqn:EL.
  - assert (passed keccak sign_recoverable config_ chainId_ (tx_trace st) [] st) as H0'.
    { exists []. split; [done|constructor]. }
    pose proof (run_jobs_wp keccak sign_recoverable signer_address config_ chainId_ Hm (tx_trace st)
      all [] (MkTxManagerRunResult 0 0 0 0 0 []) st (HL _ EL) H0') as W.
    unfold wp in W. rewrite HR in W. destruct r as [res|e].
    + split; [|done]. exists all. done.
    + destruct W as [(some & Hp & Hs) HU]. split; [by exists some|]. intros [= ->]. auto.
  - injection HR as <- <-. split.
    + exists []. split; [|done]. exists []. split; [done|constructor].
    + intros [= ->]. by eapply ud_active.
Qed.

Lemma run_job_runs j (st : TxState S N) r st' :
  tm_maximumRetries config_ < 2 ^ 32 -> loadable j -> run_job j st = (r, st') ->
  exists tr jl, tx_trace st' = tr ++ tx_trace st
    /\ TxManager.job_run keccak sign_recoverable config_ chainId_ observed j tr jl.
Proof using.
  intros Hm HL HR.
  pose proof (run_job_wp keccak sign_recoverable signer_address config_ chainId_ Hm j (tx_trace st) st
    HL eq_refl) as W.
  unfold wp in W. rewrite HR in W. destruct r; [done|]. by destruct W.
Qed.
End Guarantees.

(** ** Consequences for the saves of one run *)
Section Saves.
Context (keccak : Bytes -> Hash256) (sign_recoverable : Hash256 -> option (array 64 * Z)).
Context (config_ : TxManagerConfig) (chainId_ : Uint256) (observed : TxJob -> TxJob -> Prop).
Abbreviation job_run := (TxManager.job_run keccak sign_recoverable config_ chainId_ observed).

Lemma job_run_saved j0 tr jl j : job_run j0 tr jl -> Saved j ∈ tr -> evolves config_ j0 j.
Proof using.
  intros HR (new & old & ->)%list_elem_of_split. apply job_run_suffix in HR as [j' HR].
  inversion HR; subst. by eapply job_run_evolves.
Qed.

Lemma job_run_after_terminal j0 new j old jl :
  job_run j0 (new ++ Saved j :: old) jl -> terminal (tj_status j) -> forall j', Saved j' ∉ new.
Proof using.
  intros HR HT j' (n1 & n2 & ->)%list_elem_of_split. rewrite <-app_assoc in HR.
  apply job_run_suffix in HR as [jx HR]. inversion HR as [|tr j1 j2 HR' [_ Hs _ _ _ _]| |]; subst.
  rewrite (job_run_terminal _ _ _ _ _ _ _ _ HR' n2 j old eq_refl HT) in Hs.
  by destruct (terminal_final _ _ HT Hs).
Qed.

Lemma BumpFee_exact x y : BumpFee x = Ok y -> value_ y = MathLemmas.cdiv (value_ x * 1125) 1000.
Proof using. unfold BumpFee. intros E. exact_values. by rewrite (U_value 1125), (U_value 1000) in E by lia. Qed.

(** An eighth more, rounded up: more, unless it is nothing. *)
Lemma bumped_more x : 0 <= x ->
  x * 9 <= MathLemmas.cdiv (x * 1125) 1000 * 8 /\ (0 < x -> x < MathLemmas.cdiv (x * 1125) 1000).
Proof using. intros Hx. pose proof (MathLemmas.cdiv_bounds (x * 1125) 1000). lia. Qed.

(** The saves of a replacement: the first one of the run, and the next. *)
Lemma job_run_replacement j0 new j' action ja j old jl :
  job_run j0 (new ++ Saved j' :: Audited action ja :: Saved j :: old) jl ->
  tj_status j = Replaced -> tj_status j' = Submitted ->
  old = [] /\ replacement_starts j0 j /\ evolves config_ j0 j /\ fees_bumped j j' /\ evolves config_ j j'.
Proof using.
  intros HR Hj Hj'. apply job_run_suffix in HR as [jx HR].
  inversion HR as [|tr j1 j2 HR' [He _ Hf _ _ _]| |]; subst.
  inversion HR' as [| |tr2 j3 a2 j4 HR2|]; subst. inversion HR2 as [|tr3 j5 j6 HR3 [He0 _ _ _ _ _] Hr| |]; subst.
  destruct (Hr Hj) as [-> Hstart]. inversion HR3; subst. repeat (split; [done|]). split; [by apply Hf|done].
Qed.
End Saves.

(** ** A concrete manager for the witnesses *)
Definition demo_selector : FunctionSelector := array_copy 4 [x01; x02; x03; x04].
Definition demo_config : TxManagerConfig :=
  MkTxManagerConfig 2 3 3 [MkApprovedCall (sample_address 8) demo_selector 6].
Definition demo_keccak (b : Bytes) : Hash256 := array_copy 32 b.
Definition demo_sign (h : Hash256) : option (array 64 * Z) := Some (array_copy 64 (array_list h), 1).

Definition demo_job (status : TxStatus) (fees : option Uint256) (nonce : option Uint256) : TxJob :=
  MkTxJob "job" (U 1) (sample_address 7) (sample_address 8) (U 0) [x01; x02; x03; x04; x05; x06] status
    nonce fees fees None [] (Some (array_copy 32 [x09])) 1 (Some 100) None None 0 EmptyString.
Definition demo_table (j : TxJob) : TxTable := MkTxTable [row_of (j, 5)] 6.
Definition demo_state (j : TxJob) (node : Z) : TxState TxTable Z :=
  MkTxState j false (demo_table j) node [].

Definition pending_job : TxJob := demo_job Pending None None.
Definition stale_job : TxJob := demo_job Submitted (Some (U 80)) (Some (U 4)).

Lemma demo_LoadActive j :
  active_job (U 1) (sample_address 7) j = true ->
  LoadActive (U 1) (sample_address 7) (demo_table j) = Ok [j].
Proof.
  intros Ha. destruct (LoadActive_holds (demo_table j) [(j, 5)] (U 1) (sample_address 7)) as (l & -> & Hp).
  { split; [done|]. apply NoDup_singleton. }
  rewrite list_filter_all in Hp by (apply Forall_singleton; exact Ha).
  apply Permutation_singleton_r in Hp. by rewrite Hp.
Qed.

Lemma demo_loads (j : TxJob) (n : Z) :
  loadable j -> active_job (U 1) (sample_address 7) j = true ->
  loads_jobs (sample_address 7) (U 1) (tx_store (demo_state j n)).
Proof.
  intros Hj Ha jobs Hl. change (LoadActive (U 1) (sample_address 7) (demo_table j) = Ok jobs) in Hl.
  rewrite (demo_LoadActive j Ha) in Hl. injection Hl as <-. by apply Forall_singleton.
Qed.

Lemma pending_loadable : loadable pending_job.
Proof. split; [by left|]. split; [split; discriminate|]. by apply Z.leb_le. Qed.
Lemma stale_loadable : loadable stale_job.
Proof. split; [right; by left|]. split; [split; [eauto|discriminate]|]. by apply Z.leb_le. Qed.

(** One pass over a table with one job. *)
Definition demo_pass (node : TransactionRpc Z) (j : TxJob) : result TxManagerRunResult * TxState TxTable Z :=
  @RunOnce TxTable Z _ node demo_keccak demo_sign (sample_address 7) demo_config (U 1) (demo_state j 100).

Lemma demo_pass_eq node j :
  @RunOnce TxTable Z _ node demo_keccak demo_sign (sample_address 7) demo_config (U 1) (demo_state j 100)
  = (fst (demo_pass node j), snd (demo_pass node j)).
Proof. apply surjective_pairing. Qed.

(** ** Properties *)

(** Claim C3: whatever the store and the node answer, and wherever they throw, the calls of
    one [RunOnce] are those of a pass over the loaded jobs in which every job follows the
    automaton [job_run]: saves move only along the status transitions [tx_step], a
    replacement raises both fees, a job becomes [Included] only by a successful receipt of its
    transaction, [Finalized] only when the node shows the block of that receipt under its number
    and the configured confirmations, and [Reorged] only when it shows another block or none;
    a transaction is broadcast only right after its authorised job was saved.  A pass that returns covers all loaded jobs; one that throws, a prefix. *)
Theorem RunOnce_contract {S N} `{TransactionStore S} `{TransactionRpc N} keccak sign_recoverable
    signer config chainId (st : TxState S N) r st' :
  tm_maximumRetries config < 2 ^ 32 -> loads_jobs signer chainId (tx_store st) ->
  RunOnce keccak sign_recoverable signer config chainId st = (r, st') ->
  exists jobs tr, tx_trace st' = tr ++ tx_trace st
    /\ pass keccak sign_recoverable config chainId observed jobs tr
    /\ match store_LoadActive chainId signer (tx_store st), r with
       | Ok all, Ok _ => jobs = all
       | Ok all, Throw _ => jobs `prefix_of` all
       | Throw _, _ => jobs = []
       end.
Proof.
  intros Hm HL HR. destruct (RunOnce_passes _ _ _ _ _ _ _ _ Hm HL HR) as [(jobs & (tr & Ht & HP) & HJ) _].
  by exists jobs, tr.
Qed.

Lemma RunOnce_contract_witness :
  exists jobs tr, tr <> [] /\ pass demo_keccak demo_sign demo_config (U 1) (@observed Z sample_node) jobs tr
    /\ tr = tx_trace (snd (demo_pass sample_node pending_job)).
Proof.
  destruct (@RunOnce_contract TxTable Z _ sample_node demo_keccak demo_sign (sample_address 7) demo_config (U 1)
    (demo_state pending_job 100) (fst (demo_pass sample_node pending_job)) (snd (demo_pass sample_node pending_job))
    eq_refl (demo_loads pending_job 100 pending_loadable eq_refl) (demo_pass_eq sample_node pending_job))
    as (jobs & tr & Ht & HP & _).
  exists jobs, tr. rewrite app_nil_r in Ht. split; [|split; [exact HP|exact (eq_sym Ht)]].
  rewrite <-Ht. vm_compute. discriminate.
Defined.

(** Claim C5: approval and persistence before broadcast.  Every raw transaction handed to
    the node was, in the call just before, saved as the raw transaction of a job in
    status [Submitted] with its hash; that job passed the approval policy, is one of the
    loaded jobs with its destination, value and calldata unchanged, and the raw
    transaction is the signature of exactly its nonce, fees, gas limit, destination, value
    and calldata for this chain.  So a crash after a broadcast never loses the
    transaction, and nothing outside the policy is ever signed and sent. *)
Theorem broadcast_authorised {S N} `{TransactionStore S} `{TransactionRpc N} keccak sign_recoverable
    signer config chainId (st : TxState S N) r st' new raw old :
  tm_maximumRetries config < 2 ^ 32 -> loads_jobs signer chainId (tx_store st) -> tx_trace st = [] ->
  RunOnce keccak sign_recoverable signer config chainId st = (r, st') ->
  tx_trace st' = new ++ Sent raw :: old ->
  exists all j0 j old', store_LoadActive chainId signer (tx_store st) = Ok all /\ j0 ∈ all
    /\ old = Audited "approved" j :: Saved j :: old'
    /\ authorised keccak sign_recoverable config chainId j raw
    /\ tj_to j = tj_to j0 /\ tj_value j = tj_value j0 /\ tj_data j = tj_data j0.
Proof.
  intros Hm HL Ht0 HR Hs. destruct (RunOnce_passes _ _ _ _ _ _ _ _ Hm HL HR) as [(jobs & (tr & Ht & HP) & HJ) _].
  rewrite Ht0, app_nil_r in Ht. rewrite Ht in Hs.
  destruct (pass_broadcast _ _ _ _ _ _ _ _ _ _ HP Hs) as (j0 & j & old' & Hin & -> & HA & []).
  destruct (store_LoadActive chainId signer (tx_store st)) as [all|e].
  - exists all, j0, j, old'. split; [done|]. split; [|auto].
    destruct r; [by subst|]. destruct HJ as [rest ->]. apply elem_of_app. by left.
  - subst. by apply not_elem_of_nil in Hin.
Qed.

(** The raw transaction broadcast in the sample run, the third newest call. *)
Abbreviation demo_trace := (tx_trace (snd (demo_pass sample_node pending_job))).
Definition demo_raw : Bytes := match demo_trace !! 2%nat with Some (Sent raw) => raw | _ => [] end.

Lemma demo_trace_sent : demo_trace = take 2 demo_trace ++ Sent demo_raw :: drop 3 demo_trace.
Proof.
  assert (match demo_trace !! 2%nat with Some (Sent _) => true | _ => false end = true) as E
    by (vm_compute; reflexivity).
  unfold demo_raw. destruct (demo_trace !! 2%nat) as [[|raw|]|] eqn:El; try discriminate E.
  symmetry. by apply take_drop_middle.
Qed.

Lemma broadcast_authorised_witness :
  exists j, authorised demo_keccak demo_sign demo_config (U 1) j demo_raw /\ tj_to j = sample_address 8.
Proof.
  destruct (@broadcast_authorised TxTable Z _ sample_node demo_keccak demo_sign (sample_address 7) demo_config (U 1)
    (demo_state pending_job 100) (fst (demo_pass sample_node pending_job)) (snd (demo_pass sample_node pending_job))
    (take 2 demo_trace) demo_raw (drop 3 demo_trace)
    eq_refl (demo_loads pending_job 100 pending_loadable eq_refl) eq_refl
    (demo_pass_eq sample_node pending_job) demo_trace_sent)
    as (all & j0 & j & old' & HL & Hin & _ & HA & Hto & _).
  change (LoadActive (U 1) (sample_address 7) (demo_table pending_job) = Ok all) in HL.
  rewrite (demo_LoadActive pending_job eq_refl) in HL. injection HL as <-.
  apply list_elem_of_singleton in Hin as ->. exists j. split; [exact HA|exact Hto].
Defined.

(** A store in memory that holds one job. *)
Definition memory_store : TransactionStore TxJob := {|
  store_Insert _ s := (Ok false, s);
  store_LoadActive _ _ s := Ok [s];
  store_LoadHighestNonce _ _ s := Ok (tj_nonce s);
  store_Save j _ := (Ok tt, j)
|}.

(** [Finalized], [Failed] and [Reorged] are final: in the run of one job, nothing is
    saved after a save in one of these statuses. *)
Theorem terminal_status_final {S N} `{TransactionStore S} `{TransactionRpc N} keccak sign_recoverable
    signer config chainId j (st : TxState S N) r st' new j1 old :
  tm_maximumRetries config < 2 ^ 32 -> loadable j -> tx_trace st = [] ->
  run_job keccak sign_recoverable signer config chainId j st = (r, st') ->
  tx_trace st' = new ++ Saved j1 :: old -> terminal (tj_status j1) -> forall j2, Saved j2 ∉ new.
Proof.
  intros Hm HL Ht0 HR Hs HT. destruct (run_job_runs _ _ _ _ _ _ _ _ _ Hm HL HR) as (tr & jl & Ht & Hrun).
  rewrite Ht0, app_nil_r in Ht. rewrite Ht in Hs. subst tr. by eapply job_run_after_terminal.
Qed.

(** An unapproved job is rejected: one save, in a final status. *)
Definition foreign_job : TxJob := set_rawTransaction [x00] (MkTxJob "x" (U 1) (sample_address 7) (sample_address 9)
  (U 0) [] Pending None None None None [] None 0 None None None 0 EmptyString).

Lemma terminal_status_final_witness :
  tj_status (set_errorMessage "transaction rejected by approval policy" (set_status Failed foreign_job)) = Failed
  /\ forall j2, Saved j2 ∉ [Audited "rejected"
       (set_errorMessage "transaction rejected by approval policy" (set_status Failed foreign_job))].
Proof.
  split; [reflexivity|].
  apply (@terminal_status_final TxJob Z memory_store sample_node demo_keccak demo_sign (sample_address 7)
    demo_config (U 1) foreign_job (MkTxState foreign_job false foreign_job 100 []) (Ok tt)
    (snd (@run_job TxJob Z memory_store sample_node demo_keccak demo_sign (sample_address 7)
      demo_config (U 1) foreign_job (MkTxState foreign_job false foreign_job 100 [])))
    _ (set_errorMessage "transaction rejected by approval policy" (set_status Failed foreign_job)) []).
  - reflexivity.
  - split; [by left|]. split; [split; discriminate|]. by apply Z.leb_le.
  - reflexivity.
  - reflexivity.
  - reflexivity.
  - right. by left.
Defined.

(** Claim C23: "replaces stale submissions with the same nonce and increased fees": when a run
    saves a job as [Replaced] and then as [Submitted], the first is the first save of the run
    and has the fees of the loaded job [j0] and its nonce; the second has that nonce too, the
    receiver, the value and the calldata of [j0], and both its fees are exactly 1125/1000 of
    those, rounded up: at least an eighth more, and more than before unless they are zero. *)
Theorem replacement_same_nonce_higher_fees {S N} `{TransactionStore S} `{TransactionRpc N} keccak
    sign_recoverable signer config chainId j0 (st : TxState S N) r st' new j' action ja j old :
  tm_maximumRetries config < 2 ^ 32 -> loadable j0 -> tx_trace st = [] ->
  run_job keccak sign_recoverable signer config chainId j0 st = (r, st') ->
  tx_trace st' = new ++ Saved j' :: Audited action ja :: Saved j :: old ->
  tj_status j = Replaced -> tj_status j' = Submitted ->
  old = []
  /\ tj_to j' = tj_to j0 /\ tj_value j' = tj_value j0 /\ tj_data j' = tj_data j0
  /\ exists nonce p f p' f', tj_nonce j = Some nonce /\ tj_nonce j' = Some nonce
      /\ (is_Some (tj_nonce j0) -> tj_nonce j0 = Some nonce)
      /\ tj_maxPriorityFeePerGas j0 = Some p /\ tj_maxFeePerGas j0 = Some f
      /\ tj_maxPriorityFeePerGas j = Some p /\ tj_maxFeePerGas j = Some f
      /\ tj_maxPriorityFeePerGas j' = Some p' /\ tj_maxFeePerGas j' = Some f'
      /\ value_ p' = MathLemmas.cdiv (value_ p * 1125) 1000 /\ value_ f' = MathLemmas.cdiv (value_ f * 1125) 1000
      /\ value_ p * 9 <= value_ p' * 8 /\ value_ f * 9 <= value_ f' * 8
      /\ (0 < value_ p -> value_ p < value_ p') /\ (0 < value_ f -> value_ f < value_ f').
Proof.
  intros Hm HL Ht0 HR Hs Hj Hj'. destruct (run_job_runs _ _ _ _ _ _ _ _ _ Hm HL HR) as (tr & jl & Ht & Hrun).
  rewrite Ht0, app_nil_r in Ht. rewrite Ht in Hs. subst tr.
  destruct (job_run_replacement _ _ _ _ _ _ _ _ _ _ _ _ _ Hrun Hj Hj')
    as (-> & ([nonce En] & Ep & Ef) & [] & (p & f & p' & f' & Hp & Hf & Hp' & Hf' & Bp & Bf) & []).
  split; [done|]. split; [congruence|]. split; [congruence|]. split; [congruence|]. exists nonce, p, f, p', f'.
  pose proof (BumpFee_exact _ _ Bp) as Xp. pose proof (BumpFee_exact _ _ Bf) as Xf. rewrite Xp, Xf.
  destruct (bumped_more (value_ p)) as [? ?]; [apply uval_range|]. destruct (bumped_more (value_ f)) as [? ?]; [apply uval_range|].
  split; [done|]. split; [rewrite <-En; auto|]. split; [intros Hn; rewrite <-En; symmetry; auto|].
  split; [congruence|]. split; [congruence|]. auto 12.
Qed.

(** The stale job, 100 blocks later, is replaced. *)
Definition demo_replacement : result unit * TxState TxJob Z :=
  @run_job TxJob Z memory_store sample_node demo_keccak demo_sign (sample_address 7) demo_config (U 1)
    stale_job (MkTxState stale_job false stale_job 200 []).

Lemma demo_replacement_eq :
  @run_job TxJob Z memory_store sample_node demo_keccak demo_sign (sample_address 7) demo_config (U 1)
    stale_job (MkTxState stale_job false stale_job 200 []) = (fst demo_replacement, snd demo_replacement).
Proof. unfold demo_replacement. apply surjective_pairing. Qed.

Lemma replacement_same_nonce_higher_fees_witness :
  exists j j', tj_status j = Replaced /\ tj_status j' = Submitted /\ tj_to j' = tj_to stale_job
  /\ exists nonce p f p' f', tj_nonce j = Some nonce /\ tj_nonce j' = Some nonce
      /\ tj_maxPriorityFeePerGas stale_job = Some p /\ tj_maxFeePerGas stale_job = Some f
      /\ tj_maxPriorityFeePerGas j' = Some p' /\ tj_maxFeePerGas j' = Some f'
      /\ value_ p < value_ p' /\ value_ f < value_ f'.
Proof.
  assert (match tx_trace (snd demo_replacement) with
          | _ :: _ :: _ :: _ :: Saved j' :: Audited _ _ :: Saved j :: [] =>
              bool_decide (tj_status j = Replaced) && bool_decide (tj_status j' = Submitted)
          | _ => false
          end = true) as E by (vm_compute; reflexivity).
  destruct (tx_trace (snd demo_replacement))
    as [|e1 [|e2 [|e3 [|e4 [|[j'| |] [|[|  |action ja] [|[j| |] [|? ?]]]]]]]] eqn:Et; try discriminate E.
  apply andb_true_iff in E as [E1 E2]. apply bool_decide_eq_true in E1, E2.
  exists j, j'. split; [exact E1|]. split; [exact E2|].
  destruct (@replacement_same_nonce_higher_fees TxJob Z memory_store sample_node demo_keccak demo_sign
    (sample_address 7) demo_config (U 1) stale_job (MkTxState stale_job false stale_job 200 [])
    (fst demo_replacement) (snd demo_replacement) [e1; e2; e3; e4] j' action ja j []
    eq_refl stale_loadable eq_refl demo_replacement_eq Et E1 E2)
    as (_ & Hto & _ & _ & nonce & p & f & p' & f' & En & En' & _ & Ep & Ef & _ & _ & Ep' & Ef' & _ & _ & _ & _ & Hp & Hf).
  split; [exact Hto|]. exists nonce, p, f, p', f'. do 6 (split; [assumption|]).
  assert (value_ p = 80 /\ value_ f = 80) as [Vp Vf].
  { cbn [stale_job demo_job tj_maxPriorityFeePerGas tj_maxFeePerGas] in Ep, Ef. injection Ep as <-. injection Ef as <-. split; reflexivity. }
  split; [apply Hp|apply Hf]; rewrite ?Vp, ?Vf; reflexivity.
Defined.

(** The queued call is what is executed, and retries are bounded: every job saved in a
    run has the destination, value, calldata, chain and wallet it was queued with, keeps a
    nonce and gas limit once it has them, and its retry count never passes the configured
    maximum (or its value before). *)
Theorem saved_jobs_evolve {S N} `{TransactionStore S} `{TransactionRpc N} keccak sign_recoverable
    signer config chainId j0 (st : TxState S N) r st' j :
  tm_maximumRetries config < 2 ^ 32 -> loadable j0 -> tx_trace st = [] ->
  run_job keccak sign_recoverable signer config chainId j0 st = (r, st') ->
  Saved j ∈ tx_trace st' -> evolves config j0 j.
Proof.
  intros Hm HL Ht0 HR Hs. destruct (run_job_runs _ _ _ _ _ _ _ _ _ Hm HL HR) as (tr & jl & Ht & Hrun).
  rewrite Ht0, app_nil_r in Ht. rewrite Ht in Hs. by eapply job_run_saved.
Qed.

Lemma saved_jobs_evolve_witness : exists j, evolves demo_config stale_job j /\ tj_status j = Replaced.
Proof.
  assert (match tx_trace (snd demo_replacement) !! 6%nat with
          | Some (Saved j) => bool_decide (tj_status j = Replaced) | _ => false end = true) as E
    by (vm_compute; reflexivity).
  destruct (tx_trace (snd demo_replacement) !! 6%nat) as [[j| |]|] eqn:Et; try discriminate E.
  apply bool_decide_eq_true in E. exists j. split; [|exact E].
  apply (@saved_jobs_evolve TxJob Z memory_store sample_node demo_keccak demo_sign
    (sample_address 7) demo_config (U 1) stale_job (MkTxState stale_job false stale_job 200 [])
    (fst demo_replacement) (snd demo_replacement) j
    eq_refl stale_loadable eq_refl demo_replacement_eq).
  exact (list_elem_of_lookup_2 _ _ _ Et).
Defined.
