(* ===== verification/TxSteps.v ===== *)
(** * TxSteps: what the manager does to its state, one call at a time

    Every execution of [run_job] is a sequence of assignments to the job in memory, calls of
    the node, saves, audits, broadcasts of what was just signed and saved, and one
    allocation of a nonce.  An invariant that each of these keeps ([closed]) is kept by
    [Submit] and [Poll]; [TxLedger.v] and [TxHistory.v] apply this to what they follow over
    the life of the service, which is defined here. *)

From S2P Require Import Prelude Effects Loop Text Uint256 Hex Rlp Transaction Abi RpcTypes TxManager TxRefinement.
From S2P Require Import PostgresTransactionStore.
Set Default Goal Selector "!".
#[local] Open Scope Z_scope.

(** An assignment that leaves the call and the nonce. *)
Definition calm (f : TxJob -> TxJob) : Prop := forall j, same_origin (f j) j /\ tj_nonce (f j) = tj_nonce j.

Section Steps.
Context {S N : Type} `{TransactionStore S} `{TransactionRpc N}.
Context (keccak : Bytes -> Hash256) (sign_recoverable : Hash256 -> option (array 64 * Z)).
Context (signer_address : Address) (config_ : TxManagerConfig) (chainId_ : Uint256).

Abbreviation St := (TxState S N).

(** An allocation changes nothing but the node. *)
Lemma AllocateNonce_frame nonce (st : St) j b s n tr :
  AllocateNonce signer_address chainId_ st = (Ok nonce, MkTxState j b s n tr) ->
  j = tx_job st /\ s = tx_store st /\ tr = tx_trace st.
Proof using.
  intros EA. unfold AllocateNonce, call, query, lift, mbind, prog_bind, mret, prog_ret in EA.
  destruct (rpc_GetPendingNonce _ _) as [[p|e] n']; [|done]. cbn in EA.
  destruct (store_LoadHighestNonce _ _ _) as [[k|]|e]; [|by injection EA as _ <-|done].
  destruct (add _ _); [|done]. by injection EA as _ <-.
Qed.

Record closed (P : St -> Prop) : Prop := {
  cl_update f j b s n tr : calm f -> P (MkTxState j b s n tr) -> P (MkTxState (f j) b s n tr);
  cl_attempted b' j b s n tr : P (MkTxState j b s n tr) -> P (MkTxState j b' s n tr);
  cl_call n' j b s n tr : P (MkTxState j b s n tr) -> P (MkTxState j b s n' tr);
  cl_audit action j b s n tr : P (MkTxState j b s n tr) -> P (MkTxState j b s n (Audited action j :: tr));
  cl_saved s' j b s n tr : store_Save j s = (Ok tt, s') -> P (MkTxState j b s n tr) -> P (MkTxState j b s' n (Saved j :: tr));
  cl_not_saved e s' j b s n tr : store_Save j s = (Throw e, s') -> P (MkTxState j b s n tr) -> P (MkTxState j b s' n tr);
  cl_nonce nonce st j b s n tr : tj_nonce (tx_job st) = None -> P st ->
    AllocateNonce signer_address chainId_ st = (Ok nonce, MkTxState j b s n tr) -> P (MkTxState (set_nonce (Some nonce) j) b s n tr);
  cl_send nonce priority fee gas raw j b s n tr : tj_nonce j = Some nonce -> tj_status j = Submitted ->
    SignTransaction keccak sign_recoverable
      (MkEip1559Transaction chainId_ nonce priority fee gas (Some (tj_to j)) (tj_value j) (tj_data j)) = Ok raw ->
    P (MkTxState j b s n (Audited "approved" j :: Saved j :: tr)) ->
    P (MkTxState j b s n (Sent raw :: Audited "approved" j :: Saved j :: tr))
}.

Section Closed.
Context (P : St -> Prop) (steps : closed P).
Abbreviation keeps := (preserves P).

Lemma keeps_update f : calm f -> keeps (update f).
Proof using steps. intros Hf. apply preserves_modify. intros [j b s n tr]. by apply (cl_update _ steps). Qed.

Lemma keeps_get_job : keeps get_job.
Proof using. by intros st HP. Qed.

Lemma keeps_set_attempted b : keeps (set_attempted b).
Proof using steps. apply preserves_modify. intros [j b' s n tr]. apply (cl_attempted _ steps). Qed.

Lemma keeps_call {A} (f : N -> result A * N) : keeps (call f).
Proof using steps. intros [j b s n tr] HP. apply wp_call; intros; by eapply (cl_call _ steps). Qed.

Lemma keeps_query {A} (f : S -> result A) : keeps (query f).
Proof using. intros st HP. by apply wp_query. Qed.

Lemma keeps_deref {A} (o : option A) : keeps (deref o).
Proof using. apply preserves_lift. Qed.

Lemma Audit_keeps action : keeps (Audit action).
Proof using steps. intros [j b s n tr] HP. apply wp_Audit. by apply (cl_audit _ steps). Qed.

Lemma Save_step j b s n tr (Q : unit -> St -> Prop) E : P (MkTxState j b s n tr) ->
  (forall s', P (MkTxState j b s' n (Saved j :: tr)) -> Q tt (MkTxState j b s' n (Saved j :: tr))) ->
  (forall e s', P (MkTxState j b s' n tr) -> E e (MkTxState j b s' n tr)) -> wp TxManager.Save Q E (MkTxState j b s n tr).
Proof using steps.
  intros HP HQ HE. unfold wp, TxManager.Save. cbn [tx_job tx_store tx_net tx_trace tx_broadcastAttempted].
  destruct (store_Save j s) as [[[]|e] s'] eqn:E'; [by apply HQ, (cl_saved _ steps s' j b s)|].
  by eapply HE, (cl_not_saved _ steps e s' j b s).
Qed.

Lemma Save_keeps : keeps TxManager.Save.
Proof using steps. intros [j b s n tr] HP. by apply Save_step. Qed.

(** The nonce is allocated before anything is saved. *)
Lemma AllocateNonce_keeps : keeps (AllocateNonce signer_address chainId_).
Proof using steps.
  unfold AllocateNonce. apply preserves_bind; [apply keeps_call|]. intros pending.
  apply preserves_bind; [apply keeps_query|]. intros [stored|]; [|apply preserves_ret].
  apply preserves_bind; [apply preserves_lift|]. intros next. apply preserves_ret.
Qed.

Lemma nonce_keeps st : tj_nonce (tx_job st) = None -> P st ->
  wp (nonce ← AllocateNonce signer_address chainId_; update (set_nonce (Some nonce))) (fun _ => P) (fun _ => P) st.
Proof using steps.
  intros Hn HP. pose proof (AllocateNonce_keeps st HP) as HA. apply wp_bind. unfold wp in HA |- * at 1.
  destruct (AllocateNonce signer_address chainId_ st) as [[nonce|e] [j b s n tr]] eqn:EA; [|done].
  apply wp_update. by eapply (cl_nonce _ steps).
Qed.

(** One step of a program that keeps the invariant. *)
Ltac keeps_step :=
  lazymatch goal with
  | |- preserves _ (mbind _ _) => apply preserves_bind; [|intros ?]
  | |- preserves _ (mret _) => apply preserves_ret
  | |- preserves _ (lift _) => apply preserves_lift
  | |- preserves _ get => apply preserves_get
  | |- preserves _ get_job => apply keeps_get_job
  | |- preserves _ (update _) => apply keeps_update; by intros ?
  | |- preserves _ (set_attempted _) => apply keeps_set_attempted
  | |- preserves _ (call _) => apply keeps_call
  | |- preserves _ (deref _) => apply keeps_deref
  | |- preserves _ (Audit _) => apply Audit_keeps
  | |- preserves _ TxManager.Save => apply Save_keeps
  | |- preserves _ (when _ _) => apply preserves_when
  | |- preserves _ (if ?c then _ else _) => destruct c
  | |- preserves _ (let _ := _ in _) => cbv zeta
  | |- preserves _ (match ?x with _ => _ end) => destruct x
  end.

Lemma submit_prepare_keeps retry : keeps (submit_prepare signer_address chainId_ retry).
Proof using steps.
  intros st HP. unfold submit_prepare. apply wp_bind, wp_get_job. apply wp_bind.
  eapply (wp_mono _ (fun _ => P) _ (fun _ => P)); [| |done].
  - destruct (tj_nonce (tx_job st)) eqn:En; [by apply wp_ret|by apply nonce_keeps].
  - intros [] st1 HP1. revert st1 HP1. change (keeps (job ← get_job;
      (match tj_gasLimit job with
       | Some _ => mret tt
       | None =>
           gas ← call (rpc_EstimateGas (MkTransactionCall (Some signer_address) (tj_to job) (tj_data job) (tj_value job)));
           update (set_gasLimit (Some gas))
       end;;
       job ← get_job;
       match retry, tj_maxPriorityFeePerGas job, tj_maxFeePerGas job with
       | true, Some priority, Some fee =>
           update (set_status Replaced);; TxManager.Save;; Audit "replaced";;
           priority ← lift (BumpFee priority);
           update (set_maxPriorityFeePerGas (Some priority));;
           fee ← lift (BumpFee fee);
           update (set_maxFeePerGas (Some fee))
       | _, _, _ =>
           fees ← call rpc_GetFeeQuote;
           update (set_maxPriorityFeePerGas (Some (fq_maxPriorityFeePerGas fees)));;
           update (set_maxFeePerGas (Some (fq_maxFeePerGas fees)))
       end))).
    repeat keeps_step.
Qed.

Lemma submit_failed_keeps kind msg : keeps (submit_failed config_ kind msg).
Proof using steps. unfold submit_failed. repeat keeps_step. Qed.

Lemma submit_broadcast_keeps : keeps (submit_broadcast keccak sign_recoverable chainId_).
Proof using steps.
  intros [j b s n tr] HP. unfold submit_broadcast. apply wp_bind, wp_get_job. cbn [tx_job].
  destruct (tj_nonce j) as [nonce|] eqn:Enonce; [|exact HP].
  destruct (tj_maxPriorityFeePerGas j) as [priority|]; [|exact HP].
  destruct (tj_maxFeePerGas j) as [fee|]; [|exact HP]. destruct (tj_gasLimit j) as [gas|]; [|exact HP].
  do 4 (apply wp_bind, wp_deref; [by eexists|]; intros ? [= <-]). apply wp_bind, wp_lift; [|done]. intros raw Eraw.
  do 2 (apply wp_bind, wp_update). apply wp_bind, wp_call.
  2:{ intros e n' _. apply (cl_update _ steps (fun j => set_status Submitted (set_rawTransaction raw j))); [by intros ?|].
      by apply (cl_call _ steps n' _ _ _ n). }
  intros head n1 _. do 6 (apply wp_bind, wp_update). change (set_errorMessage _ _) with (signed_job keccak raw head j).
  assert (P (MkTxState (signed_job keccak raw head j) b s n1 tr)) as HP1.
  { apply (cl_update _ steps (signed_job keccak raw head)); [by intros ?|]. by apply (cl_call _ steps n1 _ _ _ n). }
  apply wp_bind, Save_step; [done| |done]. intros s1 HP2. apply wp_bind, wp_Audit, wp_bind, wp_modify, wp_bind, wp_modify.
  cbn [tx_job tx_store tx_net tx_trace tx_broadcastAttempted].
  assert (P (MkTxState (signed_job keccak raw head j) true s1 n1
    (Sent raw :: Audited "approved" (signed_job keccak raw head j) :: Saved (signed_job keccak raw head j) :: tr))) as HP3.
  { eapply (cl_send _ steps nonce priority fee gas); [exact Enonce|done|exact Eraw|].
    apply (cl_audit _ steps). by apply (cl_attempted _ steps true _ b). }
  revert HP3. generalize (MkTxState (signed_job keccak raw head j) true s1 n1
    (Sent raw :: Audited "approved" (signed_job keccak raw head j) :: Saved (signed_job keccak raw head j) :: tr)).
  change (keeps (submittedHash ← call (rpc_SendRawTransaction raw);
      update (set_transactionHash (Some submittedHash));; TxManager.Save;; Audit "broadcast")). repeat keeps_step.
Qed.

Lemma Submit_keeps retry : keeps (Submit keccak sign_recoverable signer_address config_ chainId_ retry).
Proof using steps.
  unfold Submit. keeps_step; [keeps_step|]. keeps_step; [repeat keeps_step|]. keeps_step; [keeps_step|].
  apply preserves_catch_rpc; [|apply submit_failed_keeps]. keeps_step; [repeat keeps_step|].
  keeps_step; [repeat keeps_step|]. keeps_step; [apply submit_prepare_keeps|apply submit_broadcast_keeps].
Qed.

Lemma Poll_keeps : keeps (Poll keccak sign_recoverable signer_address config_ chainId_).
Proof using steps.
  unfold Poll, poll_submitted, poll_included. repeat first [apply Submit_keeps | keeps_step].
Qed.
End Closed.
End Steps.

(** ** The life of the service *)
Section Life.
Context {N : Type} `{TransactionRpc N}.
Context (keccak : Bytes -> Hash256) (sign_recoverable : Hash256 -> option (array 64 * Z)).
Context (signer_address : Address) (config_ : TxManagerConfig) (chainId_ : Uint256).

(** An iteration of the loop of [main]; what it counts only feeds the metrics. *)
Definition tx_iteration : prog (TxState TxTable N) unit :=
  RunOnce keccak sign_recoverable signer_address config_ chainId_;; mret tt.

(** The life of the service: its iterations, and the jobs that are queued in between. *)
Inductive TxCommand :=
| Iterate
| QueueJob (jobId : string) (to : Address) (data : Bytes) (value : Uint256) (now : Z).

Definition perform_tx (st : TxState TxTable N) (command : TxCommand) : TxState TxTable N :=
  match command with
  | Iterate => (guarded false tx_iteration st).2
  | QueueJob jobId to data value now =>
      MkTxState (tx_job st) (tx_broadcastAttempted st)
        (Queue signer_address chainId_ jobId to data value (MkTxTable (tt_rows (tx_store st)) now)).2
        (tx_net st) (tx_trace st)
  end.

Definition live (commands : list TxCommand) (st : TxState TxTable N) : TxState TxTable N := foldl perform_tx st commands.

End Life.
