(* ===== verification/TxLedger.v ===== *)
(** * TxLedger: one nonce, one job

    Over the whole life of the service, the transactions it sends under one nonce belong to
    one job, unless that job was given up before: an invariant of the steps of [TxSteps.v]
    over the table of [PostgresTransactionStore.v].  With the operator's key, what is sent
    shows the operator as its sender. *)

From S2P Require Import Prelude Effects Loop Text Uint256 Hex Rlp Transaction Signer Abi RpcTypes TxManager TxRefinement.
From S2P Require Import PostgresTransactionStore TxSteps TxProperties.
Set Default Goal Selector "!".
#[local] Open Scope Z_scope.

(** ** What the calls so far and the table have in common *)
Section Ledger.
Context (keccak : Bytes -> Hash256) (sign_recoverable : Hash256 -> option (array 64 * Z)).
Context (signer_address : Address) (chainId_ : Uint256).

Abbreviation mine := (fun j => tj_chainId j = chainId_ /\ tj_wallet j = signer_address).

(** A job of the wallet that holds a nonce: it has neither failed nor been reorganised away. *)
Definition holding (k : Uint256) (j : TxJob) : Prop :=
  holds_nonce chainId_ signer_address j = true /\ tj_nonce j = Some k.

Lemma holding_intro k j : mine j -> tj_nonce j = Some k -> tj_status j ∉ [Failed; Reorged] -> holding k j.
Proof using.
  intros [Hc Hw] Hk Hs. split; [|done]. unfold holds_nonce. by rewrite (bool_decide_eq_true_2 _ Hc), (bool_decide_eq_true_2 _ Hw), bool_decide_eq_false_2.
Qed.

(** Among these calls, the job is saved as one that has been given up. *)
Definition released_in (id : string) (tr : list TxEffect) : Prop :=
  exists j, Saved j ∈ tr /\ tj_jobId j = id /\ (tj_status j = Failed \/ tj_status j = Reorged).

Lemma released_mono id tr tr' : (forall e, e ∈ tr -> e ∈ tr') -> released_in id tr -> released_in id tr'.
Proof using. intros Hs (j & Hj & ?). exists j. auto. Qed.

(** The raw transaction signed for a job under the nonce [k]. *)
Definition signed (j : TxJob) (k : Uint256) (raw : Bytes) : Prop := holding k j /\ exists priority fee gas,
  SignTransaction keccak sign_recoverable
    (MkEip1559Transaction chainId_ k priority fee gas (Some (tj_to j)) (tj_value j) (tj_data j)) = Ok raw.

Record ledger (jobs : list (TxJob * Z)) (tr : list TxEffect) : Prop := {
  (** No two jobs hold the same nonce. *)
  lg_exclusive k a b : a ∈ jobs -> b ∈ jobs -> holding k (a.1) -> holding k (b.1) -> job_id a = job_id b;
  (** A saved job holds its nonce until it is given up. *)
  lg_saved new j old k : tr = new ++ Saved j :: old -> holding k j ->
    released_in (tj_jobId j) new \/ exists a, a ∈ jobs /\ job_id a = tj_jobId j /\ holding k (a.1);
  lg_order new j2 mid j1 old k : tr = new ++ Saved j2 :: mid ++ Saved j1 :: old -> holding k j1 -> holding k j2 ->
    tj_jobId j1 = tj_jobId j2 \/ released_in (tj_jobId j1) mid;
  (** What is sent was signed for the job saved just before. *)
  lg_sent new raw old : tr = new ++ Sent raw :: old ->
    exists j k old', old = Audited "approved" j :: Saved j :: old' /\ signed j k raw
}.

Lemma ledger_empty jobs :
  (forall k a b, a ∈ jobs -> b ∈ jobs -> holding k (a.1) -> holding k (b.1) -> job_id a = job_id b) -> ledger jobs [].
Proof using.
  intros He. split; [done|..].
  - intros new j old k E. by destruct (app_cons_not_nil new old (Saved j)).
  - intros new j2 mid j1 old k E. by destruct (app_cons_not_nil new (mid ++ Saved j1 :: old) (Saved j2)).
  - intros new raw old E. by destruct (app_cons_not_nil new old (Sent raw)).
Qed.

(** A call that is neither a save nor a broadcast. *)
Lemma ledger_audit jobs action j tr : ledger jobs tr -> ledger jobs (Audited action j :: tr).
Proof using.
  intros [He Hs Ho Hsent]. split; [done|..].
  - intros [|e new] j' old k E Hk; [discriminate E|]. injection E as <- ->.
    destruct (Hs new j' old k eq_refl Hk) as [Hr|?]; [left|by right]. eapply released_mono; [|exact Hr]. intros; by right.
  - intros [|e new] j2 mid j1 old k E; [discriminate E|]. injection E as <- ->. by eapply Ho.
  - intros [|e new] raw old E; [discriminate E|]. injection E as <- ->. by eapply Hsent.
Qed.

Lemma ledger_sent jobs j k raw tr :
  ledger jobs (Audited "approved" j :: Saved j :: tr) -> signed j k raw ->
  ledger jobs (Sent raw :: Audited "approved" j :: Saved j :: tr).
Proof using.
  intros [He Hs Ho Hsent] Hraw. split; [done|..].
  - intros [|e new] j' old k' E Hk; [discriminate E|]. injection E as <- E.
    destruct (Hs new j' old k' E Hk) as [Hr|?]; [left|by right]. eapply released_mono; [|exact Hr]. intros; by right.
  - intros [|e new] j2 mid j1 old k' E; [discriminate E|]. injection E as <- E. by eapply Ho.
  - intros [|e new] raw' old E; injection E as <- E; [by exists j, k, tr|]. by eapply Hsent.
Qed.

(** The job in memory against the table: it comes from its row, with the nonce of the row if
    there is one, and no other row holds its nonce. *)
Definition current (j : TxJob) (jobs : list (TxJob * Z)) : Prop := mine j
  /\ (exists a, a ∈ jobs /\ same_origin j (a.1) /\ forall k, tj_nonce (a.1) = Some k -> tj_nonce j = Some k)
  /\ forall k b, tj_nonce j = Some k -> b ∈ jobs -> holding k (b.1) -> job_id b = tj_jobId j.

Lemma elem_of_replace_job j jobs b : b ∈ replace_job j jobs ->
  exists a, a ∈ jobs /\ job_id b = job_id a /\ (b = a /\ job_id a <> tj_jobId j \/ b.1 = j /\ job_id a = tj_jobId j).
Proof using.
  intros (a & -> & Ha)%list_elem_of_fmap. exists a. split; [done|]. case_bool_decide as E; cbn.
  - split; [by rewrite E|]. by right.
  - split; [done|]. by left.
Qed.

Lemma replace_job_other j jobs a : a ∈ jobs -> job_id a <> tj_jobId j -> a ∈ replace_job j jobs.
Proof using.
  intros Ha Hne. apply list_elem_of_fmap. exists a. split; [|done]. by rewrite bool_decide_eq_false_2.
Qed.

Lemma replace_job_same j jobs a : a ∈ jobs -> job_id a = tj_jobId j -> (j, a.2) ∈ replace_job j jobs.
Proof using.
  intros Ha He. apply list_elem_of_fmap. exists a. split; [|done]. by rewrite bool_decide_eq_true_2.
Qed.

Lemma current_origin j jobs a : NoDup (job_id <$> jobs) -> current j jobs -> a ∈ jobs -> job_id a = tj_jobId j ->
  same_origin j (a.1) /\ forall k, tj_nonce (a.1) = Some k -> tj_nonce j = Some k.
Proof using.
  intros HN (_ & (b & Hb & Ho & Hk) & _) Ha He.
  assert (a = b) as -> by (eapply (NoDup_fmap_eq job_id); [exact HN|done|done|]; rewrite He; by destruct Ho).
  done.
Qed.

(** The job is saved: it holds its nonce, or it has been given up. *)
Lemma ledger_save j jobs tr : NoDup (job_id <$> jobs) -> ledger jobs tr -> current j jobs ->
  ledger (replace_job j jobs) (Saved j :: tr) /\ current j (replace_job j jobs).
Proof using.
  intros HN [He Hs Ho Hsent] Hc. pose proof Hc as (Hmine & (a & Ha & Horig & Hnonce) & Hfresh).
  assert (job_id a = tj_jobId j) as Eid by (symmetry; apply Horig).
  assert (forall k j1, tj_nonce j = Some k -> (exists a, a ∈ jobs /\ job_id a = tj_jobId j1 /\ holding k (a.1)) ->
    tj_jobId j1 = tj_jobId j) as Hrow.
  { intros k j1 Hk (b & Hb & Eb & Hkb). rewrite <-Eb. by eapply Hfresh. }
  split; [split|].
  - intros k b1 b2 (a1 & Ha1 & E1 & H1)%elem_of_replace_job (a2 & Ha2 & E2 & H2)%elem_of_replace_job Hk1 Hk2.
    destruct H1 as [[-> N1]|[Ej1 I1]], H2 as [[-> N2]|[Ej2 I2]].
    + by eapply He.
    + rewrite E2, I2. rewrite Ej2 in Hk2. destruct Hk2 as [_ Hk2]. by eapply Hfresh.
    + rewrite E1, I1. rewrite Ej1 in Hk1. destruct Hk1 as [_ Hk1]. symmetry. by eapply Hfresh.
    + by rewrite E1, E2, I1, I2.
  - intros [|e new] j' old k E Hk; injection E as <- E.
    + right. exists (j, a.2). split; [by apply replace_job_same|]. by split.
    + destruct (Hs new j' old k E Hk) as [Hr|(b & Hb & Eb & Hkb)].
      * left. eapply released_mono; [|exact Hr]. intros; by right.
      * destruct (decide (job_id b = tj_jobId j)) as [Eq|Hne].
        -- destruct (decide (tj_status j ∈ [Failed; Reorged])) as [Hst|Hst].
           ++ left. exists j. split; [by left|]. split; [by rewrite <-Eb|].
              apply elem_of_cons in Hst as [?|?%list_elem_of_singleton]; auto.
           ++ right. exists (j, b.2). split; [by apply replace_job_same|]. split; [by rewrite <-Eb|].
              destruct (current_origin _ _ _ HN Hc Hb Eq) as [_ Hn]. apply holding_intro; [done| |done].
              apply Hn, Hkb.
        -- right. exists b. split; [by apply replace_job_other|done].
  - intros [|e new] j2 mid j1 old k E Hk1 Hk2; injection E as <- E; [|by eapply Ho].
    destruct (Hs mid j1 old k E Hk1) as [Hr|Hb]; [by right|left]. destruct Hk2 as [_ Hk2]. by eapply Hrow.
  - intros [|e new] raw old E; [discriminate E|]. injection E as <- E. by eapply Hsent.
  - split; [done|]. split.
    + exists (j, a.2). split; [by apply replace_job_same|]. split; [by repeat split|done].
    + intros k b Hk (c & Hc' & E & [[-> N]|[Ej I]])%elem_of_replace_job Hkb; [by eapply Hfresh|]. by rewrite E.
Qed.
End Ledger.

(** ** The manager keeps the ledger *)
Section Manager.
Context {N : Type} `{TransactionRpc N}.
Context (keccak : Bytes -> Hash256) (sign_recoverable : Hash256 -> option (array 64 * Z)).
Context (signer_address : Address) (config_ : TxManagerConfig) (chainId_ : Uint256).

Abbreviation St := (TxState TxTable N).
Abbreviation ledger := (ledger keccak sign_recoverable signer_address chainId_).
Abbreviation current := (current signer_address chainId_).

(** While the job [id] is worked on: the other loaded jobs [rest] are still in the table. *)
Record working (id : string) (rest jobs : list (TxJob * Z)) (st : St) : Prop := {
  wk_holds : holds (tx_store st) jobs;
  wk_ledger : ledger jobs (tx_trace st);
  wk_current : current (tx_job st) jobs;
  wk_id : tj_jobId (tx_job st) = id;
  wk_rest : forall a, a ∈ rest -> a ∈ jobs /\ job_id a <> id
}.
Definition at_work (id : string) (rest : list (TxJob * Z)) (st : St) : Prop := exists jobs, working id rest jobs st.

(** The nonce is allocated before the table changes, and no row holds it. *)
Lemma at_work_nonce id rest nonce st j b s n tr : tj_nonce (tx_job st) = None -> at_work id rest st ->
  AllocateNonce signer_address chainId_ st = (Ok nonce, MkTxState j b s n tr) ->
  at_work id rest (MkTxState (set_nonce (Some nonce) j) b s n tr).
Proof using.
  intros Hn (jobs & [Hh Hl Hc Hid Hr]) EA.
  destruct (AllocateNonce_frame _ _ _ _ _ _ _ _ _ EA) as (-> & -> & ->).
  pose proof (proj2 (allocated_nonce_fresh _ _ _ _ _ _ Hh EA)) as Hfresh. exists jobs.
  destruct Hc as (Hm & (a & Ha & Ho & Hk) & _). split; try done; cbn [tx_job tx_store tx_trace].
  split; [done|]. split.
  - exists a. split; [done|]. split; [done|]. intros k Ek. specialize (Hk k Ek). congruence.
  - intros k c [= <-] Hin [Hheld Ek]. exfalso. by apply (Hfresh c Hin Hheld).
Qed.

(** Every call keeps this. *)
Lemma at_work_closed id rest : closed keccak sign_recoverable signer_address chainId_ (at_work id rest).
Proof using.
  split.
  - intros f j b s n tr Hf (jobs & [Hh Hl Hc Hid Hr]). exists jobs.
    cbn [tx_job tx_store tx_trace] in *. destruct (Hf j) as [Ho Hn]. split; cbn [tx_job tx_store tx_trace]; try done.
    + destruct Hc as ((Hch & Hw) & (a & Ha & Ho' & Hk) & Hfresh). destruct Ho as (E1 & E2 & E3 & E4 & E5 & E6).
      split; [split; congruence|]. split.
      * exists a. split; [done|]. split; [|by rewrite Hn].
        destruct Ho' as (F1 & F2 & F3 & F4 & F5 & F6). repeat split; congruence.
      * rewrite Hn, E1. done.
    + destruct Ho as [-> _]. done.
  - intros b' j b s n tr (jobs & [??]). by exists jobs.
  - intros n' j b s n tr (jobs & [??]). by exists jobs.
  - intros action j b s n tr (jobs & [Hh Hl Hc Hid Hr]). exists jobs. split; try done. by apply ledger_audit.
  - intros s' j b s n tr E (jobs & [Hh Hl Hc Hid Hr]). cbn [tx_job tx_store tx_trace] in *.
    pose proof (ledger_save _ _ _ _ _ _ _ (proj2 Hh) Hl Hc) as [Hl' Hc']. exists (replace_job j jobs). split; try done.
    + eapply Save_holds; [exact Hh| |exact E]. intros old Ho He. by eapply (current_origin _ _ _ _ _ (proj2 Hh) Hc).
    + intros a Ha. destruct (Hr a Ha) as [Hin Hne]. split; [|done]. apply replace_job_other; [done|]. cbn [tx_job] in Hid. congruence.
  - intros e s' j b s n tr E. by apply Save_failed in E as ->.
  - exact (at_work_nonce id rest).
  - intros nonce priority fee gas raw j b s n tr Hn Hs Eraw (jobs & [Hh Hl Hc Hid Hr]). exists jobs. split; try done.
    cbn [tx_trace tx_job] in *. eapply (ledger_sent _ _ _ _ _ _ nonce); [done|]. split; [|by exists priority, fee, gas].
    apply holding_intro; [apply Hc|done|]. rewrite Hs. by intros [Hx|Hx%list_elem_of_singleton]%elem_of_cons.
Qed.

(** ** The life of the service *)

(** Between the passes. *)
Definition accounted (st : St) : Prop := exists jobs, holds (tx_store st) jobs /\ ledger jobs (tx_trace st).

Lemma at_work_accounted id rest st : at_work id rest st -> accounted st.
Proof using. intros (jobs & [? ? _ _ _]). by exists jobs. Qed.

Lemma run_job_keeps a rest jobs st : holds (tx_store st) jobs -> ledger jobs (tx_trace st) ->
  a ∈ jobs -> active_job chainId_ signer_address (a.1) = true ->
  (forall b, b ∈ rest -> b ∈ jobs /\ job_id b <> job_id a) ->
  wp (run_job keccak sign_recoverable signer_address config_ chainId_ (a.1))
    (fun _ => at_work (job_id a) rest) (fun _ => at_work (job_id a) rest) st.
Proof using.
  intros Hh Hl Ha Hact Hr. unfold run_job. destruct st as [j b s n tr]. cbn [tx_store tx_trace] in *.
  assert (tj_chainId (a.1) = chainId_ /\ tj_wallet (a.1) = signer_address /\ tj_status (a.1) ∈ [Pending; Submitted; Included])
    as (Hc & Hw & Hs) by (unfold active_job in Hact; boolify; tauto).
  assert (at_work (job_id a) rest (MkTxState (a.1) b s n tr)) as HP.
  { exists jobs. split; cbn [tx_job tx_store tx_trace]; try done. split; [done|]. split.
    - exists a. split; [done|]. split; [by repeat split|done].
    - intros k c Hk Hin Hkc. symmetry. eapply (lg_exclusive _ _ _ _ _ _ Hl k); [exact Ha|exact Hin| |exact Hkc].
      apply holding_intro; [done|done|]. intros [E|E%list_elem_of_singleton]%elem_of_cons; rewrite E in Hs;
        repeat (apply elem_of_cons in Hs as [Hs|Hs]; [discriminate Hs|]); by apply not_elem_of_nil in Hs. }
  apply wp_bind, wp_update. destruct (tj_status (a.1)); first [by apply (Submit_keeps _ _ _ _ _ _ (at_work_closed _ _)) | by apply (Poll_keeps _ _ _ _ _ _ (at_work_closed _ _))].
Qed.

Lemma run_jobs_keeps l result st jobs : holds (tx_store st) jobs -> ledger jobs (tx_trace st) ->
  (forall a, a ∈ l -> a ∈ jobs /\ active_job chainId_ signer_address (a.1) = true) -> NoDup (job_id <$> l) ->
  wp (run_jobs keccak sign_recoverable signer_address config_ chainId_ (l.*1) result)
    (fun _ => accounted) (fun _ => accounted) st.
Proof using.
  revert result st jobs. induction l as [|a l IH]; intros result st jobs Hh Hl Hin HN; cbn [fmap list_fmap run_jobs].
  { apply wp_ret. by exists jobs. }
  inversion HN as [|? ? Hn HN']; subst. apply wp_bind.
  destruct (Hin a (list_elem_of_here _ _)) as [Ha Hact].
  eapply wp_mono; [apply (run_job_keeps a l jobs); [done|done|done|done|]| |intros e st'; apply at_work_accounted].
  { intros b Hb. split; [by apply Hin; right|]. intros E. apply Hn. rewrite <-E. by apply list_elem_of_fmap_2. }
  intros [] st' (jobs' & [Hh' Hl' _ _ Hr]). apply wp_bind, wp_get_job.
  apply (IH _ st' jobs'); [done|done| |done]. intros b Hb. split; [by apply Hr|]. by apply Hin; right.
Qed.

Lemma RunOnce_keeps : preserves accounted (RunOnce keccak sign_recoverable signer_address config_ chainId_).
Proof using.
  intros st (jobs & Hh & Hl). unfold RunOnce. apply wp_bind.
  destruct (LoadActive_holds _ _ chainId_ signer_address Hh) as (loaded & E & Hp).
  apply wp_query; change (store_LoadActive chainId_ signer_address (tx_store st)) with (LoadActive chainId_ signer_address (tx_store st)).
  2:{ intros e E'. by exists jobs. }
  intros l E'. rewrite E in E'. injection E' as <-. apply (run_jobs_keeps loaded _ st jobs Hh Hl).
  - intros a Ha. rewrite Hp in Ha. by apply list_elem_of_filter in Ha as [? ?].
  - rewrite Hp. eapply sublist_NoDup; [apply Hh|by apply fmap_sublist, sublist_filter].
Qed.

Abbreviation perform_tx := (perform_tx keccak sign_recoverable signer_address config_ chainId_).
Abbreviation live := (live keccak sign_recoverable signer_address config_ chainId_).

Lemma Iterate_accounted st : accounted st -> accounted (perform_tx st Iterate).
Proof using.
  intros Hst. assert (wp (guarded false (tx_iteration keccak sign_recoverable signer_address config_ chainId_)) (fun _ => accounted) (fun _ => accounted) st) as Hwp.
  { apply wp_guarded. apply (preserves_bind accounted); [apply RunOnce_keeps|intros ?; apply preserves_ret|done]. }
  unfold wp in Hwp. cbn [TxSteps.perform_tx]. by destruct (guarded false _ st) as [[] st'].
Qed.

Lemma QueueJob_accounted jobId to data value now st :
  accounted st -> accounted (perform_tx st (QueueJob jobId to data value now)).
Proof using.
  intros (jobs & Hh & [He Hs Ho Hsent]). cbn [TxSteps.perform_tx]. unfold Queue.
  set (t := MkTxTable (tt_rows (tx_store st)) now). set (job := new_job signer_address chainId_ jobId to data value).
  change (store_Insert job t) with (Insert job t).
  pose proof (Insert_holds t jobs job Hh eq_refl) as HI. destruct (Insert job t) as [[[]|e] t']; cbn [snd]; [|by destruct HI as [-> _]; exists jobs|done].
  destruct HI as [HI _]. exists (jobs ++ [(job, now)]). split; [done|].
  assert (forall k a, a ∈ jobs ++ [(job, now)] -> holding signer_address chainId_ k (a.1) -> a ∈ jobs) as Hold.
  { intros k a [Ha|Ha%list_elem_of_singleton]%elem_of_app [_ Hk]; [done|]. by subst a. }
  split; cbn [tx_trace]; [|intros new j old k E Hk|done|done].
  - intros k a b Ha Hb Hka Hkb. eapply He; eauto.
  - destruct (Hs new j old k E Hk) as [?|(a & Ha & ?)]; [by left|]. right. exists a. split; [|done]. apply elem_of_app. by left.
Qed.

Lemma live_accounted commands st : accounted st -> accounted (live commands st).
Proof using.
  unfold TxSteps.live. revert st. induction commands as [|command commands IH]; intros st Hst; [done|]. cbn [foldl]. apply IH.
  destruct command; [by apply Iterate_accounted|by apply QueueJob_accounted].
Qed.
End Manager.

(** Claim C6: over any history of iterations and queued jobs, whatever the node answers and
    wherever it fails, every raw transaction sent was signed for a job that holds its nonce;
    and of two transactions sent under one nonce, both are of the same job, or the job of
    the first was saved as [Failed] or [Reorged] before the second was sent. *)
Theorem sent_nonce_exclusive {N} `{TransactionRpc N} keccak sign_recoverable signer config chainId
    (st : TxState TxTable N) jobs commands later raw2 mid raw1 old :
  holds (tx_store st) jobs -> tx_trace st = [] ->
  (forall k a b, a ∈ jobs -> b ∈ jobs -> holding signer chainId k (a.1) -> holding signer chainId k (b.1) -> job_id a = job_id b) ->
  tx_trace (live keccak sign_recoverable signer config chainId commands st) = later ++ Sent raw2 :: mid ++ Sent raw1 :: old ->
  exists j1 k1 j2 k2, Saved j1 ∈ old /\ signed keccak sign_recoverable signer chainId j1 k1 raw1
    /\ Saved j2 ∈ mid /\ signed keccak sign_recoverable signer chainId j2 k2 raw2
    /\ (k1 = k2 -> tj_jobId j1 = tj_jobId j2 \/ released_in (tj_jobId j1) mid).
Proof.
  intros Hh Ht He E.
  assert (accounted keccak sign_recoverable signer chainId (live keccak sign_recoverable signer config chainId commands st)) as (jobs' & _ & HL).
  { apply live_accounted. exists jobs. rewrite Ht. split; [done|]. by apply ledger_empty. }
  rewrite E in HL. destruct HL as [_ _ Ho Hsent].
  destruct (Hsent later raw2 _ eq_refl) as (j2 & k2 & old2 & E2 & H2).
  destruct (Hsent (later ++ Sent raw2 :: mid) raw1 old) as (j1 & k1 & old1 & -> & H1); [by rewrite <-app_assoc|].
  destruct mid as [|e2 [|e1 mid]]; [discriminate E2|discriminate E2|]. injection E2 as -> -> E2.
  exists j1, k1, j2, k2. split; [right; left|]. split; [done|]. split; [right; left|]. split; [done|]. intros ->.
  destruct (Ho (later ++ [Sent raw2; Audited "approved" j2]) j2 (mid ++ [Sent raw1; Audited "approved" j1]) j1 old1 k2)
    as [?|(j & Hj & Hid)]; [by rewrite <-!app_assoc|by destruct H1|by destruct H2|by left|].
  right. exists j. split; [|done]. apply elem_of_app in Hj as [Hj|Hj]; [by do 2 right|].
  by apply elem_of_cons in Hj as [Hj|Hj%list_elem_of_singleton].
Qed.

(** Two jobs, one after the other. *)
Definition ledger_start : TxState TxTable Z := MkTxState pending_job false (MkTxTable [] 0) 100 [].
Definition ledger_commands : list TxCommand :=
  let data := [x01; x02; x03; x04; x05; x06] in
  [QueueJob "a" (sample_address 8) data (U 0) 1; Iterate; QueueJob "b" (sample_address 8) data (U 0) 2; Iterate].
Abbreviation ledger_life :=
  (@live Z sample_node demo_keccak demo_sign (sample_address 7) demo_config (U 1) ledger_commands ledger_start).
Definition sent_at (i : nat) : Bytes := match tx_trace ledger_life !! i with Some (Sent raw) => raw | _ => [] end.

Lemma ledger_life_sent : tx_trace ledger_life
  = take 2 (tx_trace ledger_life) ++ Sent (sent_at 2) :: take 4 (drop 3 (tx_trace ledger_life)) ++ Sent (sent_at 7)
    :: drop 8 (tx_trace ledger_life).
Proof. vm_compute. reflexivity. Qed.

Lemma sent_nonce_exclusive_witness : exists j1 k1 j2 k2, Saved j1 ∈ drop 8 (tx_trace ledger_life)
  /\ signed demo_keccak demo_sign (sample_address 7) (U 1) j1 k1 (sent_at 7)
  /\ Saved j2 ∈ take 4 (drop 3 (tx_trace ledger_life))
  /\ signed demo_keccak demo_sign (sample_address 7) (U 1) j2 k2 (sent_at 2)
  /\ (k1 = k2 -> tj_jobId j1 = tj_jobId j2 \/ released_in (tj_jobId j1) (take 4 (drop 3 (tx_trace ledger_life)))).
Proof.
  apply (@sent_nonce_exclusive Z sample_node demo_keccak demo_sign (sample_address 7) demo_config (U 1) ledger_start []
    ledger_commands (take 2 (tx_trace ledger_life)) (sent_at 2) (take 4 (drop 3 (tx_trace ledger_life))) (sent_at 7)
    (drop 8 (tx_trace ledger_life))).
  - split; [reflexivity|constructor].
  - reflexivity.
  - intros k a b Ha. by apply not_elem_of_nil in Ha.
  - exact ledger_life_sent.
Defined.

(** ** The operator's key *)

(** Claim C7: with the signer of the operator's key, over any history of iterations and queued
    jobs every raw transaction sent carries the signature, under that key, of a transaction
    on the configured chain with the nonce, the receiver, the value and the data of an
    approved job saved just before; and every node that recovers its sender finds the
    operator's address, if the recovery id of the signature is 0 or 1.  Of the ids 2 and 3,
    which the library may return as well, the code keeps the parity only: a node then
    recovers the sender with an id that is less by 2. *)
Theorem sent_by_operator {N} `{TransactionRpc N} `{LawfulSecp256k1} keccak key signer config chainId
    (st : TxState TxTable N) jobs commands later raw old :
  CreateSigner keccak key = Ok signer ->
  holds (tx_store st) jobs -> tx_trace st = [] ->
  (forall k a b, a ∈ jobs -> b ∈ jobs -> holding (GetAddress signer) chainId k (a.1) ->
    holding (GetAddress signer) chainId k (b.1) -> job_id a = job_id b) ->
  tx_trace (live keccak (fun hash => ecdsa_sign_recoverable hash (privateKey_ signer)) (GetAddress signer) config chainId
    commands st) = later ++ Sent raw :: old ->
  exists j k old', old = Audited "approved" j :: Saved j :: old' /\ tj_nonce j = Some k
    /\ (Z.of_nat (length (tj_data j)) < 2 ^ 63 -> exists priority fee gas compact id,
        let transaction := MkEip1559Transaction chainId k priority fee gas (Some (tj_to j)) (tj_value j) (tj_data j) in
        ecdsa_sign_recoverable (SigningHash keccak transaction) (privateKey_ signer) = Some (compact, id) /\ 0 <= id < 4
        /\ sender keccak raw
           = if id <? 2 then Some (GetAddress signer, transaction) else recovered_sender keccak transaction compact (id - 2)).
Proof.
  intros Es Hh Ht He E. set (sign := fun hash => ecdsa_sign_recoverable hash (privateKey_ signer)) in *.
  assert (accounted keccak sign (GetAddress signer) chainId (live keccak sign (GetAddress signer) config chainId commands st))
    as (jobs' & _ & HL).
  { apply live_accounted. exists jobs. rewrite Ht. split; [done|]. by apply ledger_empty. }
  rewrite E in HL. destruct (lg_sent _ _ _ _ _ _ HL later raw old eq_refl) as (j & k & old' & -> & [_ Hk] & priority & fee & gas & Eraw).
  exists j, k, old'. split; [done|]. split; [done|]. intros HL'. exists priority, fee, gas.
  destruct (sender_signed keccak key signer
    (MkEip1559Transaction chainId k priority fee gas (Some (tj_to j)) (tj_value j) (tj_data j)) raw Es HL' Eraw) as (compact & id & ? & ? & ?). by exists compact, id.
Qed.

(** The two jobs again, with a key of the library [glass_secp256k1]. *)
Definition operator_key : string := "0x0102030405060708090a0b0c0d0e0f101112131415161718191a1b1c1d1e1f20".
Definition operator : Secp256k1Signer :=
  match @CreateSigner glass_secp256k1 demo_keccak operator_key with
  | Ok signer => signer
  | Throw _ => MkSecp256k1Signer (array_copy 32 []) (array_copy 20 [])
  end.
Abbreviation operator_life :=
  (@live Z sample_node demo_keccak (fun hash => @ecdsa_sign_recoverable glass_secp256k1 hash (privateKey_ operator))
    (GetAddress operator) demo_config (U 1) ledger_commands ledger_start).
Definition operator_sent : Bytes := match tx_trace operator_life !! 2%nat with Some (Sent raw) => raw | _ => [] end.

Lemma operator_life_sent : tx_trace operator_life
  = take 2 (tx_trace operator_life) ++ Sent operator_sent :: drop 3 (tx_trace operator_life).
Proof. vm_compute. reflexivity. Qed.

Lemma sent_by_operator_witness :
  exists j k old', drop 3 (tx_trace operator_life) = Audited "approved" j :: Saved j :: old' /\ tj_nonce j = Some k
    /\ (Z.of_nat (length (tj_data j)) < 2 ^ 63 -> exists priority fee gas,
          @sender glass_secp256k1 demo_keccak operator_sent = Some (GetAddress operator,
            MkEip1559Transaction (U 1) k priority fee gas (Some (tj_to j)) (tj_value j) (tj_data j))).
Proof.
  destruct (@sent_by_operator Z sample_node glass_secp256k1 glass_lawful demo_keccak operator_key operator demo_config (U 1)
    ledger_start [] ledger_commands (take 2 (tx_trace operator_life)) operator_sent (drop 3 (tx_trace operator_life)))
    as (j & k & old' & E & Ek & Hs).
  - vm_compute. reflexivity.
  - split; [reflexivity|constructor].
  - reflexivity.
  - intros k a b Ha. by apply not_elem_of_nil in Ha.
  - exact operator_life_sent.
  - exists j, k, old'. split; [exact E|]. split; [exact Ek|]. intros HL.
    destruct (Hs HL) as (priority & fee & gas & compact & id & Esig & _ & Esender). exists priority, fee, gas.
    injection Esig as _ <-. exact Esender.
Defined.
