(* ===== verification/TxHistory.v ===== *)
(** * TxHistory: the table over the life of the service

    A pass changes the table exactly by the saves it makes, each of a job it has loaded
    ([replay]).  Hence the jobs of the table stay fit to be worked on, and a row that is not
    loaded is never touched: a replacement that was interrupted is one of these. *)

From S2P Require Import Prelude Effects Loop Text Uint256 Hex Rlp Transaction Abi RpcTypes TxManager TxRefinement.
From S2P Require Import PostgresTransactionStore TxSteps TxProperties.
Set Default Goal Selector "!".
#[local] Open Scope Z_scope.

(** ** The saves of a pass, on the list of the jobs *)

Lemma same_origin_refl j : same_origin j j.
Proof. by repeat split. Qed.

Lemma same_origin_trans j1 j2 j3 : same_origin j1 j2 -> same_origin j2 j3 -> same_origin j1 j3.
Proof. intros (?&?&?&?&?&?) (?&?&?&?&?&?). repeat split; congruence. Qed.

Lemma same_origin_sym j1 j2 : same_origin j1 j2 -> same_origin j2 j1.
Proof. intros (?&?&?&?&?&?). by repeat split. Qed.

Definition replay_call (call : TxEffect) (jobs : list (TxJob * Z)) : list (TxJob * Z) :=
  match call with Saved j => replace_job j jobs | _ => jobs end.
Definition replay (tr : list TxEffect) (jobs : list (TxJob * Z)) : list (TxJob * Z) := foldr replay_call jobs tr.

Lemma replay_ids tr jobs : job_id <$> replay tr jobs = job_id <$> jobs.
Proof. induction tr as [|[j|raw|action j] tr IH]; cbn [replay foldr replay_call]; rewrite ?replace_job_ids; done. Qed.

(** A row is as it was, or as it was saved. *)
Lemma elem_of_replay b tr jobs : b ∈ replay tr jobs -> b ∈ jobs \/ Saved (b.1) ∈ tr.
Proof.
  induction tr as [|[j|raw|action j] tr IH]; intros Hb; [by left|..].
  - cbn [replay foldr replay_call] in Hb. apply list_elem_of_fmap in Hb as (old & -> & Hb).
    case_bool_decide; [right; by left|]. destruct (IH Hb) as [?|?]; [by left|right; by right].
  - destruct (IH Hb) as [?|?]; [by left|right; by right].
  - destruct (IH Hb) as [?|?]; [by left|right; by right].
Qed.

(** A row no save is of. *)
Lemma replay_untouched b tr jobs :
  b ∈ jobs -> (forall j, Saved j ∈ tr -> tj_jobId j <> job_id b) -> b ∈ replay tr jobs.
Proof.
  intros Hb. induction tr as [|[j|raw|action j] tr IH]; intros Hs; [done|..]; cbn [replay foldr replay_call].
  2,3: apply IH; intros j' Hj'; apply Hs; by right.
  apply list_elem_of_fmap. exists b. split; [|apply IH; intros j' Hj'; apply Hs; by right].
  rewrite bool_decide_eq_false_2; [done|]. intros E. apply (Hs j); [by left|done].
Qed.

Lemma replay_app tr2 tr1 jobs : replay (tr2 ++ tr1) jobs = replay tr2 (replay tr1 jobs).
Proof. apply foldr_app. Qed.

(** The row of the last save of a job. *)
Lemma replay_saved new j old jobs : tj_jobId j ∈ job_id <$> jobs -> (forall j', Saved j' ∈ new -> tj_jobId j' <> tj_jobId j) ->
  exists queuedAt, (j, queuedAt) ∈ replay (new ++ Saved j :: old) jobs.
Proof.
  intros Hid Hnew. rewrite <-(replay_ids old) in Hid. apply list_elem_of_fmap in Hid as (a & Ea & Ha). exists (a.2).
  rewrite replay_app. apply replay_untouched; [|done]. cbn [replay foldr replay_call]. apply list_elem_of_fmap. exists a.
  split; [|done]. by rewrite bool_decide_eq_true_2.
Qed.

(** ** A pass *)
Section Pass.
Context {N : Type} `{TransactionRpc N}.
Context (keccak : Bytes -> Hash256) (sign_recoverable : Hash256 -> option (array 64 * Z)).
Context (signer_address : Address) (config_ : TxManagerConfig) (chainId_ : Uint256).
Context (jobs loaded : list (TxJob * Z)) (tr0 : list TxEffect).
Context (Hnodup : NoDup (job_id <$> jobs)) (Hloaded : forall a, a ∈ loaded -> a ∈ jobs).

Abbreviation St := (TxState TxTable N).

(** Since [jobs] and [tr0]: the table is the replay of the saves, each of a loaded job. *)
Record tracked (st : St) (tr : list TxEffect) : Prop := {
  tk_trace : tx_trace st = tr ++ tr0;
  tk_holds : holds (tx_store st) (replay tr jobs);
  tk_saved j : Saved j ∈ tr -> exists a, a ∈ loaded /\ same_origin j (a.1)
}.
Definition followed (st : St) : Prop := exists tr, tracked st tr.
Definition at_job (a : TxJob * Z) (st : St) : Prop := same_origin (tx_job st) (a.1) /\ followed st.

Lemma loaded_origin j b old : b ∈ loaded -> same_origin j (b.1) -> old ∈ jobs -> job_id old = tj_jobId j -> same_origin j (old.1).
Proof using Hnodup Hloaded.
  intros Hb Ho Hold E. assert (old = b) as ->; [|done].
  eapply (NoDup_fmap_eq job_id); [exact Hnodup|done|by apply Hloaded|]. rewrite E. apply Ho.
Qed.

Lemma at_job_closed a : a ∈ loaded -> closed keccak sign_recoverable signer_address chainId_ (at_job a).
Proof using Hnodup Hloaded.
  intros Ha. split.
  - intros f j b s n tr Hf [Ho (new & [Ht Hh Hs])]. split; [|by exists new]. eapply same_origin_trans; [apply Hf|exact Ho].
  - intros b' j b s n tr [Ho (new & [Ht Hh Hs])]. split; [exact Ho|by exists new].
  - intros n' j b s n tr [Ho (new & [Ht Hh Hs])]. split; [exact Ho|by exists new].
  - intros action j b s n tr [Ho (new & [Ht Hh Hs])]. split; [exact Ho|]. exists (Audited action j :: new).
    cbn [tx_trace tx_store] in *. split; cbn [tx_trace tx_store]; [by rewrite Ht|done|].
    intros j' [?|?]%elem_of_cons; [done|by apply Hs].
  - intros s' j b s n tr E [Ho (new & [Ht Hh Hs])]. split; [exact Ho|]. exists (Saved j :: new).
    cbn [tx_trace tx_store tx_job] in *. split; cbn [tx_trace tx_store]; [by rewrite Ht| |].
    + cbn [replay foldr replay_call]. eapply Save_holds; [exact Hh| |exact E]. intros old Hold Eid.
      assert (job_id old ∈ job_id <$> jobs) as (b0 & E0 & Hb0)%list_elem_of_fmap.
      { rewrite <-(replay_ids new). by apply list_elem_of_fmap_2. }
      destruct (elem_of_replay _ _ _ Hold) as [Hin|Hsaved]; [by eapply loaded_origin|].
      destruct (Hs _ Hsaved) as (c & Hc & Hoc). apply (same_origin_trans _ (a.1)); [done|].
      assert (a = c) as ->; [|by apply same_origin_sym].
      eapply (NoDup_fmap_eq job_id); [exact Hnodup|by apply Hloaded|by apply Hloaded|].
      destruct Ho as [Eo _], Hoc as [Ec _]. unfold job_id in *. congruence.
    + intros j' [[= ->]|?]%elem_of_cons; [by exists a|by apply Hs].
  - intros e s' j b s n tr E. by apply Save_failed in E as ->.
  - intros nonce st j b s n tr _ [Ho HF] EA.
    assert (j = tx_job st /\ s = tx_store st /\ tr = tx_trace st) as (-> & -> & ->) by by apply AllocateNonce_frame in EA.
    split; [exact Ho|]. destruct HF as (new & [Ht Hh Hs]). by exists new.
  - intros nonce priority fee gas raw j b s n tr _ _ _ [Ho (new & [Ht Hh Hs])]. split; [exact Ho|].
    exists (Sent raw :: new). cbn [tx_trace tx_store] in *. split; cbn [tx_trace tx_store]; [by rewrite Ht|done|].
    intros j' [?|?]%elem_of_cons; [done|by apply Hs].
Qed.

Lemma run_job_followed a st : a ∈ loaded -> followed st ->
  wp (run_job keccak sign_recoverable signer_address config_ chainId_ (a.1)) (fun _ => followed) (fun _ => followed) st.
Proof using Hnodup Hloaded.
  intros Ha HF. unfold run_job. destruct st as [j b s n tr]. apply wp_bind, wp_update.
  pose proof (at_job_closed a Ha) as Hc.
  assert (at_job a (MkTxState (a.1) b s n tr)) as HP.
  { split; [apply same_origin_refl|]. destruct HF as (new & [Ht Hh Hs]). by exists new. }
  eapply (wp_mono _ (fun _ => at_job a) _ (fun _ => at_job a)); [|by intros ? ? []|by intros ? ? []].
  destruct (tj_status (a.1)); first [by apply (Submit_keeps _ _ _ _ _ _ Hc) | by apply (Poll_keeps _ _ _ _ _ _ Hc)].
Qed.

Lemma run_jobs_followed l result st : (forall a, a ∈ l -> a ∈ loaded) -> followed st ->
  wp (run_jobs keccak sign_recoverable signer_address config_ chainId_ (l.*1) result) (fun _ => followed) (fun _ => followed) st.
Proof using Hnodup Hloaded.
  revert result st. induction l as [|a l IH]; intros result st Hl HF; cbn [fmap list_fmap run_jobs]; [by apply wp_ret|].
  apply wp_bind. eapply wp_mono; [apply run_job_followed; [apply Hl; by left|done]| |done].
  intros [] st' HF'. apply wp_bind, wp_get_job. apply IH; [|done]. intros b Hb. apply Hl. by right.
Qed.
End Pass.

(** ** Reading the table is never undefined behaviour *)

Abbreviation lawful_throw := (fun e : exn => e <> Undefined).

Lemma storage_throws z : throws lawful_throw (storage z).
Proof. unfold storage, result_of. destruct (u256 z); [apply throws_Ok|by apply throws_Throw]. Qed.

Lemma decode_nibble_throws msg c : throws lawful_throw (decode_nibble msg c).
Proof. unfold decode_nibble. repeat case_match; first [apply throws_Ok|by apply throws_Throw]. Qed.
#[export] Hint Resolve storage_throws decode_nibble_throws : throws.

Lemma FromDecimal_throws text : throws lawful_throw (FromDecimal text).
Proof.
  unfold FromDecimal. case_bool_decide; [by apply throws_Throw|]. apply throws_fold. intros s c.
  destruct (_ || _); [by apply throws_Throw|]. throwing.
Qed.

Lemma Decode_throws text : throws lawful_throw (Decode text).
Proof.
  unfold Decode. destruct (negb _); [by apply throws_Throw|]. generalize (strip_0x (chars text)). fix IH 1.
  intros [|c0 [|c1 value]]; cbn [decode_pairs]; [apply throws_Ok..|].
  apply throws_bind; [apply decode_nibble_throws|]. intros high. apply throws_bind; [apply decode_nibble_throws|]. intros low.
  apply throws_bind; [apply IH|]. intros rest. apply throws_Ok.
Qed.

Lemma parse_hash_throws msg text : throws lawful_throw (parse_hash msg text).
Proof.
  unfold parse_hash. apply throws_bind; [apply Decode_throws|]. intros bytes. destruct (negb _); [by apply throws_Throw|apply throws_Ok].
Qed.

Lemma AddressFromHex_throws text : throws lawful_throw (AddressFromHex text).
Proof.
  unfold AddressFromHex. apply throws_bind; [apply Decode_throws|]. intros bytes. destruct (negb _); [by apply throws_Throw|apply throws_Ok].
Qed.

Lemma TxStatusFromString_throws text : throws lawful_throw (TxStatusFromString text).
Proof. unfold TxStatusFromString. repeat case_bool_decide; first [apply throws_Ok|by apply throws_Throw]. Qed.

Lemma OptionalField_throws {A B} (field : option A) (parser : A -> result B) :
  (forall a, throws lawful_throw (parser a)) -> throws lawful_throw (OptionalField field parser).
Proof.
  intros Hp. unfold OptionalField. destruct field; [|apply throws_Ok]. apply throws_bind; [apply Hp|]. intros. apply throws_Ok.
Qed.

#[export] Hint Resolve FromDecimal_throws Decode_throws parse_hash_throws AddressFromHex_throws TxStatusFromString_throws
  OptionalField_throws : throws.

Lemma ParseJob_throws row : throws lawful_throw (ParseJob row).
Proof.
  unfold ParseJob. assert (throws lawful_throw (match row_raw_transaction row with None => Ok [] | Some text => Decode text end)) as Hraw
    by (destruct (row_raw_transaction row); [apply Decode_throws|apply throws_Ok]).
  unfold ParseHash. do 13 (apply throws_bind; [solve [auto with throws]|intros ?]). apply throws_Ok.
Qed.

(** Some call of the node ended in undefined behaviour of its own. *)
Definition node_undefined {N} `{TransactionRpc N} (signer : Address) : Prop :=
  (exists n, fst (rpc_GetPendingNonce signer n) = Throw Undefined)
  \/ (exists c n, fst (rpc_EstimateGas c n) = Throw Undefined)
  \/ (exists n, fst (rpc_GetFeeQuote n) = Throw Undefined)
  \/ (exists n, fst (rpc_GetBlockNumber n) = Throw Undefined)
  \/ (exists raw n, fst (rpc_SendRawTransaction raw n) = Throw Undefined)
  \/ (exists h n, fst (rpc_GetReceipt h n) = Throw Undefined)
  \/ (exists b n, fst (rpc_GetBlock b n) = Throw Undefined).

Lemma table_env_undefined {N} `{TransactionRpc N} signer chainId :
  @env_undefined TxTable N _ _ signer chainId -> node_undefined signer.
Proof.
  unfold node_undefined. intros [j s E|s E|s E|n E|c n E|n E|n E|raw n E|h n E|b n E]; [exfalso..|eauto 12| | | | | |]; eauto 12.
  - cbn [store_Save postgres_transaction_store] in E. unfold Save in E. repeat destruct (existsb _ _); discriminate E.
  - cbn [store_LoadHighestNonce postgres_transaction_store] in E. unfold LoadHighestNonce in E.
    destruct (max_numeric _) as [text|]; [|discriminate E].
    assert (throws lawful_throw (nonce ← FromDecimal text; Ok (Some nonce))) as Ht; [|by destruct (Ht _ E)].
    apply throws_bind; [apply FromDecimal_throws|]. intros. apply throws_Ok.
  - cbn [store_LoadActive postgres_transaction_store] in E. unfold LoadActive in E.
    by destruct (throws_map lawful_throw ParseJob _ ParseJob_throws _ E).
Qed.

(** ** The life of the service *)
Section History.
Context {N : Type} `{TransactionRpc N}.
Context (keccak : Bytes -> Hash256) (sign_recoverable : Hash256 -> option (array 64 * Z)).
Context (signer_address : Address) (config_ : TxManagerConfig) (chainId_ : Uint256).

Abbreviation St := (TxState TxTable N).
Abbreviation RunOnce := (RunOnce keccak sign_recoverable signer_address config_ chainId_).
Abbreviation perform_tx := (perform_tx keccak sign_recoverable signer_address config_ chainId_).
Abbreviation live := (live keccak sign_recoverable signer_address config_ chainId_).

(** A pass works on the active jobs, and its saves are what changes. *)
Lemma RunOnce_replays (st : St) jobs r st' : holds (tx_store st) jobs -> RunOnce st = (r, st') ->
  exists loaded tr, LoadActive chainId_ signer_address (tx_store st) = Ok (loaded.*1)
    /\ (forall a, a ∈ loaded -> a ∈ jobs /\ active_job chainId_ signer_address (a.1) = true)
    /\ tracked jobs loaded (tx_trace st) st' tr.
Proof using.
  intros Hh HR. destruct (LoadActive_holds _ _ chainId_ signer_address Hh) as (loaded & E & Hp).
  assert (forall a, a ∈ loaded -> a ∈ jobs /\ active_job chainId_ signer_address (a.1) = true) as Hl.
  { intros a Ha. rewrite Hp in Ha. by apply list_elem_of_filter in Ha as [? ?]. }
  assert (wp RunOnce (fun _ => followed jobs loaded (tx_trace st)) (fun _ => followed jobs loaded (tx_trace st)) st) as Hwp.
  { unfold TxManager.RunOnce. apply wp_bind, wp_query;
      change (store_LoadActive chainId_ signer_address (tx_store st)) with (LoadActive chainId_ signer_address (tx_store st)).
    2:{ intros e E'. congruence. }
    intros l E'. rewrite E in E'. injection E' as <-. apply run_jobs_followed; [apply Hh|by intros a Ha; apply Hl|done|].
    exists []. by split; [done|exact Hh|intros ? ?%not_elem_of_nil]. }
  unfold wp in Hwp. rewrite HR in Hwp. exists loaded. destruct r; destruct Hwp as [tr Htr]; by exists tr.
Qed.

(** *** Sound jobs *)

(** A job that was submitted has the hash of its transaction, one that was included its block. *)
Definition sound_job (a : TxJob * Z) : Prop := job_ok (a.1) /\ 0 <= tj_retryCount (a.1).

Lemma sound_loads t jobs : holds t jobs -> Forall sound_job jobs -> loads_jobs signer_address chainId_ t.
Proof using.
  intros Hh Hs l E. destruct (LoadActive_holds _ _ chainId_ signer_address Hh) as (loaded & E' & Hp).
  change (LoadActive chainId_ signer_address t = Ok l) in E. rewrite E in E'. injection E' as ->.
  apply Forall_fmap, list.Forall_forall. intros a Ha. rewrite Hp in Ha. apply list_elem_of_filter in Ha as [Hact Ha].
  rewrite list.Forall_forall in Hs. destruct (Hs a Ha) as [Hok Hr]. split; [|done].
  unfold active_job in Hact. boolify. repeat match goal with H : _ ∈ _ |- _ => apply elem_of_cons in H as [H|H]; [tauto|] end.
  by match goal with H : _ ∈ [] |- _ => apply not_elem_of_nil in H end.
Qed.

Lemma pass_saved observed jobs tr j :
  pass keccak sign_recoverable config_ chainId_ observed jobs tr -> Saved j ∈ tr ->
  exists j0, j0 ∈ jobs /\ evolves config_ j0 j /\ job_ok j.
Proof using.
  intros HP. induction HP as [|jobs tr j0 new jl HP IH HR]; intros Hj; [by apply not_elem_of_nil in Hj|].
  apply elem_of_app in Hj as [Hj|Hj].
  - exists j0. split; [apply elem_of_app; right; by left|]. split; [by eapply job_run_saved|].
    apply list_elem_of_split in Hj as (n1 & n2 & ->). apply job_run_suffix in HR as [j' HR].
    by inversion HR as [|? ? ? ? [_ _ _ _ Hok _]| |]; subst.
  - destruct (IH Hj) as (j1 & Hin & ?). exists j1. split; [apply elem_of_app; by left|done].
Qed.

Definition sound_table (t : TxTable) : Prop := exists jobs, holds t jobs /\ Forall sound_job jobs.

Lemma RunOnce_sound (st : St) r st' : tm_maximumRetries config_ < 2 ^ 32 ->
  sound_table (tx_store st) -> RunOnce st = (r, st') -> sound_table (tx_store st').
Proof using.
  intros Hm (jobs & Hh & Hs) HR. destruct (RunOnce_replays st jobs r st' Hh HR) as (loaded & tr & EL & Hl & [Ht Hh' _]).
  exists (replay tr jobs). split; [done|]. apply list.Forall_forall. intros b Hb. rewrite list.Forall_forall in Hs.
  destruct (elem_of_replay _ _ _ Hb) as [Hin|Hsaved]; [by apply Hs|].
  pose proof (sound_loads _ _ Hh ltac:(by apply list.Forall_forall)) as HL.
  destruct (RunOnce_passes _ _ _ _ _ _ _ _ Hm HL HR) as [(l & (tr' & Ht' & HP) & HJ) _].
  rewrite Ht in Ht'. apply app_inv_tail in Ht' as <-. destruct (pass_saved _ _ _ _ HP Hsaved) as (j0 & Hin & [] & Hok).
  split; [done|]. assert (j0 ∈ loaded.*1) as (a & -> & Ha)%list_elem_of_fmap.
  { change (store_LoadActive chainId_ signer_address (tx_store st)) with (LoadActive chainId_ signer_address (tx_store st)) in HJ.
    rewrite EL in HJ. destruct r; [by subst|]. destruct HJ as [rest ->]. apply elem_of_app. by left. }
  destruct (Hl a Ha) as [Hina _]. destruct (Hs a Hina). lia.
Qed.

Lemma Iterate_is_pass st : exists r st', RunOnce st = (r, st') /\ perform_tx st Iterate = st'.
Proof using.
  destruct (RunOnce st) as [r st'] eqn:E. exists r, st'. split; [done|]. cbn [TxSteps.perform_tx].
  unfold guarded, catch_all, tx_iteration, mbind, prog_bind. rewrite E. destruct r as [|[]]; reflexivity.
Qed.

(** Queueing a job adds its row, unless there is one of its id. *)
Lemma QueueJob_holds st jobs jobId to data value now : holds (tx_store st) jobs ->
  tx_trace (perform_tx st (QueueJob jobId to data value now)) = tx_trace st
  /\ (holds (tx_store (perform_tx st (QueueJob jobId to data value now))) jobs
      \/ holds (tx_store (perform_tx st (QueueJob jobId to data value now)))
           (jobs ++ [(new_job signer_address chainId_ jobId to data value, now)])).
Proof using.
  intros Hh. split; [done|]. cbn [TxSteps.perform_tx tx_store]. unfold Queue.
  set (t := MkTxTable (tt_rows (tx_store st)) now). set (job := new_job signer_address chainId_ jobId to data value).
  change (store_Insert job t) with (Insert job t). pose proof (Insert_holds t jobs job Hh eq_refl) as HI.
  destruct (Insert job t) as [[[]|e] t']; cbn [snd]; [right; apply HI|left; by destruct HI as [-> _]|done].
Qed.

Lemma live_sound commands st : tm_maximumRetries config_ < 2 ^ 32 ->
  sound_table (tx_store st) -> sound_table (tx_store (live commands st)).
Proof using.
  intros Hm. unfold TxSteps.live. revert st. induction commands as [|command commands IH]; intros st Hs; [done|]. cbn [foldl]. apply IH.
  destruct command as [|jobId to data value now].
  - destruct (Iterate_is_pass st) as (r & st' & HR & ->). by eapply RunOnce_sound.
  - destruct Hs as (jobs & Hh & Hs). destruct (QueueJob_holds st jobs jobId to data value now Hh) as [_ [Hh'|Hh']].
    + by exists jobs.
    + eexists. split; [exact Hh'|]. apply Forall_app. split; [done|]. apply Forall_singleton. by split; [split; discriminate|].
Qed.

(** *** Rows that are not loaded *)

(** Since the calls [tr0]: the row is there, inactive, and its job was not saved. *)
Definition frozen (b : TxJob * Z) (tr0 : list TxEffect) (st : St) : Prop :=
  (exists jobs, holds (tx_store st) jobs /\ b ∈ jobs)
  /\ exists more, tx_trace st = more ++ tr0 /\ forall j, Saved j ∈ more -> tj_jobId j <> job_id b.

Lemma frozen_not_loaded b tr0 st l : active_job chainId_ signer_address (b.1) = false -> frozen b tr0 st ->
  LoadActive chainId_ signer_address (tx_store st) = Ok l -> forall j, j ∈ l -> tj_jobId j <> job_id b.
Proof using.
  intros Hb ((jobs & Hh & Hin) & _) E j Hj Ej. destruct (LoadActive_holds _ _ chainId_ signer_address Hh) as (loaded & E' & Hp).
  rewrite E in E'. injection E' as ->. apply list_elem_of_fmap in Hj as (a & -> & Ha). rewrite Hp in Ha.
  apply list_elem_of_filter in Ha as [Hact Ha]. assert (a = b) as ->; [|by rewrite Hb in Hact].
  eapply (NoDup_fmap_eq job_id); [apply Hh|done|done|exact Ej].
Qed.

Lemma RunOnce_frozen b tr0 st r st' : active_job chainId_ signer_address (b.1) = false ->
  frozen b tr0 st -> RunOnce st = (r, st') -> frozen b tr0 st'.
Proof using.
  intros Hb HF HR. pose proof HF as ((jobs & Hh & Hin) & more & Hmore & Hids).
  destruct (RunOnce_replays st jobs r st' Hh HR) as (loaded & tr & EL & Hl & [Ht Hh' Hsaved]).
  assert (forall j, Saved j ∈ tr -> tj_jobId j <> job_id b) as Htr.
  { intros j Hj. destruct (Hsaved j Hj) as (a & Ha & Ho & _). rewrite Ho.
    apply (frozen_not_loaded b tr0 st _ Hb HF EL). by apply list_elem_of_fmap_2. }
  split.
  - exists (replay tr jobs). split; [done|]. by apply replay_untouched.
  - exists (tr ++ more). split; [by rewrite Ht, Hmore, app_assoc|]. intros j [Hj|Hj]%elem_of_app; auto.
Qed.

Lemma live_frozen b tr0 commands st : active_job chainId_ signer_address (b.1) = false ->
  frozen b tr0 st -> frozen b tr0 (live commands st).
Proof using.
  intros Hb. unfold TxSteps.live. revert st. induction commands as [|command commands IH]; intros st HF; [done|]. cbn [foldl]. apply IH.
  destruct command as [|jobId to data value now].
  - destruct (Iterate_is_pass st) as (r & st' & HR & ->). by eapply RunOnce_frozen.
  - destruct HF as ((jobs & Hh & Hin) & more & Hmore & Hids).
    destruct (QueueJob_holds st jobs jobId to data value now Hh) as [Ht Hh']. split; [|exists more; by rewrite Ht].
    destruct Hh' as [Hh'|Hh']; eexists; (split; [exact Hh'|]); [done|]. apply elem_of_app. by left.
Qed.
End History.

(** Claim C28: the manager never runs into undefined behaviour of its own.  From a table of
    sound jobs, as an empty one is, over any history of passes and queued jobs, every job that
    is loaded has what it is dereferenced for: the hash of its transaction if it was submitted,
    its block if it was included; and a pass ends in undefined behaviour only when the node did. *)
Theorem RunOnce_defined {N} `{TransactionRpc N} keccak sign_recoverable signer config chainId
    (st : TxState TxTable N) jobs commands r st' :
  tm_maximumRetries config < 2 ^ 32 -> holds (tx_store st) jobs -> Forall sound_job jobs ->
  RunOnce keccak sign_recoverable signer config chainId (live keccak sign_recoverable signer config chainId commands st) = (r, st') ->
  loads_jobs signer chainId (tx_store (live keccak sign_recoverable signer config chainId commands st))
  /\ (~ @node_undefined N _ signer -> r <> Throw Undefined).
Proof.
  intros Hm Hh Hs HR.
  destruct (live_sound keccak sign_recoverable signer config chainId commands st Hm) as (jobs' & Hh' & Hs'); [by exists jobs|].
  pose proof (sound_loads signer chainId _ _ Hh' Hs') as HL. split; [done|]. intros Hnode ->. apply Hnode.
  eapply table_env_undefined. by apply (RunOnce_passes _ _ _ _ _ _ _ _ Hm HL HR).
Qed.

(** A job is queued, submitted, and found included. *)
Definition history_start : TxState TxTable Z := MkTxState pending_job false (MkTxTable [] 0) 100 [].
Definition history_commands : list TxCommand :=
  [QueueJob "a" (sample_address 8) [x01; x02; x03; x04; x05; x06] (U 0) 1; Iterate; Iterate].
Abbreviation history := (@live Z sample_node demo_keccak demo_sign (sample_address 7) demo_config (U 1) history_commands history_start).

Lemma RunOnce_defined_witness :
  @loads_jobs TxTable _ (sample_address 7) (U 1) (tx_store history)
  /\ fst (@RunOnce TxTable Z _ sample_node demo_keccak demo_sign (sample_address 7) demo_config (U 1) history) <> Throw Undefined.
Proof.
  destruct (@RunOnce_defined Z sample_node demo_keccak demo_sign (sample_address 7) demo_config (U 1) history_start [] history_commands
    (fst (@RunOnce TxTable Z _ sample_node demo_keccak demo_sign (sample_address 7) demo_config (U 1) history))
    (snd (@RunOnce TxTable Z _ sample_node demo_keccak demo_sign (sample_address 7) demo_config (U 1) history))) as [HL HU].
  - reflexivity.
  - split; [reflexivity|constructor].
  - constructor.
  - apply surjective_pairing.
  - split; [exact HL|]. apply HU. intros [[? E]|[(? & ? & E)|[[? E]|[[? E]|[(? & ? & E)|[(? & ? & E)|(? & ? & E)]]]]]]; discriminate E.
Defined.

(** Claim C34: a replacement that is interrupted is abandoned.  When a pass has saved a job as
    [Replaced] and ends, for whatever reason, before it saves it again, the job stays so: over
    any later history of passes and queued jobs the table keeps it as it was saved, no pass
    loads it ([LoadActive] does not select that status), and none saves it again, whatever
    retries it has left.  So its stale transaction is never replaced, nor the job failed. *)
Theorem interrupted_replacement_abandoned {N} `{TransactionRpc N} keccak sign_recoverable signer config chainId
    (st : TxState TxTable N) jobs r st' new j old commands :
  holds (tx_store st) jobs -> tx_trace st = [] ->
  RunOnce keccak sign_recoverable signer config chainId st = (r, st') ->
  tx_trace st' = new ++ Saved j :: old -> tj_status j = Replaced ->
  (forall j', Saved j' ∈ new -> tj_jobId j' <> tj_jobId j) ->
  let st'' := live keccak sign_recoverable signer config chainId commands st' in
  (exists jobs' queuedAt, holds (tx_store st'') jobs' /\ (j, queuedAt) ∈ jobs')
  /\ (forall l, LoadActive chainId signer (tx_store st'') = Ok l -> forall j', j' ∈ l -> tj_jobId j' <> tj_jobId j)
  /\ exists more, tx_trace st'' = more ++ tx_trace st' /\ forall j', Saved j' ∈ more -> tj_jobId j' <> tj_jobId j.
Proof.
  intros Hh Ht0 HR Ht Hj Hnew. cbv zeta.
  destruct (RunOnce_replays keccak sign_recoverable signer config chainId st jobs r st' Hh HR) as (loaded & tr & _ & Hl & [Ht' Hh' Hsaved]).
  rewrite Ht0, app_nil_r in Ht'. assert (tr = new ++ Saved j :: old) as -> by congruence.
  destruct (Hsaved j) as (a & Ha & Ho & _); [apply elem_of_app; right; by left|].
  destruct (replay_saved new j old jobs) as [queuedAt Hin]; [|done|].
  { rewrite Ho. change (tj_jobId (a.1)) with (job_id a). apply list_elem_of_fmap_2. by apply Hl. }
  assert (active_job chainId signer j = false) as Hact.
  { unfold active_job. rewrite Hj. apply andb_false_r. }
  pose proof (live_frozen keccak sign_recoverable signer config chainId (j, queuedAt) (tx_trace st') commands st' Hact) as HF.
  destruct HF as [(jobs' & Hjobs' & Hin') Hmore].
  { split; [by eexists|]. exists []. split; [done|]. by intros ? ?%not_elem_of_nil. }
  split; [by exists jobs', queuedAt|]. split; [|done].
  intros l E. eapply (frozen_not_loaded signer chainId (j, queuedAt) (tx_trace st')); [done| |exact E].
  split; [by exists jobs'|done].
Qed.

(** A node whose second answer to [eth_blockNumber] comes from an endpoint of another chain:
    [RpcTransactionClient] then throws a [std::runtime_error], not an [RpcException]. *)
Definition flaky_node : TransactionRpc Z := {|
  rpc_GetChainId n := (Ok (U 1), n);
  rpc_GetBlockNumber n :=
    if n =? 200 then (Ok 200, 201)
    else (Throw (RuntimeError "transaction RPC endpoint belongs to a different chain"), n);
  rpc_GetBlock b n := (Ok None, n);
  rpc_GetPendingNonce _ n := (Ok (U 3), n);
  rpc_EstimateGas _ n := (Ok (U 21000), n);
  rpc_GetFeeQuote n := (Ok (MkFeeQuote (U 2) (U 16)), n);
  rpc_SendRawTransaction _ n := (Ok (array_copy 32 [x01]), n);
  rpc_GetReceipt _ n := (Ok None, n)
|}.

Definition abandoned : result TxManagerRunResult * TxState TxTable Z :=
  @RunOnce TxTable Z _ flaky_node demo_keccak demo_sign (sample_address 7) demo_config (U 1)
    (demo_state stale_job 200).

Lemma abandoned_eq : @RunOnce TxTable Z _ flaky_node demo_keccak demo_sign (sample_address 7) demo_config (U 1)
    (demo_state stale_job 200) = (fst abandoned, snd abandoned).
Proof. unfold abandoned. apply surjective_pairing. Qed.

(** Five more passes, with a new job queued in between. *)
Definition later_commands : list TxCommand :=
  [Iterate; QueueJob "b" (sample_address 8) [x01; x02; x03; x04; x05; x06] (U 0) 1; Iterate; Iterate; Iterate; Iterate].
Abbreviation abandoned_life := (@live Z flaky_node demo_keccak demo_sign (sample_address 7) demo_config (U 1) later_commands (snd abandoned)).

Lemma interrupted_replacement_abandoned_witness :
  fst abandoned = Throw (RuntimeError "transaction RPC endpoint belongs to a different chain")
  /\ exists j, tj_status j = Replaced /\ tj_retryCount j < tm_maximumRetries demo_config
  /\ (exists jobs' queuedAt, holds (tx_store abandoned_life) jobs' /\ (j, queuedAt) ∈ jobs')
  /\ (forall l, LoadActive (U 1) (sample_address 7) (tx_store abandoned_life) = Ok l -> forall j', j' ∈ l -> tj_jobId j' <> tj_jobId j)
  /\ exists more, tx_trace abandoned_life = more ++ tx_trace (snd abandoned) /\ forall j', Saved j' ∈ more -> tj_jobId j' <> tj_jobId j.
Proof.
  split; [vm_compute; reflexivity|].
  assert (match tx_trace (snd abandoned) with
          | [Audited _ _; Saved j] => bool_decide (tj_status j = Replaced) && (tj_retryCount j <? 3)
          | _ => false end = true) as E by (vm_compute; reflexivity).
  destruct (tx_trace (snd abandoned)) as [|[|  |action ja] [|[j| |] [|? ?]]] eqn:Et; try discriminate E.
  apply andb_true_iff in E as [E1 E2]. apply bool_decide_eq_true in E1. apply Z.ltb_lt in E2.
  exists j. split; [exact E1|]. split; [exact E2|]. rewrite <-Et.
  apply (@interrupted_replacement_abandoned Z flaky_node demo_keccak demo_sign (sample_address 7) demo_config (U 1)
    (demo_state stale_job 200) [(stale_job, 5)] (fst abandoned) (snd abandoned) [Audited action ja] j [] later_commands).
  - split; [reflexivity|]. apply NoDup_singleton.
  - reflexivity.
  - exact abandoned_eq.
  - exact Et.
  - exact E1.
  - intros j' Hj. exfalso. apply list_elem_of_singleton in Hj. discriminate Hj.
Defined.
