(* ===== verification/TransactionRpc.v ===== *)
(** * TransactionRpc: the node through several endpoints ([TransactionRpc.hpp], [TransactionRpc.cpp])

    Reads fail over from the active endpoint, nonces are read from the primary one, and a raw
    transaction is sent to every endpoint.  An endpoint is used once it has reported the
    chain id of the others. *)

From S2P Require Import Prelude Effects Text Uint256 Hex Rlp Transaction Abi RpcTypes Failover TxManager TxRefinement.
From S2P Require Import PostgresTransactionStore TxProperties.
Set Default Goal Selector "!".
#[local] Open Scope Z_scope.
#[local] Open Scope u256_scope.

(** The mutable members of [Impl], and the outside world the endpoints share. *)
Record TransactionPool (N : Type) := MkTransactionPool {
  tp_validated : list bool;
  tp_chainId : option Uint256;
  tp_activeIndex : nat;
  tp_net : N
}.
Arguments MkTransactionPool {N} _ _ _ _.
Arguments tp_validated {N} _.
Arguments tp_chainId {N} _.
Arguments tp_activeIndex {N} _.
Arguments tp_net {N} _.

Section Client.
Context {N : Type} (endpoints_ : list (RpcCalls N)).

Abbreviation M := (prog (TransactionPool N)).

Definition set_activeIndex (index : nat) (st : TransactionPool N) : TransactionPool N :=
  MkTransactionPool (tp_validated st) (tp_chainId st) index (tp_net st).
Definition set_chainId (chainId : Uint256) (st : TransactionPool N) : TransactionPool N :=
  MkTransactionPool (tp_validated st) (Some chainId) (tp_activeIndex st) (tp_net st).
Definition set_validated (index : nat) (st : TransactionPool N) : TransactionPool N :=
  MkTransactionPool (<[index := true]> (tp_validated st)) (tp_chainId st) (tp_activeIndex st) (tp_net st).

(** The constructor. *)
Definition new_pool (net : N) : TransactionPool N := MkTransactionPool (replicate (length endpoints_) false) None 0 net.

(** A call of [*endpoints_[index]]. *)
Definition on_endpoint {A} (index : nat) (operation : RpcCalls N -> prog N A) : M A := fun st =>
  match endpoints_ !! index with
  | Some endpoint =>
      let '(r, net) := operation endpoint (tp_net st) in
      (r, MkTransactionPool (tp_validated st) (tp_chainId st) (tp_activeIndex st) net)
  | None => (Throw Undefined, st)
  end.

Definition Validate (index : nat) : M unit :=
  st ← get;
  if default false (tp_validated st !! index) then mret tt
  else
    chainId ← on_endpoint index (@client_GetChainId N);
    match tp_chainId st with
    | None => modify (set_chainId chainId)
    | Some known =>
        if u_neb chainId known
        then throw (RuntimeError "transaction RPC endpoint belongs to a different chain") else mret tt
    end;;
    modify (set_validated index).

Definition ExecuteFrom {A} (start : nat) (operation : RpcCalls N -> prog N A) : M A :=
  Failover.ExecuteFrom Validate (fun index => on_endpoint index operation) set_activeIndex start (length endpoints_).

Definition Execute {A} (operation : RpcCalls N -> prog N A) : M A :=
  st ← get; ExecuteFrom (tp_activeIndex st) operation.

Definition ExecutePrimary {A} (operation : RpcCalls N -> prog N A) : M A := ExecuteFrom 0 operation.

(** The body of the [try] in [Broadcast]. *)
Definition send_to (rawTransaction : Bytes) (index : nat) : M Hash256 :=
  Validate index;;
  on_endpoint index (fun endpoint => @client_SendRawTransaction N endpoint rawTransaction).

(** The loop of [Broadcast], with [transactionHash] and [lastFailure]. *)
Fixpoint broadcast_loop (rawTransaction : Bytes) (indices : list nat) (transactionHash : option Hash256)
    (lastFailure : exn) : M Hash256 :=
  match indices with
  | [] => match transactionHash with Some hash => mret hash | None => throw lastFailure end
  | index :: indices =>
      submitted ← catch_all (hash ← send_to rawTransaction index; mret (Ok hash)) (fun e => mret (Throw e));
      match submitted with
      | Ok hash => broadcast_loop rawTransaction indices (Some (default hash transactionHash)) lastFailure
      | Throw e => broadcast_loop rawTransaction indices transactionHash e
      end
  end.

Definition Broadcast (rawTransaction : Bytes) : M Hash256 :=
  broadcast_loop rawTransaction (seq 0 (length endpoints_)) None Undefined.

Definition GetChainId : M Uint256 := Execute (@client_GetChainId N).

Definition GetBlockNumber : M Z :=
  Execute (fun client => number ← @client_GetBlockNumber N client; lift (ToUint64 number)).

Definition GetBlock (number : Z) : M (option BlockHeader) :=
  Execute (fun client => @client_GetBlockByNumber N client (U number)).

Definition GetPendingNonce (wallet : Address) : M Uint256 :=
  ExecutePrimary (fun client => @client_GetTransactionCount N client wallet "pending").

Definition EstimateGas (call : TransactionCall) : M Uint256 :=
  Execute (fun client => @client_EstimateGas N client call).

Definition GetFeeQuote : M FeeQuote :=
  Execute (fun client =>
    head ← @client_GetBlockNumber N client;
    block ← @client_GetBlockByNumber N client head;
    match block ≫= bh_baseFeePerGas with
    | None => throw (RuntimeError "latest block does not contain an EIP-1559 base fee")
    | Some baseFee =>
        priorityFee ← @client_GetMaxPriorityFeePerGas N client;
        maxFee ← lift (double ← baseFee *! U 2; double +! priorityFee);
        mret (MkFeeQuote priorityFee maxFee)
    end).

Definition SendRawTransaction (rawTransaction : Bytes) : M Hash256 := Broadcast rawTransaction.

Definition GetReceipt (transactionHash : Hash256) : M (option TransactionReceipt) :=
  Execute (fun client => @client_GetTransactionReceipt N client transactionHash).

Definition rpc_transaction_client : TransactionRpc (TransactionPool N) := {|
  rpc_GetChainId := GetChainId;
  rpc_GetBlockNumber := GetBlockNumber;
  rpc_GetBlock := GetBlock;
  rpc_GetPendingNonce := GetPendingNonce;
  rpc_EstimateGas := EstimateGas;
  rpc_GetFeeQuote := GetFeeQuote;
  rpc_SendRawTransaction := SendRawTransaction;
  rpc_GetReceipt := GetReceipt
|}.
End Client.

(** ** Broadcasting *)

Section Broadcasting.
Context {N : Type} (endpoints : list (RpcCalls N)).

(** A validated endpoint has reported the chain id of the pool. *)
Definition reported (st : TransactionPool N) : Prop := forall index,
  tp_validated st !! index = Some true -> exists endpoint id net net',
    endpoints !! index = Some endpoint /\ tp_chainId st = Some id /\ @client_GetChainId N endpoint net = (Ok id, net').

(** What does not change once it is known. *)
Definition keeps (st st' : TransactionPool N) : Prop :=
  tp_activeIndex st' = tp_activeIndex st /\ (is_Some (tp_chainId st) -> tp_chainId st' = tp_chainId st)
  /\ length (tp_validated st') = length (tp_validated st)
  /\ forall index, tp_validated st !! index = Some true -> tp_validated st' !! index = Some true.

Lemma keeps_refl st : keeps st st.
Proof using. by repeat split. Qed.

Lemma keeps_trans st1 st2 st3 : keeps st1 st2 -> keeps st2 st3 -> keeps st1 st3.
Proof using.
  intros (Ha & Hc & Hl & Hv) (Ha' & Hc' & Hl' & Hv'). split; [congruence|]. split; [|split; [congruence|auto]].
  intros Hs. rewrite Hc'; [by apply Hc|]. by rewrite Hc.
Qed.

Definition set_net (net : N) (st : TransactionPool N) : TransactionPool N :=
  MkTransactionPool (tp_validated st) (tp_chainId st) (tp_activeIndex st) net.

Lemma wp_on_endpoint {A} index (operation : RpcCalls N -> prog N A) (Q : A -> TransactionPool N -> Prop) E st :
  (forall endpoint, endpoints !! index = Some endpoint ->
     wp (operation endpoint) (fun a net => operation endpoint (tp_net st) = (Ok a, net) -> Q a (set_net net st))
       (fun e net => E e (set_net net st)) (tp_net st)) ->
  (endpoints !! index = None -> E Undefined st) ->
  wp (on_endpoint endpoints index operation) Q E st.
Proof using.
  intros HQ HE. unfold wp, on_endpoint in *. destruct (endpoints !! index) as [endpoint|]; [|by apply HE].
  specialize (HQ endpoint eq_refl). destruct (operation endpoint (tp_net st)) as [[a|e] net]; auto.
Qed.

Lemma Validate_wp index st :
  reported st -> length (tp_validated st) = length endpoints ->
  wp (Validate endpoints index) (fun _ st' => reported st' /\ keeps st st' /\ tp_validated st' !! index = Some true)
    (fun _ st' => reported st' /\ keeps st st') st.
Proof using.
  intros Hr Hl. unfold Validate. apply wp_bind, wp_get. apply wp_if.
  { intros Hd. apply wp_ret. split; [done|]. split; [apply keeps_refl|].
    by destruct (tp_validated st !! index) as [[]|]. }
  intros _. apply wp_bind, wp_on_endpoint; [|intros _; split; [done|apply keeps_refl]].
  intros endpoint He. unfold wp at 1. destruct (client_GetChainId (tp_net st)) as [[id|e] net] eqn:Eid.
  2: { split; [done|by repeat split]. }
  intros _. assert (index < length (tp_validated st))%nat as Hi by (rewrite Hl; by eapply lookup_lt_Some).
  assert (forall known, known = id -> (is_Some (tp_chainId st) -> tp_chainId st = Some known) ->
    let st' := set_validated index (MkTransactionPool (tp_validated st) (Some known) (tp_activeIndex st) net) in
    reported st' /\ keeps st st' /\ tp_validated st' !! index = Some true) as Hok.
  { intros known -> Hk. cbn [set_validated]. split; [|split; [split; [done|]|]].
    - intros i. unfold set_validated. cbn [tp_validated tp_chainId]. destruct (decide (i = index)) as [->|Hne].
      + intros _. by exists endpoint, id, (tp_net st), net.
      + rewrite list_lookup_insert_ne by done. intros Hv.
        destruct (Hr i Hv) as (e & id' & n1 & n2 & ? & E' & ?). exists e, id, n1, n2.
        rewrite Hk in E' by (by rewrite E'). injection E' as ->. done.
    - cbn. split; [intros Hs; by rewrite Hk|]. split; [by rewrite length_insert|].
      intros i Hv. destruct (decide (i = index)) as [->|Hne]; [by rewrite list_lookup_insert_eq|].
      by rewrite list_lookup_insert_ne.
    - cbn. by rewrite list_lookup_insert_eq. }
  apply wp_bind. destruct (tp_chainId st) as [known|] eqn:Ek.
  - destruct (u_neb id known) eqn:En.
    + apply wp_throw. split; [done|by repeat split].
    + assert (id = known) as -> by (by apply uval_inj, Z.eqb_eq, negb_false_iff).
      apply wp_ret, wp_modify. unfold set_net. rewrite Ek. by apply Hok.
  - apply wp_modify, wp_modify. apply Hok; [done|by intros []].
Qed.

(** What the endpoints answer, each in the state its predecessors left. *)
Inductive offered (raw : Bytes) : list nat -> TransactionPool N -> list (result Hash256) -> TransactionPool N -> Prop :=
| offered_nil st : offered raw [] st [] st
| offered_cons index indices st r st1 outcomes st2 :
    send_to endpoints raw index st = (r, st1) -> offered raw indices st1 outcomes st2 ->
    offered raw (index :: indices) st (r :: outcomes) st2.

Definition accepted (r : result Hash256) : option Hash256 := match r with Ok hash => Some hash | Throw _ => None end.
Definition failure (r : result Hash256) : option exn := match r with Ok _ => None | Throw e => Some e end.

(** The first hash, or else the last failure. *)
Definition verdict (outcomes : list (result Hash256)) : result Hash256 :=
  match omap accepted outcomes with
  | hash :: _ => Ok hash
  | [] => Throw (default Undefined (last (omap failure outcomes)))
  end.

Lemma broadcast_loop_offered raw indices hash e st :
  exists outcomes st', offered raw indices st outcomes st'
    /\ broadcast_loop endpoints raw indices hash e st
       = (match hash with Some h => Ok h | None =>
            match omap accepted outcomes with h :: _ => Ok h | [] => Throw (default e (last (omap failure outcomes))) end end, st').
Proof using.
  revert hash e st. induction indices as [|index indices IH]; intros hash e st; cbn [broadcast_loop].
  { exists [], st. split; [constructor|]. by destruct hash. }
  unfold mbind at 1, prog_bind at 1, catch_all, mbind at 1, prog_bind at 1.
  destruct (send_to endpoints raw index st) as [[h|e'] st1] eqn:Es; cbn [mret prog_ret].
  - destruct (IH (Some (default h hash)) e st1) as (outcomes & st' & Ho & E).
    exists (Ok h :: outcomes), st'. split; [by econstructor|]. rewrite E. by destruct hash.
  - destruct (IH hash e' st1) as (outcomes & st' & Ho & E).
    exists (Throw e' :: outcomes), st'. split; [by econstructor|]. rewrite E. destruct hash; [done|]. cbn.
    destruct (omap accepted outcomes); [|done]. rewrite last_cons. by destruct (last (omap failure outcomes)).
Qed.

Lemma offered_spec raw indices st outcomes st' :
  offered raw indices st outcomes st' -> reported st -> length (tp_validated st) = length endpoints ->
  reported st' /\ keeps st st' /\ length outcomes = length indices
  /\ forall i index hash, indices !! i = Some index -> outcomes !! i = Some (Ok hash) ->
       tp_validated st' !! index = Some true
       /\ exists endpoint net net', endpoints !! index = Some endpoint
            /\ @client_SendRawTransaction N endpoint raw net = (Ok hash, net').
Proof using.
  induction 1 as [st|index indices st r st1 outcomes st2 Es _ IH]; intros Hr Hl.
  { split; [done|]. split; [apply keeps_refl|]. by split. }
  assert (reported st1 /\ keeps st st1 /\ forall hash, r = Ok hash -> tp_validated st1 !! index = Some true
    /\ exists endpoint net net', endpoints !! index = Some endpoint
         /\ @client_SendRawTransaction N endpoint raw net = (Ok hash, net')) as (Hr1 & Hk1 & Hs1).
  { assert (wp (send_to endpoints raw index)
      (fun hash st1 => reported st1 /\ keeps st st1 /\ tp_validated st1 !! index = Some true
         /\ exists endpoint net net', endpoints !! index = Some endpoint
              /\ @client_SendRawTransaction N endpoint raw net = (Ok hash, net'))
      (fun _ st1 => reported st1 /\ keeps st st1) st) as Hw.
    { unfold send_to. apply wp_bind. eapply wp_mono; [by apply Validate_wp| |done].
      intros [] st0 (Hr0 & Hk0 & Hv0). apply wp_on_endpoint; [|done]. intros endpoint He. unfold wp.
      destruct (client_SendRawTransaction raw (tp_net st0)) as [[hash|e] net] eqn:En; [|done].
      intros _. split; [done|]. split; [done|]. split; [done|]. by exists endpoint, (tp_net st0), net. }
    unfold wp in Hw. rewrite Es in Hw. destruct r as [hash|e].
    - destruct Hw as (? & ? & ? & ?). split; [done|]. split; [done|]. by intros ? [= <-].
    - destruct Hw as [? ?]. split; [done|]. by split. }
  destruct IH as (Hr2 & Hk2 & Hlen & Hs2); [done|by destruct Hk1 as (_ & _ & -> & _)|].
  split; [done|]. split; [by eapply keeps_trans|]. split; [cbn; by rewrite Hlen|].
  intros [|i] j hash Hi Ho; cbn in Hi, Ho; [|by eapply Hs2].
  injection Hi as <-. injection Ho as ->. destruct (Hs1 hash eq_refl) as [Hv He]. split; [|done].
  destruct Hk2 as (_ & _ & _ & Hkv). by apply Hkv.
Qed.
End Broadcasting.

(** ** Properties *)

(** A raw transaction is offered to every endpoint; the result is the first hash an endpoint
    answered with, and the last failure when none did; and every endpoint that accepted it has
    reported the one chain id of the pool, which does not change once it is known. *)
Theorem Broadcast_exact {N} (endpoints : list (RpcCalls N)) raw st :
  reported endpoints st -> length (tp_validated st) = length endpoints ->
  exists outcomes st',
    Broadcast endpoints raw st = (verdict outcomes, st') /\ length outcomes = length endpoints
    /\ reported endpoints st' /\ (is_Some (tp_chainId st) -> tp_chainId st' = tp_chainId st)
    /\ forall index hash, outcomes !! index = Some (Ok hash) ->
         tp_validated st' !! index = Some true
         /\ exists endpoint net net', endpoints !! index = Some endpoint
              /\ @client_SendRawTransaction N endpoint raw net = (Ok hash, net').
Proof.
  intros Hr Hl.
  destruct (broadcast_loop_offered endpoints raw (seq 0 (length endpoints)) None Undefined st) as (outcomes & st' & Ho & E).
  exists outcomes, st'. unfold Broadcast. rewrite E.
  destruct (offered_spec endpoints raw _ st outcomes st' Ho Hr Hl) as (Hr' & (_ & Hk & _) & Hlen & Hs).
  rewrite length_seq in Hlen. split; [by destruct (omap accepted outcomes) eqn:Ea; unfold verdict; rewrite Ea|].
  split; [done|]. split; [done|]. split; [done|]. intros index hash Hi. apply (Hs index); [|done].
  apply lookup_seq. split; [done|]. rewrite <-Hlen. by eapply lookup_lt_Some.
Qed.

(** An endpoint that takes a transaction but whose answer is lost, and one that then knows the
    transaction and refuses it.  The outside world is the list of the transactions taken. *)
Definition demo_endpoint (send : Bytes -> prog (list Bytes) Hash256) : RpcCalls (list Bytes) := {|
  client_GetChainId := mret (U 1);
  client_GetBlockNumber := mret (U 200);
  client_GetBlockByNumber _ := mret None;
  client_GetLogs _ := mret [];
  client_EthCall _ _ := mret [];
  client_EstimateGas _ := mret (U 21000);
  client_GetTransactionCount _ _ := mret (U 4);
  client_GetMaxPriorityFeePerGas := mret (U 1);
  client_SendRawTransaction := send;
  client_GetTransactionReceipt _ := mret None
|}.
Definition losing_endpoint : RpcCalls (list Bytes) := demo_endpoint (fun raw taken =>
  (Throw (RpcException Transport "RPC transport failed"), raw :: taken)).
Definition refusing_endpoint : RpcCalls (list Bytes) := demo_endpoint (fun raw taken =>
  if bool_decide (raw ∈ taken) then (Throw (RpcException Remote "already known"), taken)
  else (Ok (array_copy 32 []), raw :: taken)).

Lemma Broadcast_exact_witness : exists outcomes st',
  Broadcast [losing_endpoint; refusing_endpoint] [x01] (new_pool [losing_endpoint; refusing_endpoint] [])
    = (verdict outcomes, st') /\ length outcomes = 2%nat.
Proof.
  destruct (@Broadcast_exact (list Bytes) [losing_endpoint; refusing_endpoint] [x01]
    (new_pool [losing_endpoint; refusing_endpoint] [])) as (outcomes & st' & E & Hl & _).
  - intros index Hi. exfalso. apply lookup_replicate in Hi as [E _]. discriminate E.
  - reflexivity.
  - exists outcomes, st'. exact (conj E Hl).
Defined.

(** A submitted job on its last replacement. *)
Definition last_job : TxJob := set_retryCount 2 stale_job.

Definition replace_last (endpoints : list (RpcCalls (list Bytes))) : result unit * TxState TxTable (TransactionPool (list Bytes)) :=
  @run_job TxTable (TransactionPool (list Bytes)) _ (rpc_transaction_client endpoints) demo_keccak demo_sign (sample_address 7)
    demo_config (U 1) last_job (MkTxState last_job false (demo_table last_job) (new_pool endpoints []) []).

Definition replaced_job (endpoints : list (RpcCalls (list Bytes))) : TxJob := tx_job (replace_last endpoints).2.
Definition taken (endpoints : list (RpcCalls (list Bytes))) : list Bytes := tp_net (tx_net (replace_last endpoints).2).

(** An uncertain broadcast is given up: an endpoint takes the transaction of a last
    replacement but its answer is lost, and the next endpoint refuses the transaction because it
    knows it already.  Through both endpoints the job ends [Failed], although its transaction was
    taken; through the first one alone it stays [Submitted], as the manager means an uncertain
    broadcast to. *)
Theorem uncertain_broadcast_abandoned :
  let both := [losing_endpoint; refusing_endpoint] in
  let first := [losing_endpoint] in
  (replace_last both).1 = Ok tt /\ tj_status (replaced_job both) = Failed /\ taken both = [tj_rawTransaction (replaced_job both)]
  /\ (replace_last first).1 = Ok tt /\ tj_status (replaced_job first) = Submitted
  /\ taken first = [tj_rawTransaction (replaced_job first)].
Proof. repeat split; apply (bool_decide_eq_true_1 _); vm_compute; reflexivity. Qed.
