(* ===== verification/LiquidationChain.v ===== *)
(** * LiquidationChain: the state of the chain a liquidation is prepared from
    ([LiquidationChain.hpp], [LiquidationChain.cpp])

    The node is any implementation of [RpcCalls]; every call may change it and may throw. *)

From S2P Require Import Prelude Effects Uint256 Hex Rlp Transaction Abi RpcTypes TxManager RiskCalculator.
Set Default Goal Selector "!".
#[local] Open Scope Z_scope.
#[local] Open Scope u256_scope.

Class LiquidationChain (N : Type) := {
  chain_LoadMarket : prog N MarketSnapshot;
  chain_LoadPosition : Address -> prog N Position;
  chain_EstimateGas : Address -> Address -> Bytes -> prog N Uint256;
  chain_GetFeeQuote : prog N FeeQuote
}.

Record LiquidationContracts := MkLiquidationContracts {
  lk_pool : Address;
  lk_liquidationManager : Address;
  lk_oracle : Address;
  lk_weth : Address;
  lk_usdc : Address
}.

Definition Word (data : Bytes) (index : nat) : result Uint256 :=
  let offset := (index * 32)%nat in
  if (length data <? offset + 32)%nat then Throw (RuntimeError "eth_call returned too little ABI data")
  else FromBytes (array_copy 32 (take 32 (drop offset data))).

Section Chain.
Context {N : Type} `{RpcCalls N} (keccak : Bytes -> Hash256) (contracts : LiquidationContracts).

Definition Call (destination : Address) (signature : string) (arguments : list AbiValue) : prog N Bytes :=
  client_EthCall (MkTransactionCall None destination (EncodeFunction keccak signature arguments) (U 0)) "latest".

Definition LoadMarket : prog N MarketSnapshot :=
  chainId ← client_GetChainId;
  head ← client_GetBlockNumber;
  block ← client_GetBlockByNumber head;
  match block with
  | None => throw (RuntimeError "latest block is unavailable")
  | Some block =>
      wethPriceData ← Call (lk_oracle contracts) "assetPrices(address)" [VAddress (lk_weth contracts)];
      usdcPriceData ← Call (lk_oracle contracts) "assetPrices(address)" [VAddress (lk_usdc contracts)];
      indexedBlock ← lift (ToUint64 head);
      wethPrice ← lift (Word wethPriceData 0);
      wethPriceUpdatedAt ← lift (Word wethPriceData 1);
      wethMaxPriceAge ← lift (Word wethPriceData 2);
      usdcPrice ← lift (Word usdcPriceData 0);
      usdcPriceUpdatedAt ← lift (Word usdcPriceData 1);
      usdcMaxPriceAge ← lift (Word usdcPriceData 2);
      observedAt ← lift (ToUint64 (bh_timestamp block));
      mret (MkMarketSnapshot chainId indexedBlock (bh_hash block) (lk_pool contracts) (lk_oracle contracts)
              (lk_weth contracts) (lk_usdc contracts) Ray wethPrice wethPriceUpdatedAt wethMaxPriceAge
              usdcPrice usdcPriceUpdatedAt usdcMaxPriceAge observedAt (U 0) (U 0) (U 0) 0)
  end.

Definition LoadPosition (borrower : Address) : prog N Position :=
  collateralData ← Call (lk_pool contracts) "wethCollateral(address)" [VAddress borrower];
  wethCollateral ← lift (Word collateralData 0);
  debtData ← Call (lk_pool contracts) "usdcDebt(address)" [VAddress borrower];
  usdcDebt ← lift (Word debtData 0);
  mret (MkPosition borrower wethCollateral usdcDebt).

Definition EstimateGas (sender destination : Address) (data : Bytes) : prog N Uint256 :=
  client_EstimateGas (MkTransactionCall (Some sender) destination data (U 0)).

Definition GetFeeQuote : prog N FeeQuote :=
  blockNumber ← client_GetBlockNumber;
  block ← client_GetBlockByNumber blockNumber;
  match block with
  | Some block =>
      match bh_baseFeePerGas block with
      | Some baseFee =>
          priorityFee ← client_GetMaxPriorityFeePerGas;
          maxFee ← lift (double ← baseFee *! U 2; double +! priorityFee);
          mret (MkFeeQuote priorityFee maxFee)
      | None => throw (RuntimeError "latest block does not contain an EIP-1559 base fee")
      end
  | None => throw (RuntimeError "latest block does not contain an EIP-1559 base fee")
  end.

Definition rpc_liquidation_chain : LiquidationChain N := {|
  chain_LoadMarket := LoadMarket;
  chain_LoadPosition := LoadPosition;
  chain_EstimateGas := EstimateGas;
  chain_GetFeeQuote := GetFeeQuote
|}.
End Chain.
