(* ===== verification/Liquidator.v ===== *)
(** * Liquidator: the preparation of a liquidation ([Liquidator.hpp], [Liquidator.cpp])

    A candidate the risk engine found is evaluated again on the current chain; the call is
    prepared only if the bonus still pays for the gas. *)

From S2P Require Import Prelude Effects Text Uint256 Hex Rlp Transaction Abi RpcTypes TxManager RiskCalculator.
From S2P Require Import LiquidationChain.
Import Math.
Set Default Goal Selector "!".
#[local] Open Scope Z_scope.
#[local] Open Scope u256_scope.

Record LiquidatorConfig := MkLiquidatorConfig {
  lq_operatorAddress : Address;
  lq_liquidationManager : Address;
  lq_minimumProfitUsdWad : Uint256;
  lq_minimumCollateralBps : Z
}.

Record LiquidationSubmission := MkLiquidationSubmission {
  sub_destination : Address;
  sub_data : Bytes;
  sub_value : Uint256
}.

Definition liquidate_signature : string := "liquidate(address,address,address,uint256,uint256)".

Section Liquidator.
Context {N : Type} `{LiquidationChain N} (keccak : Bytes -> Hash256) (config_ : LiquidatorConfig).

Definition EncodeLiquidation (candidate : LiquidationCandidate) : result Bytes :=
  minimumCollateral ← MulDivDown (lc_expectedCollateral candidate) (U (lq_minimumCollateralBps config_)) (U 10000);
  Ok (EncodeFunction keccak liquidate_signature
        [VAddress (lc_borrower candidate); VAddress (lc_debtAsset candidate);
         VAddress (lc_collateralAsset candidate); VUint256 (lc_maxRepay candidate);
         VUint256 minimumCollateral]).

Definition Prepare (indexedCandidate : LiquidationCandidate) : prog N (option LiquidationSubmission) :=
  market ← chain_LoadMarket;
  position ← chain_LoadPosition (lc_borrower indexedCandidate);
  currentRisk ← lift (Evaluate position market (mk_observedAt market));
  currentCandidate ← lift (BuildCandidate currentRisk market None);
  match currentCandidate with
  | None => mret None
  | Some currentCandidate =>
      data ← lift (EncodeLiquidation currentCandidate);
      gasLimit ← chain_EstimateGas (lq_operatorAddress config_) (lq_liquidationManager config_) data;
      fees ← chain_GetFeeQuote;
      gasCost ← lift (gasLimit *! fq_maxFeePerGas fees);
      gasCostUsd ← lift (CollateralValue gasCost (mk_wethPrice market));
      if u_leb (lc_expectedBonus currentCandidate) gasCostUsd then mret None
      else
        profit ← lift (lc_expectedBonus currentCandidate -! gasCostUsd);
        if u_ltb profit (lq_minimumProfitUsdWad config_) then mret None
        else mret (Some (MkLiquidationSubmission (lq_liquidationManager config_) data (U 0)))
  end.
End Liquidator.

(** The calls the transaction manager is configured to approve ([main] of the tx-manager). *)
Definition approved_calls (keccak : Bytes -> Hash256) (oracle liquidationManager : Address) : list ApprovedCall :=
  [MkApprovedCall oracle (GetFunctionSelector keccak "publishPrice(address,uint256,uint256,uint256)") 132;
   MkApprovedCall liquidationManager (GetFunctionSelector keccak liquidate_signature) 164].

(** ** Properties *)

Lemma liquidation_approved keccak cfg oracle manager arguments job :
  tm_approvedCalls cfg = approved_calls keccak oracle manager -> length arguments = 5%nat ->
  tj_to job = manager -> tj_data job = EncodeFunction keccak liquidate_signature arguments -> tj_value job = U 0 ->
  IsApproved cfg job = true.
Proof.
  intros Hc Hl Ht Hd Hv. unfold IsApproved. rewrite Hv, Hc. unfold approved_calls.
  change (u_neb (U 0) (U 0)) with false. cbn [existsb]. apply orb_true_intro. right. apply orb_true_intro. left.
  unfold matches_call. cbn [ac_destination ac_selector ac_calldataSize].
  rewrite Ht, Hd, EncodeFunction_length, EncodeFunction_selector, Hl, !bool_decide_eq_true_2; done.
Qed.

(** An encoded liquidation, from the minimum collateral. *)
Lemma EncodeLiquidation_Ok keccak config candidate data :
  EncodeLiquidation keccak config candidate = Ok data ->
  exists minimum,
    MulDivDown (lc_expectedCollateral candidate) (U (lq_minimumCollateralBps config)) (U 10000) = Ok minimum
    /\ data = EncodeFunction keccak liquidate_signature
         [VAddress (lc_borrower candidate); VAddress (lc_debtAsset candidate);
          VAddress (lc_collateralAsset candidate); VUint256 (lc_maxRepay candidate); VUint256 minimum].
Proof.
  unfold EncodeLiquidation. generalize (MulDivDown (lc_expectedCollateral candidate)
    (U (lq_minimumCollateralBps config)) (U 10000)).
  intros [minimum|e] E; [|discriminate E]. exists minimum. split; [reflexivity|]. by injection E.
Qed.

(** The call of a submission, on any chain. *)
Lemma Prepare_call {N} `{LiquidationChain N} keccak config candidate (n n' : N) submission :
  Prepare keccak config candidate n = (Ok (Some submission), n') ->
  exists arguments, length arguments = 5%nat
    /\ submission = MkLiquidationSubmission (lq_liquidationManager config)
         (EncodeFunction keccak liquidate_signature arguments) (U 0).
Proof.
  intros HP. unfold Prepare in HP. run_inv. destruct a2 as [c|]; [|discriminate HP]. run_inv.
  destruct (u_leb _ _) in HP; [discriminate HP|]. run_inv.
  destruct (u_ltb _ _) in HP; [discriminate HP|]. injection HP as <- <-.
  match goal with E : EncodeLiquidation _ _ _ = Ok _ |- _ => apply EncodeLiquidation_Ok in E as (minimum & _ & ->) end.
  eexists. split; [|reflexivity]. reflexivity.
Qed.

Section Node.
Context {N : Type} `{RpcCalls N} (keccak : Bytes -> Hash256) (contracts : LiquidationContracts).

(** What the chain reports concerns the configured assets and the given borrower. *)
Lemma LoadMarket_assets (n n' : N) market :
  LoadMarket keccak contracts n = (Ok market, n') ->
  mk_usdc market = lk_usdc contracts /\ mk_weth market = lk_weth contracts.
Proof.
  unfold LoadMarket. intros HP. run_inv. destruct a1 as [block|]; [|discriminate HP].
  run_inv. by injection HP as <- <-.
Qed.

Lemma LoadPosition_user borrower (n n' : N) position :
  LoadPosition keccak contracts borrower n = (Ok position, n') -> po_user position = borrower.
Proof. unfold LoadPosition. intros HP. run_inv. by injection HP as <- <-. Qed.

(** The state a submission is prepared from: the market, the position, the gas and the fees are
    read one after the other, and [candidate] is what they allow. *)
Definition prepared_from (config : LiquidatorConfig) (borrower : Address) (n n' : N) (market : MarketSnapshot)
    (candidate : LiquidationCandidate) (data : Bytes) (gasCost : Uint256) : Prop :=
  exists position risk gasLimit fees n1 n2 n3,
    LoadMarket keccak contracts n = (Ok market, n1)
    /\ LoadPosition keccak contracts borrower n1 = (Ok position, n2)
    /\ Evaluate position market (mk_observedAt market) = Ok risk
    /\ BuildCandidate risk market None = Ok (Some candidate)
    /\ EstimateGas (lq_operatorAddress config) (lq_liquidationManager config) data n2 = (Ok gasLimit, n3)
    /\ GetFeeQuote n3 = (Ok fees, n')
    /\ value_ gasCost = value_ gasLimit * value_ (fq_maxFeePerGas fees).
End Node.

(** Claim C18: what [Prepare] hands over on the chain of a node, whatever the node answers: the [liquidate]
    call for the borrower of the candidate, with the repayment [BuildCandidate] computes from
    the state just read; the collateral asked for is the configured share of the expected one;
    the bonus covers the gas and the minimum profit; and the transaction manager, as it is
    configured, approves every job with this call. *)
Theorem Prepare_submission {N} `{RpcCalls N} keccak contracts config indexedCandidate (n n' : N) submission :
  @Prepare N (rpc_liquidation_chain keccak contracts) keccak config indexedCandidate n = (Ok (Some submission), n') ->
  exists market c minimumCollateral gasCost gasCostUsd,
    prepared_from keccak contracts config (lc_borrower indexedCandidate) n n' market c
      (sub_data submission) gasCost
    /\ lc_borrower c = lc_borrower indexedCandidate
    /\ submission = MkLiquidationSubmission (lq_liquidationManager config)
         (EncodeFunction keccak liquidate_signature
           [VAddress (lc_borrower c); VAddress (lk_usdc contracts); VAddress (lk_weth contracts);
            VUint256 (lc_maxRepay c); VUint256 minimumCollateral]) (U 0)
    /\ value_ minimumCollateral
       = value_ (lc_expectedCollateral c) * value_ (U (lq_minimumCollateralBps config)) / 10000
    /\ CollateralValue gasCost (mk_wethPrice market) = Ok gasCostUsd
    /\ value_ gasCostUsd < value_ (lc_expectedBonus c)
    /\ value_ gasCostUsd + value_ (lq_minimumProfitUsdWad config) <= value_ (lc_expectedBonus c)
    /\ (forall cfg oracle job, tm_approvedCalls cfg = approved_calls keccak oracle (lq_liquidationManager config) ->
         tj_to job = sub_destination submission -> tj_data job = sub_data submission ->
         tj_value job = sub_value submission -> IsApproved cfg job = true).
Proof.
  intros HP. unfold Prepare in HP. run_inv. destruct a2 as [c|]; [|discriminate HP]. run_inv.
  destruct (u_leb _ _) eqn:Eb in HP; [discriminate HP|]. run_inv.
  destruct (u_ltb _ _) eqn:Ep in HP; [discriminate HP|]. injection HP as <- <-.
  destruct (LoadMarket_assets _ _ _ _ _ Hrun) as [Eu Ew]. pose proof (LoadPosition_user _ _ _ _ _ _ Hrun0) as Euser.
  pose proof (Evaluate_position _ _ _ _ Hret0) as Epos.
  destruct (BuildCandidate_origin _ _ _ _ Hret) as (_ & Ebor & _ & Edebt & Ecoll & _).
  apply EncodeLiquidation_Ok in Hret3 as (minimum & Emin & ->).
  apply MathLemmas.MulDivDown_Ok in Emin as [_ Emin]. change (U 10000) with Bps in Emin.
  rewrite Bps_value in Emin. apply mul_Ok in Hret2. apply sub_Ok in Hret4.
  exists a, c, minimum, a5, a6. cbn [sub_data sub_destination sub_value].
  unfold u_leb in Eb. unfold u_ltb in Ep. apply Z.leb_gt in Eb. apply Z.ltb_ge in Ep.
  split.
  { exists a0, a1, a3, a4, s, s0, s2.
    exact (conj Hrun (conj Hrun0 (conj Hret0 (conj Hret (conj Hrun2 (conj Hrun3 Hret2)))))). }
  split; [rewrite Ebor, Epos; exact Euser|].
  split; [rewrite Edebt, Ecoll, Eu, Ew; reflexivity|]. split; [exact Emin|].
  split; [exact Hret1|]. split; [exact Eb|]. split; [lia|].
  intros cfg oracle job Hc Ht Hd Hv. eapply liquidation_approved; [exact Hc| |exact Ht|exact Hd|exact Hv]. reflexivity.
Qed.

(** ** A node with one position to liquidate *)

Definition demo_keccak (b : Bytes) : Hash256 := array_copy 32 b.
Definition demo_address (z : Z) : Address := array_copy 20 (be_bytes 20 z).
Definition demo_pool : LiquidationContracts :=
  MkLiquidationContracts (demo_address 1) (demo_address 2) (demo_address 3) (demo_address 4) (demo_address 5).
Definition demo_words (l : list Z) : Bytes := mjoin (be_bytes 32 <$> l).

(** The answers to the four calls, told apart by their calldata. *)
Definition demo_answer (data : Bytes) : Bytes :=
  let encoded signature address := EncodeFunction demo_keccak signature [VAddress (demo_address address)] in
  if bool_decide (data = encoded "assetPrices(address)" 4) then demo_words [2000 * 10 ^ 8; 900; 3600]
  else if bool_decide (data = encoded "assetPrices(address)" 5) then demo_words [10 ^ 8; 950; 86400]
  else if bool_decide (data = encoded "wethCollateral(address)" 9) then demo_words [10 ^ 18]
  else demo_words [1900000000].

Definition demo_node : RpcCalls unit := {|
  client_GetChainId := mret (U 1);
  client_GetBlockNumber := mret (U 20);
  client_GetBlockByNumber n := mret (Some (MkBlockHeader n (array_copy 32 []) (array_copy 32 []) (U 1000) (Some (U (10 ^ 10)))));
  client_GetLogs _ := mret [];
  client_EthCall call _ := mret (demo_answer (tc_data call));
  client_EstimateGas _ := mret (U 300000);
  client_GetTransactionCount _ _ := mret (U 0);
  client_SendRawTransaction _ := throw (RpcException Remote "read only");
  client_GetTransactionReceipt _ := mret None;
  client_GetMaxPriorityFeePerGas := mret (U (10 ^ 9))
|}.

Definition demo_config : LiquidatorConfig :=
  MkLiquidatorConfig (demo_address 8) (demo_address 2) (U (10 ^ 19)) 9900.
Definition demo_candidate : LiquidationCandidate :=
  MkLiquidationCandidate (demo_address 9) (U 0) (demo_address 5) (demo_address 4) (U 0) (U 0) (U 0) (U 0) 19
    (array_copy 32 []) (U 1) 6.

Definition demo_prepare : result (option LiquidationSubmission) * unit :=
  @Prepare unit (@rpc_liquidation_chain unit demo_node demo_keccak demo_pool) demo_keccak demo_config demo_candidate tt.

Definition prepared (r : result (option LiquidationSubmission) * unit) : bool :=
  match r with (Ok (Some _), _) => true | _ => false end.

Lemma demo_prepared : prepared demo_prepare = true.
Proof. vm_compute. reflexivity. Qed.

Lemma demo_submission : exists submission, demo_prepare = (Ok (Some submission), tt).
Proof.
  pose proof demo_prepared as Hp. revert Hp. generalize demo_prepare.
  intros [[[submission|]|e] []] Hp; [by exists submission|discriminate Hp..].
Qed.

Lemma Prepare_submission_witness : exists submission market c minimumCollateral gasCost gasCostUsd,
  demo_prepare = (Ok (Some submission), tt)
  /\ @prepared_from unit demo_node demo_keccak demo_pool demo_config (demo_address 9) tt tt market c
       (sub_data submission) gasCost
  /\ lc_borrower c = demo_address 9
  /\ submission = MkLiquidationSubmission (demo_address 2)
       (EncodeFunction demo_keccak liquidate_signature
         [VAddress (lc_borrower c); VAddress (demo_address 5); VAddress (demo_address 4);
          VUint256 (lc_maxRepay c); VUint256 minimumCollateral]) (U 0)
  /\ CollateralValue gasCost (mk_wethPrice market) = Ok gasCostUsd
  /\ value_ gasCostUsd < value_ (lc_expectedBonus c).
Proof.
  destruct demo_submission as [submission E].
  destruct (@Prepare_submission unit demo_node demo_keccak demo_pool demo_config demo_candidate tt tt submission E)
    as (market & c & minimum & gasCost & gasCostUsd & H1 & H2 & H3 & _ & H4 & H5 & _).
  exists submission, market, c, minimum, gasCost, gasCostUsd.
  exact (conj E (conj H1 (conj H2 (conj H3 (conj H4 H5))))).
Defined.
