(* ===== verification/Environment.v ===== *)
(** * Environment: the settings of the services (the [Main.cpp] of the services)

    A setting is the text of an environment variable; [getenv] is a parameter.  Every service has its
    own copy of the functions that read one, the transaction manager and the indexer with a
    check that the liquidator and the risk worker do not make. *)

From Stdlib Require Import Ascii.
From S2P Require Import Prelude Text Uint256 Hex Abi IndexerTypes RpcEndpoints TxManager LiquidationChain Liquidator.
Set Default Goal Selector "!".
#[local] Open Scope Z_scope.

(** ** [std::stoull], base 10 *)

(** The leading characters with a property, and the rest. *)
Fixpoint span (p : ascii -> bool) (l : list ascii) : list ascii * list ascii :=
  match l with
  | c :: l' => if p c then let '(front, rest) := span p l' in (c :: front, rest) else ([], l)
  | [] => ([], [])
  end.

Definition digit (c : ascii) : bool := (ascii_z "0" <=? ascii_z c) && (ascii_z c <=? ascii_z "9").

(** An optional sign; whether it is a minus. *)
Definition read_sign (l : list ascii) : list ascii * bool * list ascii :=
  match l with
  | c :: l' =>
      if bool_decide (c = "-"%char) then ([c], true, l')
      else if bool_decide (c = "+"%char) then ([c], false, l') else ([], false, l)
  | [] => ([], false, [])
  end.

(** The value, and how many characters were read; a negative number wraps around. *)
Definition stoull (text : string) : result (Z * Z) :=
  let '(spaces, l) := span is_space (chars text) in
  let '(sign, negative, l) := read_sign l in
  let '(digits, _) := span digit l in
  match digits with
  | [] => Throw (InvalidArgument "stoull")
  | _ =>
      if 2 ^ 64 <=? decimal_value digits then Throw OutOfRange
      else Ok (if negative then u64 (- decimal_value digits) else decimal_value digits,
               Z.of_nat (length (spaces ++ sign ++ digits)))
  end.

(** ** Settings *)

Section Environment.
Context (getenv : string -> option string).

Definition EnvironmentOrDefault (name fallback : string) : string :=
  match getenv name with
  | Some value => if bool_decide (value = "") then fallback else value
  | None => fallback
  end.

Definition RequiredEnvironment (name : string) : result string :=
  match getenv name with
  | Some value =>
      if bool_decide (value = "") then Throw (RuntimeError ("missing environment variable: " +:+ name)) else Ok value
  | None => Throw (RuntimeError ("missing environment variable: " +:+ name))
  end.

(** Of the liquidator and the risk worker. *)
Definition UnsignedPrefix (name fallback : string) : result Z :=
  '(value, _) ← stoull (EnvironmentOrDefault name fallback); Ok value.

(** Of the transaction manager; [StartBlock] of the indexer is the same for one variable. *)
Definition UnsignedEnvironment (name fallback : string) : result Z :=
  let value := EnvironmentOrDefault name fallback in
  '(result, parsed) ← stoull value;
  if negb (parsed =? Z.of_nat (String.length value))
  then Throw (InvalidArgument (name +:+ " must be an unsigned integer")) else Ok result.
Definition StartBlock : result Z := UnsignedEnvironment "DLP_START_BLOCK" "0".

Definition required_address (name : string) : result Address :=
  text ← RequiredEnvironment name; AddressFromHex text.

(** *** The indexer *)

Definition indexer_contracts : result ChainContracts :=
  pool ← required_address "DLP_POOL_ADDRESS";
  oracle ← required_address "DLP_ORACLE_ADDRESS";
  weth ← required_address "DLP_WETH_ADDRESS";
  usdc ← required_address "DLP_USDC_ADDRESS";
  Ok (MkChainContracts pool oracle weth usdc).

Definition indexer_endpoints : list string :=
  MergeRpcEndpoints (EnvironmentOrDefault "DLP_RPC_URL" "http://127.0.0.1:8545")
    (ParseRpcEndpoints (EnvironmentOrDefault "DLP_RPC_FAILOVER_URLS" "")).

(** *** The API *)

Definition api_endpoints : list string :=
  match ParseRpcEndpoints (EnvironmentOrDefault "DLP_READ_RPC_URLS" "") with
  | [] => [EnvironmentOrDefault "DLP_RPC_URL" "http://127.0.0.1:8545"]
  | endpoints => endpoints
  end.

(** *** The liquidator *)

Definition liquidator_contracts : result LiquidationContracts :=
  pool ← required_address "DLP_POOL_ADDRESS";
  liquidationManager ← required_address "DLP_LIQUIDATION_MANAGER_ADDRESS";
  oracle ← required_address "DLP_ORACLE_ADDRESS";
  weth ← required_address "DLP_WETH_ADDRESS";
  usdc ← required_address "DLP_USDC_ADDRESS";
  Ok (MkLiquidationContracts pool liquidationManager oracle weth usdc).

Definition liquidator_config (operatorAddress : Address) (contracts : LiquidationContracts) : result LiquidatorConfig :=
  minimumProfit ← FromDecimal (EnvironmentOrDefault "DLP_MIN_LIQUIDATION_PROFIT_USD_WAD" "0");
  minimumCollateral ← UnsignedPrefix "DLP_MIN_COLLATERAL_BPS" "9900";
  Ok (MkLiquidatorConfig operatorAddress (lk_liquidationManager contracts) minimumProfit minimumCollateral).

(** *** The transaction manager *)

(** The primary endpoint comes first; all others are only broadcast to. *)
Definition transaction_endpoints : list string :=
  let primary := EnvironmentOrDefault "DLP_RPC_PRIMARY_URL" (EnvironmentOrDefault "DLP_RPC_URL" "http://127.0.0.1:8545") in
  MergeRpcEndpoints primary (ParseRpcEndpoints (EnvironmentOrDefault "DLP_RPC_BROADCAST_URLS" "")).

Definition transaction_config (keccak : Bytes -> Hash256) (oracle liquidationManager : Address) : result TxManagerConfig :=
  confirmations ← UnsignedEnvironment "DLP_TX_CONFIRMATIONS" "1";
  replacementBlocks ← UnsignedEnvironment "DLP_TX_REPLACEMENT_BLOCKS" "3";
  maximumRetries ← UnsignedEnvironment "DLP_TX_MAX_RETRIES" "3";
  Ok (MkTxManagerConfig confirmations replacementBlocks (maximumRetries mod 2 ^ 32)
        (approved_calls keccak oracle liquidationManager)).
End Environment.

(** ** Properties *)

Lemma span_app p l : let '(front, rest) := span p l in
  l = front ++ rest /\ Forall (fun c => p c = true) front /\ (forall c rest', rest = c :: rest' -> p c = false).
Proof.
  induction l as [|c l IH]; cbn [span]; [done|]. destruct (p c) eqn:E; [|split; [done|split; [constructor|by intros ? ? [= -> _]]]].
  destruct (span p l) as [front rest]. destruct IH as (-> & Hf & Hr). split; [done|]. split; [by constructor|done].
Qed.

Lemma span_spec p front rest :
  Forall (fun c => p c = true) front -> (forall c rest', rest = c :: rest' -> p c = false) -> span p (front ++ rest) = (front, rest).
Proof.
  intros Hf Hr. induction Hf as [|c front Hc _ IH]; cbn [app span].
  - destruct rest as [|c rest]; [done|]. cbn [span]. by rewrite (Hr c rest).
  - by rewrite Hc, IH.
Qed.

Lemma digit_spec c : digit c = true <-> is_digit c.
Proof.
  unfold digit, is_digit. change (ascii_z "0") with 48. change (ascii_z "9") with 57.
  rewrite andb_true_iff, !Z.leb_le. done.
Qed.

Lemma digits_spec l : Forall (fun c => digit c = true) l <-> Forall is_digit l.
Proof. split; (intros H; eapply Forall_impl; [exact H|]; intros c; apply digit_spec). Qed.

Lemma length_chars s : length (chars s) = String.length s.
Proof. induction s as [|c s IH]; cbn; [done|]. by rewrite <-IH. Qed.

(** The texts [UnsignedEnvironment] accepts: spaces, a sign and digits. *)
Definition unsigned_text (l : list ascii) (v : Z) : Prop := exists spaces sign digits,
  l = spaces ++ sign ++ digits /\ Forall (fun c => is_space c = true) spaces
  /\ sign ∈ [[]; ["+"%char]; ["-"%char]] /\ digits <> [] /\ Forall is_digit digits /\ decimal_value digits < 2 ^ 64
  /\ v = (if bool_decide (sign = ["-"%char]) then u64 (- decimal_value digits) else decimal_value digits).

Lemma is_digit_not c : is_digit c -> is_space c = false /\ c <> "-"%char /\ c <> "+"%char.
Proof.
  unfold is_digit, is_space. intros Hc. split; [|by split; intros ->; unfold ascii_z in Hc; cbn in Hc; lia].
  apply orb_false_iff. split; [apply Z.eqb_neq; lia|]. apply andb_false_iff. right. apply Z.leb_gt. lia.
Qed.

(** What [stoull] reads of a text. *)
Lemma stoull_Ok text v parsed :
  stoull text = Ok (v, parsed) ->
  exists front rest, chars text = front ++ rest /\ unsigned_text front v /\ parsed = Z.of_nat (length front).
Proof.
  unfold stoull. pose proof (span_app is_space (chars text)) as Hs. destruct (span is_space (chars text)) as [spaces l].
  destruct Hs as (-> & Hs & _).
  assert (exists sign negative l', read_sign l = (sign, negative, l') /\ l = sign ++ l' /\ sign ∈ [[]; ["+"%char]; ["-"%char]]
    /\ negative = bool_decide (sign = ["-"%char])) as (sign & negative & l' & Er & -> & Hsign & En).
  { unfold read_sign. destruct l as [|c l]; [exists [], false, []; repeat split; set_solver|].
    case_bool_decide as Em; [subst; exists ["-"%char], true, l; repeat split; set_solver|].
    case_bool_decide as Ep; [subst; exists ["+"%char], false, l; repeat split; set_solver|].
    exists [], false, (c :: l). repeat split; set_solver. }
  rewrite Er. pose proof (span_app digit l') as Hd. destruct (span digit l') as [digits rest]. destruct Hd as (-> & Hd & _).
  destruct digits as [|c ds]; [done|]. set (digits := c :: ds) in *. destruct (Z.leb_spec (2 ^ 64) (decimal_value digits)); [done|].
  intros [= <- <-]. exists (spaces ++ sign ++ digits), rest. split; [by rewrite <-!app_assoc|]. split; [|done].
  exists spaces, sign, digits. repeat split; try done; [by apply digits_spec|by rewrite En].
Qed.

Lemma stoull_text front rest v :
  unsigned_text front v -> (forall c rest', rest = c :: rest' -> digit c = false) ->
  stoull (unchars (front ++ rest)) = Ok (v, Z.of_nat (length front)).
Proof.
  intros (spaces & sign & digits & -> & Hs & Hsign & Hne & Hd & Hv & ->) Hr. unfold stoull. rewrite chars_unchars.
  destruct digits as [|c ds]; [done|]. set (digits := c :: ds) in *. assert (is_digit c) as Hc by by inversion Hd.
  destruct (is_digit_not c Hc) as (Hsp & Hm & Hp).
  rewrite <-!app_assoc, span_spec; [|done|].
  2:{ revert Hsign. rewrite !elem_of_cons. intros [-> | [-> | [-> | []%not_elem_of_nil]]] x y; cbn; by intros [= <- _]. }
  assert (read_sign (sign ++ digits ++ rest) = (sign, bool_decide (sign = ["-"%char]), digits ++ rest)) as ->.
  { revert Hsign. rewrite !elem_of_cons. intros [-> | [-> | [-> | []%not_elem_of_nil]]]; [|done..].
    unfold digits. cbn [app read_sign]. by rewrite !bool_decide_eq_false_2. }
  rewrite (span_spec digit) by (try done; by apply digits_spec). unfold digits at 1.
  destruct (Z.leb_spec (2 ^ 64) (decimal_value digits)); [lia|]. by case_bool_decide.
Qed.

(** An unsigned setting is accepted exactly when its text is, but for leading spaces and a sign, a
    decimal number below 2^64, and then has its value. *)
Theorem UnsignedEnvironment_exact getenv name fallback v :
  UnsignedEnvironment getenv name fallback = Ok v
  <-> unsigned_text (chars (EnvironmentOrDefault getenv name fallback)) v.
Proof.
  unfold UnsignedEnvironment. set (text := EnvironmentOrDefault getenv name fallback). split.
  - intros E. apply bind_Ok_inv in E as ([v' parsed] & Es & E). destruct (Z.eqb_spec parsed (Z.of_nat (String.length text))) as [Ep|]; [|done].
    injection E as <-. destruct (stoull_Ok _ _ _ Es) as (front & rest & El & Ht & ->). rewrite <-length_chars, El, length_app in Ep.
    destruct rest; [|cbn in Ep; lia]. rewrite app_nil_r in El. by rewrite El.
  - intros Ht. rewrite <-(unchars_chars text), <-(app_nil_r (chars text)). rewrite (stoull_text _ [] v Ht) by done.
    rewrite bind_Ok, app_nil_r, unchars_chars, length_chars, Z.eqb_refl. done.
Qed.

(** A number that is printed is read back. *)
Lemma UnsignedEnvironment_ToDecimal getenv name fallback x :
  getenv name = Some (ToDecimal x) -> value_ x < 2 ^ 64 -> UnsignedEnvironment getenv name fallback = Ok (value_ x).
Proof.
  intros E Hx. destruct (ToDecimal_digits x) as (Hne & Hd & Hv). apply UnsignedEnvironment_exact. unfold EnvironmentOrDefault. rewrite E.
  rewrite bool_decide_eq_false_2 by done. exists [], [], (chars (ToDecimal x)). rewrite Hv.
  split; [done|]. split; [done|]. split; [apply list_elem_of_here|]. split; [|done].
  intros En. apply Hne. by rewrite <-(unchars_chars (ToDecimal x)), En.
Qed.

(** A setting that has to be an unsigned integer may be negative: it wraps around. *)
Theorem negative_setting_accepted keccak oracle manager :
  let getenv name := if bool_decide (name = "DLP_TX_CONFIRMATIONS") then Some "-1" else None in
  tm_confirmationDepth <$> transaction_config getenv keccak oracle manager = Ok (2 ^ 64 - 1).
Proof. reflexivity. Qed.
