(* ===== verification/LiquidationJobs.v ===== *)
(** * LiquidationJobs: the queue of liquidations ([LiquidationJobs.hpp], [LiquidationJobs.cpp],
    table [liquidation_jobs] of [009_create_liquidation_jobs.sql])

    Workers claim jobs for the time of a lease.  Every claim raises the fencing token of its job,
    and only the holder of the newest token may submit while its lease runs.  The
    transactions of concurrent workers are taken in the order of their commits; the row locks
    that [FOR UPDATE SKIP LOCKED] skips belong to transactions that come before or after. *)

From S2P Require Import Prelude Effects Text Json Sql Uint256 Hex Rlp Transaction Abi RpcTypes TxManager.
From S2P Require Import IndexerTypes PostgresStore Event RiskCalculator RiskWorker PostgresTransactionStore Liquidator.
Set Default Goal Selector "!".
#[local] Open Scope Z_scope.

Record LiquidationJob := MkLiquidationJob {
  lj_jobId : string;
  lj_candidate : LiquidationCandidate;
  lj_workerId : string;
  lj_fencingToken : Z
}.

Record LiquidationReconcileResult := MkLiquidationReconcileResult {
  rc_completed : Z;
  rc_failed : Z;
  rc_reorged : Z
}.

Record JobRow := MkJobRow {
  jr_job_id : string;
  jr_source_event_id : string;
  jr_chain_id : string;
  jr_borrower_address : string;
  jr_debt_asset : string;
  jr_collateral_asset : string;
  jr_health_factor : string;
  jr_max_repay : string;
  jr_expected_bonus : string;
  jr_expected_collateral : string;
  jr_expected_bad_debt : string;
  jr_block_number : Z;
  jr_block_hash : string;
  jr_canonical_version : Z;
  jr_status : string;
  jr_worker_id : option string;
  jr_lease_until : option Z;
  jr_fencing_token : Z;
  jr_tx_job_id : option string;
  jr_error_message : option string;
  jr_created_at : Z
}.

(** The tables a liquidator uses: those of the indexer with the time, [tx_jobs] and
    [liquidation_jobs]. *)
Record LqDb := MkLqDb {
  lq_index : IxDb;
  lq_tx_jobs : list TxRow;
  lq_jobs : list JobRow
}.

Definition lq_now (db : LqDb) : Z := db_now (lq_index db).
Definition set_jobs (rows : list JobRow) (db : LqDb) : LqDb := MkLqDb (lq_index db) (lq_tx_jobs db) rows.
Definition set_tx_jobs (rows : list TxRow) (db : LqDb) : LqDb := MkLqDb (lq_index db) rows (lq_jobs db).

(** The columns an [UPDATE] of the store sets. *)
Definition set_state (status : string) (worker : option string) (lease : option Z) (token : Z)
    (tx error : option string) (row : JobRow) : JobRow :=
  MkJobRow (jr_job_id row) (jr_source_event_id row) (jr_chain_id row) (jr_borrower_address row)
    (jr_debt_asset row) (jr_collateral_asset row) (jr_health_factor row) (jr_max_repay row)
    (jr_expected_bonus row) (jr_expected_collateral row) (jr_expected_bad_debt row)
    (jr_block_number row) (jr_block_hash row) (jr_canonical_version row)
    status worker lease token tx error (jr_created_at row).
Definition set_job_status (status : string) (row : JobRow) : JobRow :=
  set_state status (jr_worker_id row) (jr_lease_until row) (jr_fencing_token row) (jr_tx_job_id row)
    (jr_error_message row) row.
Definition set_job_error (status : string) (error : option string) (row : JobRow) : JobRow :=
  set_state status (jr_worker_id row) (jr_lease_until row) (jr_fencing_token row) (jr_tx_job_id row) error row.

(** [UPDATE liquidation_jobs SET ... WHERE ...], and the number of affected rows. *)
Definition update_jobs (where_ : JobRow -> bool) (set : JobRow -> JobRow) (rows : list JobRow) : list JobRow :=
  (fun row => if where_ row then set row else row) <$> rows.
Definition affected (where_ : JobRow -> bool) (rows : list JobRow) : Z :=
  Z.of_nat (length (filter (fun row => where_ row = true) rows)).

Abbreviation M := (prog LqDb).

Definition on_index {A} (m : prog IxDb A) : M A := fun db =>
  let '(r, index) := m (lq_index db) in (r, MkLqDb index (lq_tx_jobs db) (lq_jobs db)).

(** ** [Enqueue] *)

Definition JobParseHash (value : string) : result Hash256 :=
  parse_hash "liquidation job block hash must contain 32 bytes" value.

Definition address_member (key : string) (value : json) : result Address :=
  text ← string_member key value; AddressFromHex text.
Definition amount_member (key : string) (value : json) : result Uint256 :=
  text ← string_member key value; FromDecimal text.

Definition CandidateFromEvent (event : EventEnvelope) : result LiquidationCandidate :=
  borrower ← address_member "borrower" (ee_payload event);
  healthFactor ← amount_member "healthFactor" (ee_payload event);
  debtAsset ← address_member "debtAsset" (ee_payload event);
  collateralAsset ← address_member "collateralAsset" (ee_payload event);
  maxRepay ← amount_member "maxRepay" (ee_payload event);
  expectedBonus ← amount_member "expectedBonus" (ee_payload event);
  expectedCollateral ← amount_member "expectedCollateral" (ee_payload event);
  expectedBadDebt ← amount_member "expectedBadDebt" (ee_payload event);
  Ok (MkLiquidationCandidate borrower healthFactor debtAsset collateralAsset maxRepay expectedBonus
        expectedCollateral expectedBadDebt (ee_blockNumber event) (ee_blockHash event)
        (ee_chainId event) (ee_canonicalVersion event)).

Definition new_job_row (eventId : string) (c : LiquidationCandidate) (now : Z) : JobRow :=
  MkJobRow eventId eventId (ToDecimal (lc_chainId c)) (AddressToHex (lc_borrower c) true)
    (AddressToHex (lc_debtAsset c) true) (AddressToHex (lc_collateralAsset c) true)
    (ToDecimal (lc_healthFactor c)) (ToDecimal (lc_maxRepay c)) (ToDecimal (lc_expectedBonus c))
    (ToDecimal (lc_expectedCollateral c)) (ToDecimal (lc_expectedBadDebt c))
    (lc_blockNumber c) (EncodeArray (lc_blockHash c) true) (lc_canonicalVersion c)
    "Available" None None 0 None None now.

(** [INSERT INTO liquidation_jobs ... ON CONFLICT (source_event_id) DO NOTHING] *)
Definition insert_job (row : JobRow) : M unit :=
  require (sql_bigint (jr_block_number row) && (0 <? jr_canonical_version row)
           && sql_bigint (jr_canonical_version row)) "value out of range";;
  db ← get;
  if existsb (fun other => bool_decide (jr_source_event_id other = jr_source_event_id row)) (lq_jobs db)
  then mret tt
  else
    require (negb (existsb (fun other => bool_decide (jr_job_id other = jr_job_id row)) (lq_jobs db)))
      "duplicate key value violates unique constraint liquidation_jobs_pkey";;
    modify (set_jobs (lq_jobs db ++ [row])).

Definition Enqueue (event : EventEnvelope) : M bool :=
  candidate ← lift (CandidateFromEvent event);
  transaction (
    inserted ← on_index (insert_processed "liquidator" (ee_eventId event));
    if negb inserted then mret false
    else
      db ← get;
      insert_job (new_job_row (ee_eventId event) candidate (lq_now db));;
      mret true).

(** ** [Claim] *)

Definition ParseJob (row : JobRow) : result LiquidationJob :=
  borrower ← AddressFromHex (jr_borrower_address row);
  healthFactor ← FromDecimal (jr_health_factor row);
  debtAsset ← AddressFromHex (jr_debt_asset row);
  collateralAsset ← AddressFromHex (jr_collateral_asset row);
  maxRepay ← FromDecimal (jr_max_repay row);
  expectedBonus ← FromDecimal (jr_expected_bonus row);
  expectedCollateral ← FromDecimal (jr_expected_collateral row);
  expectedBadDebt ← FromDecimal (jr_expected_bad_debt row);
  blockNumber ← uint64_column (jr_block_number row);
  blockHash ← JobParseHash (jr_block_hash row);
  chainId ← FromDecimal (jr_chain_id row);
  canonicalVersion ← uint64_column (jr_canonical_version row);
  workerId ← result_of (jr_worker_id row) (SqlError "attempt to convert a null");
  fencingToken ← uint64_column (jr_fencing_token row);
  Ok (MkLiquidationJob (jr_job_id row)
        (MkLiquidationCandidate borrower healthFactor debtAsset collateralAsset maxRepay expectedBonus
           expectedCollateral expectedBadDebt blockNumber blockHash chainId canonicalVersion)
        workerId fencingToken).

Definition lease_over (now : Z) (row : JobRow) : bool :=
  match jr_lease_until row with Some lease => lease <=? now | None => false end.

Definition expired (chain : string) (now : Z) (row : JobRow) : bool :=
  bool_decide (jr_chain_id row = chain) && bool_decide (jr_status row = "Claimed") && lease_over now row.

Definition claimable (chain : string) (row : JobRow) : bool :=
  bool_decide (jr_chain_id row = chain) && bool_decide (jr_status row ∈ ["Available"; "Expired"]).

Definition claim_row (workerId : string) (lease : Z) (row : JobRow) : JobRow :=
  set_state "Claimed" (Some workerId) (Some lease) (jr_fencing_token row + 1) (jr_tx_job_id row) None row.

Section Order.
Context `{TextOrder}.

(** [ORDER BY created_at, job_id] *)
Definition job_before (r1 r2 : JobRow) : bool :=
  time_text_before (jr_created_at r1, jr_job_id r1) (jr_created_at r2, jr_job_id r2).

Definition Claim (chainId : Uint256) (workerId : string) (leaseSeconds : Z) : M (option LiquidationJob) :=
  let chain := ToDecimal chainId in
  transaction (
    db ← get;
    let rows := update_jobs (expired chain (lq_now db)) (set_job_status "Expired") (lq_jobs db) in
    modify (set_jobs rows);;
    match std_sort job_before (filter (fun row => claimable chain row = true) rows) with
    | [] => mret None
    | next :: _ =>
        let claimed := claim_row workerId (lq_now db + leaseSeconds * 1000000) next in
        require (sql_bigint (jr_fencing_token claimed)) "bigint out of range";;
        modify (set_jobs (update_jobs (fun row => bool_decide (jr_job_id row = jr_job_id next))
                            (claim_row workerId (lq_now db + leaseSeconds * 1000000)) rows));;
        job ← lift (ParseJob claimed);
        mret (Some job)
    end).
End Order.

(** ** [Submit] *)

Definition tx_job_id (job : LiquidationJob) : string := "liquidation-tx:" +:+ lj_jobId job.

Definition new_tx_row (job : LiquidationJob) (submission : LiquidationSubmission) (wallet : Address) (now : Z) : TxRow :=
  MkTxRow (tx_job_id job) (ToDecimal (lc_chainId (lj_candidate job))) (AddressToHex wallet true)
    (AddressToHex (sub_destination submission) true) (ToDecimal (sub_value submission))
    (Encode (sub_data submission) true) "Pending" None None None None None None 0 None None None 0 None now.

(** [EXISTS (SELECT 1 FROM blocks ... AND canonical_block.canonical)] *)
Definition block_canonical (blocks : list BlockRow) (row : JobRow) : bool :=
  existsb (fun block => bool_decide (br_chain_id block = jr_chain_id row)
                        && (br_block_number block =? jr_block_number row)
                        && bool_decide (br_block_hash block = jr_block_hash row) && br_canonical block) blocks.

(** [job_id = $1 AND status = 'Claimed' AND worker_id = $2 AND fencing_token = $3 AND lease_until > NOW()] *)
Definition held_by (job : LiquidationJob) (now : Z) (row : JobRow) : bool :=
  bool_decide (jr_job_id row = lj_jobId job) && bool_decide (jr_status row = "Claimed")
  && bool_decide (jr_worker_id row = Some (lj_workerId job)) && (jr_fencing_token row =? lj_fencingToken job)
  && match jr_lease_until row with Some lease => now <? lease | None => false end.

Definition submit_row (job : LiquidationJob) (row : JobRow) : JobRow :=
  set_state "Submitted" (jr_worker_id row) (jr_lease_until row) (jr_fencing_token row) (Some (tx_job_id job))
    (jr_error_message row) row.

Definition Submit (job : LiquidationJob) (submission : LiquidationSubmission) (wallet : Address) : M bool :=
  transaction_if (
    modify (fun db => set_tx_jobs
      (insert_unless (fun row => bool_decide (row_job_id row = tx_job_id job))
         (new_tx_row job submission wallet (lq_now db)) (lq_tx_jobs db)) db);;
    lift (bigint_parameter (lj_fencingToken job));;
    db ← get;
    let submittable row := held_by job (lq_now db) row && block_canonical (db_blocks (lq_index db)) row in
    modify (set_jobs (update_jobs submittable (submit_row job) (lq_jobs db)));;
    mret (negb (affected submittable (lq_jobs db) =? 0))).

(** ** [Invalidate], [InvalidateNonCanonical] *)

Definition Invalidate (job : LiquidationJob) (reason : string) : M bool :=
  transaction (
    lift (bigint_parameter (lj_fencingToken job));;
    db ← get;
    modify (set_jobs (update_jobs (held_by job (lq_now db)) (set_job_error "Invalidated" (Some reason)) (lq_jobs db)));;
    mret (affected (held_by job (lq_now db)) (lq_jobs db) =? 1)).

Definition orphaned (chain : string) (blocks : list BlockRow) (row : JobRow) : bool :=
  bool_decide (jr_chain_id row = chain) && bool_decide (jr_status row ∈ ["Available"; "Claimed"; "Expired"])
  && negb (block_canonical blocks row).

Definition InvalidateNonCanonical (chainId : Uint256) : M Z :=
  transaction (
    db ← get;
    let stale := orphaned (ToDecimal chainId) (db_blocks (lq_index db)) in
    modify (set_jobs (update_jobs stale
      (set_job_error "Invalidated" (Some "source block is no longer canonical")) (lq_jobs db)));;
    mret (affected stale (lq_jobs db))).

(** ** [ReconcileSubmitted] *)

(** The row of [tx_jobs] a job is joined with. *)
Definition outcome_of (txs : list TxRow) (row : JobRow) : option TxRow :=
  if bool_decide (jr_status row = "Submitted") then
    head (filter (fun tx => jr_tx_job_id row = Some (row_job_id tx)
                            /\ row_status tx ∈ ["Finalized"; "Failed"; "Reorged"]) txs)
  else None.

Definition reconcile_row (txs : list TxRow) (row : JobRow) : JobRow :=
  match outcome_of txs row with
  | Some tx =>
      set_job_error (if bool_decide (row_status tx = "Finalized") then "Completed"
                     else if bool_decide (row_status tx = "Reorged") then "Invalidated" else "Failed")
        (row_error_message tx) row
  | None => row
  end.

(** The loop over the returned rows. *)
Definition count_outcome (r : LiquidationReconcileResult) (tx : TxRow) : LiquidationReconcileResult :=
  if bool_decide (row_status tx = "Finalized") then MkLiquidationReconcileResult (rc_completed r + 1) (rc_failed r) (rc_reorged r)
  else if bool_decide (row_status tx = "Reorged") then MkLiquidationReconcileResult (rc_completed r) (rc_failed r) (rc_reorged r + 1)
  else MkLiquidationReconcileResult (rc_completed r) (rc_failed r + 1) (rc_reorged r).

Definition ReconcileSubmittedWithStats : M LiquidationReconcileResult :=
  transaction (
    db ← get;
    modify (set_jobs (reconcile_row (lq_tx_jobs db) <$> lq_jobs db));;
    mret (foldl count_outcome (MkLiquidationReconcileResult 0 0 0)
            (omap (outcome_of (lq_tx_jobs db)) (lq_jobs db)))).

Definition ReconcileSubmitted : M Z :=
  r ← ReconcileSubmittedWithStats;
  mret (rc_completed r + rc_failed r + rc_reorged r).
