(* ===== verification/LiquidationProperties.v ===== *)
(** * LiquidationProperties: the life of the liquidation jobs

    Every command of the store moves the rows along the edges of one automaton, whatever the
    order in which workers, the indexer and the transaction manager commit.  From this
    follow the fencing of stale workers and that a job is submitted at most once.  The last
    part follows a candidate from the risk engine through the queue to its job. *)

From S2P Require Import Prelude Effects Text Json Sql Uint256 Hex Rlp Transaction Abi RpcTypes TxManager.
From S2P Require Import IndexerTypes PostgresStore Event Outbox RiskCalculator RiskWorker PostgresTransactionStore.
From S2P Require Import RiskProperties LiquidationChain Liquidator LiquidationJobs.
Set Default Goal Selector "!".
#[local] Open Scope Z_scope.

(** ** The automaton of a row *)

Inductive job_edge : JobRow -> JobRow -> Prop :=
| edge_expire row lease :
    jr_status row = "Claimed" -> jr_lease_until row = Some lease ->
    job_edge row (set_job_status "Expired" row)
| edge_claim row worker lease :
    jr_status row ∈ ["Available"; "Expired"] ->
    job_edge row (claim_row worker lease row)
| edge_submit row job :
    jr_status row = "Claimed" -> jr_worker_id row = Some (lj_workerId job) ->
    jr_fencing_token row = lj_fencingToken job -> jr_job_id row = lj_jobId job ->
    job_edge row (submit_row job row)
| edge_invalidate row error :
    jr_status row ∈ ["Available"; "Claimed"; "Expired"] ->
    job_edge row (set_job_error "Invalidated" error row)
| edge_finish row status error :
    jr_status row = "Submitted" -> status ∈ ["Completed"; "Invalidated"; "Failed"] ->
    job_edge row (set_job_error status error row).

(** A row as [Enqueue] inserts it. *)
Definition fresh (row : JobRow) : Prop :=
  jr_status row = "Available" /\ jr_fencing_token row = 0 /\ jr_tx_job_id row = None.

(** The rows of the table move along the edges; new rows are fresh. *)
Definition rows_evolve (rows rows' : list JobRow) : Prop :=
  exists moved new, rows' = moved ++ new /\ Forall2 (rtc job_edge) rows moved /\ Forall fresh new.

(** Whether a job can still be claimed or submitted. *)
Definition open (row : JobRow) : bool := bool_decide (jr_status row ∈ ["Available"; "Claimed"; "Expired"]).

Definition job_ids (db : LqDb) : list string := jr_job_id <$> lq_jobs db.

Lemma edge_id row row' : job_edge row row' -> jr_job_id row' = jr_job_id row.
Proof. by intros []. Qed.

Lemma edge_token row row' : job_edge row row' -> jr_fencing_token row <= jr_fencing_token row'.
Proof. intros []; cbn; lia. Qed.

Lemma edge_closed row row' : job_edge row row' -> open row = false -> open row' = false.
Proof.
  unfold open. intros [r lease E _|r w l E|r job E _ _ _|r e E|r s e E Hs];
    cbn [set_job_error set_state jr_status]; try (rewrite E; done).
  - apply elem_of_cons in E as [E | E%list_elem_of_singleton]; by rewrite E.
  - by rewrite bool_decide_eq_true_2.
  - intros _. apply elem_of_cons in Hs as [-> | [-> | ->%list_elem_of_singleton]%elem_of_cons]; done.
Qed.

Lemma edges_id row row' : rtc job_edge row row' -> jr_job_id row' = jr_job_id row.
Proof. induction 1 as [|r1 r2 r3 H _ IH]; [done|]. by rewrite IH, (edge_id _ _ H). Qed.

Lemma edges_token row row' : rtc job_edge row row' -> jr_fencing_token row <= jr_fencing_token row'.
Proof. induction 1 as [|r1 r2 r3 H _ IH]; [done|]. pose proof (edge_token _ _ H). lia. Qed.

Lemma edges_closed row row' : rtc job_edge row row' -> open row = false -> open row' = false.
Proof. induction 1 as [|r1 r2 r3 H _ IH]; [done|]. intros Hc. by apply IH, (edge_closed _ _ H). Qed.

Lemma edges_worker row row' :
  rtc job_edge row row' -> jr_fencing_token row' <= jr_fencing_token row -> jr_worker_id row' = jr_worker_id row.
Proof.
  induction 1 as [|r1 r2 r3 H Hs IH]; [done|]. intros Hle.
  pose proof (edge_token _ _ H). pose proof (edges_token _ _ Hs). rewrite IH by lia.
  destruct H; cbn in *; try done. lia.
Qed.

Lemma rows_evolve_refl rows : rows_evolve rows rows.
Proof.
  exists rows, []. rewrite app_nil_r. split; [done|]. split; [|constructor].
  induction rows; constructor; auto using rtc_refl.
Qed.

Lemma Forall2_trans_edges l1 l2 l3 :
  Forall2 (rtc job_edge) l1 l2 -> Forall2 (rtc job_edge) l2 l3 -> Forall2 (rtc job_edge) l1 l3.
Proof.
  intros H12. revert l3. induction H12 as [|a b l1 l2 Hab _ IH]; intros l3 H23; inversion H23; subst; constructor.
  - by etrans.
  - auto.
Qed.

Lemma update_moves where_ set rows :
  (forall row, row ∈ rows -> where_ row = true -> job_edge row (set row)) ->
  Forall2 (rtc job_edge) rows (update_jobs where_ set rows).
Proof.
  intros He. unfold update_jobs. induction rows as [|row rows IH]; [constructor|]. cbn [fmap list_fmap]. constructor.
  - destruct (where_ row) eqn:E; [|apply rtc_refl]. apply rtc_once, He; [apply list_elem_of_here|done].
  - apply IH. intros r Hr. apply He. by apply list_elem_of_further.
Qed.

Lemma moves_evolve rows rows' : Forall2 (rtc job_edge) rows rows' -> rows_evolve rows rows'.
Proof. intros H. exists rows', []. rewrite app_nil_r. repeat split; [done|constructor]. Qed.

Lemma moves_refl rows : Forall2 (rtc job_edge) rows rows.
Proof. induction rows; constructor; auto using rtc_refl. Qed.

(** ** The commands *)

Inductive Command :=
| DoEnqueue (event : EventEnvelope)
| DoClaim (chainId : Uint256) (workerId : string) (leaseSeconds : Z)
| DoSubmit (job : LiquidationJob) (submission : LiquidationSubmission) (wallet : Address)
| DoInvalidate (job : LiquidationJob) (reason : string)
| DoInvalidateNonCanonical (chainId : Uint256)
| DoReconcile
| Others (index : IxDb -> IxDb) (transactions : list TxRow -> list TxRow).

Inductive Outcome :=
| Enqueued (queued : bool)
| ClaimedJob (job : option LiquidationJob)
| SubmittedJob (submitted : bool)
| InvalidatedJob (invalidated : bool)
| Counted (n : Z)
| Nothing.

Section Commands.
Context `{TextOrder}.

(** [Others] are commits of the indexer, the risk engine and the transaction manager, and the
    passing of time: they leave [liquidation_jobs] alone. *)
Definition perform (c : Command) : prog LqDb Outcome :=
  match c with
  | DoEnqueue event => b ← Enqueue event; mret (Enqueued b)
  | DoClaim chainId workerId lease => o ← Claim chainId workerId lease; mret (ClaimedJob o)
  | DoSubmit job submission wallet => b ← Submit job submission wallet; mret (SubmittedJob b)
  | DoInvalidate job reason => b ← Invalidate job reason; mret (InvalidatedJob b)
  | DoInvalidateNonCanonical chainId => n ← InvalidateNonCanonical chainId; mret (Counted n)
  | DoReconcile => n ← ReconcileSubmitted; mret (Counted n)
  | Others index transactions =>
      modify (fun db => MkLqDb (index (lq_index db)) (transactions (lq_tx_jobs db)) (lq_jobs db));; mret Nothing
  end.

(** A sequence of commands, with what each returned. *)
Fixpoint run (commands : list Command) (db : LqDb) : list (Command * result Outcome) * LqDb :=
  match commands with
  | [] => ([], db)
  | c :: commands =>
      let '(r, db1) := perform c db in
      let '(h, db2) := run commands db1 in ((c, r) :: h, db2)
  end.
End Commands.

(** *** [Enqueue] *)

Lemma insert_job_wp row db :
  fresh row ->
  wp (insert_job row)
    (fun _ db' => rows_evolve (lq_jobs db) (lq_jobs db') /\ (NoDup (job_ids db) -> NoDup (job_ids db')))
    (fun _ _ => True) db.
Proof.
  intros Hf. unfold insert_job. repeat sql_step; try done.
  - split; [apply rows_evolve_refl|done].
  - split; cbn [set_jobs lq_jobs].
    + exists (lq_jobs db), [row]. split; [done|]. split; [|by constructor].
      clear. induction (lq_jobs db); constructor; auto using rtc_refl.
    + unfold job_ids. cbn [set_jobs lq_jobs]. intros Hnd. rewrite fmap_app. apply NoDup_app.
      split; [done|]. split; [|apply NoDup_singleton].
      intros id (r & -> & Hr)%list_elem_of_fmap E%list_elem_of_singleton.
      match goal with Hx : negb _ = true |- _ => apply negb_true_iff in Hx; rewrite existsb_false in Hx;
        specialize (Hx r Hr); cbn in Hx; by rewrite bool_decide_eq_true_2 in Hx end.
Qed.

Lemma Enqueue_evolves event db :
  let db' := (Enqueue event db).2 in
  rows_evolve (lq_jobs db) (lq_jobs db') /\ (NoDup (job_ids db) -> NoDup (job_ids db')).
Proof.
  cut (wp (Enqueue event) (fun _ db' => rows_evolve (lq_jobs db) (lq_jobs db') /\ (NoDup (job_ids db) -> NoDup (job_ids db')))
    (fun _ db' => rows_evolve (lq_jobs db) (lq_jobs db') /\ (NoDup (job_ids db) -> NoDup (job_ids db'))) db).
  { unfold wp. by destruct (Enqueue event db) as [[] ?]. }
  unfold Enqueue. sql_step. sql_step; [|split; [apply rows_evolve_refl|done]]. apply wp_transaction.
  apply wp_bind. unfold wp at 1, on_index, insert_processed. rewrite get_run.
  case_bool_decide; cbn [negb].
  - apply wp_ret. split; [apply rows_evolve_refl|done].
  - apply wp_bind, wp_get, wp_bind. eapply wp_mono; [by apply insert_job_wp| |].
    + intros [] db' Hdb. apply wp_ret. exact Hdb.
    + intros. split; [apply rows_evolve_refl|done].
Qed.

(** *** [Claim] *)

Lemma expire_moves chain now rows :
  Forall2 (rtc job_edge) rows (update_jobs (expired chain now) (set_job_status "Expired") rows).
Proof.
  apply update_moves. intros row _ He. unfold expired, lease_over in He.
  apply andb_prop in He as [[_ Hs%bool_decide_eq_true]%andb_prop Hl].
  destruct (jr_lease_until row) as [lease|] eqn:El; [|done]. by eapply edge_expire.
Qed.

Lemma moves_ids rows rows' : Forall2 (rtc job_edge) rows rows' -> jr_job_id <$> rows' = jr_job_id <$> rows.
Proof. induction 1 as [|r r' l l' Hr _ IH]; [done|]. cbn. by rewrite IH, (edges_id _ _ Hr). Qed.

(** What a claim that returns a job has done: some row of its chain, open and not held, is now
    claimed under the next token; all others moved on their own. *)
Definition claimed_from (chainId : Uint256) (worker : string) (job : LiquidationJob) (db db' : LqDb) : Prop :=
  exists rows row lease,
    Forall2 (rtc job_edge) (lq_jobs db) rows
    /\ row ∈ rows /\ claimable (ToDecimal chainId) row = true
    /\ ParseJob (claim_row worker lease row) = Ok job
    /\ lq_jobs db' = update_jobs (fun r => bool_decide (jr_job_id r = jr_job_id row)) (claim_row worker lease) rows
    /\ lq_index db' = lq_index db /\ lq_tx_jobs db' = lq_tx_jobs db.

Lemma Claim_wp `{TextOrder} chainId worker lease db :
  wp (Claim chainId worker lease)
    (fun o db' => match o with
       | None => Forall2 (rtc job_edge) (lq_jobs db) (lq_jobs db')
       | Some job => claimed_from chainId worker job db db'
       end) (fun _ db' => db' = db) db.
Proof.
  unfold Claim. apply wp_transaction, wp_bind, wp_get. cbv zeta. apply wp_bind, wp_modify.
  set (rows := update_jobs (expired _ _) _ _).
  pose proof (expire_moves (ToDecimal chainId) (lq_now db) (lq_jobs db)) as Hm. fold rows in Hm.
  pose proof (std_sort_perm job_before (filter (fun row => claimable (ToDecimal chainId) row = true) rows)) as Hp.
  destruct (std_sort job_before _) as [|next rest]; [by apply wp_ret|].
  assert (next ∈ filter (fun row => claimable (ToDecimal chainId) row = true) rows) as [Hc Hin]%list_elem_of_filter.
  { rewrite <-Hp. apply list_elem_of_here. }
  sql_step. sql_step; [|done]. sql_step. sql_step. sql_step. sql_step; [|done].
  apply wp_ret. exists rows, next, (lq_now db + lease * 1000000). by repeat split.
Qed.

Lemma claim_moves chain worker lease row rows :
  NoDup (jr_job_id <$> rows) -> row ∈ rows -> claimable chain row = true ->
  Forall2 (rtc job_edge) rows
    (update_jobs (fun r => bool_decide (jr_job_id r = jr_job_id row)) (claim_row worker lease) rows).
Proof.
  intros Hnd Hin Hc. apply update_moves. intros r Hr E%bool_decide_eq_true.
  assert (r = row) as -> by by eapply (NoDup_fmap_eq jr_job_id).
  apply edge_claim. unfold claimable in Hc. apply andb_prop in Hc as [_ Hc]. by apply bool_decide_eq_true in Hc.
Qed.

Lemma Claim_evolves `{TextOrder} chainId worker lease db :
  NoDup (job_ids db) -> Forall2 (rtc job_edge) (lq_jobs db) (lq_jobs (Claim chainId worker lease db).2).
Proof.
  intros Hnd. pose proof (Claim_wp chainId worker lease db) as Hw. unfold wp in Hw.
  destruct (Claim chainId worker lease db) as [[[job|]|e] db']; cbn [snd].
  - destruct Hw as (rows & row & l & Hm & Hin & Hc & _ & -> & _). eapply Forall2_trans_edges; [exact Hm|].
    eapply claim_moves; [|exact Hin|exact Hc]. rewrite (moves_ids _ _ Hm). exact Hnd.
  - exact Hw.
  - subst. apply (moves_refl (lq_jobs db)).
Qed.

(** *** [Submit], [Invalidate], [InvalidateNonCanonical], [ReconcileSubmitted] *)

Lemma affected_zero where_ rows :
  (affected where_ rows =? 0) = true <-> forall row, row ∈ rows -> where_ row = false.
Proof.
  unfold affected. rewrite Z.eqb_eq. split.
  - intros E row Hr. destruct (where_ row) eqn:Ew; [|done].
    assert (row ∈ filter (fun row => where_ row = true) rows) as Hin by by apply list_elem_of_filter.
    destruct (filter _ rows); [by apply not_elem_of_nil in Hin|cbn in E; lia].
  - intros Hn. rewrite list_filter_none; [done|]. apply list.Forall_forall. intros row Hr.
    by rewrite (Hn row Hr).
Qed.

(** The rows a submission may change. *)
Definition submittable (job : LiquidationJob) (db : LqDb) (row : JobRow) : bool :=
  held_by job (lq_now db) row && block_canonical (db_blocks (lq_index db)) row.

Definition submitted_db (job : LiquidationJob) (submission : LiquidationSubmission) (wallet : Address) (db : LqDb) : LqDb :=
  MkLqDb (lq_index db)
    (insert_unless (fun row => bool_decide (row_job_id row = tx_job_id job))
       (new_tx_row job submission wallet (lq_now db)) (lq_tx_jobs db))
    (update_jobs (submittable job db) (submit_row job) (lq_jobs db)).

Lemma JobSubmit_wp job submission wallet db :
  wp (Submit job submission wallet)
    (fun b db' => if b : bool
       then (exists row, row ∈ lq_jobs db /\ submittable job db row = true) /\ db' = submitted_db job submission wallet db
       else (forall row, row ∈ lq_jobs db -> submittable job db row = false) /\ db' = db)
    (fun _ db' => ~ (0 <= lj_fencingToken job < 2 ^ 63) /\ db' = db) db.
Proof.
  unfold wp. destruct (sql_bigint (lj_fencingToken job)) eqn:Eb.
  2: { assert (Submit job submission wallet db = (Throw (SqlError "value is out of range for type bigint"), db)) as ->.
       { unfold Submit, transaction_if, bigint_parameter. by rewrite modify_run, Eb. }
       split; [|done]. rewrite <-sql_bigint_true. by rewrite Eb. }
  assert (Submit job submission wallet db
    = if negb (affected (submittable job db) (lq_jobs db) =? 0) then (Ok true, submitted_db job submission wallet db)
      else (Ok false, db)) as ->.
  { unfold Submit, transaction_if, bigint_parameter. rewrite modify_run, Eb. reflexivity. }
  destruct (affected (submittable job db) (lq_jobs db) =? 0) eqn:Ea; cbn [negb].
  - split; [|done]. by apply affected_zero.
  - split; [|done]. destruct (existsb (submittable job db) (lq_jobs db)) eqn:Ex; [by apply existsb_true|].
    exfalso. rewrite existsb_false in Ex. apply not_true_iff_false in Ea. by apply Ea, affected_zero.
Qed.

Lemma held_by_spec job now row :
  held_by job now row = true <->
  jr_job_id row = lj_jobId job /\ jr_status row = "Claimed" /\ jr_worker_id row = Some (lj_workerId job)
  /\ jr_fencing_token row = lj_fencingToken job /\ exists lease, jr_lease_until row = Some lease /\ now < lease.
Proof.
  unfold held_by. rewrite !andb_true_iff, !bool_decide_eq_true, Z.eqb_eq.
  split.
  - intros [[[[? ?] ?] ?] Hl]. destruct (jr_lease_until row) as [lease|]; [|done].
    repeat (split; [done|]). exists lease. split; [done|lia].
  - intros (? & ? & ? & ? & lease & -> & Hl). repeat split; try done. lia.
Qed.

Lemma submit_moves job db :
  Forall2 (rtc job_edge) (lq_jobs db) (update_jobs (submittable job db) (submit_row job) (lq_jobs db)).
Proof.
  apply update_moves. intros row _ [Hh _]%andb_prop.
  apply held_by_spec in Hh as (? & ? & ? & ? & _). by apply edge_submit.
Qed.

Lemma invalidate_moves where_ error rows :
  (forall row, where_ row = true -> jr_status row ∈ ["Available"; "Claimed"; "Expired"]) ->
  Forall2 (rtc job_edge) rows (update_jobs where_ (set_job_error "Invalidated" error) rows).
Proof. intros Hs. apply update_moves. intros row _ Hw. by apply edge_invalidate, Hs. Qed.

Lemma reconcile_edge txs row : rtc job_edge row (reconcile_row txs row).
Proof.
  unfold reconcile_row, outcome_of. case_bool_decide as Es; [|apply rtc_refl].
  destruct (filter _ txs) as [|tx rest]; cbn [head]; [apply rtc_refl|].
  apply rtc_once, edge_finish; [done|]. repeat case_bool_decide; set_solver.
Qed.

Lemma reconcile_moves txs rows : Forall2 (rtc job_edge) rows (reconcile_row txs <$> rows).
Proof. induction rows as [|row rows IH]; [constructor|]. constructor; [apply reconcile_edge|exact IH]. Qed.

Lemma Invalidate_evolves job reason db :
  Forall2 (rtc job_edge) (lq_jobs db) (lq_jobs (Invalidate job reason db).2).
Proof.
  unfold Invalidate, transaction, bigint_parameter. destruct (sql_bigint (lj_fencingToken job)); cbn; [|apply moves_refl].
  apply invalidate_moves. intros row Hh. apply held_by_spec in Hh as (_ & -> & _). set_solver.
Qed.

Lemma InvalidateNonCanonical_evolves chainId db :
  Forall2 (rtc job_edge) (lq_jobs db) (lq_jobs (InvalidateNonCanonical chainId db).2).
Proof.
  cbn. apply invalidate_moves. intros row Hh. unfold orphaned in Hh.
  apply andb_prop in Hh as [[_ Hs]%andb_prop _]. by apply bool_decide_eq_true in Hs.
Qed.

Lemma perform_evolves `{TextOrder} c db :
  NoDup (job_ids db) -> let db' := (perform c db).2 in
  rows_evolve (lq_jobs db) (lq_jobs db') /\ NoDup (job_ids db').
Proof.
  intros Hnd. assert (forall {A} (m : prog LqDb A) (k : A -> Outcome),
    ((a ← m; mret (k a)) db).2 = (m db).2) as Hsnd.
  { intros A m k. unfold mbind, prog_bind. by destruct (m db) as [[a|e] db1]. }
  assert (forall rows', Forall2 (rtc job_edge) (lq_jobs db) rows' ->
    rows_evolve (lq_jobs db) rows' /\ NoDup (jr_job_id <$> rows')) as Hmoves.
  { intros rows' Hm. split; [by apply moves_evolve|]. by rewrite (moves_ids _ _ Hm). }
  destruct c as [event|chainId w lease|job submission wallet|job reason|chainId| |index txs]; cbn [perform];
    rewrite ?Hsnd.
  - destruct (Enqueue_evolves event db) as [He Hn]. split; [exact He|by apply Hn].
  - by apply Hmoves, Claim_evolves.
  - pose proof (JobSubmit_wp job submission wallet db) as Hw. unfold wp in Hw.
    destruct (Submit job submission wallet db) as [[[]|e] db']; cbn [snd].
    + destruct Hw as [_ ->]. apply Hmoves, submit_moves.
    + destruct Hw as [_ ->]. apply Hmoves, moves_refl.
    + destruct Hw as [_ ->]. apply Hmoves, moves_refl.
  - apply Hmoves, Invalidate_evolves.
  - apply Hmoves, InvalidateNonCanonical_evolves.
  - unfold ReconcileSubmitted. unfold mbind at 1, prog_bind at 1. apply Hmoves. cbn. apply reconcile_moves.
  - apply Hmoves. cbn. apply moves_refl.
Qed.

(** ** Histories *)

(** Every row of [db] is found again in [db'], moved along the edges. *)
Definition follows (db db' : LqDb) : Prop :=
  NoDup (job_ids db') /\ forall row, row ∈ lq_jobs db -> exists row', row' ∈ lq_jobs db' /\ rtc job_edge row row'.

Lemma evolve_follows db db' : rows_evolve (lq_jobs db) (lq_jobs db') -> NoDup (job_ids db') -> follows db db'.
Proof.
  intros (moved & new & E & Hm & _) Hnd. split; [done|]. intros row Hin.
  apply list_elem_of_lookup_1 in Hin as [i Hi]. destruct (Forall2_lookup_l _ _ _ _ _ Hm Hi) as (row' & Hi' & He).
  exists row'. split; [|done]. rewrite E. apply elem_of_app. left. by eapply list_elem_of_lookup_2.
Qed.

Section Histories.
Context `{TextOrder}.

Lemma perform_follows c db r db' : NoDup (job_ids db) -> perform c db = (r, db') -> follows db db'.
Proof.
  intros Hnd E. destruct (perform_evolves c db Hnd) as [He Hn]. rewrite E in *. by apply evolve_follows.
Qed.

Lemma run_follows commands db h db' : NoDup (job_ids db) -> run commands db = (h, db') -> follows db db'.
Proof.
  revert db h. induction commands as [|c commands IH]; intros db h Hnd E; cbn [run] in E.
  { injection E as <- <-. split; [done|]. intros row Hrow. exists row. split; [done|apply rtc_refl]. }
  destruct (perform c db) as [r db1] eqn:E1. destruct (run commands db1) as [h1 db2] eqn:E2.
  injection E as <- <-. destruct (perform_follows _ _ _ _ Hnd E1) as [Hnd1 Hf1].
  destruct (IH db1 h1 Hnd1 E2) as [Hnd2 Hf2]. split; [done|]. intros row Hrow.
  destruct (Hf1 row Hrow) as (row1 & Hr1 & He1). destruct (Hf2 row1 Hr1) as (row2 & Hr2 & He2).
  exists row2. split; [done|by etrans].
Qed.

Lemma run_split commands db h1 c r h2 db' :
  run commands db = (h1 ++ (c, r) :: h2, db') ->
  exists commands1 commands2 db1 db2,
    run commands1 db = (h1, db1) /\ perform c db1 = (r, db2) /\ run commands2 db2 = (h2, db').
Proof.
  revert db h1. induction commands as [|c0 commands IH]; intros db h1 E; cbn [run] in E.
  { by destruct h1. }
  destruct (perform c0 db) as [r0 db1] eqn:E1. destruct (run commands db1) as [h db2] eqn:E2.
  destruct h1 as [|x h1]; cbn in E.
  - injection E as <- <- <- <-. by exists [], commands, db, db1.
  - injection E as <- -> <-. destruct (IH db1 h1 E2) as (cs1 & cs2 & dba & dbb & Ea & Eb & Ec).
    exists (c0 :: cs1), cs2, dba, dbb. split; [|done]. cbn [run]. by rewrite E1, Ea.
Qed.

Lemma ParseJob_fields row job :
  ParseJob row = Ok job ->
  lj_jobId job = jr_job_id row /\ lj_fencingToken job = jr_fencing_token row /\ jr_worker_id row = Some (lj_workerId job).
Proof.
  unfold ParseJob. intros E. repeat (apply bind_Ok_inv in E as (? & ?Hb & E)). injection E as <-.
  cbn. unfold uint64_column, result_of in *. destruct (jr_worker_id row); [|discriminate].
  destruct (0 <=? jr_fencing_token row); [|discriminate]. by simplify_eq.
Qed.

(** A claim takes an open job to the next token. *)
Lemma claim_token c db job db' :
  NoDup (job_ids db) -> perform c db = (Ok (ClaimedJob (Some job)), db') ->
  (exists row, row ∈ lq_jobs db /\ jr_job_id row = lj_jobId job /\ open row = true
     /\ jr_fencing_token row < lj_fencingToken job)
  /\ exists row', row' ∈ lq_jobs db' /\ jr_job_id row' = lj_jobId job /\ jr_fencing_token row' = lj_fencingToken job
     /\ jr_worker_id row' = Some (lj_workerId job).
Proof.
  intros Hnd E. destruct c as [event|chainId w lease|job0 submission wallet|job0 reason|chainId| |index txs]; cbn [perform] in E;
    try (apply bind_run_inv in E as (? & ? & _ & E); discriminate E).
  apply bind_run_inv in E as (o & db1 & E & [= -> <-]).
  pose proof (Claim_wp chainId w lease db) as Hw. unfold wp in Hw. rewrite E in Hw.
  destruct Hw as (rows & row & l & Hm & Hin & Hc & Hp & Hr & _).
  destruct (ParseJob_fields _ _ Hp) as (Ei & Et & Ew). cbn in Ei, Et, Ew. split.
  - apply list_elem_of_lookup_1 in Hin as [i Hi]. destruct (Forall2_lookup_r _ _ _ _ _ Hm Hi) as (row0 & Hi0 & He).
    exists row0. split; [by eapply list_elem_of_lookup_2|]. split; [by rewrite Ei, (edges_id _ _ He)|]. split.
    + destruct (open row0) eqn:Eo; [done|]. apply (edges_closed _ _ He) in Eo. unfold claimable in Hc.
      apply andb_prop in Hc as [_ Hc%bool_decide_eq_true]. unfold open in Eo.
      apply elem_of_cons in Hc as [Hc | Hc%list_elem_of_singleton]; by rewrite Hc in Eo.
    + pose proof (edges_token _ _ He). lia.
  - exists (claim_row w l row). split; [|by rewrite Ei, Et].
    rewrite Hr. unfold update_jobs. apply list_elem_of_fmap. exists row. split; [|done]. by rewrite bool_decide_eq_true_2.
Qed.

(** A submission takes a claimed job with the token and the worker of its holder, and closes it. *)
Lemma submit_token job submission wallet db db' :
  perform (DoSubmit job submission wallet) db = (Ok (SubmittedJob true), db') ->
  exists row, row ∈ lq_jobs db /\ submittable job db row = true /\ db' = submitted_db job submission wallet db
    /\ submit_row job row ∈ lq_jobs db'.
Proof.
  cbn [perform]. intros E. apply bind_run_inv in E as (b & db1 & E & [= -> <-]).
  pose proof (JobSubmit_wp job submission wallet db) as Hw. unfold wp in Hw. rewrite E in Hw.
  destruct Hw as [(row & Hin & Hs) ->]. exists row. repeat (split; [done|]). cbn [submitted_db lq_jobs].
  apply list_elem_of_fmap. exists row. by rewrite Hs.
Qed.

(** The newest token of a job that was claimed in a history. *)
Lemma run_claims commands db h db' c job :
  NoDup (job_ids db) -> run commands db = (h, db') -> (c, Ok (ClaimedJob (Some job))) ∈ h ->
  exists row, row ∈ lq_jobs db' /\ jr_job_id row = lj_jobId job /\ lj_fencingToken job <= jr_fencing_token row
    /\ (jr_fencing_token row <= lj_fencingToken job -> jr_worker_id row = Some (lj_workerId job)).
Proof.
  intros Hnd E (h1 & h2 & ->)%list_elem_of_split.
  apply run_split in E as (cs1 & cs2 & db1 & db2 & E1 & Ec & E2).
  destruct (run_follows _ _ _ _ Hnd E1) as [Hnd1 _]. destruct (perform_follows _ _ _ _ Hnd1 Ec) as [Hnd2 _].
  destruct (claim_token _ _ _ _ Hnd1 Ec) as (_ & row & Hin & Ei & Et & Ew).
  destruct (run_follows _ _ _ _ Hnd2 E2) as [_ Hf]. destruct (Hf row Hin) as (row' & Hin' & He).
  exists row'. split; [done|]. rewrite (edges_id _ _ He). split; [done|].
  pose proof (edges_token _ _ He). split; [lia|]. intros Hle. rewrite (edges_worker _ _ He) by lia. done.
Qed.

(** Nothing claims or submits a closed job. *)
Lemma run_closed commands db h db' row :
  NoDup (job_ids db) -> row ∈ lq_jobs db -> open row = false -> run commands db = (h, db') ->
  (forall c job, (c, Ok (ClaimedJob (Some job))) ∈ h -> lj_jobId job <> jr_job_id row)
  /\ (forall job submission wallet, (DoSubmit job submission wallet, Ok (SubmittedJob true)) ∈ h ->
        lj_jobId job <> jr_job_id row).
Proof.
  intros Hnd Hin Hc E.
  assert (forall x h1 h2, h = h1 ++ x :: h2 -> exists db1 db2 row1, NoDup (job_ids db1) /\ perform x.1 db1 = (x.2, db2)
    /\ row1 ∈ lq_jobs db1 /\ jr_job_id row1 = jr_job_id row /\ open row1 = false) as Hat.
  { intros [c r] h1 h2 ->. apply run_split in E as (cs1 & cs2 & db1 & db2 & E1 & Ec & _).
    destruct (run_follows _ _ _ _ Hnd E1) as [Hnd1 Hf]. destruct (Hf row Hin) as (row1 & Hin1 & He).
    exists db1, db2, row1. repeat split; try done; [by apply edges_id|by eapply edges_closed]. }
  split.
  - intros c job (h1 & h2 & Eh)%list_elem_of_split Ei. destruct (Hat _ _ _ Eh) as (db1 & db2 & row1 & Hnd1 & Ec & Hin1 & Ei1 & Hc1).
    destruct (claim_token _ _ _ _ Hnd1 Ec) as [(row2 & Hin2 & Ei2 & Ho & _) _].
    assert (row2 = row1) as -> by (eapply (NoDup_fmap_eq jr_job_id); [exact Hnd1|done..|congruence]). congruence.
  - intros job submission wallet (h1 & h2 & Eh)%list_elem_of_split Ei.
    destruct (Hat _ _ _ Eh) as (db1 & db2 & row1 & Hnd1 & Ec & Hin1 & Ei1 & Hc1).
    destruct (submit_token _ _ _ _ _ Ec) as (row2 & Hin2 & [Hh _]%andb_prop & _).
    apply held_by_spec in Hh as (Ei2 & Es & _).
    assert (row2 = row1) as -> by (eapply (NoDup_fmap_eq jr_job_id); [exact Hnd1|done..|congruence]).
    unfold open in Hc1. by rewrite Es in Hc1.
Qed.

(** Claim C4: over any history of the workers and the other services, a job is submitted by the holder of
    its newest token: whoever claimed it before has an older one, or is that worker; and once it
    is submitted it is never claimed or submitted again. *)
Theorem submitted_once commands db h1 job submission wallet h2 db' :
  NoDup (job_ids db) ->
  run commands db = (h1 ++ (DoSubmit job submission wallet, Ok (SubmittedJob true)) :: h2, db') ->
  (forall c job', (c, Ok (ClaimedJob (Some job'))) ∈ h1 -> lj_jobId job' = lj_jobId job ->
     lj_fencingToken job' < lj_fencingToken job
     \/ lj_fencingToken job' = lj_fencingToken job /\ lj_workerId job' = lj_workerId job)
  /\ (forall c job', (c, Ok (ClaimedJob (Some job'))) ∈ h2 -> lj_jobId job' <> lj_jobId job)
  /\ (forall job' submission' wallet', (DoSubmit job' submission' wallet', Ok (SubmittedJob true)) ∈ h2 ->
        lj_jobId job' <> lj_jobId job).
Proof.
  intros Hnd E. apply run_split in E as (cs1 & cs2 & db1 & db2 & E1 & Ec & E2).
  destruct (run_follows _ _ _ _ Hnd E1) as [Hnd1 _]. destruct (perform_follows _ _ _ _ Hnd1 Ec) as [Hnd2 _].
  destruct (submit_token _ _ _ _ _ Ec) as (row & Hin & [Hh _]%andb_prop & _ & Hin2).
  apply held_by_spec in Hh as (Ei & Es & Ew & Et & _). split.
  - intros c job' Hc Ej. destruct (run_claims _ _ _ _ _ _ Hnd E1 Hc) as (row' & Hin' & Ei' & Hle & Hw).
    assert (row' = row) as -> by (eapply (NoDup_fmap_eq jr_job_id); [exact Hnd1|done..|congruence]).
    destruct (decide (lj_fencingToken job' < lj_fencingToken job)); [by left|right]. split; [lia|].
    rewrite Hw in Ew by lia. congruence.
  - destruct (run_closed cs2 db2 h2 db' (submit_row job row) Hnd2 Hin2 eq_refl E2) as [H1 H2]. split.
    + intros c job' Hc. specialize (H1 c job' Hc). cbn in H1. by rewrite Ei in H1.
    + intros job' s' w' Hc. specialize (H2 job' s' w' Hc). cbn in H2. by rewrite Ei in H2.
Qed.
End Histories.

(** Claim C24: [Submit] succeeds exactly when the table holds the job as claimed by this worker under this
    token, the lease is still running, and the source block is canonical; then the transaction
    job is queued and the job is marked submitted together.  Otherwise it returns [false], or
    throws for a token no row can hold, and no table changes. *)
Theorem Submit_fenced job submission wallet db :
  match Submit job submission wallet db with
  | (Ok true, db') =>
      (exists row lease block, row ∈ lq_jobs db /\ jr_job_id row = lj_jobId job /\ jr_status row = "Claimed"
         /\ jr_worker_id row = Some (lj_workerId job) /\ jr_fencing_token row = lj_fencingToken job
         /\ jr_lease_until row = Some lease /\ lq_now db < lease
         /\ block ∈ db_blocks (lq_index db) /\ br_canonical block = true /\ br_chain_id block = jr_chain_id row
         /\ br_block_number block = jr_block_number row /\ br_block_hash block = jr_block_hash row)
      /\ db' = submitted_db job submission wallet db
  | (Ok false, db') => (forall row, row ∈ lq_jobs db -> submittable job db row = false) /\ db' = db
  | (Throw _, db') => ~ (0 <= lj_fencingToken job < 2 ^ 63) /\ db' = db
  end.
Proof.
  pose proof (JobSubmit_wp job submission wallet db) as Hw. unfold wp in Hw.
  destruct (Submit job submission wallet db) as [[[]|e] db']; [|exact Hw..].
  destruct Hw as [(row & Hin & [Hh Hb]%andb_prop) ->]. split; [|done].
  apply held_by_spec in Hh as (Hi & Hs & Hw & Ht & lease & El & Hlt).
  apply existsb_true in Hb as (block & Hbin & Hb). rewrite !andb_true_iff, !bool_decide_eq_true, Z.eqb_eq in Hb.
  destruct Hb as [[[Hbc Hbn] Hbh] Hbca]. by exists row, lease, block.
Qed.

(** ** What a row can be *)

(** A job has a transaction exactly when it was submitted; a claimed job has a holder, a lease
    and a positive token. *)
Definition row_sound (row : JobRow) : Prop :=
  (open row = true -> jr_tx_job_id row = None)
  /\ (jr_status row ∈ ["Submitted"; "Completed"; "Failed"] -> jr_tx_job_id row = Some ("liquidation-tx:" +:+ jr_job_id row))
  /\ (jr_status row = "Claimed" -> is_Some (jr_worker_id row) /\ is_Some (jr_lease_until row) /\ 0 < jr_fencing_token row)
  /\ jr_status row ∈ ["Available"; "Claimed"; "Submitted"; "Completed"; "Expired"; "Failed"; "Invalidated"]
  /\ 0 <= jr_fencing_token row.

(** A membership of concrete texts. *)
Ltac texts :=
  match goal with
  | H : _ ∈ _ |- _ => apply (bool_decide_eq_true_2 _) in H; discriminate H
  | |- _ ∈ _ => apply (bool_decide_eq_true_1 _); reflexivity
  end.

Lemma open_cases row : jr_status row ∈ ["Available"; "Claimed"; "Expired"] -> open row = true.
Proof. intros H. by apply bool_decide_eq_true_2. Qed.

Lemma edge_sound row row' : job_edge row row' -> row_sound row -> row_sound row'.
Proof.
  intros He (Ho & Ht & Hc & Hs & Hf).
  destruct He as [r lease E El|r w l E|r job E Ew Et Ei|r e E|r s e E Hs'];
    unfold row_sound, open; cbn [set_job_status set_job_error claim_row submit_row set_state jr_status jr_tx_job_id jr_worker_id
      jr_lease_until jr_fencing_token jr_job_id].
  - split; [intros _; apply Ho; unfold open; by rewrite E|]. split; [intros ?; texts|]. split; [done|]. split; [texts|done].
  - split; [intros _; apply Ho, open_cases|].
    { apply elem_of_cons in E as [-> | ->%list_elem_of_singleton]; texts. }
    split; [intros ?; texts|]. split; [intros _; repeat split; eauto; lia|]. split; [texts|lia].
  - split; [done|]. split; [intros _; unfold tx_job_id; by rewrite Ei|]. split; [done|]. split; [texts|done].
  - split; [done|]. split; [intros ?; texts|]. split; [done|]. split; [texts|done].
  - assert (jr_tx_job_id r = Some ("liquidation-tx:" +:+ jr_job_id r)) as Etx by (apply Ht; rewrite E; texts).
    apply elem_of_cons in Hs' as [-> | [-> | ->%list_elem_of_singleton]%elem_of_cons];
      (split; [done|]; split; [done|]; split; [done|]; split; [texts|done]).
Qed.

Lemma edges_sound row row' : rtc job_edge row row' -> row_sound row -> row_sound row'.
Proof. induction 1 as [|r1 r2 r3 H _ IH]; [done|]. intros Hs. by apply IH, (edge_sound _ _ H). Qed.

Lemma fresh_sound row : fresh row -> row_sound row.
Proof.
  intros (Es & Et & Ex). unfold row_sound, open. rewrite Es, Et, Ex.
  split; [done|]. split; [intros ?; texts|]. split; [done|]. split; [texts|done].
Qed.

Lemma evolve_sound rows rows' : rows_evolve rows rows' -> Forall row_sound rows -> Forall row_sound rows'.
Proof.
  intros (moved & new & -> & Hm & Hn) Hs. apply Forall_app. split.
  - induction Hm as [|r r' l l' Hr _ IH]; [constructor|]. apply Forall_cons in Hs as [Hs1 Hs2].
    constructor; [by eapply edges_sound|auto].
  - eapply Forall_impl; [exact Hn|]. apply fresh_sound.
Qed.

(** Claim C25: whatever commands run, each one by itself only moves rows along the edges of the automaton
    and adds available rows, under distinct ids; so in every history from an empty table a row has a
    transaction exactly when it was submitted, and a claimed row has a holder, a lease and a positive token. *)
Theorem job_life `{TextOrder} commands db h db' :
  lq_jobs db = [] -> run commands db = (h, db') ->
  NoDup (job_ids db') /\ Forall row_sound (lq_jobs db')
  /\ forall c r db'', perform c db' = (r, db'') -> rows_evolve (lq_jobs db') (lq_jobs db'').
Proof.
  intros E0 E. assert (NoDup (job_ids db) /\ Forall row_sound (lq_jobs db)) as [Hnd Hs].
  { unfold job_ids. rewrite E0. split; constructor. }
  clear E0. cut (NoDup (job_ids db') /\ Forall row_sound (lq_jobs db')).
  { intros [Hnd' Hs']. split; [done|]. split; [done|]. intros c r db'' Ec.
    destruct (perform_evolves c db' Hnd') as [He _]. by rewrite Ec in He. }
  revert db h Hnd Hs E. induction commands as [|c commands IH]; intros db h Hnd Hs E; cbn [run] in E.
  { by injection E as <- <-. }
  destruct (perform c db) as [r db1] eqn:E1. destruct (run commands db1) as [h1 db2] eqn:E2.
  injection E as <- <-. destruct (perform_evolves c db Hnd) as [He Hnd1]. rewrite E1 in *.
  apply (IH db1 h1 Hnd1); [by eapply evolve_sound|exact E2].
Qed.

(** ** From the risk engine to a job *)

(** The envelope of the event of a candidate. *)
Definition candidate_event (now : Z) (c : LiquidationCandidate) : EventEnvelope :=
  MkEventEnvelope (RiskEventId c) RISK_LIQUIDATION_DETECTED ("position:" +:+ AddressToHex (lc_borrower c) false)
    (lc_chainId c) (lc_blockNumber c) (lc_blockHash c) None None (lc_canonicalVersion c) (epoch_seconds now)
    (CandidatePayload c).

Lemma plain_hex {n} (a : array n) p : plain (EncodeArray a p) = true.
Proof. apply plain_Encode. Qed.

Lemma candidate_event_wf now c :
  0 <= lc_blockNumber c < 2 ^ 63 -> 0 < lc_canonicalVersion c < 2 ^ 63 -> 0 <= now < 2 ^ 64 ->
  event_wf (candidate_event now c).
Proof.
  intros Hn Hv Ht. split; unfold candidate_event, uint64; cbn [ee_eventId ee_eventType ee_aggregateId ee_blockNumber ee_logIndex
    ee_canonicalVersion ee_createdAt ee_payload]; try lia; try done.
  - unfold RiskEventId. rewrite !plain_app, plain_ToDecimal, plain_hex. unfold AddressToHex. by rewrite plain_hex.
  - rewrite plain_app. unfold AddressToHex. by rewrite plain_hex.
  - unfold epoch_seconds. destruct (Z.leb_spec 0 now); [|lia]. split; [apply Z.div_pos; lia|].
    apply Z.div_lt_upper_bound; lia.
  - unfold CandidatePayload. cbn [json_normal]. apply andb_true_intro. split; [reflexivity|].
    cbn [forallb fst snd json_normal]. unfold AddressToHex. by rewrite !plain_hex, !plain_ToDecimal.
Qed.

Lemma ParseEvent_candidate now c :
  0 <= lc_blockNumber c -> 0 <= lc_canonicalVersion c -> 0 <= now ->
  ParseEvent (candidate_row now c) = Ok (candidate_event now c).
Proof.
  intros Hn Hv Ht. unfold ParseEvent, candidate_row.
  cbn [er_chain_id er_block_number er_block_hash er_canonical_version er_created_at er_transaction_hash er_log_index
    er_event_id er_event_type er_aggregate_id er_payload].
  assert (0 <= epoch_seconds now) as He.
  { unfold epoch_seconds. destruct (Z.leb_spec 0 now); [|lia]. apply Z.div_pos; lia. }
  rewrite FromDecimal_ToDecimal, !uint64_column_Ok by done. unfold OutboxParseHash, PostgresStore.hash_text.
  rewrite parse_hash_Encode. by mstep.
Qed.

Lemma CandidateFromEvent_payload now c : CandidateFromEvent (candidate_event now c) = Ok c.
Proof.
  unfold CandidateFromEvent, address_member, amount_member, string_member, candidate_event, CandidatePayload.
  cbn [ee_payload ee_blockNumber ee_blockHash ee_chainId ee_canonicalVersion].
  cbn -[FromDecimal ToDecimal AddressFromHex AddressToHex].
  rewrite !AddressFromHex_ToHex, !FromDecimal_ToDecimal. mstep. by destruct c.
Qed.

Lemma ParseJob_new_row id c now worker lease :
  0 <= lc_blockNumber c -> 0 <= lc_canonicalVersion c ->
  LiquidationJobs.ParseJob (claim_row worker lease (new_job_row id c now)) = Ok (MkLiquidationJob id c worker 1).
Proof.
  intros Hn Hv. unfold LiquidationJobs.ParseJob, claim_row, set_state, new_job_row.
  cbn [jr_borrower_address jr_health_factor jr_debt_asset jr_collateral_asset jr_max_repay jr_expected_bonus
    jr_expected_collateral jr_expected_bad_debt jr_block_number jr_block_hash jr_chain_id jr_canonical_version
    jr_worker_id jr_fencing_token jr_job_id result_of].
  rewrite !AddressFromHex_ToHex, !FromDecimal_ToDecimal, !uint64_column_Ok by lia.
  unfold JobParseHash. rewrite parse_hash_Encode. mstep. by destruct c.
Qed.

Lemma insert_job_run row db :
  0 <= jr_block_number row < 2 ^ 63 -> 0 < jr_canonical_version row < 2 ^ 63 ->
  (forall other, other ∈ lq_jobs db -> jr_source_event_id other <> jr_source_event_id row /\ jr_job_id other <> jr_job_id row) ->
  insert_job row db = (Ok tt, set_jobs (lq_jobs db ++ [row]) db).
Proof.
  intros Hn Hv Hf. unfold insert_job. rewrite (proj2 (sql_bigint_true _) Hn), (proj2 (sql_bigint_true (jr_canonical_version row))) by lia.
  rewrite (proj2 (Z.ltb_lt 0 (jr_canonical_version row))) by lia. cbn [andb].
  erewrite bind_run by reflexivity. rewrite get_run.
  rewrite !(proj2 (existsb_false _ (lq_jobs db))); [done|intros other Ho; apply bool_decide_eq_false; by apply Hf..].
Qed.

Lemma on_index_run {A} (m : prog IxDb A) db r index :
  m (lq_index db) = (r, index) -> on_index m db = (r, MkLqDb index (lq_tx_jobs db) (lq_jobs db)).
Proof. intros E. unfold on_index. by rewrite E. Qed.

Lemma Enqueue_run now c db :
  0 <= lc_blockNumber c < 2 ^ 63 -> 0 < lc_canonicalVersion c < 2 ^ 63 ->
  ("liquidator", RiskEventId c) ∉ db_processed_events (lq_index db) ->
  (forall row, row ∈ lq_jobs db -> jr_source_event_id row <> RiskEventId c /\ jr_job_id row <> RiskEventId c) ->
  Enqueue (candidate_event now c) db
  = (Ok true, MkLqDb (set_processed_events (db_processed_events (lq_index db) ++ [("liquidator", RiskEventId c)]) (lq_index db))
                (lq_tx_jobs db) (lq_jobs db ++ [new_job_row (RiskEventId c) c (lq_now db)])).
Proof.
  intros Hn Hv Hp Hf. unfold Enqueue.
  rewrite (bind_run (lift (CandidateFromEvent (candidate_event now c))) _ db c db)
    by (unfold lift; by rewrite CandidateFromEvent_payload).
  apply transaction_Ok. erewrite bind_run.
  2: { apply on_index_run. unfold insert_processed. rewrite get_run, bool_decide_eq_false_2 by done. reflexivity. }
  cbn [negb]. rewrite get_run. erewrite bind_run by (by apply insert_job_run). done.
Qed.

Lemma Enqueue_again event c db :
  CandidateFromEvent event = Ok c -> ("liquidator", ee_eventId event) ∈ db_processed_events (lq_index db) ->
  Enqueue event db = (Ok false, db).
Proof.
  intros Ec Hp. unfold Enqueue. rewrite (bind_run (lift (CandidateFromEvent event)) _ db c db) by (unfold lift; by rewrite Ec).
  apply transaction_Ok. erewrite bind_run.
  2: { apply on_index_run. unfold insert_processed. rewrite get_run, bool_decide_eq_true_2 by done. reflexivity. }
  by destruct db.
Qed.

(** A claim when one job of the chain is open. *)
Lemma Claim_run `{TextOrder} chainId worker lease db next job :
  (forall row, row ∈ lq_jobs db -> expired (ToDecimal chainId) (lq_now db) row = false) ->
  filter (fun row => claimable (ToDecimal chainId) row = true) (lq_jobs db) = [next] ->
  ParseJob (claim_row worker (lq_now db + lease * 1000000) next) = Ok job ->
  0 <= jr_fencing_token next + 1 < 2 ^ 63 ->
  exists db', Claim chainId worker lease db = (Ok (Some job), db').
Proof.
  intros He Hf Hp Hb. eexists. unfold Claim. apply transaction_Ok. rewrite get_run. cbv zeta.
  assert (update_jobs (expired (ToDecimal chainId) (lq_now db)) (set_job_status "Expired") (lq_jobs db) = lq_jobs db) as ->.
  { unfold update_jobs. rewrite <-(list_fmap_id (lq_jobs db)) at 2. apply list_fmap_ext. intros i row Hi.
    by rewrite (He row) by by eapply list_elem_of_lookup_2. }
  rewrite modify_run, Hf. change (std_sort job_before [next]) with [next]. cbv iota.
  cbn [jr_fencing_token claim_row set_state] in *. rewrite (proj2 (sql_bigint_true _) Hb).
  erewrite bind_run by reflexivity. rewrite modify_run.
  erewrite bind_run by (unfold lift; by rewrite Hp). reflexivity.
Qed.

(** Claim C14: a candidate of the risk engine reaches the liquidator unchanged: the row [CommitScan] writes
    for it is read by the outbox as an event that survives the text on the queue; the event
    is queued once, however often it is delivered; and the worker that claims the only open job of the
    chain gets exactly this candidate, under the first fencing token. *)
Theorem candidate_pipeline `{LawfulJsonText} `{LawfulTextOrder} c scanned db worker lease :
  0 <= lc_blockNumber c < 2 ^ 63 -> 0 < lc_canonicalVersion c < 2 ^ 63 -> 0 <= scanned < 2 ^ 64 ->
  ("liquidator", RiskEventId c) ∉ db_processed_events (lq_index db) ->
  (forall row, row ∈ lq_jobs db -> jr_source_event_id row <> RiskEventId c /\ jr_job_id row <> RiskEventId c
     /\ (jr_chain_id row = ToDecimal (lc_chainId c) -> open row = false)) ->
  exists event text db1 db2,
    ParseEvent (candidate_row scanned c) = Ok event
    /\ Serialize event = Ok text /\ Deserialize text = Ok event
    /\ Enqueue event db = (Ok true, db1) /\ Enqueue event db1 = (Ok false, db1)
    /\ Claim (lc_chainId c) worker lease db1 = (Ok (Some (MkLiquidationJob (RiskEventId c) c worker 1)), db2).
Proof.
  intros Hn Hv Hs Hp Hrows. pose proof (candidate_event_wf scanned c Hn Hv Hs) as Hwf.
  destruct (parse_dump (event_json (candidate_event scanned c)) (event_json_normal _ Hwf)) as (text & Ed & Epa).
  pose proof (Enqueue_run scanned c db Hn Hv Hp) as Eq.
  set (db1 := MkLqDb _ _ _) in Eq.
  assert (exists db2, Claim (lc_chainId c) worker lease db1
    = (Ok (Some (MkLiquidationJob (RiskEventId c) c worker 1)), db2)) as [db2 E2].
  { apply (Claim_run _ _ _ _ (new_job_row (RiskEventId c) c (lq_now db)));
      [| |apply ParseJob_new_row; lia|cbn; lia]; cbn [db1 lq_jobs].
    - intros row [Hr | ->%list_elem_of_singleton]%elem_of_app; [|unfold expired; by rewrite andb_false_r].
      destruct (Hrows row Hr) as (_ & _ & Ho). unfold expired. case_bool_decide as Ec; [|done].
      specialize (Ho Ec). unfold open in Ho. destruct (bool_decide (jr_status row = "Claimed")) eqn:Es; [|done].
      apply bool_decide_eq_true in Es. by rewrite Es in Ho.
    - rewrite filter_app, list_filter_none.
      + rewrite filter_cons_True, filter_nil; [done|]. unfold claimable. cbn [new_job_row jr_chain_id jr_status].
        by rewrite bool_decide_eq_true_2.
      + apply list.Forall_forall. intros row Hr Hcl. destruct (Hrows row Hr) as (_ & _ & Ho). unfold claimable in Hcl.
        apply andb_prop in Hcl as [Ec%bool_decide_eq_true Es%bool_decide_eq_true]. specialize (Ho Ec). unfold open in Ho.
        apply elem_of_cons in Es as [Es | Es%list_elem_of_singleton]; by rewrite Es in Ho. }
  exists (candidate_event scanned c), text, db1, db2. split; [apply ParseEvent_candidate; lia|].
  split; [done|]. split; [unfold Deserialize; rewrite Epa; mstep; by apply event_of_json_inverse|].
  split; [apply Eq; intros row Hr; by destruct (Hrows row Hr) as (? & ? & _)|]. split; [|exact E2].
  eapply Enqueue_again; [apply CandidateFromEvent_payload|]. cbn. apply elem_of_app. right. apply list_elem_of_here.
Qed.

(** ** From a claim to the transaction manager *)

Lemma Submit_run job submission wallet db row :
  row ∈ lq_jobs db -> submittable job db row = true -> 0 <= lj_fencingToken job < 2 ^ 63 ->
  Submit job submission wallet db = (Ok true, submitted_db job submission wallet db).
Proof.
  intros Hin Hs Hb. pose proof (JobSubmit_wp job submission wallet db) as Hw. unfold wp in Hw.
  destruct (Submit job submission wallet db) as [[[]|e] db'].
  - by destruct Hw as [_ ->].
  - destruct Hw as [Hn _]. by rewrite (Hn row Hin) in Hs.
  - by destruct Hw as [[] _].
Qed.

Lemma Submit_again job submission wallet db :
  let db' := submitted_db job submission wallet db in (Submit job submission wallet db').2 = db'.
Proof.
  cbv zeta. set (db' := submitted_db job submission wallet db).
  pose proof (JobSubmit_wp job submission wallet db') as Hw. unfold wp in Hw.
  destruct (Submit job submission wallet db') as [[[]|e] db2]; cbn [snd].
  - exfalso. destruct Hw as [(row & (r & -> & Hr)%list_elem_of_fmap & Hs) _].
    change (submittable job db') with (submittable job db) in Hs.
    destruct (submittable job db r) eqn:Er; [|congruence].
    apply andb_prop in Hs as [Hs _]. apply held_by_spec in Hs as (_ & Es & _). discriminate Es.
  - by destruct Hw as [_ ->].
  - by destruct Hw as [_ ->].
Qed.

(** The job the transaction manager reads from the row of a submission. *)
Definition transaction_of (job : LiquidationJob) (submission : LiquidationSubmission) (wallet : Address) : TxJob :=
  MkTxJob (tx_job_id job) (lc_chainId (lj_candidate job)) wallet (sub_destination submission) (sub_value submission)
    (sub_data submission) Pending None None None None [] None 0 None None None 0 EmptyString.

Lemma ParseJob_tx_row job submission wallet now :
  PostgresTransactionStore.ParseJob (new_tx_row job submission wallet now) = Ok (transaction_of job submission wallet).
Proof.
  unfold PostgresTransactionStore.ParseJob, new_tx_row.
  cbn [row_chain_id row_wallet_address row_to_address row_value row_calldata row_status row_nonce
    row_max_priority_fee_per_gas row_max_fee_per_gas row_gas_limit row_raw_transaction row_tx_hash
    row_included_block_hash row_job_id row_retry_count row_submitted_block_number row_included_block_number
    row_confirmation_count row_error_message OptionalField].
  change (TxStatusFromString "Pending") with (@Ok TxStatus Pending).
  rewrite !FromDecimal_ToDecimal, !AddressFromHex_ToHex, Decode_Encode. by mstep.
Qed.

(** Claim C15: what the liquidator submits, the transaction manager sends: when a prepared liquidation is
    submitted, exactly one job is added for the manager, it reads it as a pending transaction
    of the operator without a nonce, and its policy approves it; submitting again adds nothing. *)
Theorem submission_approved {N} `{LiquidationChain N} keccak config candidate (n n' : N) submission job wallet db db' cfg oracle :
  Prepare keccak config candidate n = (Ok (Some submission), n') ->
  Submit job submission wallet db = (Ok true, db') ->
  (forall row, row ∈ lq_tx_jobs db -> row_job_id row <> tx_job_id job) ->
  tm_approvedCalls cfg = approved_calls keccak oracle (lq_liquidationManager config) ->
  exists row transaction,
    lq_tx_jobs db' = lq_tx_jobs db ++ [row]
    /\ PostgresTransactionStore.ParseJob row = Ok transaction
    /\ tj_jobId transaction = tx_job_id job /\ tj_status transaction = Pending /\ tj_wallet transaction = wallet
    /\ tj_nonce transaction = None /\ IsApproved cfg transaction = true
    /\ (Submit job submission wallet db').2 = db'.
Proof.
  intros HP HS Hfree Hc. destruct (Prepare_call _ _ _ _ _ _ HP) as (arguments & Hlen & Esub).
  pose proof (JobSubmit_wp job submission wallet db) as Hw. unfold wp in Hw. rewrite HS in Hw.
  destruct Hw as [(row & Hin & Hrow) ->].
  exists (new_tx_row job submission wallet (lq_now db)), (transaction_of job submission wallet).
  split; [|split; [apply ParseJob_tx_row|]].
  { cbn [submitted_db lq_tx_jobs]. unfold insert_unless. rewrite (proj2 (existsb_false _ (lq_tx_jobs db))); [done|].
    intros r Hr. by apply bool_decide_eq_false, Hfree. }
  split; [done|]. split; [done|]. split; [done|]. split; [done|]. split.
  { eapply liquidation_approved; [exact Hc|exact Hlen|by rewrite Esub..]. }
  apply Submit_again.
Qed.

(** ** A table with one open job *)

Definition demo_block : BlockRow :=
  MkBlockRow (ToDecimal (U 1)) 19 (PostgresStore.hash_text (array_copy 32 [])) (PostgresStore.hash_text (array_copy 32 [])) true.
Definition demo_db (now : Z) (jobs : list JobRow) : LqDb :=
  MkLqDb (MkIxDb [demo_block] [] [] [] [] [] [] [] [] now) [] jobs.
Definition demo_job (worker : string) (token : Z) : LiquidationJob :=
  MkLiquidationJob (RiskEventId demo_candidate) demo_candidate worker token.
Definition demo_liquidation : LiquidationSubmission := MkLiquidationSubmission (demo_address 2) [] (U 0).

(** The lease of the first worker runs out, a second worker claims the job, and both submit. *)
Definition demo_commands : list Command :=
  [DoEnqueue (candidate_event 0 demo_candidate); DoClaim (U 1) "w1" 30;
   Others (fun db => MkIxDb (db_blocks db) (db_raw_logs db) (db_sync_state db) (db_positions db) (db_markets db)
     (db_liquidations db) (db_chain_versions db) (db_outbox_events db) (db_processed_events db) (db_now db + 40000000)) id;
   DoClaim (U 1) "w2" 30; DoSubmit (demo_job "w1" 1) demo_liquidation (demo_address 8)].

Lemma run_at `{TextOrder} commands1 c commands2 db : exists h1 h2 db',
  run (commands1 ++ c :: commands2) db = (h1 ++ (c, (perform c (run commands1 db).2).1) :: h2, db').
Proof.
  revert db. induction commands1 as [|c1 commands1 IH]; intros db; cbn [run app snd].
  - destruct (perform c db) as [r db1]. destruct (run commands2 db1) as [h db2]. exists [], h, db2. reflexivity.
  - destruct (perform c1 db) as [r db1]. destruct (IH db1) as (h1 & h2 & db' & E). rewrite E.
    exists ((c1, r) :: h1), h2, db'. destruct (run commands1 db1) as [h db2]. reflexivity.
Qed.

Lemma submitted_once_witness : exists h1 h2 db',
  @run byte_order (demo_commands ++ DoSubmit (demo_job "w2" 2) demo_liquidation (demo_address 8)
     :: [DoReconcile; DoClaim (U 1) "w1" 30]) (demo_db 1000 [])
  = (h1 ++ (DoSubmit (demo_job "w2" 2) demo_liquidation (demo_address 8), Ok (SubmittedJob true)) :: h2, db')
  /\ (forall c job', (c, Ok (ClaimedJob (Some job'))) ∈ h1 -> lj_jobId job' = RiskEventId demo_candidate ->
       lj_fencingToken job' < 2 \/ lj_fencingToken job' = 2 /\ lj_workerId job' = "w2")
  /\ (forall c job', (c, Ok (ClaimedJob (Some job'))) ∈ h2 -> lj_jobId job' <> RiskEventId demo_candidate).
Proof.
  destruct (@run_at byte_order demo_commands (DoSubmit (demo_job "w2" 2) demo_liquidation (demo_address 8))
    [DoReconcile; DoClaim (U 1) "w1" 30] (demo_db 1000 [])) as (h1 & h2 & db' & E).
  replace (@perform byte_order (DoSubmit (demo_job "w2" 2) demo_liquidation (demo_address 8))
    (@run byte_order demo_commands (demo_db 1000 [])).2).1 with (@Ok Outcome (SubmittedJob true)) in E
    by (vm_compute; reflexivity).
  destruct (@submitted_once byte_order _ (demo_db 1000 []) h1 (demo_job "w2" 2) demo_liquidation (demo_address 8) h2 db'
    NoDup_nil_2 E) as (H1 & H2 & _).
  exists h1, h2, db'. exact (conj E (conj H1 H2)).
Defined.

Lemma job_life_witness :
  jr_status <$> lq_jobs (@run byte_order demo_commands (demo_db 1000 [])).2 = ["Claimed"]
  /\ Forall row_sound (lq_jobs (@run byte_order demo_commands (demo_db 1000 [])).2).
Proof.
  split; [vm_compute; reflexivity|].
  exact (proj1 (proj2 (@job_life byte_order demo_commands (demo_db 1000 []) _ _ eq_refl (surjective_pairing _)))).
Defined.

Lemma candidate_pipeline_witness : exists event text db1 db2,
  ParseEvent (candidate_row 0 demo_candidate) = Ok event
  /\ @Serialize coded_json event = Ok text /\ @Deserialize coded_json text = Ok event
  /\ Enqueue event (demo_db 1000 []) = (Ok true, db1) /\ Enqueue event db1 = (Ok false, db1)
  /\ @Claim byte_order (U 1) "w1" 30 db1 = (Ok (Some (demo_job "w1" 1)), db2).
Proof.
  apply (@candidate_pipeline coded_json coded_json_lawful byte_order byte_order_lawful demo_candidate 0 (demo_db 1000 []) "w1" 30).
  - split; [exact (proj1 (Z.leb_le 0 19) eq_refl)|exact (proj1 (Z.ltb_lt 19 (2 ^ 63)) eq_refl)].
  - split; [exact (proj1 (Z.ltb_lt 0 6) eq_refl)|exact (proj1 (Z.ltb_lt 6 (2 ^ 63)) eq_refl)].
  - split; [exact (proj1 (Z.leb_le 0 0) eq_refl)|exact (proj1 (Z.ltb_lt 0 (2 ^ 64)) eq_refl)].
  - exact (not_elem_of_nil _).
  - intros row Hrow. exfalso. exact (not_elem_of_nil _ Hrow).
Defined.

(** The job as claimed, its lease still running. *)
Definition demo_claimed : JobRow := claim_row "w1" 5000 (new_job_row (RiskEventId demo_candidate) demo_candidate 0).

Definition demo_policy : TxManagerConfig :=
  MkTxManagerConfig 12 3 5 (approved_calls demo_keccak (demo_address 7) (demo_address 2)).

Lemma submission_approved_witness : exists submission db' row transaction,
  demo_prepare = (Ok (Some submission), tt)
  /\ Submit (demo_job "w1" 1) submission (demo_address 8) (demo_db 1000 [demo_claimed]) = (Ok true, db')
  /\ lq_tx_jobs db' = [row] /\ PostgresTransactionStore.ParseJob row = Ok transaction
  /\ tj_nonce transaction = None /\ IsApproved demo_policy transaction = true.
Proof.
  destruct demo_submission as [submission E].
  assert (Submit (demo_job "w1" 1) submission (demo_address 8) (demo_db 1000 [demo_claimed])
    = (Ok true, submitted_db (demo_job "w1" 1) submission (demo_address 8) (demo_db 1000 [demo_claimed]))) as HS.
  { apply (Submit_run _ _ _ _ demo_claimed); [exact (list_elem_of_here _ _)|vm_compute; reflexivity|].
    split; [exact (proj1 (Z.leb_le 0 1) eq_refl)|exact (proj1 (Z.ltb_lt 1 (2 ^ 63)) eq_refl)]. }
  destruct (@submission_approved unit (@rpc_liquidation_chain unit demo_node demo_keccak demo_pool) demo_keccak demo_config
    demo_candidate tt tt submission (demo_job "w1" 1) (demo_address 8) (demo_db 1000 [demo_claimed]) _ demo_policy
    (demo_address 7) E HS (fun row Hrow => False_ind _ (not_elem_of_nil _ Hrow)) eq_refl)
    as (row & transaction & H1 & H2 & _ & _ & _ & H3 & H4 & _).
  exists submission, (submitted_db (demo_job "w1" 1) submission (demo_address 8) (demo_db 1000 [demo_claimed])), row, transaction.
  exact (conj E (conj HS (conj H1 (conj H2 (conj H3 H4))))).
Defined.
