(* ===== verification/Services.v ===== *)
(** * Services: the loops of the consumers ([liquidator/src/Main.cpp], [risk-engine/src/WorkerMain.cpp])

    A service fetches an event, handles it, acknowledges it and does its periodic work, until a
    signal stops it; an iteration that throws is logged and the next one starts.  What it
    reports to the metrics is added in [Mains]; the lines that are logged and the pauses between
    iterations are left out. *)

From S2P Require Import Prelude Effects Loop Text Json Sql Uint256 Hex Abi IndexerTypes PostgresStore Event Outbox JetStream.
From S2P Require Import RiskCalculator RiskEngine PostgresRiskRepository RiskWorker LiquidationChain Liquidator LiquidationJobs.
Set Default Goal Selector "!".
#[local] Open Scope Z_scope.

(** What a service works on, and its connection to the event stream. *)
Record Service (D N : Type) := MkService { sv_state : D; sv_nats : N }.
Arguments MkService {D N} _ _.
Arguments sv_state {D N} _.
Arguments sv_nats {D N} _.

Section Parts.
Context {D N : Type}.

Abbreviation M := (prog (Service D N)).

Definition on_state {A} (m : prog D A) : M A := fun st =>
  let '(r, d) := m (sv_state st) in (r, MkService d (sv_nats st)).
Definition on_nats {A} (m : prog N A) : M A := fun st =>
  let '(r, n) := m (sv_nats st) in (r, MkService (sv_state st) n).
End Parts.

(** ** The liquidator *)

Record LiquidatorState (C : Type) := MkLiquidatorState { ld_jobs : World LqDb; ld_node : C }.
Arguments MkLiquidatorState {C} _ _.
Arguments ld_jobs {C} _.
Arguments ld_node {C} _.

Section LiquidatorMain.
Context {N C : Type} `{Nats N} `{JsonText} `{TextOrder} `{LiquidationChain C}.
Context (keccak : Bytes -> Hash256) (config : LiquidatorConfig) (chainId : Uint256) (workerId : string) (leaseDuration : Z).

Definition on_jobs {A} (m : prog LqDb A) : prog (LiquidatorState C) A := fun st =>
  let '(r, w) := execute m (ld_jobs st) in (r, MkLiquidatorState w (ld_node st)).
Definition on_node {A} (m : prog C A) : prog (LiquidatorState C) A := fun st =>
  let '(r, c) := m (ld_node st) in (r, MkLiquidatorState (ld_jobs st) c).

(** The part of the iteration after the event. *)
Definition liquidator_work : prog (LiquidatorState C) unit :=
  on_jobs (InvalidateNonCanonical chainId);;
  job ← on_jobs (Claim chainId workerId leaseDuration);
  match job with
  | None => mret tt
  | Some job =>
      submission ← on_node (Prepare keccak config (lj_candidate job));
      match submission with
      | Some submission => on_jobs (Submit job submission (lq_operatorAddress config));; mret tt
      | None => on_jobs (Invalidate job "position is no longer profitable to liquidate");; mret tt
      end
  end;;
  on_jobs ReconcileSubmittedWithStats;;
  mret tt.

Definition liquidator_iteration : prog (Service (LiquidatorState C) N) unit :=
  message ← on_nats (Fetch 500);
  match message with
  | Some message =>
      on_state (on_jobs (Enqueue (jm_event message)));;
      on_nats (Ack message)
  | None => mret tt
  end;;
  on_state liquidator_work.
End LiquidatorMain.

(** ** The risk worker *)

(** [rk_next] is the time of the next rescan; the clocks are read one after the other. *)
Record RiskWorkerState := MkRiskWorkerState { rk_db : World IxDb; rk_next : Z; rk_reads : nat }.

Section RiskWorkerMain.
Context {N : Type} `{Nats N} `{JsonText} `{TextOrder}.
Context (chainId : Uint256) (scanLimit rescanInterval : Z) (time steady_clock : nat -> Z).

Definition on_tables {A} (m : prog (World IxDb) A) : prog RiskWorkerState A := fun st =>
  let '(r, w) := m (rk_db st) in (r, MkRiskWorkerState w (rk_next st) (rk_reads st)).
Definition read_clock (clock : nat -> Z) : prog RiskWorkerState Z := fun st =>
  (Ok (clock (rk_reads st)), MkRiskWorkerState (rk_db st) (rk_next st) (S (rk_reads st))).
Definition set_next (next : Z) : prog RiskWorkerState unit :=
  modify (fun st => MkRiskWorkerState (rk_db st) next (rk_reads st)).

(** The periodic rescan. *)
Definition rescan_when_due (now : Z) : prog RiskWorkerState unit :=
  t ← read_clock steady_clock;
  st ← get;
  if rk_next st <=? t then
    on_tables (RescanWithStats chainId scanLimit now);;
    t ← read_clock steady_clock;
    set_next (t + rescanInterval)
  else mret tt.

Definition risk_iteration : prog (Service RiskWorkerState N) unit :=
  message ← on_nats (Fetch 500);
  now ← on_state (read_clock (fun n => u64 (time n)));
  match message with
  | Some message =>
      on_state (on_tables (ProcessWithStats chainId scanLimit (ee_eventId (jm_event message)) now));;
      on_nats (Ack message)
  | None => mret tt
  end;;
  on_state (rescan_when_due now).
End RiskWorkerMain.
