(* ===== verification/ServiceProperties.v ===== *)
(** * ServiceProperties: no event is lost

    A message leaves the stream only when what it asks for has been committed, whatever fails
    and however often, and however the commits of the other processes interleave. *)

From S2P Require Import Prelude Effects Loop Text Json Sql Uint256 Hex Abi IndexerTypes PostgresStore Event Outbox JetStream.
From S2P Require Import RiskCalculator RiskEngine PostgresRiskRepository RiskWorker LiquidationChain Liquidator LiquidationJobs.
From S2P Require Import StateProjector Indexer IndexerSync PostgresRefinement IndexerProperties LiquidationProperties Services.
Set Default Goal Selector "!".
#[local] Open Scope Z_scope.

(** ** Consumers *)

Section Consumer.
Context {D N : Type} `{LawfulNats N} `{JsonText}.

(** [valid] states of the service, in which [done_with event] says that the event has been handled. *)
Context (valid : D -> Prop) (done_with : EventEnvelope -> D -> Prop).

Abbreviation M := (prog (Service D N)).

Definition handled (data : string) (d : D) : Prop := exists event, Deserialize data = Ok event /\ done_with event d.

(** From [d] to [d'] the state stays valid and what has been done stays done. *)
Definition advances (d d' : D) : Prop := valid d' /\ forall event, done_with event d -> done_with event d'.

(** And every message that is gone from the stream has been handled. *)
Definition safe (st st' : Service D N) : Prop :=
  advances (sv_state st) (sv_state st')
  /\ forall s data, unacked (sv_nats st) s data -> unacked (sv_nats st') s data \/ handled data (sv_state st').

Definition keeps {A} (m : M A) : Prop := forall st, valid (sv_state st) -> wp m (fun _ => safe st) (fun _ => safe st) st.

Lemma safe_refl st : valid (sv_state st) -> safe st st.
Proof using. intros Hv. split; [by split|auto]. Qed.

Lemma handled_advances data d d' : advances d d' -> handled data d -> handled data d'.
Proof using. intros [_ Hd] (event & Ee & Hx). exists event. auto. Qed.

Lemma safe_trans st1 st2 st3 : safe st1 st2 -> safe st2 st3 -> safe st1 st3.
Proof using.
  intros [[Hv Ha] Hn] [Hadv Hn']. split.
  - destruct Hadv as [Hv' Ha']. split; auto.
  - intros s data [Hu|Hh]%Hn; [auto|]. right. by eapply handled_advances.
Qed.

Lemma keeps_after {A} (m : M A) st0 st :
  keeps m -> safe st0 st -> wp m (fun _ => safe st0) (fun _ => safe st0) st.
Proof using.
  intros Hm Hs. pose proof Hs as [[Hv _] _].
  eapply wp_mono; [by apply Hm|intros a st' Hx; by eapply safe_trans|intros e st' Hx; by eapply safe_trans].
Qed.

Lemma keeps_ret {A} (a : A) : keeps (mret a).
Proof using. intros st Hv. by apply wp_ret, safe_refl. Qed.

Lemma keeps_throw {A} e : keeps (throw e : M A).
Proof using. intros st Hv. by apply wp_throw, safe_refl. Qed.

Lemma keeps_bind {A B} (m : M A) (k : A -> M B) : keeps m -> (forall a, keeps (k a)) -> keeps (m ≫= k).
Proof using.
  intros Hm Hk st Hv. apply wp_bind. eapply wp_mono; [by apply Hm| |done]. intros a st' Hs. by apply keeps_after.
Qed.

Lemma keeps_on_state {A} (m : prog D A) : (forall d, valid d -> advances d (m d).2) -> keeps (on_state m).
Proof using.
  intros Hm [d n] Hv. unfold wp, on_state. specialize (Hm d Hv). cbn [sv_state sv_nats] in *. destruct (m d) as [[a|e] d'];
    (split; [exact Hm|auto]).
Qed.

Lemma keeps_guarded runOnce iteration : keeps iteration -> keeps (guarded runOnce iteration).
Proof using.
  intros Hi st Hv. apply wp_catch_all. eapply wp_mono; [by apply Hi|done|]. intros e st' Hs.
  destruct runOnce, e; first [by apply wp_throw|by apply wp_ret].
Qed.

Lemma keeps_loop runOnce iteration further : keeps iteration -> keeps (service_loop runOnce iteration further).
Proof using.
  intros Hi. induction further as [|further IH]; cbn [service_loop]; apply keeps_bind; auto using keeps_guarded, keeps_ret.
  intros _. destruct runOnce; auto using keeps_ret.
Qed.

(** Handling the message that was fetched, then acknowledging it. *)
Lemma keeps_consume {A B} timeout (handle : B -> EventEnvelope -> prog D A) (before : prog D B) (k : B -> M unit) :
  (forall d, valid d -> advances d (before d).2) ->
  (forall b event d, valid d -> match handle b event d with
     | (Ok _, d') => advances d d' /\ done_with event d'
     | (Throw _, d') => advances d d'
     end) ->
  (forall b, keeps (k b)) ->
  keeps (
    message ← on_nats (Fetch timeout);
    b ← on_state before;
    match message with
    | Some message => on_state (handle b (jm_event message));; on_nats (Ack message)
    | None => mret tt
    end;;
    k b).
Proof using.
  intros Hb Hh Hk st Hv. apply wp_bind. unfold wp at 1, on_nats. pose proof (Fetch_wp timeout (sv_nats st)) as Hf.
  unfold wp in Hf. destruct (Fetch timeout (sv_nats st)) as [[message|e] n].
  2:{ split; [by split|]. intros s data Hu. left. by apply Hf. }
  destruct Hf as [Hret Hev]. set (st1 := MkService (sv_state st) n). assert (safe st st1) as Hs1.
  { split; [by split|]. intros s data Hu. left. by apply Hret. }
  apply wp_bind. eapply wp_mono; [by apply keeps_after, Hs1; apply keeps_on_state| |done]. intros b st2 Hs2.
  destruct message as [message|]; [|apply keeps_after; [|done]; apply keeps_bind; [apply keeps_ret|intros _; apply Hk]].
  apply wp_bind, wp_bind. unfold wp at 1, on_state. pose proof Hs2 as [[Hv2 _] _]. specialize (Hh b (jm_event message) (sv_state st2) Hv2).
  destruct (handle b (jm_event message) (sv_state st2)) as [[a|e] d'].
  2:{ eapply safe_trans; [exact Hs2|]. split; [exact Hh|auto]. }
  destruct Hh as [Hadv Hdone]. unfold wp at 1, on_nats. cbn [sv_nats sv_state].
  pose proof (Ack_wp message (sv_nats st2)) as Ha. cbv zeta in Ha. unfold wp in Ha.
  assert (forall n', (forall s data, (s, data) <> (nats_sequence (jm_message message), natsMsg_GetData (jm_message message)) ->
      unacked (sv_nats st2) s data -> unacked n' s data) -> safe st (MkService d' n')) as Hs3.
  { intros n' Hn'. eapply safe_trans; [exact Hs2|]. split; [exact Hadv|]. intros s data Hu.
    destruct (decide ((s, data) = (nats_sequence (jm_message message), natsMsg_GetData (jm_message message)))) as [[= -> ->]|Hne].
    - right. by exists (jm_event message).
    - left. by apply Hn'. }
  destruct (Ack message (sv_nats st2)) as [[[]|e] n']; [|by apply Hs3]. apply keeps_after; [apply Hk|by apply Hs3].
Qed.
End Consumer.

Lemma keeps_ext {D N A} `{LawfulNats N} `{JsonText} valid done_with (m m' : prog (Service D N) A) :
  (forall st, m st = m' st) -> keeps valid done_with m' -> keeps valid done_with m.
Proof. intros E Hm st Hv. unfold wp. rewrite E. by apply Hm. Qed.

(** ** The liquidator *)

(** The job of an event is in the table. *)
Definition has_job (eventId : string) (db : LqDb) : Prop := exists row, row ∈ lq_jobs db /\ jr_source_event_id row = eventId.

(** A valid table of jobs: one row for each job, and one for each event that counts as processed. *)
Record jobs_valid (db : LqDb) : Prop := {
  jv_ids : NoDup (job_ids db);
  jv_processed eventId : ("liquidator", eventId) ∈ db_processed_events (lq_index db) -> has_job eventId db
}.

(** From [db] to [db'] the table stays valid and keeps its jobs. *)
Definition jobs_advance (db db' : LqDb) : Prop :=
  jobs_valid db' /\ forall eventId, has_job eventId db -> has_job eventId db'.

Lemma edges_source row row' : rtc job_edge row row' -> jr_source_event_id row' = jr_source_event_id row.
Proof. induction 1 as [|r1 r2 r3 H _ IH]; [done|]. rewrite IH. by destruct H. Qed.

Lemma evolve_has_job db db' eventId : rows_evolve (lq_jobs db) (lq_jobs db') -> has_job eventId db -> has_job eventId db'.
Proof.
  intros (moved & new & E & Hm & _) (row & Hrow & Es). apply list_elem_of_lookup_1 in Hrow as [i Hi].
  destruct (Forall2_lookup_l _ _ _ _ _ Hm Hi) as (row' & Hi' & He). exists row'. rewrite E. split.
  - apply elem_of_app. left. by eapply list_elem_of_lookup_2.
  - by rewrite (edges_source _ _ He).
Qed.

Lemma evolve_advance db db' :
  jobs_valid db -> rows_evolve (lq_jobs db) (lq_jobs db') -> NoDup (job_ids db') ->
  (forall eventId, ("liquidator", eventId) ∈ db_processed_events (lq_index db') ->
     ("liquidator", eventId) ∈ db_processed_events (lq_index db)) -> jobs_advance db db'.
Proof.
  intros Hv He Hnd Hp. split; [split; [done|]|].
  - intros eventId Hin%Hp. by eapply evolve_has_job, jv_processed.
  - intros eventId. by apply evolve_has_job.
Qed.

(** What any command of the store does, apart from [Enqueue], leaves [processed_events] alone. *)
Lemma command_advance `{TextOrder} c db :
  jobs_valid db -> (match c with Others _ _ | DoEnqueue _ => False | _ => True end) ->
  lq_index (perform c db).2 = lq_index db -> jobs_advance db (perform c db).2.
Proof.
  intros Hv Hc Hi. destruct (perform_evolves c db (jv_ids _ Hv)) as [He Hnd].
  apply evolve_advance; [done..|]. by rewrite Hi.
Qed.

Lemma insert_job_index row db : wp (insert_job row) (fun _ db' => lq_index db' = lq_index db /\ has_job (jr_source_event_id row) db')
  (fun _ _ => True) db.
Proof.
  unfold insert_job. repeat sql_step; try done.
  - split; [done|]. match goal with Hx : existsb _ _ = true |- _ => apply existsb_true in Hx as (other & Hin & E%bool_decide_eq_true) end.
    by exists other.
  - split; [done|]. exists row. split; [|done]. cbn [set_jobs lq_jobs]. apply elem_of_app. right. apply list_elem_of_here.
Qed.

Lemma Enqueue_advance event db :
  jobs_valid db ->
  match Enqueue event db with
  | (Ok _, db') => jobs_advance db db' /\ has_job (ee_eventId event) db'
  | (Throw _, db') => db' = db
  end.
Proof.
  intros Hv. pose proof (Enqueue_evolves event db) as He. cbv zeta in He.
  cut (wp (Enqueue event) (fun _ db' => has_job (ee_eventId event) db'
        /\ (db_processed_events (lq_index db') = db_processed_events (lq_index db)
            \/ db_processed_events (lq_index db') = db_processed_events (lq_index db) ++ [("liquidator", ee_eventId event)]))
      (fun _ db' => db' = db) db).
  { unfold wp. destruct (Enqueue event db) as [[b|e] db']; [|done]. intros [Hjob Hp]. split; [|done].
    destruct He as [He Hnd]. split; [split|].
    - apply Hnd, (jv_ids _ Hv).
    - intros eventId Hin. destruct Hp as [Hp|Hp]; rewrite Hp in Hin.
      + by eapply evolve_has_job, jv_processed.
      + apply elem_of_app in Hin as [Hin|[= ->]%list_elem_of_singleton]; [by eapply evolve_has_job, jv_processed|done].
    - intros eventId. by apply evolve_has_job. }
  unfold Enqueue. sql_step. sql_step; [|done]. apply wp_transaction, wp_bind.
  unfold wp at 1, on_index, insert_processed. rewrite get_run. case_bool_decide as Ein; cbn [negb].
  - apply wp_ret. destruct db as [index txs jobs]. split; [by apply (jv_processed _ Hv)|by left].
  - apply wp_bind, wp_get, wp_bind. eapply wp_mono; [apply insert_job_index| |done].
    intros [] db' [Hi Hj]. apply wp_ret. split; [exact Hj|]. right. by rewrite Hi.
Qed.

Lemma jobs_advance_refl db : jobs_valid db -> jobs_advance db db.
Proof. intros Hv. by split. Qed.

(** The commits of other processes that keep the jobs, as those of other liquidators do. *)
Definition peaceful (change : LqDb -> LqDb) : Prop := forall db, jobs_valid db -> jobs_advance db (change db).

Lemma Claim_index `{TextOrder} chainId worker lease db : lq_index (Claim chainId worker lease db).2 = lq_index db.
Proof.
  pose proof (Claim_wp chainId worker lease db) as Hw.
  cut (wp (Claim chainId worker lease) (fun _ db' => lq_index db' = lq_index db) (fun _ db' => lq_index db' = lq_index db) db).
  { unfold wp. by destruct (Claim chainId worker lease db) as [[]]. }
  unfold Claim. apply wp_transaction, wp_bind, wp_get. cbv zeta. apply wp_bind, wp_modify.
  destruct (std_sort job_before _) as [|next rest]; [by apply wp_ret|]. repeat sql_step; done.
Qed.

Lemma JobSubmit_index job submission wallet db : lq_index (Submit job submission wallet db).2 = lq_index db.
Proof.
  pose proof (JobSubmit_wp job submission wallet db) as Hw. unfold wp in Hw.
  by destruct (Submit job submission wallet db) as [[[]|e] db']; destruct Hw as [_ ->].
Qed.

Lemma Invalidate_index job reason db : lq_index (Invalidate job reason db).2 = lq_index db.
Proof. unfold Invalidate, transaction, bigint_parameter. by destruct (sql_bigint (lj_fencingToken job)). Qed.

Lemma perform_snd {A} (m : prog LqDb A) (k : A -> Outcome) db : ((a ← m; mret (k a)) db).2 = (m db).2.
Proof. unfold mbind, prog_bind. by destruct (m db) as [[a|e] db']. Qed.

Lemma Enqueue_peaceful event : peaceful (fun db => (Enqueue event db).2).
Proof.
  intros db Hv. pose proof (Enqueue_advance event db Hv) as He.
  destruct (Enqueue event db) as [[b|e] db']; [by destruct He|]. subst. by apply jobs_advance_refl.
Qed.

(** Every command of a store is such a commit. *)
Lemma command_peaceful `{TextOrder} c :
  (forall index transactions db id, c = Others index transactions ->
     ("liquidator", id) ∈ db_processed_events (index db) -> ("liquidator", id) ∈ db_processed_events db) ->
  peaceful (fun db => (perform c db).2).
Proof.
  intros Ho db Hv. destruct c as [event|chainId w lease|job submission wallet|job reason|chainId| |index txs].
  - cbn [perform]. rewrite perform_snd. by apply Enqueue_peaceful.
  - apply command_advance; [done..|]. cbn [perform]. rewrite perform_snd. apply Claim_index.
  - apply command_advance; [done..|]. cbn [perform]. rewrite perform_snd. apply JobSubmit_index.
  - apply command_advance; [done..|]. cbn [perform]. rewrite perform_snd. apply Invalidate_index.
  - by apply command_advance.
  - by apply command_advance.
  - destruct (perform_evolves (Others index txs) db (jv_ids _ Hv)) as [He Hnd].
    apply evolve_advance; [done..|]. intros eventId. by eapply Ho.
Qed.

Section LiquidatorService.
Context {N C : Type} `{LawfulNats N} `{JsonText} `{TextOrder} `{LiquidationChain C}.
Context (keccak : Bytes -> Hash256) (config : LiquidatorConfig) (chainId : Uint256) (workerId : string) (leaseDuration : Z).

Definition liquidator_valid (d : LiquidatorState C) : Prop :=
  jobs_valid (w_db (ld_jobs d)) /\ Forall peaceful (w_others (ld_jobs d)).
Definition queued (event : EventEnvelope) (d : LiquidatorState C) : Prop := has_job (ee_eventId event) (w_db (ld_jobs d)).

Lemma settle_advance (w : World LqDb) :
  jobs_valid (w_db w) -> Forall peaceful (w_others w) ->
  jobs_advance (w_db w) (w_db (settle w)) /\ Forall peaceful (w_others (settle w)).
Proof using.
  destruct w as [db [|change others]]; cbn; intros Hv Ho; [split; [by apply jobs_advance_refl|done]|].
  inversion_clear Ho as [|? ? Hc Hr]. split; [by apply Hc|done].
Qed.

Lemma jobs_advance_trans db1 db2 db3 : jobs_advance db1 db2 -> jobs_advance db2 db3 -> jobs_advance db1 db3.
Proof using. intros [_ H12] [Hv H23]. split; auto. Qed.

(** A transaction that keeps the jobs. *)
Lemma on_jobs_advances {A} (m : prog LqDb A) d :
  peaceful (fun db => (m db).2) -> liquidator_valid d -> advances liquidator_valid queued d (on_jobs m d).2.
Proof using.
  intros Hm [Hv Ho]. destruct (settle_advance _ Hv Ho) as [Hs Ho']. unfold on_jobs, execute.
  specialize (Hm _ (proj1 Hs)). cbv beta in Hm. destruct (m (w_db (settle (ld_jobs d)))) as [r db']. cbn [snd] in *.
  pose proof (jobs_advance_trans _ _ _ Hs Hm) as [Hv' Hj].
  split; [split; [exact Hv'|exact Ho']|]. intros event. apply Hj.
Qed.

Lemma on_node_advances {A} (m : prog C A) d : liquidator_valid d -> advances liquidator_valid queued d (on_node m d).2.
Proof using. intros Hv. unfold on_node. destruct (m (ld_node d)) as [r c]. by split. Qed.

(** A sequence of steps that keep the jobs keeps them. *)
Definition calm {A} (m : prog (LiquidatorState C) A) : Prop :=
  forall d, liquidator_valid d -> advances liquidator_valid queued d (m d).2.

Lemma calm_bind {A B} (m : prog (LiquidatorState C) A) (k : A -> prog (LiquidatorState C) B) :
  calm m -> (forall a, calm (k a)) -> calm (m ≫= k).
Proof using.
  intros Hm Hk d Hv. unfold mbind, prog_bind. specialize (Hm d Hv). destruct (m d) as [[a|e] d']; [|exact Hm].
  destruct Hm as [Hv' Ha]. destruct (Hk a d' Hv') as [Hv'' Ha']. split; auto.
Qed.

Lemma calm_ret {A} (a : A) : calm (mret a).
Proof using. intros d Hv. by split. Qed.

Lemma calm_command (c : Command) {A} (m : prog LqDb A) (k : A -> Outcome) :
  match c with Others _ _ => False | _ => True end -> perform c = (a ← m; mret (k a)) -> calm (on_jobs m).
Proof using.
  intros Hc E d Hv. apply on_jobs_advances; [|done]. intros db Hdb. pose proof (command_peaceful c) as Hp.
  specialize (Hp ltac:(by intros index txs db0 id ->)). specialize (Hp db Hdb). cbv beta in Hp. by rewrite E, perform_snd in Hp.
Qed.

Lemma calm_node {A} (m : prog C A) : calm (on_node m).
Proof using. intros d. apply on_node_advances. Qed.

Lemma liquidator_work_calm : calm (liquidator_work keccak config chainId workerId leaseDuration).
Proof using.
  unfold liquidator_work. apply calm_bind; [by apply (calm_command (DoInvalidateNonCanonical chainId) _ Counted)|intros _].
  apply calm_bind; [by apply (calm_command (DoClaim chainId workerId leaseDuration) _ ClaimedJob)|intros job].
  apply calm_bind.
  - destruct job as [job|]; [|apply calm_ret]. apply calm_bind; [apply calm_node|]. intros [submission|].
    + apply calm_bind; [|intros; apply calm_ret].
      by apply (calm_command (DoSubmit job submission (lq_operatorAddress config)) _ SubmittedJob).
    + apply calm_bind; [|intros; apply calm_ret]. by apply (calm_command (DoInvalidate job "position is no longer profitable to liquidate") _ InvalidatedJob).
  - intros _. apply calm_bind; [|intros; apply calm_ret].
    intros d Hv. apply on_jobs_advances; [|done]. intros db Hdb.
    pose proof (command_peaceful DoReconcile ltac:(done) db Hdb) as Hp. cbv beta in Hp. cbn [perform] in Hp.
    rewrite perform_snd in Hp. unfold ReconcileSubmitted in Hp. exact Hp.
Qed.

Lemma liquidator_keeps :
  keeps liquidator_valid queued (liquidator_iteration (N := N) keccak config chainId workerId leaseDuration).
Proof using.
  eapply keeps_ext; [|apply (keeps_consume liquidator_valid queued 500 (fun _ event => on_jobs (Enqueue event))
    (mret tt) (fun _ => on_state (liquidator_work keccak config chainId workerId leaseDuration)))].
  - intros st. unfold liquidator_iteration, mbind, prog_bind. destruct (on_nats (Fetch 500) st) as [[message|e] [d n]]; reflexivity.
  - intros d Hv. by split.
  - intros _ event d Hv. pose proof (on_jobs_advances (Enqueue event) d) as Ha.
    destruct Hv as [Hv Ho]. destruct (settle_advance _ Hv Ho) as [Hs _].
    pose proof (Enqueue_advance event (w_db (settle (ld_jobs d))) (proj1 Hs)) as He.
    specialize (Ha (Enqueue_peaceful event) (conj Hv Ho)).
    revert Ha. unfold on_jobs, execute. destruct (Enqueue event _) as [[b|e] db']; [|by intros Ha].
    intros Ha. split; [exact Ha|]. apply He.
  - intros _. apply keeps_on_state, liquidator_work_calm.
Qed.
End LiquidatorService.

(** Claim C12: no detected liquidation is lost: however many iterations the liquidator makes, whatever the node and
    the stream answer, whichever iterations throw, and however the commits of the other processes
    come between its own, a message that will not be delivered to it again has its job in the
    table; no job disappears, and no two have the same id. *)
Theorem candidates_not_lost {N C} `{LawfulNats N} `{JsonText} `{TextOrder} `{LiquidationChain C}
    keccak config chainId workerId leaseDuration runOnce further (st st' : Service (LiquidatorState C) N) r :
  jobs_valid (w_db (ld_jobs (sv_state st))) -> Forall peaceful (w_others (ld_jobs (sv_state st))) ->
  service_loop runOnce (liquidator_iteration keccak config chainId workerId leaseDuration) further st = (r, st') ->
  let db' := w_db (ld_jobs (sv_state st')) in
  NoDup (job_ids db')
  /\ (forall eventId, has_job eventId (w_db (ld_jobs (sv_state st))) -> has_job eventId db')
  /\ forall sequence data, unacked (sv_nats st) sequence data ->
       unacked (sv_nats st') sequence data
       \/ exists event, Deserialize data = Ok event /\ has_job (ee_eventId event) db'.
Proof.
  intros Hv Ho E. pose proof (keeps_loop liquidator_valid queued runOnce _ further
    (liquidator_keeps keccak config chainId workerId leaseDuration) st (conj Hv Ho)) as Hk.
  unfold wp in Hk. rewrite E in Hk.
  assert (safe liquidator_valid queued st st') as [[[Hv' _] Ha] Hn] by by destruct r.
  split; [by apply jv_ids|]. split; [|exact Hn]. intros eventId. 
  exact (Ha (MkEventEnvelope eventId "" "" (U 0) 0 (array_copy 32 []) None None 0 0 JNull)).
Qed.

(** ** The risk worker *)

(** [processed_events] only grows. *)
Definition processed_by_risk (eventId : string) (db : IxDb) : Prop := ("risk-engine", eventId) ∈ db_processed_events db.
Definition growing (change : IxDb -> IxDb) : Prop := forall db eventId, processed_by_risk eventId db -> processed_by_risk eventId (change db).

Lemma insert_candidate_processed c db :
  wp (insert_candidate c) (fun _ db' => db_processed_events db' = db_processed_events db)
    (fun _ db' => db_processed_events db' = db_processed_events db) db.
Proof. unfold insert_candidate, InsertOutboxEvent. repeat sql_step; done. Qed.

(** A committed scan, or one that had been committed before, has its event among the processed ones. *)
Lemma CommitScan_processed eventId candidates db :
  wp (CommitScan eventId candidates)
    (fun _ db' => processed_by_risk eventId db' /\ forall id, processed_by_risk id db -> processed_by_risk id db')
    (fun _ db' => db' = db) db.
Proof.
  unfold CommitScan. apply wp_transaction, wp_bind. unfold wp at 1, insert_processed. rewrite get_run.
  case_bool_decide as Ein; cbn [negb]; [by apply wp_ret|]. apply wp_bind.
  set (db1 := set_processed_events _ db). eapply wp_mono.
  - apply (wp_for_each _ (fun db' => db_processed_events db' = db_processed_events db1) (fun _ _ => True)); [|done].
    intros c db' _ E. eapply wp_mono; [apply insert_candidate_processed| |done]. intros [] db'' E'. by rewrite E', E.
  - intros [] db' E. apply wp_ret. unfold processed_by_risk. rewrite E. cbn [db1 set_processed_events db_processed_events].
    split; [|intros id Hid]; apply elem_of_app; [right; apply list_elem_of_here|by left].
  - done.
Qed.

Section RiskService.
Context {N : Type} `{LawfulNats N} `{JsonText} `{TextOrder}.
Context (chainId : Uint256) (scanLimit rescanInterval : Z) (time steady_clock : nat -> Z).

Definition risk_valid (d : RiskWorkerState) : Prop := Forall growing (w_others (rk_db d)).
Definition assessed (event : EventEnvelope) (d : RiskWorkerState) : Prop := processed_by_risk (ee_eventId event) (w_db (rk_db d)).

(** The database after some calls of one process. *)
Definition grows (w w' : World IxDb) : Prop :=
  Forall growing (w_others w') /\ forall id, processed_by_risk id (w_db w) -> processed_by_risk id (w_db w').
Definition growing_prog {A} (m : prog (World IxDb) A) : Prop := forall w, Forall growing (w_others w) -> grows w (m w).2.

Lemma grows_settle w : Forall growing (w_others w) -> grows w (settle w).
Proof using.
  destruct w as [db [|change others]]; intros Ho; [by split|]. inversion_clear Ho as [|? ? Hc Hr]. split; [done|].
  intros id Hid. by apply Hc.
Qed.

Lemma grows_trans w1 w2 w3 : grows w1 w2 -> grows w2 w3 -> grows w1 w3.
Proof using. intros [_ H12] [Ho H23]. split; auto. Qed.

Lemma growing_bind {A B} (m : prog (World IxDb) A) (k : A -> prog (World IxDb) B) :
  growing_prog m -> (forall a, growing_prog (k a)) -> growing_prog (m ≫= k).
Proof using.
  intros Hm Hk w Hw. unfold mbind, prog_bind. specialize (Hm w Hw). destruct (m w) as [[a|e] w']; [|exact Hm].
  eapply grows_trans; [exact Hm|]. apply Hk, Hm.
Qed.

Lemma growing_lift {A} (r : result A) : growing_prog (lift r).
Proof using. intros w Hw. by split. Qed.
Lemma growing_ret {A} (a : A) : growing_prog (mret a).
Proof using. intros w Hw. by split. Qed.
Lemma growing_query {A} (q : IxDb -> result A) : growing_prog (query q).
Proof using. intros w Hw. by apply grows_settle. Qed.

Lemma ScanWithStats_growing limit t : growing_prog (ScanWithStats chainId limit t).
Proof using.
  unfold ScanWithStats. cbn [repo_LoadMarket repo_LoadPositions postgres_risk_repository].
  repeat first [apply growing_bind; [first [apply growing_query|apply growing_lift]|intros ?]|apply growing_ret].
Qed.

(** The events that are processed after the work on one of them. *)
Lemma ProcessWithStats_growing eventId t w :
  Forall growing (w_others w) ->
  match ProcessWithStats chainId scanLimit eventId t w with
  | (Ok _, w') => grows w w' /\ processed_by_risk eventId (w_db w')
  | (Throw _, w') => grows w w'
  end.
Proof using.
  intros Hw. unfold ProcessWithStats, mbind at 1, prog_bind. pose proof (ScanWithStats_growing scanLimit t w Hw) as Hs.
  destruct (ScanWithStats chainId scanLimit t w) as [[scan|e] w1]; [|exact Hs]. cbn [snd] in Hs.
  cbn [event_CommitScan postgres_risk_events]. unfold mbind, prog_bind, execute.
  pose proof (grows_settle w1 (proj1 Hs)) as Hw1. pose proof (grows_trans _ _ _ Hs Hw1) as Hw2.
  pose proof (CommitScan_processed eventId (rs_candidates scan) (w_db (settle w1))) as Hc. unfold wp in Hc.
  destruct (CommitScan _ _ _) as [[b|e] db'].
  - destruct Hc as [Hin Hg]. split; [|exact Hin]. split; [apply Hw2|]. intros id Hid. by apply Hg, Hw2.
  - subst db'. split; [apply Hw2|]. intros id Hid. by apply Hw2.
Qed.

Lemma RescanWithStats_growing t : growing_prog (RescanWithStats chainId scanLimit t).
Proof using.
  unfold RescanWithStats, LoadMarket. apply growing_bind; [apply growing_query|]. intros market w Hw.
  pose proof (fun id => ProcessWithStats_growing id t w Hw) as Hp. cbv beta in Hp.
  match goal with |- grows _ (ProcessWithStats _ _ ?id _ _).2 => specialize (Hp id) end.
  destruct (ProcessWithStats _ _ _ _ _) as [[a|e] w']; [apply Hp|exact Hp].
Qed.

Lemma on_tables_advances {A} (m : prog (World IxDb) A) d :
  growing_prog m -> risk_valid d -> advances risk_valid assessed d (on_tables m d).2.
Proof using.
  intros Hm Hd. specialize (Hm (rk_db d) Hd). unfold on_tables. destruct (m (rk_db d)) as [r w]. destruct Hm as [Ho Hg].
  split; [exact Ho|]. intros event. apply Hg.
Qed.

Lemma rescan_when_due_advances now d :
  risk_valid d -> advances risk_valid assessed d (rescan_when_due chainId scanLimit rescanInterval steady_clock now d).2.
Proof using.
  intros Hd. unfold rescan_when_due. rewrite (bind_run _ _ d (steady_clock (rk_reads d)) (MkRiskWorkerState (rk_db d) (rk_next d) (S (rk_reads d)))) by done.
  rewrite get_run. destruct (_ <=? _); [|by split].
  set (d1 := MkRiskWorkerState _ _ _). assert (risk_valid d1) as Hd1 by done.
  pose proof (on_tables_advances _ d1 (RescanWithStats_growing now) Hd1) as Ha. unfold mbind at 1, prog_bind at 1.
  destruct (on_tables _ d1) as [[work|e] d2]; exact Ha.
Qed.

Lemma risk_keeps : keeps risk_valid assessed (risk_iteration (N := N) chainId scanLimit rescanInterval time steady_clock).
Proof using.
  unfold risk_iteration. apply (keeps_consume risk_valid assessed 500
    (fun now event => on_tables (ProcessWithStats chainId scanLimit (ee_eventId event) now))
    (read_clock (fun n => u64 (time n))) (fun now => on_state (rescan_when_due chainId scanLimit rescanInterval steady_clock now))).
  - intros d Hd. by split.
  - intros now event d Hd. pose proof (ProcessWithStats_growing (ee_eventId event) now (rk_db d) Hd) as Hp. unfold on_tables.
    destruct (ProcessWithStats _ _ _ _ _) as [[a|e] w].
    + destruct Hp as [[Ho Hg] Hin]. split; [|exact Hin]. split; [exact Ho|]. intros e. apply Hg.
    + destruct Hp as [Ho Hg]. split; [exact Ho|]. intros e'. apply Hg.
  - intros now. apply keeps_on_state. intros d. apply rescan_when_due_advances.
Qed.
End RiskService.

(** Claim C13: no change of the chain is overlooked: however many iterations the risk worker makes, whatever fails
    in them and whatever the others commit in between, an event that will not be delivered to it
    again is among the events whose scan has been committed. *)
Theorem events_not_lost {N} `{LawfulNats N} `{JsonText} `{TextOrder} chainId scanLimit rescanInterval time steady_clock
    runOnce further (st st' : Service RiskWorkerState N) r :
  Forall growing (w_others (rk_db (sv_state st))) ->
  service_loop runOnce (risk_iteration chainId scanLimit rescanInterval time steady_clock) further st = (r, st') ->
  forall sequence data, unacked (sv_nats st) sequence data ->
    unacked (sv_nats st') sequence data
    \/ exists event, Deserialize data = Ok event /\ processed_by_risk (ee_eventId event) (w_db (rk_db (sv_state st'))).
Proof.
  intros Ho E. pose proof (keeps_loop risk_valid assessed runOnce _ further
    (risk_keeps chainId scanLimit rescanInterval time steady_clock) st Ho) as Hk.
  unfold wp in Hk. rewrite E in Hk. assert (safe risk_valid assessed st st') as [_ Hn] by by destruct r. exact Hn.
Qed.

(** *** Witness *)

Section Demo.
#[local] Existing Instances byte_order coded_json demo_chain.

(** A stream that delivers its first message until it is acknowledged. *)
#[local] Instance list_nats : Nats (list (Z * string)) := {
  nats_Msg := Z * string;
  natsMsg_GetData := snd;
  natsStatus_GetText _ := "Error";
  natsConnection_ConnectTo _ n := (NATS_OK, n);
  natsConnection_JetStream n := (NATS_OK, n);
  js_GetStreamInfo _ n := (NATS_OK, n);
  jsStreamConfig_Init n := (NATS_OK, n);
  js_AddStream _ n := (NATS_OK, n);
  jsPubOptions_Init n := (NATS_OK, n);
  js_Publish _ payload _ _ n := (NATS_OK, n ++ [(Z.of_nat (length n), payload)]);
  jsSubOptions_Init n := (NATS_OK, n);
  js_PullSubscribe _ _ _ n := (NATS_OK, n);
  natsSubscription_Fetch _ _ n := (match n with [] => (NATS_TIMEOUT, []) | m :: _ => (NATS_OK, [m]) end, n);
  natsMsg_AckSync m n := (NATS_OK, filter (fun m' => m' <> m) n)
}.

#[local] Instance list_nats_lawful : LawfulNats (list (Z * string)).
Proof.
  refine {| unacked n s d := (s, d) ∈ n; nats_sequence := fst : nats_Msg -> Z |}; cbn.
  - done.
  - intros n [s' d'] s d Hne Hin. by apply list_elem_of_filter.
Defined.

#[local] Instance demo_liquidation_chain : LiquidationChain unit := @rpc_liquidation_chain unit demo_node demo_keccak demo_pool.

Definition event_text : string := match Serialize (candidate_event 0 demo_candidate) with Ok text => text | Throw _ => "" end.

Definition service_start : Service (LiquidatorState unit) (list (Z * string)) :=
  MkService (MkLiquidatorState (MkWorld (demo_db 1000 []) []) tt) [(1, event_text)].
Definition service_end := (service_loop false (liquidator_iteration demo_keccak demo_config (U 1) "w1" 30) 1 service_start).2.

(** The tables of the indexer after a synchronisation, with the positions removed (they have no price),
    and a message about a reorganisation. *)
Definition risk_text : string := match Serialize sample_event with Ok text => text | Throw _ => "" end.
Definition risk_start : Service RiskWorkerState (list (Z * string)) :=
  let db := ix_store (SyncToHead prefix_hash sample_contracts 10 5 (MkIxState fork_db tt (MkIndexerStatus 0 0 0))).2 in
  MkService (MkRiskWorkerState (MkWorld (set_position_rows [] db) []) (10 ^ 9) 0)
    [(1, risk_text)].
Definition risk_end :=
  (service_loop false (risk_iteration (U 1) 1000 30 (fun _ => 1000) (fun n => Z.of_nat n)) 0 risk_start).2.

Lemma risk_end_acked : sv_nats risk_end = [].
Proof. vm_compute. reflexivity. Qed.

Lemma events_not_lost_witness :
  exists event, @Deserialize coded_json risk_text = Ok event
    /\ processed_by_risk (ee_eventId event) (w_db (rk_db (sv_state risk_end))).
Proof.
  pose proof (events_not_lost (U 1) 1000 30 (fun _ => 1000) (fun n => Z.of_nat n) false 0 risk_start risk_end
    (service_loop false (risk_iteration (U 1) 1000 30 (fun _ => 1000) (fun n => Z.of_nat n)) 0 risk_start).1
    (Forall_nil_2 growing) (surjective_pairing _)) as Hn.
  destruct (Hn 1 risk_text (list_elem_of_here _ _)) as [Hu|Hx]; [|exact Hx].
  change ((1, risk_text) ∈ sv_nats risk_end) in Hu. rewrite risk_end_acked in Hu. destruct (not_elem_of_nil _ Hu).
Defined.

Lemma candidates_not_lost_witness :
  sv_nats service_end = [] /\ (exists event, Deserialize event_text = Ok event
    /\ has_job (ee_eventId event) (w_db (ld_jobs (sv_state service_end)))).
Proof.
  assert (sv_nats service_end = []) as En by (vm_compute; reflexivity). split; [exact En|].
  destruct (candidates_not_lost demo_keccak demo_config (U 1) "w1" 30 false 1 service_start service_end
    (service_loop false (liquidator_iteration demo_keccak demo_config (U 1) "w1" 30) 1 service_start).1) as (_ & _ & Hn).
  - split; [constructor|]. intros id Hin. change (("liquidator", id) ∈ @nil (string * string)) in Hin.
    destruct (not_elem_of_nil _ Hin).
  - constructor.
  - apply surjective_pairing.
  - destruct (Hn 1 event_text (list_elem_of_here _ _)) as [Hu|Hx]; [|exact Hx].
    change ((1, event_text) ∈ sv_nats service_end) in Hu. rewrite En in Hu.
    destruct (not_elem_of_nil _ Hu).
Defined.
End Demo.
