(* ===== verification/Pipeline.v ===== *)
(** * Pipeline: from the scan to the job

    The risk worker commits candidates to the outbox, the publisher moves them to the stream,
    the liquidator takes them from there and queues a job for each.  The three run together
    here, over one database and one broker, with the commits of every other service in between,
    and no candidate is lost on the way. *)

From S2P Require Import Prelude Effects Loop Text Json Sql Uint256 Hex Abi IndexerTypes PostgresStore Event Outbox JetStream.
From S2P Require Import RiskCalculator RiskEngine PostgresRiskRepository RiskWorker LiquidationChain Liquidator LiquidationJobs.
From S2P Require Import StateProjector Indexer IndexerSync PostgresRefinement IndexerProperties RiskProperties LiquidationProperties.
From S2P Require Import Services ServiceProperties.
Set Default Goal Selector "!".
#[local] Open Scope Z_scope.

(** ** The broker, for a publisher

    [stored n id s d]: a message with the id [id] has been taken into the stream under the sequence
    number [s], with data [d].  Within the window for duplicates a second message of one id is accepted
    without being stored; after it, it is stored again. *)
Class LawfulStream (N : Type) `{LawfulNats N} := {
  stored : N -> string -> Z -> string -> Prop;
  (** The subject of the consumer [unacked] is about. *)
  consumer_subject : string;
  law_stored_publish subject payload len id n id' s d :
    stored n id' s d -> stored (js_Publish subject payload len id n).2 id' s d;
  law_unacked_publish subject payload len id n s d :
    unacked n s d -> unacked (js_Publish subject payload len id n).2 s d;
  law_new_publish subject payload len id n id' s d :
    stored (js_Publish subject payload len id n).2 id' s d -> stored n id' s d \/ id' = id
      /\ (len = Z.of_nat (String.length payload) ->
          d = payload /\ (subject = consumer_subject -> unacked (js_Publish subject payload len id n).2 s d));
  law_accepted subject payload len id n :
    (js_Publish subject payload len id n).1 = NATS_OK -> exists s d, stored (js_Publish subject payload len id n).2 id s d;
  law_options n : (forall id s d, stored (jsPubOptions_Init n).2 id s d <-> stored n id s d)
    /\ forall s d, unacked n s d -> unacked (jsPubOptions_Init n).2 s d;
  law_stored_fetch batch timeout n id s d : stored (natsSubscription_Fetch batch timeout n).2 id s d <-> stored n id s d;
  law_stored_ack message n id s d : stored (natsMsg_AckSync message n).2 id s d <-> stored n id s d
}.

Section Publishing.
Context {N : Type} `{LawfulStream N} `{JsonText}.

(** What offering an event does to the stream, accepted or not. *)
Record offered (event : EventEnvelope) (n n' : N) : Prop := {
  of_stored id s d : stored n id s d -> stored n' id s d;
  of_unacked s d : unacked n s d -> unacked n' s d;
  of_new id s d : stored n' id s d -> stored n id s d \/ id = c_str (ee_eventId event)
    /\ exists text, Serialize event = Ok text /\ (Z.of_nat (String.length text) < 2 ^ 31 ->
         d = text /\ (c_str (ee_eventType event) = consumer_subject -> unacked n' s d))
}.

Lemma offered_options event n n' : (forall id s d, stored n' id s d <-> stored n id s d) ->
  (forall s d, unacked n s d -> unacked n' s d) -> offered event n n'.
Proof using. intros Hs Hu. split; [intros id s d; apply Hs|done|]. intros id s d ?%Hs. by left. Qed.

Lemma PublishEvent_offers event n :
  wp (PublishEvent event) (fun _ n' => offered event n n' /\ exists s d, stored n' (c_str (ee_eventId event)) s d)
    (fun _ n' => offered event n n') n.
Proof using.
  unfold PublishEvent, checked. apply wp_bind, wp_lift; [|intros e _; by apply offered_options]. intros text Et.
  apply wp_bind, wp_bind. unfold wp at 1, call. pose proof (law_options n) as [Hs1 Hu1].
  destruct (jsPubOptions_Init n) as [status n1]. cbn [snd] in *. apply Check_wp; intros _; [|by apply offered_options].
  apply wp_bind. unfold wp at 1, call.
  set (subject := c_str (ee_eventType event)). set (len := to_int _). set (id := c_str (ee_eventId event)).
  pose proof (law_stored_publish subject text len id n1) as Hs. pose proof (law_unacked_publish subject text len id n1) as Hu.
  pose proof (law_new_publish subject text len id n1) as Hn. pose proof (law_accepted subject text len id n1) as Ha.
  destruct (js_Publish subject text len id n1) as [status' n']. cbn [fst snd] in *.
  assert (offered event n n') as Ho.
  { split.
    - intros id' s d ?%Hs1. by apply Hs.
    - intros s d ?%Hu1. by apply Hu.
    - intros id' s d [?%Hs1|[-> Hd]]%Hn; [by left|]. right. split; [done|]. exists text. split; [done|]. intros Hlen.
      apply Hd. unfold len, to_int. rewrite Z.mod_small by lia. lia. }
  apply Check_wp; intros E; [|done]. split; [done|]. by apply Ha.
Qed.
End Publishing.

Lemma Forall2_elem_l {A B} (P : A -> B -> Prop) l k x : Forall2 P l k -> x ∈ l -> exists y, y ∈ k /\ P x y.
Proof.
  intros HF [i Hi]%list_elem_of_lookup_1. destruct (Forall2_lookup_l _ _ _ _ _ HF Hi) as (y & Hy & HP).
  exists y. split; [by eapply list_elem_of_lookup_2|done].
Qed.

Lemma Forall2_elem_r {A B} (P : A -> B -> Prop) l k y : Forall2 P l k -> y ∈ k -> exists x, x ∈ l /\ P x y.
Proof.
  intros HF [i Hi]%list_elem_of_lookup_1. destruct (Forall2_lookup_r _ _ _ _ _ HF Hi) as (x & Hx & HP).
  exists x. split; [by eapply list_elem_of_lookup_2|done].
Qed.

(** ** The outbox *)

Definition outbox (db : LqDb) : list EventRow := db_outbox_events (lq_index db).

Definition is_candidate (row : EventRow) : Prop := er_event_type row = RISK_LIQUIDATION_DETECTED.

(** Two rows of one event, at most published at different times. *)
Definition same_event (row row' : EventRow) : Prop := set_published_at None row = set_published_at None row'.

Section Rows.
Context `{JsonText}.

(** A [TEXT] holds no zero byte; a candidate can be read and sent. *)
Record row_ok (row : EventRow) : Prop := {
  ro_id : c_str (er_event_id row) = er_event_id row;
  ro_sent : is_candidate row -> exists event text, ParseEvent row = Ok event
    /\ Serialize event = Ok text /\ Deserialize text = Ok event /\ Z.of_nat (String.length text) < 2 ^ 31
}.

(** Rows are appended and never change. *)
Record outbox_grows (rows rows' : list EventRow) : Prop := {
  og_kept row : row ∈ rows -> row ∈ rows';
  og_new row : row ∈ rows' -> row ∈ rows \/ er_published_at row = None /\ row_ok row;
  og_ids : NoDup (er_event_id <$> rows) -> NoDup (er_event_id <$> rows')
}.

Lemma outbox_grows_refl rows : outbox_grows rows rows.
Proof using. split; auto. Qed.

Lemma outbox_grows_trans rows1 rows2 rows3 : outbox_grows rows1 rows2 -> outbox_grows rows2 rows3 -> outbox_grows rows1 rows3.
Proof using. intros [K1 N1 I1] [K2 N2 I2]. split; [auto| |auto]. intros row [Hr|?]%N2; [by apply N1|by right]. Qed.

Lemma outbox_grows_insert row rows : er_published_at row = None -> row_ok row ->
  outbox_grows rows (insert_unless (fun other => bool_decide (er_event_id other = er_event_id row)) row rows).
Proof using.
  intros Hp Ho. unfold insert_unless. destruct (existsb _ rows) eqn:E; [apply outbox_grows_refl|]. split.
  - intros r Hr. apply elem_of_app. by left.
  - intros r [Hr| ->%list_elem_of_singleton]%elem_of_app; [by left|by right].
  - intros Hnd. rewrite fmap_app. apply NoDup_app. split; [done|]. split; [|apply NoDup_singleton].
    intros id (r & -> & Hr)%list_elem_of_fmap Eid%list_elem_of_singleton.
    by rewrite existsb_false in E; specialize (E r Hr); apply bool_decide_eq_false in E.
Qed.

Lemma same_event_id row row' : same_event row row' -> er_event_id row = er_event_id row'.
Proof using. intros E. exact (f_equal er_event_id E). Qed.
Lemma same_event_type row row' : same_event row row' -> er_event_type row = er_event_type row'.
Proof using. intros E. exact (f_equal er_event_type E). Qed.
Lemma same_event_parse row row' : same_event row row' -> ParseEvent row = ParseEvent row'.
Proof using. intros E. exact (f_equal ParseEvent E). Qed.

Lemma same_event_ok row row' : same_event row row' -> row_ok row -> row_ok row'.
Proof using.
  intros E [Hid Hs]. pose proof (same_event_id _ _ E) as Ei. pose proof (same_event_parse _ _ E) as Ep.
  split; [by rewrite <-Ei|]. rewrite <-Ep. intros Hc. apply Hs. unfold is_candidate. by rewrite (same_event_type _ _ E).
Qed.
End Rows.

(** ** The invariant *)

Section Flow.
Context {N : Type} `{LawfulStream N} `{JsonText}.

(** The candidate of the row is on its way: its message waits in the stream, or its job is queued. *)
Definition waiting (row : EventRow) (n : N) : Prop := exists event s text,
  ParseEvent row = Ok event /\ Deserialize text = Ok event /\ unacked n s text.

Record flowing (db : LqDb) (n : N) : Prop := {
  fl_jobs : jobs_valid db;
  fl_ids : NoDup (er_event_id <$> outbox db);
  fl_rows row : row ∈ outbox db -> row_ok row;
  (** Only the publisher writes to the stream. *)
  fl_origin id s d : stored n id s d -> exists row, row ∈ outbox db /\ er_event_id row = id;
  fl_stored row s d : row ∈ outbox db -> is_candidate row -> stored n (er_event_id row) s d ->
    exists event, ParseEvent row = Ok event /\ Deserialize d = Ok event
      /\ (unacked n s d \/ has_job (er_event_id row) db);
  fl_published row : row ∈ outbox db -> is_candidate row -> er_published_at row <> None ->
    exists s d, stored n (er_event_id row) s d
}.

(** Where a candidate is. *)
Lemma flowing_candidate db n row : flowing db n -> row ∈ outbox db -> is_candidate row ->
  er_published_at row = None \/ waiting row n \/ has_job (er_event_id row) db.
Proof using.
  intros [_ _ _ _ Hs Hp] Hin Hc. destruct (decide (er_published_at row = None)) as [?|Hne]; [by left|right].
  destruct (Hp row Hin Hc Hne) as (s & d & Hd). destruct (Hs row s d Hin Hc Hd) as (event & Ep & Ed & [Hu|Hj]); [left|by right].
  by exists event, s, d.
Qed.

Lemma flowing_start db n : jobs_valid db -> outbox db = [] -> (forall id s d, ~ stored n id s d) -> flowing db n.
Proof using.
  intros Hv E Hn. split; rewrite ?E; [done|constructor|by intros row ?%not_elem_of_nil|by intros id s d ?%Hn|
    by intros row s d ?%not_elem_of_nil|by intros row ?%not_elem_of_nil].
Qed.

(** The tables move on, and what leaves the stream has its job. *)
Lemma flowing_advance db n db' n' :
  flowing db n -> jobs_advance db db' -> outbox_grows (outbox db) (outbox db') ->
  (forall id s d, stored n' id s d <-> stored n id s d) ->
  (forall s d, unacked n s d -> unacked n' s d \/ exists event, Deserialize d = Ok event /\ has_job (ee_eventId event) db') ->
  flowing db' n'.
Proof using.
  intros [Hv Hid Hr Ho Hs Hp] [Hv' Hj] [Hk Hnew Hids] Hst Hu.
  assert (forall row, row ∈ outbox db' -> (row ∈ outbox db) \/ (row ∉ outbox db) /\ er_published_at row = None
      /\ forall s d, ~ stored n (er_event_id row) s d) as Hcase.
  { intros row Hin. destruct (Hnew row Hin) as [?|[Hnone _]]; [by left|].
    destruct (decide (er_event_id row ∈ (er_event_id <$> outbox db))) as [(old & Eid & Hold)%list_elem_of_fmap|Hfresh].
    - left. assert (row = old) as ->; [|done].
      eapply (NoDup_fmap_eq er_event_id); [by apply Hids|done|by apply Hk|done].
    - right. split; [|split; [done|]].
      + intros Hold. by apply Hfresh, list_elem_of_fmap_2.
      + intros s d Hd. destruct (Ho _ _ _ Hd) as (old & Hold & Eid). apply Hfresh. rewrite <-Eid. by apply list_elem_of_fmap_2. }
  split; [done|by apply Hids| | | |].
  - intros row Hin. by destruct (Hnew row Hin) as [?|[_ ?]]; [apply Hr|].
  - intros id s d Hd%Hst. destruct (Ho id s d Hd) as (row & Hin & E). exists row. auto.
  - intros row s d Hin Hc Hd%Hst. destruct (Hcase row Hin) as [Hold|(_ & _ & Hno)]; [|by destruct (Hno s d)].
    destruct (Hs row s d Hold Hc Hd) as (event & Ep & Ed & Hw). exists event. split; [done|]. split; [done|].
    destruct Hw as [Hw|Hw]; [|right; by apply Hj]. destruct (Hu s d Hw) as [?|(event' & Ed' & Hj')]; [by left|right].
    rewrite Ed in Ed'. injection Ed' as <-. by rewrite <-(ParseEvent_id _ _ Ep).
  - intros row Hin Hc Hne. destruct (Hcase row Hin) as [Hold|(_ & Hnone & _)]; [|done].
    destruct (Hp row Hold Hc Hne) as (s & d & Hd). exists s, d. by apply Hst.
Qed.

(** *** The publisher *)

Context `{TextOrder}.

Abbreviation Pub := (OutboxState IxDb N).

Section Pass.
Context (txs : list PostgresTransactionStore.TxRow) (jobs : list JobRow) (rows : list EventRow).

(** During a pass the rows of the outbox stay what they were, apart from the time of their publication. *)
Definition publishing (st : Pub) : Prop := flowing (MkLqDb (ob_store st) txs jobs) (ob_net st)
  /\ Forall2 same_event rows (db_outbox_events (ob_store st)).

Lemma publishing_offered event db n n' trace trace' row :
  publishing (MkOutboxState db n trace) -> row ∈ db_outbox_events db -> ParseEvent row = Ok event ->
  consumer_subject = RISK_LIQUIDATION_DETECTED -> offered event n n' -> publishing (MkOutboxState db n' trace').
Proof using.
  intros [[Hv Hid Hr Ho Hs Hp] HF] Hin Epar Hsub [Hst Hu Hnew]. split; [|exact HF].
  unfold outbox in *. cbn [ob_store ob_net lq_index lq_jobs] in *. split; try done.
  - intros id s d [Hd|[-> _]]%Hnew; [by eapply Ho|]. exists row. split; [done|].
    rewrite (ParseEvent_id _ _ Epar). symmetry. by apply Hr.
  - intros r s d Hr' Hc [Hd|[Eid (text & Et & Hd)]]%Hnew.
    + destruct (Hs r s d Hr' Hc Hd) as (e & Ep & Ed & Hw). exists e. split; [done|]. split; [done|].
      destruct Hw as [?|?]; [left; by apply Hu|by right].
    + assert (r = row) as ->.
      { eapply (NoDup_fmap_eq er_event_id); [exact Hid|done|done|].
        rewrite Eid, (ParseEvent_id _ _ Epar). by apply Hr. }
      destruct (ro_sent _ (Hr row Hin) Hc) as (e & text' & Ep & Et' & Ed & Hlen). rewrite Epar in Ep. injection Ep as <-.
      rewrite Et in Et'. injection Et' as <-. destruct (Hd Hlen) as [-> Hun]. exists event. split; [done|]. split; [done|]. left.
      apply Hun. rewrite Hsub. unfold ParseEvent in Epar. invert_bind. cbn [ee_eventType]. by rewrite Hc.
  - intros r Hr' Hc Hne. destruct (Hp r Hr' Hc Hne) as (s & d & Hd). exists s, d. by apply Hst.
Qed.

Lemma publishing_marked event db db' n trace s d :
  publishing (MkOutboxState db n trace) -> stored n (ee_eventId event) s d ->
  MarkPublished (ee_eventId event) db = (Ok tt, db') -> publishing (MkOutboxState db' n trace).
Proof using.
  intros [[Hv Hid Hr Ho Hs Hp] HF] Hd [= <-]. unfold publishing, outbox in *.
  cbn [ob_store ob_net lq_index set_outbox_events db_outbox_events] in *.
  fold (mark_row (ee_eventId event) (db_now db)). set (f := mark_row (ee_eventId event) (db_now db)).
  assert (forall row, same_event row (f row)) as Hf by (intros row; unfold f, mark_row; by case_bool_decide).
  assert (forall row, row ∈ f <$> db_outbox_events db -> exists old, row = f old /\ old ∈ db_outbox_events db) as Hold
    by (intros row; apply list_elem_of_fmap).
  split; [split|]; unfold outbox; cbn [lq_index lq_jobs set_outbox_events db_outbox_events].
  - destruct Hv as [H1' H2']. split; [exact H1'|exact H2'].
  - rewrite <-list_fmap_compose. erewrite list_fmap_ext; [exact Hid|]. intros i row _. symmetry. apply (same_event_id _ _ (Hf row)).
  - intros row (old & -> & Hin)%Hold. apply (same_event_ok old); auto.
  - intros id s' d' Hd'. destruct (Ho id s' d' Hd') as (row & Hin & E). exists (f row).
    split; [by apply list_elem_of_fmap_2|]. by rewrite <-(same_event_id _ _ (Hf row)).
  - intros row s' d' (old & -> & Hin)%Hold. unfold is_candidate.
    rewrite <-(same_event_id _ _ (Hf old)), <-(same_event_type _ _ (Hf old)), <-(same_event_parse _ _ (Hf old)). by apply Hs.
  - intros row (old & -> & Hin)%Hold. unfold is_candidate. rewrite <-(same_event_id _ _ (Hf old)), <-(same_event_type _ _ (Hf old)).
    intros Hc Hne. destruct (decide (er_event_id old = ee_eventId event)) as [->|Hother]; [by exists s, d|].
    apply Hp; [done|done|]. unfold f, mark_row in Hne. by rewrite bool_decide_eq_false_2 in Hne.
  - clear -HF Hf. induction HF as [|row old rows' olds E _ IH]; [constructor|]. rewrite fmap_cons. constructor; [|exact IH].
    unfold same_event. rewrite E. apply Hf.
Qed.

(** Offering one event of the table and marking it. *)
Lemma offer_publishing event row : consumer_subject = RISK_LIQUIDATION_DETECTED ->
  row ∈ rows -> ParseEvent row = Ok event -> preserves publishing (Publish event;; mark (ee_eventId event)).
Proof using.
  intros Hsub Hin Ep [db n trace] HP. pose proof HP as [[_ _ Hr _ _ _] HF]. cbn [ob_store ob_net] in *.
  destruct (Forall2_elem_l same_event _ _ _ HF Hin) as (row' & Hin' & E).
  assert (ParseEvent row' = Ok event) as Ep' by by rewrite <-(same_event_parse _ _ E).
  apply wp_bind. unfold wp at 1, Publish. cbn [ob_net publisher_Publish nats_publisher].
  pose proof (PublishEvent_offers event n) as Hw. unfold wp in Hw.
  destruct (PublishEvent event n) as [[[]|e] n']; [|by eapply publishing_offered].
  destruct Hw as [Hof (s & d & Hd)]. unfold wp, mark. cbn [ob_store ob_net ob_trace outbox_MarkPublished postgres_outbox].
  destruct (MarkPublished (ee_eventId event) db) as [r db'] eqn:EM. pose proof EM as [= <- _].
  eapply publishing_marked; [by eapply publishing_offered| |exact EM].
  assert (c_str (ee_eventId event) = ee_eventId event) as Ec; [|by rewrite <-Ec].
  rewrite (ParseEvent_id _ _ Ep'). by apply Hr.
Qed.

Lemma loaded_rows limit db l event : LoadUnpublished limit db = Ok l -> event ∈ l ->
  exists row, row ∈ db_outbox_events db /\ ParseEvent row = Ok event.
Proof using.
  unfold LoadUnpublished. intros E Hin. apply bind_Ok_inv in E as ([] & _ & E). apply map_result_Forall2 in E.
  destruct (Forall2_elem_r _ _ _ _ E Hin) as (row & Hrow & Ep). exists row. split; [|done].
  apply elem_of_unpublished. rewrite <-(std_sort_perm event_before). rewrite <-(take_drop (Z.to_nat limit)). apply elem_of_app. by left.
Qed.

Lemma RunOnce_publishing limit : consumer_subject = RISK_LIQUIDATION_DETECTED ->
  preserves publishing (RunOnce limit).
Proof using.
  intros Hsub [db n trace] HP. unfold RunOnce. apply wp_bind. unfold wp at 1, load. cbn [ob_store ob_net ob_trace outbox_LoadUnpublished postgres_outbox].
  destruct (LoadUnpublished limit db) as [l|e] eqn:EL; [|exact HP]. apply wp_bind.
  apply (wp_mono _ (fun _ => publishing) _ (fun _ => publishing)); [|intros [] st' HP'; by apply wp_ret|done].
  apply wp_for_each; [|exact HP]. intros event st' Hin HP'. destruct (loaded_rows _ _ _ _ EL Hin) as (row & Hrow & Ep).
  destruct HP as [_ HF]. destruct (Forall2_elem_r same_event _ _ _ HF Hrow) as (row0 & Hrow0 & E0).
  apply (offer_publishing event row0); [done|done| |exact HP']. by rewrite (same_event_parse _ _ E0).
Qed.
End Pass.
End Flow.

(** ** The liquidator *)

Section Liquidator.
Context {N C : Type} `{LawfulStream N} `{JsonText} `{TextOrder} `{LiquidationChain C}.

(** The commits of other services: they keep the jobs, and append to the outbox. *)
Definition commits (change : LqDb -> LqDb) : Prop :=
  peaceful change /\ forall db, outbox_grows (outbox db) (outbox (change db)).

(** Since [rows], the liquidator has left the outbox to the others, and has published nothing since [n0]. *)
Definition quiet_tables (rows : list EventRow) (d : LiquidatorState C) : Prop :=
  Forall commits (w_others (ld_jobs d)) /\ outbox_grows rows (outbox (w_db (ld_jobs d))).
Definition quiet_stream (n0 n : N) : Prop := forall id s d, stored n id s d <-> stored n0 id s d.
Definition quiet (rows : list EventRow) (n0 : N) (st : Service (LiquidatorState C) N) : Prop :=
  quiet_tables rows (sv_state st) /\ quiet_stream n0 (sv_nats st).

Lemma quiet_on_state {A} rows n0 (m : prog (LiquidatorState C) A) :
  preserves (quiet_tables rows) m -> preserves (quiet rows n0) (on_state m).
Proof using. intros Hm [d n] [Hd Hn]. specialize (Hm d Hd). unfold wp, on_state in *. cbn [sv_state]. by destruct (m d) as [[a|e] d']. Qed.

Lemma quiet_on_nats {A} rows n0 (m : prog N A) :
  (forall n, quiet_stream n (m n).2) -> preserves (quiet rows n0) (on_nats m).
Proof using.
  intros Hm [d n] [Hd Hn]. specialize (Hm n). unfold wp, on_nats. cbn [sv_nats].
  destruct (m n) as [[a|e] n']; (split; [exact Hd|]; intros id s x; etransitivity; [apply Hm|apply Hn]).
Qed.

Lemma Fetch_quiet timeout (n : N) : quiet_stream n (Fetch timeout n).2.
Proof using.
  intros id s d. pose proof (law_stored_fetch 1 timeout n id s d) as Hl. unfold Fetch, mbind at 1, prog_bind at 1, call.
  destruct (natsSubscription_Fetch 1 timeout n) as [[[] [|message messages]] n']; cbn [snd] in *; try exact Hl;
    cbn [Check mbind prog_bind]; unfold lift, throw; try exact Hl; by destruct (Deserialize _).
Qed.

Lemma Ack_quiet message (n : N) : quiet_stream n (Ack message n).2.
Proof using.
  intros id s d. pose proof (law_stored_ack (jm_message message) n id s d) as Hl. unfold Ack, checked, mbind, prog_bind, call.
  by destruct (natsMsg_AckSync (jm_message message) n) as [[] n'].
Qed.

Lemma quiet_jobs {A} rows (m : prog LqDb A) :
  (forall db, lq_index (m db).2 = lq_index db \/ outbox (m db).2 = outbox db) -> preserves (quiet_tables rows) (on_jobs (C := C) m).
Proof using.
  intros Hm [[db others] c] [Ho Hg]. unfold wp, on_jobs, execute. cbn [ld_jobs w_db w_others] in *.
  assert (forall w : World LqDb, Forall commits (w_others w) -> outbox_grows rows (outbox (w_db w)) ->
    Forall commits (w_others (settle w)) /\ outbox_grows rows (outbox (w_db (settle w)))) as Hsettle.
  { intros [db1 [|change rest]]; [done|]. cbn. inversion_clear 1 as [|? ? [_ Hc] ?]. intros Hg1. split; [done|].
    by eapply outbox_grows_trans. }
  destruct (Hsettle (MkWorld db others) Ho Hg) as [Ho' Hg']. set (w := settle (MkWorld db others)) in *.
  specialize (Hm (w_db w)). destruct (m (w_db w)) as [[a|e] db']; cbn [snd] in Hm;
    (split; [exact Ho'|]; cbn [ld_jobs w_db]; replace (outbox db') with (outbox (w_db w)); [exact Hg'|];
     destruct Hm as [Hm|Hm]; [unfold outbox; by rewrite Hm|done]).
Qed.

Lemma quiet_node {A} rows (m : prog C A) : preserves (quiet_tables rows) (on_node m).
Proof using. intros d Hd. unfold wp, on_node. by destruct (m (ld_node d)) as [[a|e] c]. Qed.

Lemma wp_snd {St A} (m : prog St A) (P : St -> Prop) s : wp m (fun _ => P) (fun _ => P) s -> P (m s).2.
Proof using. unfold wp. by destruct (m s) as [[a|e] s']. Qed.

Lemma Enqueue_outbox event db : outbox (Enqueue event db).2 = outbox db.
Proof using.
  apply (wp_snd _ (fun db' => outbox db' = outbox db)). unfold Enqueue. sql_step. sql_step; [|done].
  apply wp_transaction, wp_bind. unfold wp at 1, on_index, insert_processed. rewrite get_run.
  case_bool_decide; cbn [negb]; [by apply wp_ret|]. apply wp_bind, wp_get, wp_bind. unfold insert_job. repeat sql_step; done.
Qed.

Lemma liquidator_work_quiet rows keccak config chainId workerId lease :
  preserves (quiet_tables rows) (liquidator_work (C := C) keccak config chainId workerId lease).
Proof using.
  unfold liquidator_work. apply preserves_bind; [apply quiet_jobs; intros db; left; reflexivity|intros _].
  apply preserves_bind; [apply quiet_jobs; intros db; left; apply Claim_index|intros job]. apply preserves_bind.
  - destruct job as [job|]; [|apply preserves_ret]. apply preserves_bind; [apply quiet_node|].
    intros [submission|]; (apply preserves_bind; [apply quiet_jobs; intros db; left|intros _; apply preserves_ret]).
    + apply JobSubmit_index.
    + apply Invalidate_index.
  - intros _. apply preserves_bind; [apply quiet_jobs; intros db; left; reflexivity|intros _; apply preserves_ret].
Qed.

Lemma liquidator_quiet rows n0 keccak config chainId workerId lease :
  preserves (quiet rows n0) (liquidator_iteration (N := N) (C := C) keccak config chainId workerId lease).
Proof using.
  unfold liquidator_iteration. apply preserves_bind; [apply quiet_on_nats, Fetch_quiet|intros message].
  apply preserves_bind; [|intros _; apply quiet_on_state, liquidator_work_quiet].
  destruct message as [message|]; [|apply preserves_ret]. apply preserves_bind; [|intros _; apply quiet_on_nats, Ack_quiet].
  apply quiet_on_state, quiet_jobs. intros db. right. apply Enqueue_outbox.
Qed.
End Liquidator.

(** ** The commits of the risk worker *)

Definition no_nul (s : string) : Prop := Forall (fun c => ascii_z c <> 0) (chars s).

Lemma c_str_id s : no_nul s -> c_str s = s.
Proof.
  intros Hs. unfold c_str. rewrite <-(unchars_chars s) at 2. f_equal. unfold no_nul in Hs. induction Hs as [|c l Hc _ IH]; [done|].
  cbn [until_nul]. by rewrite (proj2 (Z.eqb_neq _ 0) Hc), IH.
Qed.

Lemma no_nul_app s t : no_nul s -> no_nul t -> no_nul (s +:+ t).
Proof.
  unfold no_nul. intros Hs Ht. assert (chars (s +:+ t) = chars s ++ chars t) as ->; [|by apply Forall_app].
  clear. induction s as [|c s IH]; [done|]. unfold chars in *. change (String c s +:+ t) with (String c (s +:+ t)).
  cbn [String.list_ascii_of_string]. by rewrite IH.
Qed.

Lemma no_nul_hex {n} (a : array n) : no_nul (EncodeArray a false).
Proof.
  unfold EncodeArray, EncodeBuffer. change String.append with String.app. apply no_nul_app; [by constructor|].
  unfold no_nul. rewrite chars_unchars. induction (array_list a) as [|b data IH]; [constructor|]. rewrite fmap_cons. cbn [mjoin list_join].
  unfold byte_digits at 1. cbn [app]. assert (forall i, ascii_z (hex_char i) <> 0) as Hh; [|by repeat constructor].
  intros i. unfold hex_char. destruct (_ !! _) as [c|] eqn:E; [|done].
  apply list_elem_of_lookup_2 in E. revert c E. apply list.Forall_forall. by repeat constructor.
Qed.

Lemma no_nul_decimal x : no_nul (ToDecimal x).
Proof. destruct (ToDecimal_digits x) as (_ & Hd & _). eapply Forall_impl; [exact Hd|]. unfold is_digit. intros c. simpl. lia. Qed.

Lemma RiskEventId_no_nul c : no_nul (RiskEventId c).
Proof.
  unfold RiskEventId. repeat apply no_nul_app; try apply no_nul_decimal; try apply no_nul_hex; by repeat constructor.
Qed.

Section RiskCommits.
Context `{LawfulJsonText}.

(** What the theorem needs of a commit of the risk worker: the clock does not stand before 1970,
    and the texts fit in a message. *)
Definition sendable (now : Z) (c : LiquidationCandidate) : Prop :=
  forall text, Serialize (candidate_event now c) = Ok text -> Z.of_nat (String.length text) < 2 ^ 31.

Lemma candidate_row_ok now c :
  0 <= lc_blockNumber c < 2 ^ 63 -> 0 < lc_canonicalVersion c < 2 ^ 63 -> 0 <= now < 2 ^ 63 -> sendable now c ->
  row_ok (candidate_row now c).
Proof using H0.
  intros Hn Hv Ht Hs. split; [apply c_str_id, RiskEventId_no_nul|]. intros _.
  assert (0 <= now < 2 ^ 64) as Ht' by lia.
  destruct (parse_dump (event_json (candidate_event now c)) (event_json_normal _ (candidate_event_wf now c Hn Hv Ht'))) as (text & Ed & Epa).
  exists (candidate_event now c), text. split; [apply ParseEvent_candidate; lia|]. split; [done|]. split; [|by apply Hs].
  unfold Deserialize. rewrite Epa, bind_Ok. by apply event_of_json_inverse, candidate_event_wf.
Qed.

Lemma insert_candidate_grows now c db : db_now db = now -> 0 <= now < 2 ^ 63 -> sendable now c ->
  wp (insert_candidate c) (fun _ db' => outbox_grows (db_outbox_events db) (db_outbox_events db') /\ db_now db' = now)
    (fun _ _ => True) db.
Proof using H0.
  intros <- Hnow Hs. unfold insert_candidate, InsertOutboxEvent. sql_step. sql_step; [|done]. boolify. sql_step.
  split; [|done]. cbn [set_outbox_events db_outbox_events].
  apply (outbox_grows_insert (candidate_row (db_now db) c)); [done|].
  repeat match goal with Hb : sql_bigint _ = true |- _ => apply sql_bigint_true in Hb end.
  apply candidate_row_ok; [done|lia|done|done].
Qed.

Lemma CommitScan_commits eventId candidates db :
  jobs_valid db -> 0 <= lq_now db < 2 ^ 63 -> Forall (sendable (lq_now db)) candidates ->
  let db' := (on_index (CommitScan eventId candidates) db).2 in
  jobs_advance db db' /\ outbox_grows (outbox db) (outbox db').
Proof using H0.
  intros Hv Hnow Hs. cbv zeta.
  cut (wp (CommitScan eventId candidates) (fun _ db' => outbox_grows (outbox db) (db_outbox_events db')
        /\ forall id, ("liquidator", id) ∈ db_processed_events db' -> ("liquidator", id) ∈ db_processed_events (lq_index db))
      (fun _ db' => db' = lq_index db) (lq_index db)).
  { unfold wp, on_index. destruct (CommitScan eventId candidates (lq_index db)) as [[b|e] index']; cbn [snd].
    - intros [Hg Hp]. split; [|exact Hg]. destruct Hv as [Hi Hpr]. split; [split; [exact Hi|]|done].
      intros id Hid%Hp. by apply Hpr.
    - intros ->. destruct db. split; [by apply jobs_advance_refl|apply outbox_grows_refl]. }
  unfold CommitScan. apply wp_transaction, wp_bind. unfold wp at 1, insert_processed. rewrite get_run.
  case_bool_decide as Ein; cbn [negb].
  { apply wp_ret. split; [apply outbox_grows_refl|done]. }
  apply wp_bind. set (db1 := set_processed_events _ _).
  apply (wp_mono _ (fun _ db' => (outbox_grows (outbox db) (db_outbox_events db') /\ db_now db' = lq_now db)
      /\ db_processed_events db' = db_processed_events db1) _ (fun _ _ => True)); [| |done].
  - apply (wp_for_each _ (fun db' => (outbox_grows (outbox db) (db_outbox_events db') /\ db_now db' = lq_now db)
      /\ db_processed_events db' = db_processed_events db1)); [|split; [split; [apply outbox_grows_refl|done]|done]].
    intros c db' Hc [[Hg Hn] Hp]. rewrite list.Forall_forall in Hs.
    pose proof (insert_candidate_grows (lq_now db) c db' Hn Hnow (Hs c Hc)) as H1'. pose proof (insert_candidate_processed c db') as H2'.
    unfold wp in *. destruct (insert_candidate c db') as [[[]|e] db'']; [|done]. destruct H1' as [Hg' Hn'].
    split; [split; [by eapply outbox_grows_trans|done]|]. by rewrite H2'.
  - intros [] db' [[Hg _] Hp]. apply wp_ret. split; [exact Hg|]. intros id. rewrite Hp. unfold db1. cbn [set_processed_events db_processed_events].
    intros [Hid|[= E]%list_elem_of_singleton]%elem_of_app; done.
Qed.
End RiskCommits.

(** ** The system *)

Record System (C N : Type) := MkSystem { sy_db : LqDb; sy_nats : N; sy_node : C }.
Arguments MkSystem {C N} _ _ _.
Arguments sy_db {C N} _.
Arguments sy_nats {C N} _.
Arguments sy_node {C N} _.

Section Pipeline.
Context {N C : Type} `{LawfulStream N} `{LawfulJsonText} `{TextOrder} `{LiquidationChain C}.
Context (keccak : Bytes -> Hash256) (config : LiquidatorConfig) (chainId : Uint256) (workerId : string) (leaseDuration : Z).

(** An iteration of the publisher, and what is left of one when others commit between its statements: the
    offer of one event of the table. *)
Definition publisher_pass (limit : Z) : prog (OutboxState IxDb N) unit := guarded false (RunOnce limit;; mret tt).
Definition publisher_offer (event : EventEnvelope) : prog (OutboxState IxDb N) unit :=
  guarded false (Publish event;; mark (ee_eventId event)).

Definition after_publisher (m : prog (OutboxState IxDb N) unit) (s : System C N) : System C N :=
  let st := (m (MkOutboxState (lq_index (sy_db s)) (sy_nats s) [])).2 in
  MkSystem (MkLqDb (ob_store st) (lq_tx_jobs (sy_db s)) (lq_jobs (sy_db s))) (ob_net st) (sy_node s).

(** An iteration of the liquidator, with the commits that come between its transactions. *)
Definition after_liquidator (others : list (LqDb -> LqDb)) (s : System C N) : System C N :=
  let st := (guarded false (liquidator_iteration keccak config chainId workerId leaseDuration)
    (MkService (MkLiquidatorState (MkWorld (sy_db s) others) (sy_node s)) (sy_nats s))).2 in
  MkSystem (w_db (ld_jobs (sv_state st))) (sv_nats st) (ld_node (sv_state st)).

Inductive system_step : System C N -> System C N -> Prop :=
(** The risk worker commits a scan. *)
| StepScan s eventId candidates :
    0 <= lq_now (sy_db s) < 2 ^ 63 -> Forall (sendable (lq_now (sy_db s))) candidates ->
    system_step s (MkSystem (on_index (CommitScan eventId candidates) (sy_db s)).2 (sy_nats s) (sy_node s))
| StepPublish s limit : system_step s (after_publisher (publisher_pass limit) s)
| StepOffer s row event : row ∈ outbox (sy_db s) -> ParseEvent row = Ok event ->
    system_step s (after_publisher (publisher_offer event) s)
| StepLiquidate s others : Forall commits others -> system_step s (after_liquidator others s)
(** Another service commits, or the chain moves. *)
| StepCommit s db' : jobs_advance (sy_db s) db' -> outbox_grows (outbox (sy_db s)) (outbox db') ->
    system_step s (MkSystem db' (sy_nats s) (sy_node s))
| StepChain s node : system_step s (MkSystem (sy_db s) (sy_nats s) node).

Definition flows (s : System C N) : Prop := flowing (sy_db s) (sy_nats s).

(** No row disappears or changes, but for the time of its publication. *)
Definition remains (rows rows' : list EventRow) : Prop := forall row, row ∈ rows -> exists row', row' ∈ rows' /\ same_event row row'.

Lemma remains_grows rows rows' : outbox_grows rows rows' -> remains rows rows'.
Proof using. intros [Hk _ _] row Hin. exists row. split; [by apply Hk|done]. Qed.

Lemma publisher_flows m s : preserves (publishing (lq_tx_jobs (sy_db s)) (lq_jobs (sy_db s)) (outbox (sy_db s))) m ->
  flows s -> flows (after_publisher m s) /\ remains (outbox (sy_db s)) (outbox (sy_db (after_publisher m s))).
Proof using.
  intros Hm Hs. destruct s as [[index txs jobs] n c]. unfold flows, after_publisher in *.
  cbn [sy_db sy_nats lq_index lq_tx_jobs lq_jobs outbox] in *.
  assert (publishing txs jobs (db_outbox_events index) (MkOutboxState index n [])) as HP.
  { split; [exact Hs|]. cbn [ob_store]. clear. induction (db_outbox_events index); constructor; done. }
  pose proof (wp_snd _ _ _ (Hm _ HP)) as [Hf HF]. split; [exact Hf|].
  intros row Hin. destruct (Forall2_elem_l _ _ _ _ HF Hin) as (row' & ? & ?). by exists row'.
Qed.

Lemma preserves_guarded {St} (P : St -> Prop) runOnce m : preserves P m -> preserves P (guarded runOnce m).
Proof using. intros Hm st HP. by apply wp_guarded, Hm. Qed.

Lemma liquidator_flows others s : Forall commits others -> flows s ->
  flows (after_liquidator others s) /\ remains (outbox (sy_db s)) (outbox (sy_db (after_liquidator others s))).
Proof using.
  intros Ho Hs. destruct s as [db n c]. unfold flows, after_liquidator in *. cbn [sy_db sy_nats sy_node] in *.
  set (st0 := MkService (MkLiquidatorState (MkWorld db others) c) n).
  pose proof (fl_jobs _ _ Hs) as Hv.
  pose proof (keeps_guarded liquidator_valid queued false _
    (liquidator_keeps (N := N) keccak config chainId workerId leaseDuration) st0) as Hk.
  assert (liquidator_valid (sv_state st0)) as Hv0.
  { split; [exact Hv|]. eapply Forall_impl; [exact Ho|]. by intros change [Hp _]. }
  pose proof (wp_snd _ _ _ (Hk Hv0)) as [[[Hv' _] Hj] Hu]. clear Hk.
  assert (quiet (outbox db) n st0) as Hq0 by (split; [split; [exact Ho|apply outbox_grows_refl]|done]).
  pose proof (wp_snd _ _ _ (preserves_guarded _ false _
    (liquidator_quiet (outbox db) n keccak config chainId workerId leaseDuration) st0 Hq0)) as [[_ Hg] Hn].
  set (st := (guarded _ _ st0).2) in *. split; [|by apply remains_grows].
  apply (flowing_advance db n); [exact Hs| |exact Hg|exact Hn|exact Hu].
  split; [exact Hv'|]. intros eventId.
  exact (Hj (MkEventEnvelope eventId "" "" (U 0) 0 (array_copy 32 []) None None 0 0 JNull)).
Qed.

Lemma step_flows s s' : consumer_subject = RISK_LIQUIDATION_DETECTED -> system_step s s' -> flows s ->
  flows s' /\ remains (outbox (sy_db s)) (outbox (sy_db s')).
Proof using H3.
  intros Hsub Hstep Hs. destruct Hstep as [s eventId candidates Hnow Hsend|s limit|s row event Hin Ep|s others Ho|s db' Hj Hg|s node].
  - destruct (CommitScan_commits eventId candidates (sy_db s) (fl_jobs _ _ Hs) Hnow Hsend) as [Hj Hg].
    split; [|by apply remains_grows]. eapply flowing_advance; [exact Hs|exact Hj|exact Hg|done|by left].
  - apply publisher_flows; [|done]. apply preserves_guarded, preserves_bind; [by apply RunOnce_publishing|].
    intros _. apply preserves_ret.
  - apply publisher_flows; [|done]. by eapply preserves_guarded, offer_publishing.
  - by apply liquidator_flows.
  - split; [|by apply remains_grows]. eapply flowing_advance; [exact Hs|exact Hj|exact Hg|done|by left].
  - split; [exact Hs|]. intros row Hin. by exists row.
Qed.

Lemma steps_flow s s' : consumer_subject = RISK_LIQUIDATION_DETECTED -> rtc system_step s s' -> flows s ->
  flows s' /\ remains (outbox (sy_db s)) (outbox (sy_db s')).
Proof using H3.
  intros Hsub Hsteps. induction Hsteps as [s|s1 s2 s3 Hstep _ IH]; intros Hs; [by split; [|intros row ?; exists row]|].
  destruct (step_flows _ _ Hsub Hstep Hs) as [Hs2 Hr]. destruct (IH Hs2) as [Hs3 Hr']. split; [done|].
  intros row Hin. destruct (Hr row Hin) as (row2 & Hin2 & E2). destruct (Hr' row2 Hin2) as (row3 & Hin3 & E3).
  exists row3. split; [done|]. unfold same_event in *. by rewrite E2.
Qed.
End Pipeline.

(** Claim C11: a candidate that the risk worker has committed is never lost: however the scans, the passes of the
    publisher and the iterations of the liquidator interleave with each other, with the commits of other
    services and with a chain that moves, and whatever fails in them, its row stays in the outbox, and it is
    not yet published, or its message waits in the stream and reads as its event, or its job is in
    the table; and no two jobs have the same id. *)
Theorem candidate_never_lost {N C} `{LawfulStream N} `{LawfulJsonText} `{TextOrder} `{LiquidationChain C}
    keccak config chainId workerId leaseDuration (s0 s1 s2 : System C N) row :
  let step := system_step keccak config chainId workerId leaseDuration in
  consumer_subject = RISK_LIQUIDATION_DETECTED ->
  jobs_valid (sy_db s0) -> outbox (sy_db s0) = [] -> (forall id s d, ~ stored (sy_nats s0) id s d) ->
  rtc step s0 s1 -> row ∈ outbox (sy_db s1) -> er_event_type row = RISK_LIQUIDATION_DETECTED -> rtc step s1 s2 ->
  NoDup (job_ids (sy_db s2)) /\ exists row', row' ∈ outbox (sy_db s2) /\ same_event row row'
    /\ (er_published_at row' = None
        \/ (exists event s text, ParseEvent row' = Ok event /\ Deserialize text = Ok event /\ unacked (sy_nats s2) s text)
        \/ has_job (er_event_id row') (sy_db s2)).
Proof.
  intros step Hsub Hv E Hn H01 Hin Hc H12.
  destruct (steps_flow _ _ _ _ _ _ _ Hsub H01 (flowing_start _ _ Hv E Hn)) as [Hs1 _].
  destruct (steps_flow _ _ _ _ _ _ _ Hsub H12 Hs1) as [Hs2 Hr]. split; [apply jv_ids, (fl_jobs _ _ Hs2)|].
  destruct (Hr row Hin) as (row' & Hin' & Erow). exists row'. split; [done|]. split; [done|].
  apply (flowing_candidate _ _ _ Hs2 Hin'). unfold is_candidate. by rewrite <-(same_event_type _ _ Erow).
Qed.

(** *** Witness *)

Section Demo.
#[local] Existing Instances byte_order coded_json coded_json_lawful demo_chain.

(** A stream with one consumer: what was stored, with ids, and what the consumer has not acknowledged. *)
Record DemoStream := MkDemoStream { ds_stored : list (string * (Z * string)); ds_waiting : list (Z * string) }.

Definition demo_publish (payload id : string) (n : DemoStream) : DemoStream :=
  let message := (Z.of_nat (length (ds_stored n)), payload) in
  MkDemoStream (ds_stored n ++ [(id, message)]) (ds_waiting n ++ [message]).

#[local] Instance demo_nats : Nats DemoStream := {
  nats_Msg := Z * string;
  natsMsg_GetData := snd;
  natsStatus_GetText _ := "Error";
  natsConnection_ConnectTo _ n := (NATS_OK, n);
  natsConnection_JetStream n := (NATS_OK, n);
  js_GetStreamInfo _ n := (NATS_OK, n);
  jsStreamConfig_Init n := (NATS_OK, n);
  js_AddStream _ n := (NATS_OK, n);
  jsPubOptions_Init n := (NATS_OK, n);
  js_Publish _ payload _ id n := (NATS_OK, demo_publish payload id n);
  jsSubOptions_Init n := (NATS_OK, n);
  js_PullSubscribe _ _ _ n := (NATS_OK, n);
  natsSubscription_Fetch _ _ n := (match ds_waiting n with [] => (NATS_TIMEOUT, []) | m :: _ => (NATS_OK, [m]) end, n);
  natsMsg_AckSync m n := (NATS_OK, MkDemoStream (ds_stored n) (filter (fun m' => m' <> m) (ds_waiting n)))
}.

#[local] Instance demo_nats_lawful : LawfulNats DemoStream.
Proof.
  refine {| unacked n s d := (s, d) ∈ ds_waiting n; nats_sequence := fst : nats_Msg -> Z |}; cbn.
  - done.
  - intros n [s' d'] s d Hne Hin. by apply list_elem_of_filter.
Defined.

#[local] Instance demo_stream_lawful : LawfulStream DemoStream.
Proof.
  refine {| stored n id s d := (id, (s, d)) ∈ ds_stored n; consumer_subject := RISK_LIQUIDATION_DETECTED |}; cbn.
  - intros subject payload len id n id' s d Hin. apply elem_of_app. by left.
  - intros subject payload len id n s d Hin. apply elem_of_app. by left.
  - intros subject payload len id n id' s d [Hin|[= -> -> ->]%list_elem_of_singleton]%elem_of_app; [by left|right].
    split; [done|]. intros _. split; [done|]. intros _. apply elem_of_app. right. apply list_elem_of_here.
  - intros subject payload len id n _. exists (Z.of_nat (length (ds_stored n))), payload. apply elem_of_app. right. apply list_elem_of_here.
  - done.
  - done.
  - done.
Defined.

#[local] Instance pipeline_chain : LiquidationChain unit := @rpc_liquidation_chain unit demo_node demo_keccak demo_pool.

(** A scan is committed, published, and its candidate queued. *)
Definition demo_start : System unit DemoStream := MkSystem (demo_db 1000 []) (MkDemoStream [] []) tt.
Definition demo_scanned : System unit DemoStream :=
  MkSystem (on_index (CommitScan "chain.block.processed:1" [demo_candidate]) (sy_db demo_start)).2 (sy_nats demo_start) tt.
Definition demo_published : System unit DemoStream := after_publisher (publisher_pass 100) demo_scanned.
Definition demo_queued : System unit DemoStream := after_liquidator demo_keccak demo_config (U 1) "w1" 30 [] demo_published.

Lemma demo_sendable : sendable 1000 demo_candidate.
Proof.
  intros text. assert (Serialize (candidate_event 1000 demo_candidate) = Ok (match Serialize (candidate_event 1000 demo_candidate) with
    | Ok t => t | Throw _ => "" end)) as -> by (vm_compute; reflexivity).
  intros <-%Ok_inj. vm_compute. reflexivity.
Qed.

Lemma demo_end : er_published_at <$> outbox (sy_db demo_queued) = [Some 1000] /\ ds_waiting (sy_nats demo_queued) = []
  /\ outbox (sy_db demo_scanned) = [candidate_row 1000 demo_candidate].
Proof. vm_compute. auto. Qed.

Lemma candidate_never_lost_witness : has_job (er_event_id (candidate_row 1000 demo_candidate)) (sy_db demo_queued).
Proof.
  destruct (candidate_never_lost demo_keccak demo_config (U 1) "w1" 30 demo_start demo_scanned demo_queued
    (candidate_row 1000 demo_candidate)) as (_ & row & Hin & E & Hw).
  - reflexivity.
  - split; [constructor|]. intros id Hin. destruct (not_elem_of_nil _ Hin).
  - reflexivity.
  - intros id s d Hin. destruct (not_elem_of_nil _ Hin).
  - apply rtc_once. apply (StepScan _ _ _ _ _ demo_start).
    + split; [exact (proj1 (Z.leb_le 0 1000) eq_refl)|exact (proj1 (Z.ltb_lt 1000 (2 ^ 63)) eq_refl)].
    + apply Forall_singleton, demo_sendable.
  - rewrite (proj2 (proj2 demo_end)). apply list_elem_of_here.
  - reflexivity.
  - eapply rtc_l; [apply (StepPublish _ _ _ _ _ demo_scanned 100)|]. apply rtc_once. apply (StepLiquidate _ _ _ _ _ demo_published []).
    constructor.
  - rewrite (same_event_id _ _ E). destruct Hw as [Hp|[(event & s & text & _ & _ & Hu)|Hj]]; [| |exact Hj].
    + apply (list_elem_of_fmap_2 er_published_at) in Hin. rewrite Hp, (proj1 demo_end) in Hin.
      apply list_elem_of_singleton in Hin. discriminate Hin.
    + change ((s, text) ∈ ds_waiting (sy_nats demo_queued)) in Hu. rewrite (proj1 (proj2 demo_end)) in Hu.
      destruct (not_elem_of_nil _ Hu).
Defined.
End Demo.
