(* ===== verification/Mains.v ===== *)
(** * Mains: the services at work ([Main.cpp] of the services)

    The iterations of the loops with what they report, over the host of [Startup].  A service
    is ready exactly from the end of its setup on, its exit code says how it ended, and the gauges
    of the indexer are exact. *)

From S2P Require Import Prelude Effects Loop Text Json Sql Uint256 Hex Transaction Signer Abi RpcTypes RpcEndpoints RpcClient Metrics.
From S2P Require Import IndexerTypes StateProjector Indexer IndexerSafety PostgresStore Event Outbox JetStream RpcChainClient.
From S2P Require Import ApiChain TxManager PostgresTransactionStore TxSteps TransactionRpc LiquidationChain Liquidator Environment.
From S2P Require Import ApiStore TxProperties LiquidationJobs PostgresRiskRepository RiskWorker Services PostgresRefinement IndexerProperties Startup.
Set Default Goal Selector "!".
#[local] Open Scope Z_scope.

Section Passes.
Context {N B P : Type} `{HttpTransport N} `{Sockets N} `{Nats B} `{Prometheus P} `{JsonText} `{TextOrder}.
Context (boost_what : exn -> string) (getenv : string -> option string) (keccak : Bytes -> Hash256).

(** An iteration whose failure is counted. *)
Definition counted {L D : Type} (errors : string) (pass : prog (L * Host D N B P) unit) : prog (L * Host D N B P) unit :=
  catch_all pass (fun e =>
    modify (fun '(l, h) => (l, MkHost (ho_db h) (ho_net h) (ho_broker h) (counter_Increment errors (double_of 1) (ho_registry h))));;
    throw e).

(** ** The indexer *)

(** The objects of [main]: the members of the chain client and the indexer, and [observedReorgs]. *)
Record IndexerLocals := MkIndexerLocals {
  il_setup : IndexerSetup (N := N);
  il_activeIndex : nat;
  il_chainId : option Uint256;
  il_checkpoint : option BlockHeader;
  il_status : IndexerStatus;
  il_observedReorgs : Z
}.

Definition indexer_start : prog (Host IxDb N B P) IndexerLocals :=
  setup ← indexer_setup boost_what getenv;
  mret (MkIndexerLocals setup 0 None None (MkIndexerStatus 0 0 0) 0).

(** What an iteration that indexed [indexed] blocks reports. *)
Definition report_sync (indexed : Z) (status : IndexerStatus) (observedReorgs : Z) (p : P) : P :=
  let p := if negb (indexed =? 0) then counter_Increment "indexed_blocks_total" (double_of indexed) p else p in
  let p := gauge_Set "indexed_block_height" (double_of (is_indexedBlock status)) p in
  let p := gauge_Set "chain_head_height" (double_of (is_chainHead status)) p in
  let p := gauge_Set "indexer_lag_blocks" (double_of (u64 (is_chainHead status - is_indexedBlock status))) p in
  if observedReorgs <? is_reorgs status
  then counter_Increment "indexer_reorgs_total" (double_of (u64 (is_reorgs status - observedReorgs))) p else p.

Definition indexer_state (l : IndexerLocals) (h : Host IxDb N B P) : IxState IxDb (ChainPool (RpcNet N)) :=
  MkIxState (ho_db h) (MkChainPool (il_activeIndex l) (il_chainId l) (il_checkpoint l) (ho_net h)) (il_status l).
Definition indexer_host (l : IndexerLocals) (h : Host IxDb N B P) (st : IxState IxDb (ChainPool (RpcNet N))) :
    IndexerLocals * Host IxDb N B P :=
  (MkIndexerLocals (il_setup l) (cp_activeIndex (ix_chain st)) (cp_chainId (ix_chain st)) (cp_checkpoint (ix_chain st))
     (ix_status st) (il_observedReorgs l),
   MkHost (ix_store st) (cp_net (ix_chain st)) (ho_broker h) (ho_registry h)).

(** [indexer.SyncToHead()], with fuel. *)
Definition sync (fuel : nat) : prog (IndexerLocals * Host IxDb N B P) Z := fun '(l, h) =>
  let setup := il_setup l in
  let '(r, st) := @SyncToHead IxDb (ChainPool (RpcNet N)) _ (rpc_chain_client (is_clients setup) (is_contracts setup)) keccak
    (is_contracts setup) (is_startBlock setup) fuel (indexer_state l h) in
  (match r with Ok (Some indexed) => Ok indexed | Ok None => Throw Undefined | Throw e => Throw e end, indexer_host l h st).

Definition indexer_pass (fuel : nat) : prog (IndexerLocals * Host IxDb N B P) unit :=
  counted "indexer_errors_total" (
    indexed ← sync fuel;
    modify (fun '(l, h) =>
      (MkIndexerLocals (il_setup l) (il_activeIndex l) (il_chainId l) (il_checkpoint l) (il_status l)
         (Z.max (il_observedReorgs l) (is_reorgs (il_status l))),
       MkHost (ho_db h) (ho_net h) (ho_broker h) (report_sync indexed (il_status l) (il_observedReorgs l) (ho_registry h))))).

Definition indexer_main (fuel : nat) : list string -> nat -> prog (Host IxDb N B P) Z := main indexer_start (indexer_pass fuel).

(** ** The publisher of the outbox *)

Definition outbox_pass : prog (unit * Host IxDb N B P) unit :=
  counted "outbox_publish_errors_total" (fun '(l, h) =>
    let '(r, st) := Outbox.RunOnce 100 (MkOutboxState (ho_db h) (ho_broker h) []) in
    let h' registry := MkHost (ob_store st) (ho_net h) (ob_net st) registry in
    match r with
    | Ok published =>
        let p := if negb (published =? 0) then counter_Increment "outbox_published_total" (double_of published) (ho_registry h)
                 else ho_registry h in
        (Ok tt, (l, h' (gauge_Set "outbox_pending" (double_of (CountUnpublished (ob_store st))) p)))
    | Throw e => (Throw e, (l, h' (ho_registry h)))
    end).

Definition outbox_main : list string -> nat -> prog (Host IxDb N B P) Z := main (outbox_setup getenv) outbox_pass.

(** ** The transaction manager *)

(** The setup, the members of the client, and the state of the model of the manager. *)
Record TxLocals `{Secp256k1} := MkTxLocals {
  xl_setup : TxSetup (N := N);
  xl_pool : RpcNet N -> TransactionPool (RpcNet N);
  xl_job : TxJob;
  xl_attempted : bool;
  xl_trace : list TxEffect
}.

(** [job] stands for the job that is not there yet. *)
Definition tx_start `{Secp256k1} (job : TxJob) : prog (Host TxTable N B P) TxLocals :=
  setup ← tx_setup boost_what getenv keccak;
  let pool := xs_pool setup in
  mret (MkTxLocals _ setup (MkTransactionPool (tp_validated pool) (tp_chainId pool) (tp_activeIndex pool)) job false []).

(** What an iteration reports. *)
Definition report_run (result : TxManagerRunResult) (p : P) : P :=
  let p := gauge_Set "tx_pending_total" (double_of (rr_active result)) p in
  let p := counter_Increment "tx_included_total" (double_of (rr_included result)) p in
  let p := counter_Increment "tx_finalized_total" (double_of (rr_finalized result)) p in
  let p := counter_Increment "tx_reorged_total" (double_of (rr_reorged result)) p in
  let p := counter_Increment "tx_failed_total" (double_of (rr_failed result)) p in
  foldl (fun p blocks => histogram_Observe "tx_confirmation_latency_blocks" (double_of blocks) p) p (rr_confirmationBlocks result).

Definition tx_pass `{Secp256k1} : prog (TxLocals * Host TxTable N B P) unit := fun '(l, h) =>
  let setup := xl_setup l in
  let signer := xs_signer setup in
  let '(r, st) := @RunOnce TxTable (TransactionPool (RpcNet N)) _ (rpc_transaction_client (xs_clients setup)) keccak
    (fun hash => ecdsa_sign_recoverable hash (privateKey_ signer)) (GetAddress signer) (xs_config setup) (xs_chainId setup)
    (MkTxState (xl_job l) (xl_attempted l) (ho_db h) (xl_pool l (ho_net h)) (xl_trace l)) in
  let pool := tx_net st in
  let l' := MkTxLocals _ setup (MkTransactionPool (tp_validated pool) (tp_chainId pool) (tp_activeIndex pool)) (tx_job st)
    (tx_broadcastAttempted st) (tx_trace st) in
  let h' registry := MkHost (tx_store st) (tp_net pool) (ho_broker h) registry in
  match r with
  | Ok result => (Ok tt, (l', h' (report_run result (ho_registry h))))
  | Throw e => (Throw e, (l', h' (ho_registry h)))
  end.

Definition tx_main `{Secp256k1} (job : TxJob) : list string -> nat -> prog (Host TxTable N B P) Z := main (tx_start job) tx_pass.

(** ** The liquidator and the risk worker *)

(** A step of the service on the host, and a report between two steps. *)
Definition liquidator_service (h : Host (World LqDb) N B P) : Service (LiquidatorState (RpcNet N)) B :=
  MkService (MkLiquidatorState (ho_db h) (ho_net h)) (ho_broker h).
Definition on_liquidator {A} (m : prog (Service (LiquidatorState (RpcNet N)) B) A) : prog (Host (World LqDb) N B P) A := fun h =>
  let '(r, st) := m (liquidator_service h) in
  (r, MkHost (ld_jobs (sv_state st)) (ld_node (sv_state st)) (sv_nats st) (ho_registry h)).

(** The block of the [try] in the loop. *)
Definition liquidator_work_reported (setup : LiquidatorSetup (N := N)) : prog (Host (World LqDb) N B P) unit :=
  message ← on_liquidator (on_nats (Fetch 500));
  match message with
  | Some message =>
      queued ← on_liquidator (on_state (on_jobs (Enqueue (jm_event message))));
      on_liquidator (on_nats (Ack message));;
      when queued (on_registry (counter_Increment "liquidation_jobs_queued_total" (double_of 1)))
  | None => mret tt
  end;;
  invalidated ← on_liquidator (on_state (on_jobs (InvalidateNonCanonical (ls_chainId setup))));
  job ← on_liquidator (on_state (on_jobs (Claim (ls_chainId setup) (ls_workerId setup) (ls_leaseDuration setup))));
  invalidated ← match job with
    | None => mret invalidated
    | Some job =>
        submission ← on_liquidator (on_state (on_node
          (@Prepare (RpcNet N) (@rpc_liquidation_chain (RpcNet N) (ls_calls setup) keccak (ls_contracts setup)) keccak (ls_config setup)
             (lj_candidate job))));
        match submission with
        | Some submission =>
            submitted ← on_liquidator (on_state (on_jobs (Submit job submission (lq_operatorAddress (ls_config setup)))));
            when submitted (on_registry (counter_Increment "liquidation_jobs_submitted_total" (double_of 1)));;
            mret invalidated
        | None =>
            dropped ← on_liquidator (on_state (on_jobs (Invalidate job "position is no longer profitable to liquidate")));
            mret (if (dropped : bool) then u64 (invalidated + 1) else invalidated)
        end
    end;
  reconciled ← on_liquidator (on_state (on_jobs ReconcileSubmittedWithStats));
  on_registry (fun p =>
    let p := counter_Increment "liquidation_success_total" (double_of (rc_completed reconciled)) p in
    let p := counter_Increment "liquidation_failure_total" (double_of (u64 (rc_failed reconciled + rc_reorged reconciled))) p in
    counter_Increment "liquidation_invalidated_total" (double_of invalidated) p).

(** A pass that leaves the objects of the setup. *)
Definition with_setup {L D} (work : L -> prog (Host D N B P) unit) : prog (L * Host D N B P) unit := fun '(l, h) =>
  let '(r, h) := work l h in (r, (l, h)).

Definition liquidator_pass : prog (LiquidatorSetup (N := N) * Host (World LqDb) N B P) unit :=
  counted "liquidator_errors_total" (with_setup liquidator_work_reported).

Definition liquidator_main : list string -> nat -> prog (Host (World LqDb) N B P) Z :=
  main (liquidator_setup boost_what getenv) liquidator_pass.

(** The clocks, in seconds, are read one after the other. *)
Context (time steady_clock : nat -> Z).

Record RiskLocals := MkRiskLocals { rl_setup : RiskSetup; rl_next : Z; rl_reads : nat }.

Definition risk_start : prog (Host (World IxDb) N B P) RiskLocals :=
  setup ← risk_setup boost_what getenv;
  mret (MkRiskLocals setup (steady_clock 0 + rs_rescanInterval setup) 1).

Abbreviation RiskHost := (RiskLocals * Host (World IxDb) N B P)%type.

Definition risk_service (lh : RiskHost) : Service RiskWorkerState B :=
  MkService (MkRiskWorkerState (ho_db lh.2) (rl_next lh.1) (rl_reads lh.1)) (ho_broker lh.2).
Definition on_risk {A} (m : prog (Service RiskWorkerState B) A) : prog RiskHost A := fun '(l, h) =>
  let '(r, st) := m (risk_service (l, h)) in
  let d := sv_state st in
  (r, (MkRiskLocals (rl_setup l) (rk_next d) (rk_reads d), MkHost (rk_db d) (ho_net h) (sv_nats st) (ho_registry h))).

(** What a scan reports. *)
Definition report_scan (work : RiskWorkResult) : prog RiskHost unit := modify (fun '(l, h) =>
  let p := counter_Increment "risk_positions_scanned_total" (double_of (rw_positionsScanned work)) (ho_registry h) in
  let p := counter_Increment "liquidation_candidates_total" (double_of (rw_liquidationCandidates work)) p in
  let p := gauge_Set "liquidation_candidates" (double_of (rw_liquidationCandidates work)) p in
  (l, MkHost (ho_db h) (ho_net h) (ho_broker h) p)).

(** The block of the [try] in the loop. *)
Definition risk_work_reported (setup : RiskSetup) : prog RiskHost unit :=
  message ← on_risk (on_nats (Fetch 500));
  now ← on_risk (on_state (read_clock (fun n => u64 (time n))));
  match message with
  | Some message =>
      work ← on_risk (on_state (on_tables
        (ProcessWithStats (rs_chainId setup) (rs_scanLimit setup) (ee_eventId (jm_event message)) now)));
      report_scan work;;
      on_risk (on_nats (Ack message))
  | None => mret tt
  end;;
  t ← on_risk (on_state (read_clock steady_clock));
  st ← on_risk (on_state get);
  if rk_next st <=? t then
    work ← on_risk (on_state (on_tables (RescanWithStats (rs_chainId setup) (rs_scanLimit setup) now)));
    report_scan work;;
    t ← on_risk (on_state (read_clock steady_clock));
    on_risk (on_state (set_next (t + rs_rescanInterval setup)))
  else mret tt.

Definition risk_pass : prog RiskHost unit := counted "risk_engine_errors_total" (fun lh => risk_work_reported (rl_setup lh.1) lh).

Definition risk_main : list string -> nat -> prog (Host (World IxDb) N B P) Z := main risk_start risk_pass.

(** ** The statistics of the API *)

(** A round of the thread that collects them. *)
Definition collect_stats (chainId : Uint256) : prog (Host (World IxDb) N B P) unit := fun h =>
  let '(r, db) := @api_LoadProtocolStats (World IxDb) postgres_api_store chainId (ho_db h) in
  let h' registry := MkHost db (ho_net h) (ho_broker h) registry in
  match r with
  | Ok stats =>
      let p := gauge_Set "protocol_position_count" (double_of (pst_positionCount stats)) (ho_registry h) in
      (Ok tt, h' (gauge_Set "protocol_liquidation_count" (double_of (pst_liquidationCount stats)) p))
  | Throw Undefined => (Throw Undefined, h' (ho_registry h))
  | Throw _ => (Ok tt, h' (counter_Increment "api_state_collection_errors_total" (double_of 1) (ho_registry h)))
  end.
End Passes.

(** ** Readiness and exit codes *)

Section Readiness.
Context {D N B P : Type} `{LawfulPrometheus P}.

(** What [/ready] answers. *)
Definition ready_status (h : Host D N B P) : option Z :=
  mr_status <$> Serve (Some (MkMetricsRequest true "/ready" 11)) (ho_registry h).

Lemma ready_status_is_ready h : ready_status h = Some (if is_ready (ho_registry h) then 200 else 503).
Proof using. reflexivity. Qed.

(** The programs that do not change what [/ready] answers. *)
Definition discreet {A} (m : prog (Host D N B P) A) : Prop :=
  forall s, preserves (fun h => gauge_Value "service_ready" (ho_registry h) = s) m.
Definition discreet_pass {L A} (m : prog (L * Host D N B P) A) : Prop :=
  forall s, preserves (fun '(_, h) => gauge_Value "service_ready" (ho_registry h) = s) m.

Lemma ready_status_gauge h h' : gauge_Value "service_ready" (ho_registry h') = gauge_Value "service_ready" (ho_registry h) ->
  ready_status h' = ready_status h.
Proof using. intros E. rewrite !ready_status_is_ready. unfold is_ready. by rewrite E. Qed.

Lemma discreet_bind {A C} (m : prog (Host D N B P) A) (k : A -> prog (Host D N B P) C) :
  discreet m -> (forall a, discreet (k a)) -> discreet (m ≫= k).
Proof using. intros Hm Hk s. apply preserves_bind; [apply Hm|intros a; apply Hk]. Qed.
Lemma discreet_lift {A} (r : result A) : discreet (lift r).
Proof using. intros s. apply preserves_lift. Qed.
Lemma discreet_ret {A} (a : A) : discreet (mret a).
Proof using. intros s. apply preserves_ret. Qed.
Lemma discreet_when c m : discreet m -> discreet (when c m).
Proof using. intros Hm s. apply preserves_when, Hm. Qed.
Lemma discreet_throw {A} e : discreet (throw e : prog (Host D N B P) A).
Proof using. intros s. apply preserves_throw. Qed.
Lemma discreet_on_network {A} (m : prog (RpcNet N) A) : discreet (on_network m).
Proof using. intros s h Hh. unfold wp, on_network. by destruct (m (ho_net h)) as [[a|e] net]. Qed.
Lemma discreet_on_broker {A} (m : prog B A) : discreet (on_broker m).
Proof using. intros s h Hh. unfold wp, on_broker. by destruct (m (ho_broker h)) as [[a|e] b]. Qed.
Lemma discreet_ServiceMetrics `{Sockets N} getenv port : discreet (ServiceMetrics getenv port).
Proof using H0.
  apply discreet_bind; [apply discreet_on_network|]. intros _ s. apply preserves_modify. intros h Hh.
  unfold new_registry. cbn [ho_registry]. by rewrite law_gauge_other, gauge_add_metrics.
Qed.
Lemma discreet_add_metrics metrics : discreet (on_registry (D := D) (N := N) (B := B) (add_metrics metrics)).
Proof using H0. intros s. apply preserves_modify. intros h Hh. cbn [ho_registry]. by rewrite gauge_add_metrics. Qed.

(** The end of [main]: an exception of the standard library is the exit code 1. *)
Definition exit_code {A} (r : result A) : result Z :=
  match r with Ok _ => Ok 0 | Throw Undefined => Throw Undefined | Throw _ => Ok 1 end.

(** After a start from a registry that is not ready: the arguments are refused, or the setup fails and the service
    was never ready, or the service is ready; then a service that loops ends with 0, and one that runs once with the
    outcome of its iteration. *)
Definition starts_safely {L} (setup : prog (Host D N B P) L) (iteration : prog (L * Host D N B P) unit) : Prop :=
  forall arguments further h r h',
    ready_status h = Some 503 -> main setup iteration arguments further h = (r, h') ->
    if bool_decide (arguments = [] \/ arguments = ["--once"]) then
      match setup h with
      | (Throw e, h1) => h' = h1 /\ ready_status h' = Some 503 /\ r = exit_code (A := L) (Throw e)
      | (Ok locals, h1) => ready_status h' = Some 200
          /\ exists h2, on_registry (SetReady true) h1 = (Ok tt, h2)
            /\ (arguments = [] -> r = Ok 0 \/ r = Throw Undefined)
            /\ (arguments = ["--once"] -> r = exit_code (iteration (locals, h2)).1)
      end
    else r = Ok 2 /\ h' = h.

(** The same of the API, which has no loop: from a registry that is not ready, the setup fails and the service was never
    ready, or it is ready, and it listens only then: a port that is refused is the exit code 1 of a service that has
    said it is ready; [served] is what its connections do. *)
Definition api_starts_safely `{HttpTransport N} `{Sockets N} `{JsonText} boost_what getenv (served : ApiSetup (N := N) -> prog (Host D N B P) unit) : Prop :=
  forall h r h', ready_status h = Some 503 -> api_main boost_what getenv served h = (r, h') ->
    match api_setup boost_what getenv h with
    | (Throw e, h1) => h' = h1 /\ ready_status h' = Some 503 /\ r = exit_code (A := ApiSetup (N := N)) (Throw e)
    | (Ok locals, h1) => ready_status h' = Some 200
        /\ match tcp_listen (as_address locals) (as_port locals) (rn_net (ho_net h1)) with
           | (inl _, _) => r = Ok 1
           | (inr _, net) => exists h2, ready_status h2 = Some 200 /\ ho_db h2 = ho_db h1 /\ ho_broker h2 = ho_broker h1
               /\ ho_net h2 = MkRpcNet (rn_nextRequestId (ho_net h1)) net /\ r = exit_code (served locals h2).1
           end
    end.

Lemma service_loop_forever {St} (iteration : prog St unit) further s :
  (service_loop false iteration further s).1 = Ok tt \/ (service_loop false iteration further s).1 = Throw Undefined.
Proof using.
  assert (forall s, (guarded false iteration s).1 = Ok tt \/ (guarded false iteration s).1 = Throw Undefined) as Hg.
  { intros s'. unfold guarded, catch_all. destruct (iteration s') as [[[]|[]] s'']; cbn; auto. }
  revert s. induction further as [|further IH]; intros s; cbn [service_loop]; unfold mbind, prog_bind; pose proof (Hg s) as Hs;
    destruct (guarded false iteration s) as [[[]|e] s1]; cbn [fst] in *; auto; destruct Hs as [[=]|[= ->]]; auto.
Qed.

Lemma service_loop_once {St} (iteration : prog St unit) further s :
  (service_loop true iteration further s).1 = (iteration s).1.
Proof using.
  assert ((guarded true iteration s).1 = (iteration s).1) as Hg.
  { unfold guarded, catch_all. by destruct (iteration s) as [[[]|[]] s'']. }
  destruct further; cbn [service_loop]; unfold mbind, prog_bind;
    destruct (guarded true iteration s) as [[[]|e] s1]; exact Hg.
Qed.

Lemma in_loop_discreet {L} runOnce (iteration : prog (L * Host D N B P) unit) further locals :
  discreet_pass iteration -> discreet (in_loop runOnce iteration further locals).
Proof using.
  intros Hi s h Hh. unfold wp, in_loop.
  pose proof (wp_service_loop runOnce iteration 0 (fun _ '(_, h) => gauge_Value "service_ready" (ho_registry h) = s) further 0
    (locals, h) ltac:(by intros k j [l h'])) as Hw. unfold wp in Hw.
  assert (match service_loop runOnce iteration further (locals, h) with
    | (Ok _, (_, h')) => gauge_Value "service_ready" (ho_registry h') = s
    | (Throw _, (_, h')) => gauge_Value "service_ready" (ho_registry h') = s end) as Hend.
  { destruct (service_loop runOnce iteration further (locals, h)) as [[a|e] [l' h']]; (apply Hw; [|exact Hh]); intros _ [l1 h1]; apply (Hi s (l1, h1)). }
  by destruct (service_loop runOnce iteration further (locals, h)) as [[a|e] [l' h']].
Qed.

Lemma main_starts_safely {L} (setup : prog (Host D N B P) L) iteration :
  discreet setup -> discreet_pass iteration -> starts_safely setup iteration.
Proof using H0.
  intros Hset Hit arguments further h r h' Hh E.
  assert (forall runOnce, (body setup (in_loop runOnce iteration further)) h = (r, h') ->
    match setup h with
    | (Throw e, h1) => h' = h1 /\ ready_status h' = Some 503 /\ r = exit_code (A := L) (Throw e)
    | (Ok locals, h1) => ready_status h' = Some 200 /\ exists h2, on_registry (SetReady true) h1 = (Ok tt, h2)
        /\ r = exit_code (service_loop runOnce iteration further (locals, h2)).1
    end) as Hbody.
  { intros runOnce Eb. unfold body, catch_all in Eb. pose proof (Hset _ h eq_refl) as Hs. unfold wp in Hs.
    unfold mbind at 1, prog_bind at 1 in Eb. destruct (setup h) as [[locals|e] h1].
    - set (h2 := (on_registry (SetReady true) h1).2). pose proof (in_loop_discreet runOnce iteration further locals Hit _ h2 eq_refl) as Hl.
      assert (ready_status h2 = Some 200) as H2.
      { rewrite ready_status_is_ready. unfold h2, on_registry. cbn [snd modify ho_registry]. by rewrite is_ready_SetReady. }
      rewrite (bind_run _ _ _ tt h2) in Eb by done. unfold wp, in_loop in Hl. unfold mbind, prog_bind, in_loop in Eb.
      destruct (service_loop runOnce iteration further (locals, h2)) as [[[]|e] [l h3]] eqn:El.
      + injection Eb as <- <-. split; [by rewrite (ready_status_gauge h2)|]. exists h2. split; [done|]. by rewrite El.
      + split; [|exists h2; split; [done|]; rewrite El; by destruct e; injection Eb as <- <-].
        assert (h' = h3) as -> by by destruct e; injection Eb as <- <-. by rewrite (ready_status_gauge h2).
    - assert (h' = h1 /\ r = exit_code (A := L) (Throw e)) as [-> ->] by by destruct e; injection Eb as <- <-.
      split; [done|]. split; [|done]. by rewrite (ready_status_gauge h). }
  unfold main in E. destruct arguments as [|argument [|second arguments]].
  - rewrite bool_decide_eq_true_2 by auto. specialize (Hbody false E). destruct (setup h) as [[locals|e] h1]; [|done].
    destruct Hbody as [Hr (h2 & Eh & ->)]. split; [done|]. exists h2. split; [done|]. split; [|done]. intros _.
    destruct (service_loop_forever iteration further (locals, h2)) as [-> | ->]; auto.
  - case_bool_decide as Ea.
    + subst argument. rewrite bool_decide_eq_true_2 by auto. specialize (Hbody true E). destruct (setup h) as [[locals|e] h1]; [|done].
      destruct Hbody as [Hr (h2 & Eh & ->)]. split; [done|]. exists h2. split; [done|]. split; [done|]. intros _. by rewrite service_loop_once.
    + injection E as <- <-. rewrite bool_decide_eq_false_2; [done|]. by intros [[=]|[= ->]].
  - injection E as <- <-. rewrite bool_decide_eq_false_2; [done|]. by intros [[=]|[=]].
Qed.

Lemma main_of_api_starts_safely `{HttpTransport N} `{Sockets N} `{JsonText} boost_what getenv (served : ApiSetup (N := N) -> prog (Host D N B P) unit) :
  discreet (api_setup boost_what getenv) -> (forall locals, discreet (served locals)) -> api_starts_safely boost_what getenv served.
Proof using H0.
  intros Hset Hserved h r h' Hh E. unfold api_main, body, catch_all in E.
  pose proof (Hset _ h eq_refl) as Hs. unfold wp in Hs.
  unfold mbind at 1, prog_bind at 1 in E. destruct (api_setup boost_what getenv h) as [[locals|e] h1].
  - set (h2 := (on_registry (SetReady true) h1).2).
    assert (ready_status h2 = Some 200) as H2'.
    { rewrite ready_status_is_ready. unfold h2, on_registry. cbn [snd modify ho_registry]. by rewrite is_ready_SetReady. }
    rewrite (bind_run _ _ _ tt h2) in E by done. unfold mbind at 1 2, prog_bind at 1 2, on_network, listen in E.
    change (ho_net h2) with (ho_net h1) in E.
    destruct (tcp_listen _ _ _) as [[message|[]] net]; [injection E as <- <-; by split|].
    set (h3 := MkHost _ _ _ _) in E. pose proof (Hserved locals _ h3 eq_refl) as Hl. unfold wp in Hl.
    assert (ready_status h3 = Some 200) as H3' by done.
    destruct (served locals h3) as [[[]|e] h4] eqn:El.
    + injection E as <- <-. split; [by rewrite (ready_status_gauge h3)|]. exists h3. by rewrite El.
    + assert (h' = h4 /\ r = exit_code (A := unit) (Throw e)) as [-> ->] by by destruct e; injection E as <- <-.
      split; [by rewrite (ready_status_gauge h3)|]. exists h3. by rewrite El.
  - assert (h' = h1 /\ r = exit_code (A := ApiSetup (N := N)) (Throw e)) as [-> ->] by by destruct e; injection E as <- <-.
    split; [done|]. split; [|done]. by rewrite (ready_status_gauge h).
Qed.
End Readiness.

Section Services.
Context {N B P : Type} `{HttpTransport N} `{Sockets N} `{Nats B} `{LawfulPrometheus P} `{JsonText} `{TextOrder}.
Context (boost_what : exn -> string) (getenv : string -> option string) (keccak : Bytes -> Hash256).

Lemma discreet_counted {L D} errors (pass : prog (L * Host D N B P) unit) : discreet_pass pass -> discreet_pass (counted errors pass).
Proof using H3.
  intros Hp s [l h] Hh. unfold counted. apply wp_catch_all. eapply wp_mono; [by apply Hp|done|].
  intros e [l' h'] Hh'. apply wp_bind, wp_modify, wp_throw. cbn [ho_registry]. by rewrite law_gauge_increment.
Qed.

(** One step of the proof that a setup is discreet. *)
Ltac discreet_step :=
  lazymatch goal with
  | |- discreet (mbind _ _) => apply discreet_bind; [|intros ?]
  | |- discreet (mret _) => apply discreet_ret
  | |- discreet (lift _) => apply discreet_lift
  | |- discreet (when _ _) => apply discreet_when
  | |- discreet (throw _) => apply discreet_throw
  | |- discreet (on_network _) => apply discreet_on_network
  | |- discreet (on_broker _) => apply discreet_on_broker
  | |- discreet (ServiceMetrics _ _) => apply discreet_ServiceMetrics
  | |- discreet (on_registry _) => apply discreet_add_metrics
  | |- discreet (let _ := _ in _) => cbv zeta
  | |- discreet (match ?x with _ => _ end) => destruct x
  end.

Lemma indexer_start_discreet : discreet (indexer_start (B := B) (P := P) boost_what getenv).
Proof using H3. unfold indexer_start, indexer_setup. repeat discreet_step. Qed.
Lemma outbox_setup_discreet : discreet (outbox_setup (D := IxDb) (N := N) (B := B) (P := P) getenv).
Proof using H3. unfold outbox_setup. repeat discreet_step. Qed.
Lemma liquidator_setup_discreet : discreet (liquidator_setup (D := World LqDb) (N := N) (B := B) (P := P) boost_what getenv).
Proof using H3. unfold liquidator_setup. repeat discreet_step. Qed.
Lemma risk_start_discreet clock : discreet (risk_start (N := N) (B := B) (P := P) boost_what getenv clock).
Proof using H3. unfold risk_start, risk_setup. repeat discreet_step. Qed.
Lemma tx_start_discreet `{Secp256k1} job : discreet (tx_start (N := N) (B := B) (P := P) boost_what getenv keccak job).
Proof using H3.
  unfold tx_start, tx_setup. repeat discreet_step. intros s h Hh. unfold wp, on_pool.
  by destruct (construct _ _) as [[chainId|e] st].
Qed.

Lemma api_setup_discreet {D} : discreet (api_setup (D := D) (N := N) (B := B) (P := P) boost_what getenv).
Proof using H3.
  unfold api_setup. repeat discreet_step. intros s h Hh. unfold wp.
  destruct (ApiChain.new_pool _ _) as [pool|e]; [|exact Hh]. by destruct (ApiChain.GetChainId _ pool) as [[chainId|e] pool'].
Qed.

Lemma collect_stats_discreet chainId : discreet (collect_stats (N := N) (B := B) (P := P) chainId).
Proof using H3.
  intros s h Hh. unfold wp, collect_stats. destruct (api_LoadProtocolStats _ _) as [[stats|e] db]; cbn [ho_registry].
  - by rewrite !law_gauge_other.
  - destruct e; cbn [ho_registry]; by rewrite ?law_gauge_increment.
Qed.

(** Reports set no gauge but their own. *)
Lemma report_sync_ready indexed status observed (p : P) :
  gauge_Value "service_ready" (report_sync indexed status observed p) = gauge_Value "service_ready" p.
Proof using H3.
  unfold report_sync. destruct (_ <? _); rewrite ?law_gauge_increment, !law_gauge_other by done;
    destruct (negb _); by rewrite ?law_gauge_increment.
Qed.

Lemma report_run_ready result (p : P) : gauge_Value "service_ready" (report_run result p) = gauge_Value "service_ready" p.
Proof using H3.
  unfold report_run. generalize (rr_confirmationBlocks result) as blocks. intros blocks.
  assert (forall p : P, gauge_Value "service_ready" (foldl (fun p b => histogram_Observe "tx_confirmation_latency_blocks" (double_of b) p) p blocks)
    = gauge_Value "service_ready" p) as ->.
  { induction blocks as [|b blocks IH]; intros q; [done|]. cbn [foldl]. by rewrite IH, law_gauge_observe. }
  by rewrite !law_gauge_increment, law_gauge_other.
Qed.

Lemma indexer_pass_discreet fuel : discreet_pass (indexer_pass (N := N) (B := B) (P := P) keccak fuel).
Proof using H3.
  apply discreet_counted. intros s [l h] Hh. apply wp_bind. unfold wp at 1, sync.
  destruct (SyncToHead _ _ _ _ _) as [[[indexed|]|e] st]; cbn [indexer_host ho_registry]; try exact Hh.
  apply wp_modify. unfold indexer_host. cbn [ho_registry]. by rewrite report_sync_ready.
Qed.

Lemma outbox_pass_discreet : discreet_pass (outbox_pass (N := N) (B := B) (P := P)).
Proof using H3.
  apply discreet_counted. intros s [l h] Hh. unfold wp. destruct (Outbox.RunOnce _ _) as [[published|e] st]; cbn [ho_registry]; [|exact Hh].
  rewrite law_gauge_other by done. destruct (negb _); by rewrite ?law_gauge_increment.
Qed.

Lemma tx_pass_discreet `{Secp256k1} : discreet_pass (tx_pass (N := N) (B := B) (P := P) keccak).
Proof using H3.
  intros s [l h] Hh. unfold wp, tx_pass. destruct (RunOnce _ _ _ _ _ _) as [[result|e] st]; cbn [ho_registry]; [|exact Hh].
  by rewrite report_run_ready.
Qed.

(** Reports set no gauge but their own. *)
Lemma discreet_report f : (forall p : P, gauge_Value "service_ready" (f p) = gauge_Value "service_ready" p) ->
  discreet (on_registry (D := World LqDb) (N := N) (B := B) f).
Proof using. intros Hf s. apply preserves_modify. intros h Hh. cbn [ho_registry]. by rewrite Hf. Qed.
Lemma discreet_on_liquidator {A} (m : prog (Service (LiquidatorState (RpcNet N)) B) A) : discreet (on_liquidator (P := P) m).
Proof using. intros s h Hh. unfold wp, on_liquidator. by destruct (m (liquidator_service h)) as [[a|e] st]. Qed.

Lemma liquidator_pass_discreet : discreet_pass (liquidator_pass (N := N) (B := B) (P := P) keccak).
Proof using H3.
  apply discreet_counted. intros s [l h] Hh. unfold wp, with_setup.
  assert (discreet (liquidator_work_reported (N := N) (B := B) (P := P) keccak l)) as Hd.
  { unfold liquidator_work_reported.
    repeat first [apply discreet_on_liquidator | apply discreet_report; intros p; by rewrite ?law_gauge_increment | discreet_step]. }
  specialize (Hd s h Hh). unfold wp in Hd. by destruct (liquidator_work_reported keccak l h) as [[a|e] h'].
Qed.

Lemma risk_pass_discreet time clock : discreet_pass (risk_pass (N := N) (B := B) (P := P) time clock).
Proof using H3.
  apply discreet_counted.
  assert (forall A (m : prog (Service RiskWorkerState B) A), discreet_pass (on_risk (N := N) (P := P) m)) as Hon.
  { intros A m s [l h] Hh. unfold wp, on_risk. by destruct (m _) as [[a|e] st]. }
  assert (forall work, discreet_pass (report_scan (N := N) (B := B) (P := P) work)) as Hreport.
  { intros work s. apply preserves_modify. intros [l h] Hh. cbn [ho_registry]. by rewrite law_gauge_other, !law_gauge_increment. }
  assert (forall setup, discreet_pass (risk_work_reported (N := N) (B := B) (P := P) time clock setup)) as Hwork.
  { intros setup s. unfold risk_work_reported.
    repeat first [apply Hon | apply Hreport | apply preserves_ret | apply preserves_bind; [|intros ?]
      | lazymatch goal with |- preserves _ (match ?x with _ => _ end) => destruct x end]. }
  intros s [l h] Hh. exact (Hwork (rl_setup l) s (l, h) Hh).
Qed.
End Services.

(** Claim C31: every service says that it is ready exactly when all of its setup has succeeded.  For the five with a
    loop: a start with other arguments ends with the code 2 and changes nothing; if any step of the setup throws, whatever
    it is, the process ends with the code 1 and [/ready] has answered 503 throughout; otherwise it answers 200 from the end
    of the setup on, whatever the iterations do, and the process ends with 0 when a signal stops the loop, and
    with [--once] with 1 exactly if its iteration threw.  The API server too is not ready when a step of its setup
    throws, and ready from the end of the setup on, whatever its connections do; but it listens for requests
    only then: on a port that is taken it ends with the code 1 after [/ready] has answered 200. *)
Theorem services_start_safely {N B P} `{HttpTransport N} `{Sockets N} `{Nats B} `{LawfulPrometheus P} `{JsonText} `{TextOrder}
    `{Secp256k1} boost_what getenv keccak job fuel time clock :
  starts_safely (N := N) (B := B) (P := P) (indexer_start boost_what getenv) (indexer_pass keccak fuel)
  /\ starts_safely (N := N) (B := B) (P := P) (outbox_setup getenv) outbox_pass
  /\ starts_safely (N := N) (B := B) (P := P) (tx_start boost_what getenv keccak job) (tx_pass keccak)
  /\ starts_safely (N := N) (B := B) (P := P) (liquidator_setup boost_what getenv) (liquidator_pass keccak)
  /\ starts_safely (N := N) (B := B) (P := P) (risk_start boost_what getenv clock) (risk_pass time clock)
  /\ (forall D served, (forall locals, discreet (served locals)) ->
        api_starts_safely (D := D) (N := N) (B := B) (P := P) boost_what getenv served).
Proof.
  repeat (apply conj).
  - apply main_starts_safely; [apply indexer_start_discreet|apply indexer_pass_discreet].
  - apply main_starts_safely; [apply outbox_setup_discreet|apply outbox_pass_discreet].
  - apply main_starts_safely; [apply tx_start_discreet|apply tx_pass_discreet].
  - apply main_starts_safely; [apply liquidator_setup_discreet|apply liquidator_pass_discreet].
  - apply main_starts_safely; [apply risk_start_discreet|apply risk_pass_discreet].
  - intros D served Hserved. apply main_of_api_starts_safely; [apply api_setup_discreet|exact Hserved].
Qed.

(** ** The gauges of the indexer *)

Section Status.
Context {S N : Type} `{IndexerStore S} `{ChainClient N}.
Context (keccak : Bytes -> Hash256) (contracts : ChainContracts) (startBlock : Z).
Context (head_bound : forall n head n', chain_GetBlockNumber n = (Ok head, n') -> 0 <= head < 2 ^ 64).
Context (cursor_bound : forall chainId s c, ix_LoadCursor chainId s = Ok (Some c) -> 0 <= sc_blockNumber c).
Context (block_bound : forall chainId k s b, ix_LoadCanonicalBlock chainId k s = Ok (Some b) -> ib_number b = k /\ 0 <= k).

Abbreviation St := (IxState S N).

Lemma wp_True {St' A} (m : prog St' A) s : wp m (fun _ _ => True) (fun _ _ => True) s.
Proof using. unfold wp. by destruct (m s) as [[a|e] s']. Qed.

(** With the head at [head], a result [r] that satisfies [Q]. *)
Definition at_head {A} (head : Z) (Q : A -> Prop) (m : prog St A) : Prop := forall st,
  is_chainHead (ix_status st) = head ->
  wp m (fun r st' => is_chainHead (ix_status st') = head /\ Q r) (fun _ _ => True) st.

Lemma at_head_bind {A C} head Q (R : A -> Prop) (m : prog St A) (k : A -> prog St C) :
  at_head head R m -> (forall a, R a -> at_head head Q (k a)) -> at_head head Q (m ≫= k).
Proof using.
  intros Hm Hk st Hst. apply wp_bind. eapply wp_mono; [by apply Hm| |done]. intros a st' [Hst' Ha]. by apply Hk.
Qed.
Lemma at_head_ret {A} head (Q : A -> Prop) a : Q a -> at_head head Q (mret a).
Proof using. intros Ha st Hst. by apply wp_ret. Qed.
Lemma at_head_lift {A} head (r : result A) : at_head head (fun _ => True) (lift r).
Proof using. intros st Hst. by apply wp_lift. Qed.
Lemma at_head_chain {A} head (f : N -> result A * N) : at_head head (fun _ => True) (chain_call f).
Proof using. intros st Hst. unfold wp, chain_call. by destruct (f (ix_chain st)) as [[a|e] n']. Qed.
Lemma at_head_read {A} head (f : S -> result A) : at_head head (fun r => exists s, f s = Ok r) (store_read f).
Proof using. intros st Hst. unfold wp, store_read. destruct (f (ix_store st)) eqn:E; [|done]. split; [done|by exists (ix_store st)]. Qed.
Lemma at_head_write head (f : S -> result unit * S) : at_head head (fun _ => True) (store_write f).
Proof using. intros st Hst. unfold wp, store_write. by destruct (f (ix_store st)) as [[a|e] s']. Qed.

Lemma find_ancestor_number head chainId n :
  at_head head (fun a => forall b, a = Some b -> 0 <= ib_number b <= startBlock + Z.of_nat n) (find_ancestor startBlock chainId n).
Proof using block_bound.
  induction n as [|n IH]; cbn [find_ancestor]; (eapply at_head_bind; [apply at_head_read|]); intros stored [s Es];
    (eapply at_head_bind; [apply at_head_chain|]); intros block _.
  all: destruct stored as [stored|]; [apply block_bound in Es as [En Hn]|].
  all: try destruct block as [block|].
  all: try case_bool_decide.
  all: try (apply at_head_ret; intros b [= <-]; lia).
  all: try (apply at_head_ret; intros b [=]; fail).
  all: intros st Hst; eapply wp_mono; [by apply IH| |done]; intros a st' [Hst' Ha]; (split; [done|]); intros b Hb; specialize (Ha b Hb); lia.
Qed.

Lemma FindCommonAncestor_number head chainId upperBound :
  at_head head (fun a => forall b, a = Some b -> 0 <= ib_number b <= upperBound) (FindCommonAncestor startBlock chainId upperBound).
Proof using block_bound.
  unfold FindCommonAncestor. destruct (Z.ltb_spec upperBound startBlock); [by apply at_head_ret|].
  intros st Hst. eapply wp_mono; [by apply (find_ancestor_number head)| |done]. intros a st' [Hst' Ha]. split; [done|].
  intros b Hb. specialize (Ha b Hb). lia.
Qed.

Lemma Rewind_head head chainId ancestor : at_head head (fun _ => True) (Rewind keccak contracts chainId ancestor).
Proof using.
  unfold Rewind. eapply (at_head_bind _ _ (fun _ => True)); [by intros st Hst|]. intros _ _.
  eapply (at_head_bind _ _ (fun _ => True)); [|intros state _; apply at_head_write].
  destruct ancestor as [a|]; [|by apply at_head_ret]. eapply at_head_bind; [apply at_head_read|]. intros logs _. apply at_head_lift.
Qed.

Lemma ReconcileCursor_number head chainId :
  at_head head (fun c => forall cursor, c = Some cursor -> 0 <= sc_blockNumber cursor <= head)
    (ReconcileCursor keccak contracts startBlock chainId head).
Proof using block_bound cursor_bound.
  unfold ReconcileCursor. eapply at_head_bind; [apply at_head_read|]. intros [cursor|] [s Es]; [|by apply at_head_ret].
  apply cursor_bound in Es.
  eapply (at_head_bind _ _ (fun valid => valid = true -> sc_blockNumber cursor <= head)).
  - destruct (Z.leb_spec (sc_blockNumber cursor) head); [|by apply at_head_ret]. eapply at_head_bind; [apply at_head_chain|].
    intros block _. by apply at_head_ret.
  - intros [] Hv; [apply at_head_ret; intros c [= <-]; by split; [|apply Hv]|].
    eapply at_head_bind; [apply FindCommonAncestor_number|]. intros ancestor Ha.
    eapply at_head_bind; [apply Rewind_head|]. intros _ _. apply at_head_ret.
    destruct ancestor as [a|]; [|done]. intros c [= <-]. cbn [sc_blockNumber]. specialize (Ha a eq_refl). lia.
Qed.

(** The status between the start of a synchronisation and its end. *)
Definition status_exact (st : St) : Prop :=
  0 <= is_indexedBlock (ix_status st) <= is_chainHead (ix_status st) /\ is_chainHead (ix_status st) < 2 ^ 64.

Lemma sync_step_status chainId indexedCount st :
  wp (sync_step keccak contracts startBlock chainId indexedCount)
    (fun r st' => match r with inl _ => status_exact st' | inr _ => True end) (fun _ _ => True) st.
Proof using head_bound block_bound cursor_bound.
  unfold sync_step. apply wp_bind. unfold wp at 1, chain_call. destruct (chain_GetBlockNumber (ix_chain st)) as [[head|e] n'] eqn:Eh; [|done].
  apply head_bound in Eh. apply wp_bind, wp_modify, wp_bind. eapply wp_mono; [by apply (ReconcileCursor_number head)| |done].
  intros cursor st1 [Hh Hc]. apply wp_bind, wp_modify.
  set (st2 := MkIxState _ _ _). assert (status_exact st2) as Hexact.
  { unfold status_exact, st2. cbn [ix_status set_indexedBlock is_indexedBlock is_chainHead]. rewrite Hh.
    destruct cursor as [cursor|]; [specialize (Hc cursor eq_refl)|]; lia. }
  apply wp_if; intros _; [by apply wp_ret|]. cbv zeta. apply wp_if; intros _; [by apply wp_ret|].
  apply wp_bind. eapply wp_mono; [apply wp_True| |done]. intros [header|] st3 _; [|by apply wp_throw].
  apply wp_bind. eapply wp_mono; [apply wp_True| |done]. intros number st4 _. apply wp_if; intros _; [by apply wp_throw|].
  destruct cursor as [cursor|]; [apply wp_if; intros _|].
  all: do 2 (apply wp_bind; eapply wp_mono; [apply wp_True| |done]; intros ? ? _); by apply wp_ret.
Qed.

Lemma SyncToHead_status fuel st :
  wp (SyncToHead keccak contracts startBlock fuel) (fun r st' => is_Some r -> status_exact st') (fun _ _ => True) st.
Proof using head_bound block_bound cursor_bound.
  unfold SyncToHead. apply wp_bind. eapply wp_mono; [apply wp_True| |done]. intros chainId st0 _. generalize 0 as count.
  revert st0. induction fuel as [|fuel IH]; intros st0 count; cbn [sync_loop]; [apply wp_ret; by intros []|].
  apply wp_bind. eapply wp_mono; [apply sync_step_status| |done]. intros [n|n] st1 Hr; [by apply wp_ret|apply IH].
Qed.
End Status.

(** The store and the client of the indexer keep to these bounds. *)
Lemma postgres_cursor_bound chainId db c : LoadCursor chainId db = Ok (Some c) -> 0 <= sc_blockNumber c.
Proof.
  unfold LoadCursor. destruct (filter _ (db_sync_state db)) as [|row rows]; [done|]. intros E.
  apply bind_Ok_inv in E as (number & En & E). apply bind_Ok_inv in E as (hash & _ & E). injection E as <-.
  unfold uint64_column in En. destruct (Z.leb_spec 0 (sr_block_number row)); [by injection En as <-|done].
Qed.

Lemma postgres_block_bound chainId k db b : LoadCanonicalBlock chainId k db = Ok (Some b) -> ib_number b = k /\ 0 <= k.
Proof.
  unfold LoadCanonicalBlock, bigint_parameter. destruct (sql_bigint k) eqn:Ek; [|done]. apply sql_bigint_true in Ek.
  rewrite bind_Ok. destruct (filter _ (db_blocks db)) as [|row rows]; [done|]. intros E.
  apply bind_Ok_inv in E as (hash & _ & E). apply bind_Ok_inv in E as (parent & _ & E). injection E as <-. split; [done|lia].
Qed.

(** What an answer satisfies for every endpoint, it satisfies through the failover. *)
Lemma ExecuteFrom_answer {St A} validate (operation : nat -> prog St A) set_active (Q : A -> Prop) start size st :
  (forall index st, wp (operation index) (fun a _ => Q a) (fun _ _ => True) st) ->
  wp (Failover.ExecuteFrom validate operation set_active start size) (fun a _ => Q a) (fun _ _ => True) st.
Proof.
  intros Hop. unfold Failover.ExecuteFrom. generalize (Failover.ring start size) as order, Undefined as last. intros order.
  revert st. induction order as [|index order IH]; intros st last; cbn [Failover.attempts]; [by apply wp_throw|].
  apply wp_catch_all. unfold Failover.attempt. apply wp_bind.
  eapply wp_mono; [apply wp_True| |intros e st1 _; apply IH]. intros [] st1 _. apply wp_bind.
  eapply wp_mono; [apply Hop| |intros e st2 _; apply IH]. intros a st2 Ha. apply wp_bind, wp_modify. by apply wp_ret.
Qed.

Lemma pool_head_bound {N} (clients : list (RpcCalls N)) pool head pool' :
  RpcChainClient.GetBlockNumber clients pool = (Ok head, pool') -> 0 <= head < 2 ^ 64.
Proof.
  intros E. assert (wp (RpcChainClient.GetBlockNumber clients) (fun head _ => 0 <= head < 2 ^ 64) (fun _ _ => True) pool) as Hw; [|unfold wp in Hw; by rewrite E in Hw].
  unfold RpcChainClient.GetBlockNumber, RpcChainClient.Execute. apply wp_bind, wp_get, ExecuteFrom_answer.
  intros index st. unfold wp, RpcChainClient.on_client. destruct (clients !! index) as [client|]; [|done].
  unfold mbind, prog_bind, lift. destruct (client_GetBlockNumber (cp_net st)) as [[number|e] net]; [|done].
  destruct (ToUint64 number) as [n|e] eqn:En; [|done]. apply ToUint64_Ok in En as [-> Hn]. pose proof (uval_range number). lia.
Qed.

(** Claim C32: what the indexer shows of itself is exact: after an iteration that succeeded the gauges hold the head of
    the chain and the last block of the index, which is not above it, and their difference, without wrapping; an
    iteration that throws, wherever it does, changes the registry only by counting one error. *)
Theorem indexer_gauges_exact {N B P} `{LawfulPrometheus P} keccak fuel (l l' : IndexerLocals (N := N)) (h h' : Host IxDb N B P) r :
  indexer_pass keccak fuel (l, h) = (r, (l', h')) ->
  match r with
  | Ok _ =>
      let head := is_chainHead (il_status l') in
      let indexed := is_indexedBlock (il_status l') in
      0 <= indexed <= head
      /\ gauge_Value "chain_head_height" (ho_registry h') = double_of head
      /\ gauge_Value "indexed_block_height" (ho_registry h') = double_of indexed
      /\ gauge_Value "indexer_lag_blocks" (ho_registry h') = double_of (head - indexed)
  | Throw _ => ho_registry h' = counter_Increment "indexer_errors_total" (double_of 1) (ho_registry h)
  end.
Proof.
  intros E. unfold indexer_pass, counted, catch_all in E. unfold mbind at 1, prog_bind at 1, sync in E.
  pose proof (@SyncToHead_status IxDb (ChainPool (RpcNet N)) _ (rpc_chain_client (is_clients (il_setup l)) (is_contracts (il_setup l)))
    keccak (is_contracts (il_setup l)) (is_startBlock (il_setup l)) (pool_head_bound _) postgres_cursor_bound postgres_block_bound
    fuel (indexer_state l h)) as Hs.
  unfold wp in Hs. destruct (SyncToHead _ _ _ _ _) as [[[indexed|]|e] st].
  - specialize (Hs (ltac:(by eexists))) as [Hi Hh]. unfold modify in E. injection E as <- <- <-.
    unfold indexer_host in *. cbn [il_status ho_registry]. unfold report_sync. rewrite (u64_small (is_chainHead _ - _)) by lia.
    split; [exact Hi|]. destruct (_ <? _); rewrite ?law_gauge_increment.
    all: split; [by rewrite law_gauge_other, law_gauge|]. all: split; [by rewrite 2!law_gauge_other, law_gauge|]. all: by rewrite law_gauge.
  - by injection E as <- <- <-.
  - by injection E as <- <- <-.
Qed.

(** ** A service on a small host *)

Section Demo.
#[local] Existing Instances byte_order coded_json demo_prometheus.

(** An endpoint with the blocks 10 and 11 on a network that counts its calls. *)
Definition counted_calls (client : RpcCalls Z) : RpcCalls (RpcNet Z) :=
  let on {A} (f : prog Z A) : prog (RpcNet Z) A := fun st =>
    let '(r, net) := f (rn_net st) in (r, MkRpcNet (rn_nextRequestId st) net) in {|
  client_GetChainId := on (@client_GetChainId Z client);
  client_GetBlockNumber := on (@client_GetBlockNumber Z client);
  client_GetBlockByNumber k := on (@client_GetBlockByNumber Z client k);
  client_GetLogs filter := on (@client_GetLogs Z client filter);
  client_EthCall call block := on (@client_EthCall Z client call block);
  client_EstimateGas call := on (@client_EstimateGas Z client call);
  client_GetTransactionCount address block := on (@client_GetTransactionCount Z client address block);
  client_GetMaxPriorityFeePerGas := on (@client_GetMaxPriorityFeePerGas Z client);
  client_SendRawTransaction raw := on (@client_SendRawTransaction Z client raw);
  client_GetTransactionReceipt hash := on (@client_GetTransactionReceipt Z client hash)
|}.

Definition demo_locals (fails : Z -> bool) : IndexerLocals (N := Z) :=
  MkIndexerLocals (MkIndexerSetup sample_contracts [counted_calls (endpoint fails (U 1))] 10) 0 None None (MkIndexerStatus 0 0 0) 0.
Definition demo_host : Host IxDb Z unit DemoRegistry := MkHost empty_db (MkRpcNet ∅ 0) tt (MkDemoRegistry ∅ ∅).

Definition demo_iteration (fails : Z -> bool) := indexer_pass (B := unit) (P := DemoRegistry) prefix_hash 5 (demo_locals fails, demo_host).

(** [indexed_blocks_total] is described as the total of the blocks committed, but an iteration that throws does not
    count those it has committed before: here the call for the logs of the second block fails, and the next
    iteration indexes it; the database holds both blocks, and the counter is 1. *)
Lemma committed_block_uncounted :
  let '(r, (_, h)) := service_loop false (indexer_pass (B := unit) (P := DemoRegistry) prefix_hash 5) 1
    (demo_locals (fun calls => calls =? 9), demo_host) in
  r = Ok tt /\ (br_block_number <$> db_blocks (ho_db h)) = [10; 11]
  /\ counter_Value "indexed_blocks_total" (ho_registry h) = 1 /\ counter_Value "indexer_errors_total" (ho_registry h) = 1.
Proof. vm_compute. auto. Qed.

Lemma demo_iteration_returns : (demo_iteration (fun _ => false)).1 = Ok tt.
Proof. vm_compute. reflexivity. Qed.

Lemma triple_eta {A B C} (x : A * (B * C)) : x = (x.1, (x.2.1, x.2.2)).
Proof. by destruct x as [a [b c]]. Qed.

Lemma indexer_gauges_exact_witness :
  let h := (demo_iteration (fun _ => false)).2.2 in
  exists head indexed, 0 <= indexed <= head /\ gauge_Value "chain_head_height" (ho_registry h) = head
    /\ gauge_Value "indexer_lag_blocks" (ho_registry h) = head - indexed.
Proof.
  pose proof (@indexer_gauges_exact Z unit DemoRegistry demo_prometheus demo_prometheus_lawful prefix_hash 5 (demo_locals (fun _ => false))
    (demo_iteration (fun _ => false)).2.1 demo_host (demo_iteration (fun _ => false)).2.2 (demo_iteration (fun _ => false)).1
    (triple_eta _)) as Hg.
  rewrite demo_iteration_returns in Hg. cbv beta iota zeta in Hg. destruct Hg as (Hb & Hh & _ & Hl).
  exists (is_chainHead (il_status (demo_iteration (fun _ => false)).2.1)), (is_indexedBlock (il_status (demo_iteration (fun _ => false)).2.1)).
  exact (conj Hb (conj Hh Hl)).
Defined.

(** A host on which the port of the metrics is taken. *)
#[local] Instance taken_ports : Sockets Z := { tcp_listen _ _ n := (inl "bind: Address already in use", n) }.
#[local] Instance no_transport : HttpTransport Z := {
  http_connect _ _ _ n := (inl "Connection refused", n);
  http_write _ _ n := (inl "Broken pipe", n);
  http_read _ n := (inl "end of stream", n)
}.
#[local] Instance quiet_broker : Nats unit := {
  nats_Msg := unit;
  natsMsg_GetData _ := "";
  natsStatus_GetText _ := "Error";
  natsConnection_ConnectTo _ n := (NATS_OK, n);
  natsConnection_JetStream n := (NATS_OK, n);
  js_GetStreamInfo _ n := (NATS_OK, n);
  jsStreamConfig_Init n := (NATS_OK, n);
  js_AddStream _ n := (NATS_OK, n);
  jsPubOptions_Init n := (NATS_OK, n);
  js_Publish _ _ _ _ n := (NATS_OK, n);
  jsSubOptions_Init n := (NATS_OK, n);
  js_PullSubscribe _ _ _ n := (NATS_OK, n);
  natsSubscription_Fetch _ _ n := ((NATS_TIMEOUT, []), n);
  natsMsg_AckSync _ n := (NATS_OK, n)
}.

Definition taken_run := outbox_main (N := Z) (B := unit) (P := DemoRegistry) (fun _ => None) [] 3 demo_host.
Definition demo_api_host : Host (World IxDb) Z unit DemoRegistry := MkHost (MkWorld empty_db []) (MkRpcNet ∅ 0) tt (MkDemoRegistry ∅ ∅).
Definition taken_api_run := api_main (N := Z) (B := unit) (P := DemoRegistry) (fun _ => "") (fun _ => None)
  (fun locals => collect_stats (as_chainId locals)) demo_api_host.

Lemma services_start_safely_witness :
  (taken_run.1 = Ok 1 /\ ready_status taken_run.2 = Some 503) /\ (taken_api_run.1 = Ok 1 /\ ready_status taken_api_run.2 = Some 503).
Proof.
  destruct (@services_start_safely Z unit DemoRegistry _ _ _ _ demo_prometheus_lawful _ _ glass_secp256k1 (fun _ => "") (fun _ => None)
    prefix_hash pending_job 5 (fun _ => 0) (fun _ => 0)) as (_ & Ho & _ & _ & _ & Ha).
  destruct (Ho [] 3%nat demo_host taken_run.1 taken_run.2 eq_refl (surjective_pairing _)) as (_ & Hr & Hc).
  destruct (Ha (World IxDb) _ (fun locals => @collect_stats_discreet Z unit DemoRegistry _ demo_prometheus_lawful (as_chainId locals)) demo_api_host taken_api_run.1 taken_api_run.2 eq_refl (surjective_pairing _))
    as (_ & Hr' & Hc').
  exact (conj (conj Hc Hr) (conj Hc' Hr')).
Defined.

(** The API says that it is ready before it listens: when the port is taken the process ends with 1, but
    [/ready] has answered 200 before. *)
Lemma api_ready_before_listening {N} `{HttpTransport N} `{Sockets N} `{JsonText} `{LawfulPrometheus P} {D B}
    boost_what getenv (h h1 : Host D N B P) locals served message net :
  api_setup boost_what getenv h = (Ok locals, h1) ->
  tcp_listen (as_address locals) (as_port locals) (rn_net (ho_net h1)) = (inl message, net) ->
  exists h', api_main boost_what getenv served h = (Ok 1, h') /\ ready_status h' = Some 200.
Proof.
  intros Es El. unfold api_main, body, catch_all. rewrite (bind_run _ _ _ _ _ Es).
  set (h2 := (on_registry (SetReady true) h1).2). rewrite (bind_run _ _ _ tt h2) by done.
  unfold mbind at 1 2, prog_bind at 1 2, on_network, listen. cbn [h2 on_registry modify snd ho_net]. rewrite El.
  eexists. split; [reflexivity|]. rewrite ready_status_is_ready. cbn [ho_registry]. by rewrite is_ready_SetReady.
Qed.

(** The port of the metrics is cut to 16 bits without a check. *)
Lemma metrics_port_wraps :
  prefix_metrics_port (fun name => if bool_decide (name = "DLP_METRICS_PORT") then Some "74641" else None) "9105" = Ok 9105.
Proof. reflexivity. Qed.
End Demo.
