(* ===== verification/IndexerProcess.v ===== *)
(** * IndexerProcess: the indexer from its settings to its tables ([indexer/src/Main.cpp])

    The parts of the indexer put together: the process starts from its environment, its clients
    speak over HTTP with nodes that may fail, and the tables of PostgreSQL hold the chain when it ends. *)

From S2P Require Import Prelude Effects Loop Text Json Uint256 Hex Event Abi RpcTypes RpcEndpoints RpcClient Metrics.
From S2P Require Import IndexerTypes StateProjector Indexer IndexerSync PostgresStore PostgresRefinement IndexerProperties.
From S2P Require Import RpcChainClient RpcProperties Environment Startup Mains.
Set Default Goal Selector "!".
#[local] Open Scope Z_scope.

Section Process.
Context {N B P : Type} `{HttpTransport N} `{Sockets N} `{LawfulPrometheus P} `{LawfulJsonText}.
Context (boost_what : exn -> string) (getenv : string -> option string) (keccak : Bytes -> Hash256).
Context (contracts : ChainContracts) (chainId : Uint256) (start head : Z) (c : BlockContents) (hdr : Z -> BlockHeader).
Context (pool_logs oracle_logs : Z -> list RpcLog).
(** Reachable states of the outside world. *)
Context (J : N -> Prop).

(** A text is the URL of a node of the chain; a failure may leave the outside in a state of [fails]. *)
Definition chain_node (fails : N -> Prop) (text : string) : Prop := exists endpoint node,
  ParseEndpoint text = Ok endpoint /\ speaks endpoint DEFAULT_TIMEOUT J fails node
  /\ NodeServes node contracts chainId start head hdr pool_logs oracle_logs.

(** The port of the metrics is free. *)
Definition ports_free : Prop := forall address port net, J net -> exists net', tcp_listen address port net = (inr tt, net') /\ J net'.

Abbreviation serves := (Serves contracts chainId start head hdr pool_logs oracle_logs (RpcProperties.counted J)).

Lemma chain_node_serves fails text : 0 <= head < 2 ^ 64 -> chain_node fails text ->
  exists endpoint, new_client text DEFAULT_TIMEOUT = Ok endpoint
    /\ forall n, serves (fun _ => RpcProperties.counted fails) (rpc_client boost_what true n endpoint DEFAULT_TIMEOUT).
Proof using H4.
  intros Hhead (endpoint & node & Ep & Hs & Hn). exists endpoint. unfold new_client. rewrite Ep. split; [done|].
  intros n. by apply (http_client_serves _ _ _ _ _ _ _ node Hs).
Qed.

(** The clients of such texts. *)
Lemma new_clients_serve texts : 0 <= head < 2 ^ 64 -> Forall (chain_node J) texts ->
  forall first, exists clients, new_clients boost_what first texts = Ok clients
    /\ Forall (serves (fun _ => RpcProperties.counted J)) clients
    /\ (Exists (chain_node (fun _ => False)) texts ->
        exists good client, clients !! good = Some client /\ serves (fun _ _ => False) client).
Proof using H4.
  intros Hhead. induction 1 as [|text texts Ht _ IH]; intros first.
  - exists []. split; [done|]. split; [done|]. by intros He%Exists_nil.
  - destruct (chain_node_serves _ _ Hhead Ht) as (endpoint & En & Hs). destruct (IH (S first)) as (clients & Ec & Hc & Hgood).
    exists (rpc_client boost_what true first endpoint DEFAULT_TIMEOUT :: clients). cbn [new_clients]. rewrite En, bind_Ok, Ec.
    split; [done|]. split; [by constructor|]. intros [Hg|Hg]%Exists_cons.
    + exists 0%nat, (rpc_client boost_what true first endpoint DEFAULT_TIMEOUT). split; [done|].
      destruct (chain_node_serves _ _ Hhead Hg) as (endpoint' & En' & Hs'). assert (endpoint' = endpoint) as -> by congruence.
      eapply Serves_mono; [|apply Hs']. by intros e net [].
    + destruct (Hgood Hg) as (good & client & Eg & Hgc). by exists (S good), client.
Qed.

(** The chain as the nodes have it. *)
Record node_chain : Prop := {
  nc_facts : ChainFacts keccak contracts chainId start c head hdr;
  nc_head : 0 <= head;
  nc_logs k : start <= k <= head ->
    logs_of_block chainId c hdr k (std_sort log_index_before (pool_logs k ++ oracle_logs k));
  nc_nodes : Forall (chain_node J) (indexer_endpoints getenv);
  nc_reliable : Exists (chain_node (fun _ => False)) (indexer_endpoints getenv)
}.

Context (chain : node_chain).

Lemma node_chain_head : 0 <= head < 2 ^ 64.
Proof using chain. pose proof (cf_range _ _ _ _ _ _ _ (nc_facts chain)). pose proof (nc_head chain). lia. Qed.

(** The setup succeeds, and gives clients of the chain. *)
Lemma indexer_start_runs port (h : Host IxDb N B P) :
  ports_free -> RpcProperties.counted J (ho_net h) ->
  indexer_contracts getenv = Ok contracts -> StartBlock getenv = Ok start -> metrics_port getenv "9101" = Ok port ->
  exists clients h1, indexer_start boost_what getenv h
      = (Ok (MkIndexerLocals (MkIndexerSetup contracts clients start) 0 None None (MkIndexerStatus 0 0 0) 0), h1)
    /\ ho_db h1 = ho_db h /\ RpcProperties.counted J (ho_net h1)
    /\ served keccak contracts chainId start c head hdr pool_logs oracle_logs (RpcProperties.counted J) clients
    /\ Forall (serves (fun _ => RpcProperties.counted J)) clients.
Proof using chain H4.
  intros Hfree [HJ Hids] Ec Es Ep. pose proof node_chain_head as Hhead.
  destruct (new_clients_serve _ Hhead (nc_nodes chain) 0) as (clients & En & Hc & Hgood). specialize (Hgood (nc_reliable chain)).
  destruct (Hfree (EnvironmentOrDefault getenv "DLP_METRICS_ADDRESS" "0.0.0.0") port _ HJ) as (net & El & HJ').
  exists clients. unfold indexer_start, indexer_setup, lift.
  rewrite Ec, Es, Ep, En. unfold ServiceMetrics, on_network, listen, on_registry, when, modify, mbind, prog_bind, mret, prog_ret.
  rewrite bool_decide_eq_false_2; [|intros E; pose proof (nc_reliable chain) as Hr; rewrite E in Hr; by apply Exists_nil in Hr].
  cbv beta iota zeta. rewrite El. eexists. split; [reflexivity|]. split; [done|]. split; [by split|]. split; [|done].
  destruct Hgood as (good & client & Eg & Hg). split; [apply chain|apply chain|apply chain| |by exists good, client].
  eapply Forall_impl; [exact Hc|]. intros client' Hclient. by left.
Qed.

(** From there one iteration brings the tables to the chain. *)
Lemma first_iteration clients fuel (h : Host IxDb N B P) v f n :
  served keccak contracts chainId start c head hdr pool_logs oracle_logs (RpcProperties.counted J) clients ->
  Forall (serves (fun _ => RpcProperties.counted J)) clients -> RpcProperties.counted J (ho_net h) ->
  represents (LawfulIndexerStore := postgres_lawful keccak contracts chainId) (2 * fuel) (ho_db h) v ->
  holds_segment keccak contracts chainId start c v f n -> Z.max 0 (head + 1 - start) + 1 < Z.of_nat fuel ->
  exists l' h' v',
    indexer_pass keccak fuel (MkIndexerLocals (MkIndexerSetup contracts clients start) 0 None None (MkIndexerStatus 0 0 0) 0, h)
      = (Ok tt, (l', h'))
    /\ represents (LawfulIndexerStore := postgres_lawful keccak contracts chainId) 0 (ho_db h') v'
    /\ holds_segment keccak contracts chainId start c v' (fun k => bh_hash (hdr k)) (Z.to_nat (head + 1 - start)).
Proof using.
  intros Hs Hc HJ Hr Hseg Hf. pose proof (pool_stable _ _ _ _ _ _ _ _ _ _ _ (sd_facts _ _ _ _ _ _ _ _ _ _ _ Hs)
    (sd_known _ _ _ _ _ _ _ _ _ _ _ Hs) Hs) as Hstable.
  assert (pool_ok contracts chainId start head hdr pool_logs oracle_logs (RpcProperties.counted J) clients
    (MkChainPool 0 None None (ho_net h))) as Hok.
  { split; [done|]. destruct (sd_reliable _ _ _ _ _ _ _ _ _ _ _ Hs) as (good & client & Eg & _).
    destruct clients as [|first clients]; [done|]. split; [|by right|done].
    exists first. split; [done|]. by apply Forall_cons in Hc as [Hc _]. }
  destruct (@SyncToHead_run IxDb (ChainPool (RpcNet N)) _ (rpc_chain_client clients contracts) keccak contracts chainId _ start c head hdr
    _ Hstable f n fuel (ho_db h) (MkIndexerStatus 0 0 0) (MkChainPool 0 None None (ho_net h)))
    as (s' & status' & count & st' & E & _ & v' & Hr' & Hseg'); [by exists v|done|done|].
  assert (exists l' h', indexer_pass keccak fuel
      (MkIndexerLocals (MkIndexerSetup contracts clients start) 0 None None (MkIndexerStatus 0 0 0) 0, h) = (Ok tt, (l', h'))
    /\ ho_db h' = s') as (l' & h' & Ep & <-).
  { unfold indexer_pass, Mains.counted, catch_all, sync, indexer_state, mbind, prog_bind, modify.
    cbn [il_setup is_clients is_contracts is_startBlock il_activeIndex il_chainId il_checkpoint il_status]. rewrite E.
    eexists _, _. split; reflexivity. }
  by exists l', h', v'.
Qed.
End Process.

(** Claim C38: the indexer from its settings to its tables: started with [--once] from an environment that names its
    contracts, its first block and its endpoints, on a host where the port of the metrics is free, when every endpoint
    speaks for a node of the chain, which answers the chain id, the head, the header of each height and the logs of
    each height and contract for the filter of exactly that height and that address, when any of them may fail
    at any request and one does not, the process ends with the code 0, and the tables of PostgreSQL, whatever
    fork they held, then hold exactly the chain. *)
Theorem indexer_process_converges {N B P} `{HttpTransport N} `{Sockets N} `{LawfulPrometheus P} `{LawfulJsonText}
    boost_what getenv keccak contracts chainId start head c hdr pool_logs oracle_logs (J : N -> Prop) port
    f n v fuel further (h : Host IxDb N B P) :
  indexer_contracts getenv = Ok contracts -> StartBlock getenv = Ok start -> metrics_port getenv "9101" = Ok port ->
  ports_free J -> RpcProperties.counted J (ho_net h) ->
  node_chain getenv keccak contracts chainId start head c hdr pool_logs oracle_logs J ->
  represents (LawfulIndexerStore := postgres_lawful keccak contracts chainId) (2 * fuel) (ho_db h) v ->
  holds_segment keccak contracts chainId start c v f n -> Z.max 0 (head + 1 - start) + 1 < Z.of_nat fuel ->
  exists h' v', indexer_main boost_what getenv keccak fuel ["--once"] further h = (Ok 0, h')
    /\ represents (LawfulIndexerStore := postgres_lawful keccak contracts chainId) 0 (ho_db h') v'
    /\ holds_segment keccak contracts chainId start c v' (fun k => bh_hash (hdr k)) (Z.to_nat (head + 1 - start)).
Proof.
  intros Ec Es Ep Hfree HJ Hchain Hr Hseg Hf.
  destruct (indexer_start_runs boost_what _ _ _ _ _ _ _ _ _ _ _ Hchain port h Hfree HJ Ec Es Ep)
    as (clients & h1 & Estart & Edb & HJ1 & Hs & Hc).
  set (h2 := (on_registry (SetReady true) h1).2).
  destruct (first_iteration keccak contracts chainId start head c hdr pool_logs oracle_logs J clients fuel h2 v f n Hs Hc HJ1)
    as (l' & h' & v' & Epass & Hr' & Hseg'); [by rewrite <-Edb in Hr|done|done|].
  exists h', v'. split; [|done]. unfold indexer_main, main. rewrite bool_decide_eq_true_2 by done.
  unfold body, catch_all. rewrite (bind_run _ _ _ _ _ Estart), (bind_run _ _ _ tt h2) by done.
  unfold in_loop, mbind, prog_bind.
  assert (service_loop true (indexer_pass (B := B) (P := P) keccak fuel) further
    (MkIndexerLocals (MkIndexerSetup contracts clients start) 0 None None (MkIndexerStatus 0 0 0) 0, h2) = (Ok tt, (l', h'))) as ->; [|done].
  by destruct further; cbn [service_loop]; rewrite (bind_run _ _ _ tt (l', h'))
    by (unfold guarded, catch_all; by rewrite Epass).
Qed.

(** ** A host with two endpoints of the demonstration chain, one of which fails at every other request *)

Section Demo.
#[local] Existing Instances coded_json demo_prometheus.

Definition unsteady (host : string) (connections : Z) : bool := bool_decide (host = "unsteady") && Z.odd connections.
#[local] Instance two_nodes : HttpTransport (Z * string) := node_transport unsteady demo_node.
#[local] Instance free_ports : Sockets (Z * string) := { tcp_listen _ _ net := (inr tt, net) }.

Definition demo_getenv (name : string) : option string :=
  let settings := [
    ("DLP_POOL_ADDRESS", AddressToHex (cc_pool sample_contracts) true);
    ("DLP_ORACLE_ADDRESS", AddressToHex (cc_oracle sample_contracts) true);
    ("DLP_WETH_ADDRESS", AddressToHex (cc_weth sample_contracts) true);
    ("DLP_USDC_ADDRESS", AddressToHex (cc_usdc sample_contracts) true);
    ("DLP_START_BLOCK", "10");
    ("DLP_RPC_URL", "http://unsteady:8545");
    ("DLP_RPC_FAILOVER_URLS", "http://steady:8545")] in
  snd <$> List.find (fun '(key, _) => bool_decide (key = name)) settings.

Abbreviation demo_chain_node := (chain_node sample_contracts (U 1) 10 11 demo_header demo_logs (fun _ => []) (fun _ => True)).

Lemma demo_chain_node_ok fails url host : ParseEndpoint url = Ok (MkParsedEndpoint host "8545" "/") ->
  (forall n, unsteady host n = true -> fails (n + 1, EmptyString)) -> demo_chain_node fails url.
Proof. intros Ep Hf. eexists _, demo_node. split; [exact Ep|]. split; [by apply node_transport_speaks|exact demo_node_serves]. Qed.

Lemma demo_node_chain :
  node_chain demo_getenv prefix_hash sample_contracts (U 1) 10 11 demo_contents demo_header demo_logs (fun _ => []) (fun _ => True).
Proof.
  destruct demo_served as [Hf Hh Hl _ _].
  assert (indexer_endpoints demo_getenv = ["http://unsteady:8545"; "http://steady:8545"]) as Ee by (vm_compute; reflexivity).
  split; [exact Hf|exact Hh|exact Hl|..]; rewrite Ee.
  - apply Forall_cons. split; [|apply Forall_singleton]; by eapply demo_chain_node_ok.
  - apply Exists_cons_tl, Exists_cons_hd. by eapply demo_chain_node_ok.
Qed.

Definition process_host : Host IxDb (Z * string) unit DemoRegistry :=
  MkHost fork_db (MkRpcNet ∅ (0, EmptyString)) tt (MkDemoRegistry ∅ ∅).

Lemma indexer_process_converges_witness : exists h' v',
  indexer_main (fun _ => "") demo_getenv prefix_hash 5 ["--once"] 0 process_host = (Ok 0, h')
  /\ represents (LawfulIndexerStore := postgres_lawful prefix_hash sample_contracts (U 1)) 0 (ho_db h') v'
  /\ holds_segment prefix_hash sample_contracts (U 1) 10 demo_contents v' block_hash 2.
Proof.
  apply (@indexer_process_converges _ unit DemoRegistry two_nodes free_ports demo_prometheus demo_prometheus_lawful
    coded_json coded_json_lawful (fun _ => "") demo_getenv prefix_hash sample_contracts (U 1) 10 11 demo_contents demo_header
    demo_logs (fun _ => []) (fun _ => True) 9101 (fun _ => fork_hash) 1 fork_view 5 0 process_host).
  - vm_compute. reflexivity.
  - vm_compute. reflexivity.
  - vm_compute. reflexivity.
  - intros address port net _. by exists net.
  - split; [done|]. apply map_Forall_empty.
  - exact demo_node_chain.
  - exact fork_represents.
  - exact fork_segment.
  - reflexivity.
Defined.
End Demo.
