(* ===== verification/Reports.v ===== *)
(** * Reports: the counters of the liquidator and the risk worker change nothing else

    Between the steps of its iteration a service counts what it did.  With the registry left out,
    the loops of [Mains] are those of [Services], so what [ServiceProperties] shows of these holds
    of the loops that run. *)

From S2P Require Import Prelude Effects Loop Text Json Sql Uint256 Hex Transaction Signer Abi RpcTypes RpcEndpoints RpcClient Metrics.
From S2P Require Import IndexerTypes PostgresStore Event Outbox JetStream ApiChain LiquidationChain Liquidator.
From S2P Require Import LiquidationJobs PostgresRiskRepository RiskWorker Services ServiceProperties LiquidationProperties Startup Mains.
Set Default Goal Selector "!".
#[local] Open Scope Z_scope.

(** ** The loop *)

Section Loops.
Context {St Part : Type} (I : St -> Prop) (view : St -> Part).

Abbreviation same := (tracks I view (fun _ _ : unit => True)).

Lemma tracks_guarded runOnce m m' : same m m' -> same (guarded runOnce m) (guarded runOnce m').
Proof using.
  intros Hm s Hs. specialize (Hm s Hs). unfold guarded, catch_all.
  destruct (m s) as [[[]|e] s1], (m' (view s)) as [[[]|e'] p]; try done.
  destruct Hm as (-> & Ev & Hs1). destruct e'; try done. all: by destruct runOnce.
Qed.

Lemma tracks_service_loop runOnce m m' further : same m m' -> same (service_loop runOnce m further) (service_loop runOnce m' further).
Proof using.
  intros Hm. induction further as [|further IH]; cbn [service_loop].
  all: eapply tracks_bind; [by apply tracks_guarded|intros _ _ _].
  - by apply tracks_ret.
  - destruct runOnce; [by apply tracks_ret|exact IH].
Qed.
End Loops.

Section Reported.
Context {N B P : Type} `{HttpTransport N} `{Nats B} `{Prometheus P} `{JsonText} `{TextOrder}.
Context (keccak : Bytes -> Hash256).

(** Counting a failure is not seen by the service. *)
Lemma tracks_counted {L D Part : Type} (I : L * Host D N B P -> Prop) (view : L * Host D N B P -> Part) errors m (m' : prog Part unit) :
  (forall l h registry, view (l, MkHost (ho_db h) (ho_net h) (ho_broker h) registry) = view (l, h)) ->
  (forall l h registry, I (l, h) -> I (l, MkHost (ho_db h) (ho_net h) (ho_broker h) registry)) ->
  tracks I view (fun _ _ : unit => True) m m' -> tracks I view (fun _ _ : unit => True) (counted errors m) m'.
Proof using.
  intros Hview Hi Hm s Hs. specialize (Hm s Hs). unfold counted, catch_all.
  destruct (m s) as [[[]|e] [l h]]; [exact Hm|].
  destruct (m' (view s)) as [[[]|e'] p]; [done|]. destruct Hm as (Ee & Ev & Hl).
  unfold mbind, prog_bind, modify, throw. rewrite Hview. auto.
Qed.

(** ** The liquidator *)

Lemma tracks_on_liquidator {A} (m : prog (Service (LiquidatorState (RpcNet N)) B) A) :
  tracks (fun _ => True) liquidator_service eq (on_liquidator (P := P) m) m.
Proof using. intros h Hh. unfold on_liquidator. by destruct (m (liquidator_service h)) as [[a|e] [[jobs node] n]]. Qed.

Lemma unseen_report f : unseen (fun _ => True) liquidator_service (on_registry (D := World LqDb) (N := N) (B := B) (P := P) f).
Proof using. by apply unseen_modify. Qed.

Lemma on_state_bind {D A A'} (m : prog D A) (k : A -> prog D A') (st : Service D B) :
  on_state (m ≫= k) st = (on_state m ≫= fun a => on_state (k a)) st.
Proof using. unfold on_state, mbind, prog_bind. by destruct (m (sv_state st)) as [[a|e] d]. Qed.

Lemma on_state_ret {D A} (a : A) (st : Service D B) : on_state (mret a : prog D A) st = (Ok a, st).
Proof using. by destruct st. Qed.

Lemma liquidator_work_tracks setup :
  tracks (fun _ => True) liquidator_service (fun _ _ => True) (liquidator_work_reported (B := B) (P := P) keccak setup)
    (@liquidator_iteration B (RpcNet N) _ _ _ (@rpc_liquidation_chain (RpcNet N) (ls_calls setup) keccak (ls_contracts setup)) keccak
       (ls_config setup) (ls_chainId setup) (ls_workerId setup) (ls_leaseDuration setup)).
Proof using.
  unfold liquidator_work_reported, liquidator_iteration, liquidator_work.
  apply (tracks_bind _ _ eq); [apply tracks_on_liquidator|]. intros message ? <-.
  apply (tracks_bind _ _ (fun _ _ => True)).
  { destruct message as [message|]; [|by apply tracks_ret].
    apply (tracks_bind _ _ eq); [apply tracks_on_liquidator|]. intros queued ? <-.
    apply (tracks_tail _ _ eq); [apply tracks_on_liquidator|]. intros _. apply unseen_when, unseen_report. }
  intros _ _ _. eapply tracks_eq; [intros st; apply on_state_bind|].
  apply (tracks_bind _ _ eq); [apply tracks_on_liquidator|]. intros invalidated ? _. eapply tracks_eq; [intros st; apply on_state_bind|].
  apply (tracks_bind _ _ eq); [apply tracks_on_liquidator|]. intros job ? <-. eapply tracks_eq; [intros st; apply on_state_bind|].
  apply (tracks_bind _ _ (fun _ _ => True)).
  { destruct job as [job|]; [|eapply tracks_eq; [apply on_state_ret|by apply tracks_ret]].
    eapply tracks_eq; [intros st; apply on_state_bind|].
    apply (tracks_bind _ _ eq); [apply tracks_on_liquidator|]. intros [submission|] ? <-.
    all: eapply tracks_eq; [intros st; apply on_state_bind|].
    all: apply (tracks_bind _ _ eq); [apply tracks_on_liquidator|]; intros done ? _; eapply tracks_eq; [apply on_state_ret|].
    - apply (tracks_unseen _ _ _ (when _ _)); [apply unseen_when, unseen_report|]. intros _. by apply tracks_ret.
    - by apply tracks_ret. }
  intros invalidated' _ _. eapply tracks_eq; [intros st; apply on_state_bind|].
  apply (tracks_bind _ _ eq); [apply tracks_on_liquidator|]. intros reconciled ? _. eapply tracks_eq; [apply on_state_ret|].
  apply tracks_end, unseen_report.
Qed.

(** The setup of the pass stays. *)
Lemma tracks_with_setup {L D Part : Type} (view : Host D N B P -> Part) (work : L -> prog (Host D N B P) unit) l (m' : prog Part unit) :
  tracks (fun _ => True) view (fun _ _ => True) (work l) m' ->
  tracks (fun lh => lh.1 = l) (fun lh => view lh.2) (fun _ _ => True) (with_setup work) m'.
Proof using.
  intros Hm [l' h] E. cbn [fst] in E. subst l'. specialize (Hm h I). unfold with_setup. cbn [snd].
  destruct (work l h) as [[[]|e] h1], (m' (view h)) as [[[]|e'] p]; try done.
  all: by destruct Hm as (? & ? & _).
Qed.

(** ** The risk worker *)

Lemma tracks_on_risk setup {A} (m : prog (Service RiskWorkerState B) A) :
  tracks (fun lh => rl_setup lh.1 = setup) risk_service eq (on_risk (N := N) (P := P) m) m.
Proof using. intros [l h] Hl. unfold on_risk. by destruct (m _) as [[a|e] [[db next reads] n]]. Qed.

Lemma unseen_scan setup work : unseen (fun lh => rl_setup lh.1 = setup) risk_service (report_scan (N := N) (B := B) (P := P) work).
Proof using. apply unseen_modify; by intros [l h]. Qed.

Lemma risk_work_tracks time steady_clock setup :
  tracks (fun lh => rl_setup lh.1 = setup) risk_service (fun _ _ => True)
    (risk_work_reported (N := N) (B := B) (P := P) time steady_clock setup)
    (risk_iteration (rs_chainId setup) (rs_scanLimit setup) (rs_rescanInterval setup) time steady_clock).
Proof using.
  unfold risk_work_reported, risk_iteration, rescan_when_due.
  apply (tracks_bind _ _ eq); [apply tracks_on_risk|]. intros message ? <-.
  apply (tracks_bind _ _ eq); [apply tracks_on_risk|]. intros now ? <-.
  apply (tracks_bind _ _ (fun _ _ => True)).
  { destruct message as [message|]; [|by apply tracks_ret].
    apply (tracks_bind _ _ eq); [apply tracks_on_risk|]. intros work ? _.
    apply tracks_unseen; [apply unseen_scan|]. intros _.
    by eapply tracks_mono, tracks_on_risk. }
  intros _ _ _. eapply tracks_eq; [intros st; apply on_state_bind|].
  apply (tracks_bind _ _ eq); [apply tracks_on_risk|]. intros t ? <-. eapply tracks_eq; [intros st; apply on_state_bind|].
  apply (tracks_bind _ _ eq); [apply tracks_on_risk|]. intros st ? <-.
  destruct (_ <=? _); [|eapply tracks_eq; [apply on_state_ret|by apply tracks_ret]].
  eapply tracks_eq; [intros d; apply on_state_bind|].
  apply (tracks_bind _ _ eq); [apply tracks_on_risk|]. intros work ? _. eapply tracks_eq; [intros d; apply on_state_bind|].
  apply tracks_unseen; [apply unseen_scan|]. intros _.
  apply (tracks_bind _ _ eq); [apply tracks_on_risk|]. intros t' ? <-.
  by eapply tracks_mono, tracks_on_risk.
Qed.
End Reported.

(** ** The loops that run *)

Section Running.
Context {N B P : Type} `{HttpTransport N} `{LawfulNats B} `{Prometheus P} `{JsonText} `{TextOrder}.
Context (keccak : Bytes -> Hash256).

(** Programs that end alike leave related states. *)
Lemma tracks_run {St Part} (I : St -> Prop) (view : St -> Part) (m : prog St unit) m' s r s1 :
  tracks I view (fun _ _ : unit => True) m m' -> I s -> m s = (r, s1) -> m' (view s) = (r, view s1).
Proof using.
  intros Hm Hs E. specialize (Hm s Hs). rewrite E in Hm.
  destruct r as [[]|e], (m' (view s)) as [[[]|e'] p]; try done; by destruct Hm as (? & <- & _); subst.
Qed.

(** The iteration of [Services] with the objects of the setup. *)
Abbreviation iteration_of setup :=
  (@liquidator_iteration B (RpcNet N) _ _ _ (@rpc_liquidation_chain (RpcNet N) (ls_calls setup) keccak (ls_contracts setup)) keccak
     (ls_config setup) (ls_chainId setup) (ls_workerId setup) (ls_leaseDuration setup)).

Lemma liquidator_loop_run runOnce further setup (h h' : Host (World LqDb) N B P) r :
  in_loop runOnce (liquidator_pass keccak) further setup h = (r, h') ->
  service_loop runOnce (iteration_of setup) further (liquidator_service h) = (r, liquidator_service h').
Proof using.
  unfold in_loop. destruct (service_loop runOnce _ further (setup, h)) as [r' [l h1]] eqn:E. intros [= -> ->].
  refine (tracks_run (fun lh => lh.1 = setup) (fun lh => liquidator_service lh.2) _ _ (setup, h) r (l, h') _ eq_refl E).
  by apply tracks_service_loop, tracks_counted, tracks_with_setup, liquidator_work_tracks.
Qed.

(** However long the liquidator runs, a candidate that will not be delivered to it again has its job. *)
Lemma liquidator_loop_safe runOnce further setup (h h' : Host (World LqDb) N B P) r :
  jobs_valid (w_db (ho_db h)) -> Forall peaceful (w_others (ho_db h)) ->
  in_loop runOnce (liquidator_pass keccak) further setup h = (r, h') ->
  safe liquidator_valid queued (liquidator_service h) (liquidator_service h').
Proof using.
  intros Hv Ho E. apply liquidator_loop_run in E.
  assert (keeps liquidator_valid queued (service_loop runOnce (iteration_of setup) further)) as Hk
    by apply keeps_loop, liquidator_keeps.
  specialize (Hk (liquidator_service h) (conj Hv Ho)).
  unfold wp in Hk. rewrite E in Hk. by destruct r.
Qed.

Lemma risk_loop_run time steady_clock runOnce further locals (h h' : Host (World IxDb) N B P) r :
  in_loop runOnce (risk_pass time steady_clock) further locals h = (r, h') ->
  let setup := rl_setup locals in
  exists locals', rl_setup locals' = setup
  /\ service_loop runOnce (risk_iteration (rs_chainId setup) (rs_scanLimit setup) (rs_rescanInterval setup) time steady_clock)
       further (risk_service (locals, h)) = (r, risk_service (locals', h')).
Proof using.
  unfold in_loop. destruct (service_loop runOnce _ further (locals, h)) as [r' [l h1]] eqn:E. intros [= -> ->].
  exists l. assert (tracks (fun lh => rl_setup lh.1 = rl_setup locals) risk_service (fun _ _ => True)
    (service_loop runOnce (risk_pass (N := N) (B := B) (P := P) time steady_clock) further)
    (service_loop runOnce (risk_iteration (rs_chainId (rl_setup locals)) (rs_scanLimit (rl_setup locals))
       (rs_rescanInterval (rl_setup locals)) time steady_clock) further)) as Ht.
  { apply tracks_service_loop, tracks_counted; [done|done|].
    intros lh Hl. cbv beta in Hl |- *. rewrite Hl. by apply risk_work_tracks. }
  split; [|exact (tracks_run _ _ _ _ (locals, h) r (l, h') Ht eq_refl E)].
  specialize (Ht (locals, h) eq_refl). rewrite E in Ht.
  destruct r as [[]|e], (service_loop _ (risk_iteration _ _ _ _ _) _ _) as [[[]|e'] p]; try done; apply Ht.
Qed.

(** However long the risk worker runs, an event that will not be delivered to it again has had its scan. *)
Lemma risk_loop_safe time steady_clock runOnce further locals (h h' : Host (World IxDb) N B P) r :
  Forall growing (w_others (ho_db h)) ->
  in_loop runOnce (risk_pass time steady_clock) further locals h = (r, h') ->
  exists locals', safe risk_valid assessed (risk_service (locals, h)) (risk_service (locals', h')).
Proof using.
  intros Ho E. apply risk_loop_run in E as (locals' & _ & E). exists locals'.
  pose proof (keeps_loop risk_valid assessed runOnce _ further
    (risk_keeps (rs_chainId (rl_setup locals)) (rs_scanLimit (rl_setup locals)) (rs_rescanInterval (rl_setup locals)) time steady_clock)
    (risk_service (locals, h)) Ho) as Hk.
  unfold wp in Hk. rewrite E in Hk. by destruct r.
Qed.
End Running.
