(* ===== verification/OptionPricing.v ===== *)
(** * OptionPricing: the prices of the option pricer ([OptionPricing.hpp], [OptionPricing.cpp], [MetalMonteCarlo.mm])

    A [double] is an IEEE 754 number with 53 bits, a [float] one with 24, and each operation of an
    expression is rounded to the nearest even.  [std::erfc], [std::log] and [std::exp], whose
    results the standard leaves to the implementation, are the class [Libm].  The device that
    simulates the paths is a record of what the source asks of it. *)

From Stdlib Require Import SpecFloat.
From S2P Require Import Prelude Text.
Set Default Goal Selector "!".
#[local] Open Scope Z_scope.

(** ** Floating-point numbers *)

Abbreviation double := spec_float (only parsing).
Abbreviation float := spec_float (only parsing).

Definition zero : double := S754_zero false.
Definition dadd (x y : double) : double := SFadd 53 1024 x y.
Definition dsub (x y : double) : double := SFsub 53 1024 x y.
Definition dmul (x y : double) : double := SFmul 53 1024 x y.
Definition ddiv (x y : double) : double := SFdiv 53 1024 x y.
Definition dsqrt (x : double) : double := SFsqrt 53 1024 x.
(** [m * 2 ^ e], rounded. *)
Definition double_of_Z (m e : Z) : double := binary_normalize 53 1024 m e false.
(** [static_cast<float>] and the conversion back, which is exact. *)
Definition convert (prec emax : Z) (x : spec_float) : spec_float :=
  match x with
  | S754_finite sign m e => binary_round prec emax sign m e
  | x => x
  end.
Definition to_float : double -> float := convert 24 128.
Definition to_double : float -> double := convert 53 1024.
(** [std::max] *)
Definition dmax (x y : double) : double := if SFltb x y then y else x.

Class Libm := {
  erfc : double -> double;
  log : double -> double;
  exp : double -> double
}.

(** What is not a number stays so. *)
Class LawfulLibm `{Libm} := {
  law_erfc_nan : erfc S754_nan = S754_nan;
  law_log_nan : log S754_nan = S754_nan;
  law_exp_nan : exp S754_nan = S754_nan
}.

(** ** [OptionPricing.cpp] *)

Inductive OptionType := Call | Put.

Record PricingRequest := MkPricingRequest {
  pr_optionType : OptionType;
  pr_spot : double;
  pr_strike : double;
  pr_expiryYears : double;
  pr_volatility : double;
  pr_riskFreeRate : double;
  pr_paths : Z;
  pr_seed : Z
}.

Record PricingResult := MkPricingResult {
  ps_monteCarloPrice : double;
  ps_analyticPrice : double;
  ps_standardError : double;
  ps_absoluteDifference : double;
  ps_paths : Z;
  ps_elapsedMilliseconds : double;
  ps_device : string
}.

Definition ParseOptionType (value : string) : result OptionType :=
  if bool_decide (value = "call") then Ok Call
  else if bool_decide (value = "put") then Ok Put
  else Throw (InvalidArgument "optionType must be call or put").

Definition ToString (optionType : OptionType) : string :=
  match optionType with Call => "call" | Put => "put" end.

Definition Payoff (optionType : OptionType) (strike spot : double) : double :=
  match optionType with
  | Call => dmax (dsub spot strike) zero
  | Put => dmax (dsub strike spot) zero
  end.

Definition ValidateContract (request : PricingRequest) : result unit :=
  if SFleb (pr_spot request) zero || SFleb (pr_strike request) zero then
    Throw (InvalidArgument "spot and strike must be greater than zero")
  else if SFleb (pr_expiryYears request) zero then Throw (InvalidArgument "expiryYears must be greater than zero")
  else if SFleb (pr_volatility request) zero then Throw (InvalidArgument "volatility must be greater than zero")
  else Ok tt.

Section Pricing.
Context `{Libm}.

Definition half : double := double_of_Z 1 (-1).

Definition NormalCdf (value : double) : double :=
  dmul half (erfc (ddiv (SFopp value) (dsqrt (double_of_Z 2 0)))).

Definition BlackScholesPrice (request : PricingRequest) : result double :=
  ValidateContract request;;
  let '(MkPricingRequest optionType spot strike expiryYears volatility riskFreeRate _ _) := request in
  let rootExpiry := dsqrt expiryYears in
  let d1 := ddiv
    (dadd (log (ddiv spot strike))
       (dmul (dadd riskFreeRate (dmul (dmul half volatility) volatility)) expiryYears))
    (dmul volatility rootExpiry) in
  let d2 := dsub d1 (dmul volatility rootExpiry) in
  let discountedStrike := dmul strike (exp (dmul (SFopp riskFreeRate) expiryYears)) in
  Ok (match optionType with
      | Call => dsub (dmul spot (NormalCdf d1)) (dmul discountedStrike (NormalCdf d2))
      | Put => dsub (dmul discountedStrike (NormalCdf (SFopp d2))) (dmul spot (NormalCdf (SFopp d1)))
      end).

(** ** [MetalMonteCarlo.mm] *)

Definition MAX_PATHS : Z := 10000000.

Record MetalPricingParameters := MkMetalPricingParameters {
  mp_expiryYears : float;
  mp_strike : float;
  mp_spot : float;
  mp_volatility : float;
  mp_riskFreeRate : float;
  mp_paths : Z;
  mp_seed : Z;
  mp_optionType : Z
}.

(** What a command buffer leaves: whether its status is an error, and the error of it; the shared memory of the
    payoffs, if the device could make the buffer; the milliseconds that went by. *)
Record MetalRun := MkMetalRun {
  run_error : option (option string);
  run_payoffs : option (nat -> float);
  run_elapsed : double
}.

(** A device: its name; whether the library of shaders loads and the pipeline is made; and what it runs
    with the parameters on so many threads. *)
Record MetalDevice := MkMetalDevice {
  md_name : string;
  md_library : option string + unit;
  md_pipeline : option string + unit;
  md_run : MetalPricingParameters -> Z -> MetalRun
}.

(** [nil] is no error. *)
Definition NSErrorMessage (error : option string) : string := default "unknown Metal error" error.

(** The constructor, with the default device of the system. *)
Definition MetalMonteCarlo (device : option MetalDevice) : result MetalDevice :=
  match device with
  | None => Throw (RuntimeError "no Metal device is available")
  | Some device =>
      match md_library device, md_pipeline device with
      | inl error, _ => Throw (RuntimeError ("failed to load Metal shaders: " +:+ NSErrorMessage error))
      | inr _, inl error => Throw (RuntimeError ("failed to create Metal pricing pipeline: " +:+ NSErrorMessage error))
      | inr _, inr _ => Ok device
      end
  end.

Definition DeviceName (pricer : MetalDevice) : string := md_name pricer.

(** The loop over the payoffs: their sum and the sum of their squares. *)
Definition sums (values : nat -> float) (paths : nat) : double * double :=
  foldl (fun '(sum, squaredSum) index =>
    let value := to_double (values index) in (dadd sum value, dadd squaredSum (dmul value value))) (zero, zero) (seq 0 paths).

Definition parameters_of (request : PricingRequest) : MetalPricingParameters := {|
  mp_expiryYears := to_float (pr_expiryYears request);
  mp_strike := to_float (pr_strike request);
  mp_spot := to_float (pr_spot request);
  mp_volatility := to_float (pr_volatility request);
  mp_riskFreeRate := to_float (pr_riskFreeRate request);
  mp_paths := pr_paths request mod 2 ^ 32;
  mp_seed := pr_seed request;
  mp_optionType := match pr_optionType request with Call => 0 | Put => 1 end
|}.

(** What the payoffs of the paths make of the price: the mean and the standard error. *)
Definition estimate (values : nat -> float) (paths : Z) : double * double :=
  let '(sum, squaredSum) := sums values (Z.to_nat paths) in
  let n := double_of_Z paths 0 in
  let variance := if 1 <? paths
    then ddiv (dsub squaredSum (ddiv (dmul sum sum) n)) (double_of_Z (paths - 1) 0) else zero in
  (ddiv sum n, dsqrt (ddiv (dmax variance zero) n)).

(** Reading the payoffs of a buffer that is [nil] is undefined. *)
Definition Price (pricer : MetalDevice) (request : PricingRequest) : result PricingResult :=
  analyticPrice ← BlackScholesPrice request;
  if (pr_paths request =? 0) || (MAX_PATHS <? pr_paths request) then
    Throw (InvalidArgument "paths must be between 1 and 10000000")
  else
    let run := md_run pricer (parameters_of request) (pr_paths request) in
    match run_error run, run_payoffs run with
    | Some error, _ => Throw (RuntimeError ("Metal pricing command failed: " +:+ NSErrorMessage error))
    | None, None => Throw Undefined
    | None, Some values =>
        let '(price, standardError) := estimate values (pr_paths request) in
        Ok (MkPricingResult price analyticPrice standardError (SFabs (dsub price analyticPrice)) (pr_paths request)
              (run_elapsed run) (DeviceName pricer))
    end.
End Pricing.

(** ** The payoffs *)

Lemma binary_round_opp m e : binary_round 53 1024 true m e = SFopp (binary_round 53 1024 false m e).
Proof.
  unfold binary_round. destruct (shl_align _ _ _) as [mz ez]. unfold binary_round_aux.
  destruct (shr_fexp 53 1024 (Z.pos mz) ez loc_Exact) as [mrs e']. destruct (shr_fexp _ _ _ _ _) as [mrs' e''].
  destruct (shr_m mrs'); try done. by destruct (_ <=? _)%Z.
Qed.

Lemma binary_normalize_opp m e :
  m <> 0 -> binary_normalize 53 1024 (- m) e false = SFopp (binary_normalize 53 1024 m e false).
Proof.
  destruct m as [|m|m]; intros Hm; [done|apply binary_round_opp|].
  change (binary_round 53 1024 false m e = SFopp (binary_round 53 1024 true m e)). rewrite binary_round_opp.
  by destruct (binary_round 53 1024 false m e) as [[]|[]| |[]].
Qed.

(** Swapping the operands of a difference changes its sign, if it has one. *)
Lemma dsub_opp x y : dsub y x = SFopp (dsub x y) \/ dsub x y = zero /\ dsub y x = zero.
Proof.
  destruct x as [[]|[]| |sx mx ex], y as [[]|[]| |sy my ey]; try (by left); try (by right).
  all: try (left; by first [destruct sy | destruct sx]).
  unfold dsub, SFsub. rewrite (Z.min_comm ey ex). set (ez := Z.min ex ey).
  set (a := cond_Zopp sx _). set (b := cond_Zopp sy _). change (Z.sub a b) with (a - b). change (Z.sub b a) with (b - a).
  destruct (decide (a = b)) as [->|Hab]; [right; by rewrite Z.sub_diag|left].
  rewrite <-(Z.opp_involutive (b - a)), Z.opp_sub_distr, (Z.add_comm (- b)), Z.add_opp_r. apply binary_normalize_opp. lia.
Qed.

Lemma SFeqb_refl x : x <> S754_nan -> SFeqb x x = true.
Proof.
  destruct x as [s|[]| |s m e]; try done. intros _. unfold SFeqb, SFcompare. rewrite Z.compare_refl.
  change (Pos.compare_cont Eq m m) with (Pos.compare m m). rewrite Pos.compare_refl. by destruct s.
Qed.

(** A call without the put is the forward: at every price that is a number. *)
Lemma Payoff_parity strike spot :
  dsub spot strike <> S754_nan ->
  SFeqb (dsub (Payoff Call strike spot) (Payoff Put strike spot)) (dsub spot strike) = true.
Proof.
  intros Hn. unfold Payoff. destruct (dsub_opp spot strike) as [E|[E E']]; [|by rewrite E, E'].
  rewrite E. clear E. destruct (dsub spot strike) as [[]|[]| |[] m e]; try done.
  - by apply (SFeqb_refl (S754_finite true m e)).
  - by apply (SFeqb_refl (S754_finite false m e)).
Qed.

(** ** The contract *)

(** Only a number is refused: a contract with what is not a number has a price, which is none. *)
Lemma nan_contract_accepted `{LawfulLibm} optionType spot strike expiryYears riskFreeRate paths seed :
  SFleb spot zero = false -> SFleb strike zero = false -> SFleb expiryYears zero = false ->
  BlackScholesPrice (MkPricingRequest optionType spot strike expiryYears S754_nan riskFreeRate paths seed) = Ok S754_nan.
Proof.
  intros Es Ek Ee. unfold BlackScholesPrice, ValidateContract. cbn [pr_spot pr_strike pr_expiryYears pr_volatility].
  rewrite Es, Ek, Ee. cbn [orb]. change (SFleb S754_nan zero) with false. cbv iota.
  assert (forall x, dmul x S754_nan = S754_nan) as Hmul by by intros [].
  assert (forall x, dadd x S754_nan = S754_nan) as Hadd by by intros [].
  assert (forall x, ddiv x S754_nan = S754_nan) as Hdiv by by intros [].
  assert (forall x, dsub x S754_nan = S754_nan) as Hsub by by intros [].
  assert (NormalCdf S754_nan = S754_nan) as Hcdf.
  { unfold NormalCdf. change (ddiv (SFopp S754_nan) _) with S754_nan. by rewrite law_erfc_nan, Hmul. }
  rewrite Hmul. change (dmul S754_nan (dsqrt expiryYears)) with S754_nan. rewrite Hdiv, Hsub.
  change (SFopp S754_nan) with S754_nan. rewrite Hcdf, !Hmul, !Hsub. by destruct optionType.
Qed.

(** ** The price *)

Lemma BlackScholesPrice_validates `{Libm} request :
  BlackScholesPrice request = match ValidateContract request with Ok _ => BlackScholesPrice request | Throw e => Throw e end.
Proof. unfold BlackScholesPrice at 1. destruct (ValidateContract request) as [[]|e] eqn:E; [|done]. unfold BlackScholesPrice. by rewrite E. Qed.

(** A price is that of a valid contract from as many paths as were asked for, and no more than there is
    memory for; the count reaches the device unchanged. *)
Lemma Price_bounded `{Libm} pricer request priced :
  0 <= pr_paths request -> Price pricer request = Ok priced ->
  ValidateContract request = Ok tt /\ BlackScholesPrice request = Ok (ps_analyticPrice priced)
  /\ ps_paths priced = pr_paths request /\ 1 <= ps_paths priced <= MAX_PATHS
  /\ mp_paths (parameters_of request) = pr_paths request
  /\ (exists values, (ps_monteCarloPrice priced, ps_standardError priced) = estimate values (pr_paths request)).
Proof.
  intros Hp. unfold Price. destruct (BlackScholesPrice request) as [analytic|] eqn:Eb; [|done]. cbn [mbind result_bind].
  destruct (_ || _) eqn:Er; [done|]. apply orb_false_iff in Er as [E0%Z.eqb_neq Em%Z.ltb_ge].
  destruct (run_error _); [done|]. destruct (run_payoffs _) as [values|]; [|done].
  destruct (estimate values _) as [price err] eqn:Ee. intros [= <-]. cbn [ps_analyticPrice ps_paths ps_monteCarloPrice ps_standardError].
  split; [rewrite BlackScholesPrice_validates in Eb; by destruct (ValidateContract request) as [[]|]|].
  split; [done|]. split; [done|]. split; [unfold MAX_PATHS in *; lia|]. split; [|by exists values].
  unfold parameters_of. cbn [mp_paths]. apply Z.mod_small. unfold MAX_PATHS in *. lia.
Qed.

(** What the price says of its error is never negative. *)
Lemma binary_round_aux_sign m e loc : SFltb (binary_round_aux 53 1024 false m e loc) zero = false.
Proof.
  unfold binary_round_aux. destruct (shr_fexp 53 1024 m e loc) as [mrs e']. destruct (shr_fexp _ _ _ _ _) as [mrs' e''].
  destruct (shr_m mrs'); try done. by destruct (_ <=? _)%Z.
Qed.

Lemma dsqrt_sign x : SFltb (dsqrt x) zero = false.
Proof.
  destruct x as [[]|[]| |[] m e]; try done. unfold dsqrt, SFsqrt.
  destruct (SFsqrt_core_binary 53 1024 (Z.pos m) e) as [[mz ez] lz]. apply binary_round_aux_sign.
Qed.

Lemma Price_errors_sign `{Libm} pricer request priced :
  Price pricer request = Ok priced ->
  SFltb (ps_standardError priced) zero = false /\ SFltb (ps_absoluteDifference priced) zero = false.
Proof.
  unfold Price. destruct (BlackScholesPrice request) as [analytic|]; [|done]. cbn [mbind result_bind].
  destruct (_ || _); [done|]. destruct (run_error _); [done|]. destruct (run_payoffs _) as [values|]; [|done].
  destruct (estimate values _) as [price err] eqn:Ee. intros [= <-]. cbn [ps_standardError ps_absoluteDifference]. split.
  - revert Ee. unfold estimate. destruct (sums _ _) as [sum squaredSum]. intros [= _ <-]. apply dsqrt_sign.
  - by destruct (dsub price analytic) as [[]|[]| |[] m e].
Qed.

(** Two paths that pay 1 and 3: the mean is 2 and its standard error 1. *)
Example estimate_of_two :
  estimate (fun index => binary_normalize 24 128 (2 * Z.of_nat index + 1) 0 false) 2 = (double_of_Z 2 0, double_of_Z 1 0).
Proof. vm_compute. reflexivity. Qed.
