(* ===== verification/PricerMain.v ===== *)
(** * PricerMain: the option pricer as a service and a command ([tools/metal-option-pricer/src/Main.cpp])

    A request is priced on the device and answered, one connection after the other; what a handler
    does not catch ends the process.  The JSON values of the library, with their fractions, are
    the class [PricerJson]; accepting connections and reading and writing messages is Boost's. *)

From Stdlib Require Import SpecFloat.
From S2P Require Import Prelude Effects Text Json Uint256 RpcTypes RpcClient Environment Startup OptionPricing.
Set Default Goal Selector "!".
#[local] Open Scope Z_scope.

(** A member of an object that is written. *)
Inductive field := FieldText (text : string) | FieldDouble (value : spec_float) | FieldSize (value : Z).

(** [Json::parse], [at], [get<T>] and [value] with a default; [dump] of an object, with its indentation, which throws
    on a text that is not UTF-8. *)
Class PricerJson := {
  document : Type;
  document_parse : string -> result document;
  document_at : string -> document -> result document;
  document_string : document -> result string;
  document_double : document -> result spec_float;
  document_size : document -> result Z;
  document_unsigned : string -> Z -> document -> result Z;
  object_dump : option Z -> list (string * field) -> result string
}.

(** What these functions throw is the exception of the library; a [std::size_t] has 64 bits. *)
Definition json_throws {A} (r : result A) : Prop := forall e, r = Throw e -> exists m, e = JsonException m.
Class LawfulPricerJson `{PricerJson} := {
  law_parse text : json_throws (document_parse text);
  law_at key value : json_throws (document_at key value);
  law_string value : json_throws (document_string value);
  law_double value : json_throws (document_double value);
  law_size value : json_throws (document_size value);
  law_unsigned key fallback value : json_throws (document_unsigned key fallback value);
  law_dump indent fields : json_throws (object_dump indent fields)
}.

Record PricerRequest := MkPricerRequest { pq_method : string; pq_target : string; pq_version : Z; pq_body : string }.
Record PricerResponse := MkPricerResponse {
  pp_status : Z;
  pp_version : Z;
  pp_content_type : string;
  pp_server : string;
  pp_body : string
}.

Section Pricer.
Context {N : Type} `{Sockets N} `{PricerJson} `{Libm}.
Context (boost_what : exn -> string) (stod : string -> result spec_float).

(** [body.at(key).get<T>()] *)
Definition member {A} (get : document -> result A) (key : string) (body : document) : result A :=
  match document_at key body with
  | Ok value => get value
  | Throw e => Throw e
  end.

Definition ParseRequest (body : document) : result PricingRequest :=
  optionType ← member document_string "optionType" body;
  optionType ← ParseOptionType optionType;
  spot ← member document_double "spot" body;
  strike ← member document_double "strike" body;
  expiryYears ← member document_double "expiryYears" body;
  volatility ← member document_double "volatility" body;
  riskFreeRate ← member document_double "riskFreeRate" body;
  paths ← member document_size "paths" body;
  seed ← document_unsigned "seed" 42 body;
  Ok (MkPricingRequest optionType spot strike expiryYears volatility riskFreeRate paths seed).

Definition ToJson (request : PricingRequest) (priced : PricingResult) : list (string * field) := [
  ("optionType", FieldText (ToString (pr_optionType request)));
  ("monteCarloPrice", FieldDouble (ps_monteCarloPrice priced));
  ("analyticPrice", FieldDouble (ps_analyticPrice priced));
  ("standardError", FieldDouble (ps_standardError priced));
  ("absoluteDifference", FieldDouble (ps_absoluteDifference priced));
  ("paths", FieldSize (ps_paths priced));
  ("elapsedMilliseconds", FieldDouble (ps_elapsedMilliseconds priced));
  ("device", FieldText (ps_device priced))].

Definition JsonResponse (status version : Z) (body : list (string * field)) : result PricerResponse :=
  MkPricerResponse status version "application/json" "dlp-metal-option-pricer" <$> object_dump None body.

(** The [try] block of [HandleRequest]. *)
Definition price_request (pricer : MetalDevice) (request : PricerRequest) : result PricerResponse :=
  body ← document_parse (pq_body request);
  pricingRequest ← ParseRequest body;
  priced ← Price pricer pricingRequest;
  JsonResponse 200 (pq_version request) (ToJson pricingRequest priced).

Definition HandleRequest (pricer : MetalDevice) (request : PricerRequest) : result PricerResponse :=
  let respond status := JsonResponse status (pq_version request) in
  if bool_decide (pq_method request = "GET") && bool_decide (pq_target request = "/health") then
    respond 200 [("status", FieldText "ready"); ("backend", FieldText "Apple Metal"); ("device", FieldText (DeviceName pricer))]
  else if negb (bool_decide (pq_method request = "POST")) || negb (bool_decide (pq_target request = "/price")) then
    respond 404 [("error", FieldText "route not found")]
  else
    match price_request pricer request with
    | Ok response => Ok response
    | Throw Undefined => Throw Undefined
    | Throw (InvalidArgument message) => respond 400 [("error", FieldText message)]
    | Throw (JsonException message) => respond 400 [("error", FieldText message)]
    | Throw error => respond 500 [("error", FieldText (what boost_what error))]
    end.

(** The sockets; the responses that were sent, and the lines that were printed. *)
Record PricerHost := MkPricerHost { ph_net : N; ph_sent : list PricerResponse; ph_printed : list string }.

(** The loop of [Serve]: a connection gives a request or an error, and errors of writing are ignored.  It goes
    on until the process is killed, after the last of [connections]. *)
Fixpoint serve_all (pricer : MetalDevice) (connections : list (option PricerRequest)) : prog PricerHost unit :=
  match connections with
  | [] => mret tt
  | None :: connections => serve_all pricer connections
  | Some request :: connections =>
      response ← lift (HandleRequest pricer request);
      modify (fun h => MkPricerHost (ph_net h) (ph_sent h ++ [response]) (ph_printed h));;
      serve_all pricer connections
  end.

Definition Serve (pricer : MetalDevice) (host : string) (port : Z) (connections : list (option PricerRequest)) : prog PricerHost unit :=
  (fun h => let '(r, net) := tcp_listen host port (ph_net h) in
     (match r with inl message => Throw (SystemError message) | inr _ => Ok tt end, MkPricerHost net (ph_sent h) (ph_printed h)));;
  serve_all pricer connections.

Definition USAGE : string :=
  "usage: dlp_metal_option_pricer price <call|put> <spot> <strike> " +:+
  "<expiry-years> <volatility> <rate> <paths> [seed]".

(** [arguments] are those after the name of the program, the command the first of them. *)
Definition ParseCliRequest (arguments : list string) : result PricingRequest :=
  match arguments with
  | [_; optionType; spot; strike; expiryYears; volatility; riskFreeRate; paths]
  | [_; optionType; spot; strike; expiryYears; volatility; riskFreeRate; paths; _] =>
      optionType ← ParseOptionType optionType;
      spot ← stod spot;
      strike ← stod strike;
      expiryYears ← stod expiryYears;
      volatility ← stod volatility;
      riskFreeRate ← stod riskFreeRate;
      paths ← fst <$> stoull paths;
      seed ← match arguments !! 8%nat with Some seed => (fun z => z mod 2 ^ 32) <$> stoul seed | None => Ok 42 end;
      Ok (MkPricingRequest optionType spot strike expiryYears volatility riskFreeRate paths seed)
  | _ => Throw (InvalidArgument USAGE)
  end.

Definition ParsePort (value : string) : result Z :=
  port ← stoul value;
  if 2 ^ 16 - 1 <? port then Throw (InvalidArgument "port must be between 0 and 65535") else Ok port.

Definition print (text : string) : prog PricerHost unit :=
  modify (fun h => MkPricerHost (ph_net h) (ph_sent h) (ph_printed h ++ [text])).

(** The exit code, or [None] if the process is killed while it serves. *)
Definition pricer_main (device : option MetalDevice) (arguments : list string) (connections : list (option PricerRequest)) :
    prog PricerHost (option Z) :=
  catch_all (
    pricer ← lift (MetalMonteCarlo device);
    let command := default "serve" (arguments !! 0%nat) in
    if bool_decide (command = "price") then
      request ← lift (ParseCliRequest arguments);
      priced ← lift (Price pricer request);
      text ← lift (object_dump (Some 2) (ToJson request priced));
      print text;;
      mret (Some 0)
    else
      (if negb (bool_decide (command = "serve")) then throw (InvalidArgument "command must be serve or price") else mret tt);;
      port ← lift (match arguments !! 2%nat with Some port => ParsePort port | None => Ok 18081 end);
      Serve pricer (default "127.0.0.1" (arguments !! 1%nat)) port connections;;
      mret None)
  (fun e => match e with Undefined => throw e | _ => mret (Some 1) end).
End Pricer.

(** ** What a client gets *)

Section Answers.
Context {N : Type} `{Sockets N} `{LawfulPricerJson} `{Libm}.
Context (boost_what : exn -> string) (stod : string -> result spec_float).

Definition response_fits (request : PricerRequest) (response : PricerResponse) : Prop :=
  pp_status response ∈ [200; 400; 404; 500] /\ pp_version response = pq_version request
  /\ pp_content_type response = "application/json" /\ exists fields, object_dump None fields = Ok (pp_body response).

(** A response, or what the text of one threw. *)
Definition answers (request : PricerRequest) (r : result PricerResponse) : Prop :=
  match r with
  | Ok response => response_fits request response
  | Throw e => (exists message, e = JsonException message) /\ exists fields, object_dump None fields = Throw e
  end.

Lemma JsonResponse_answers status request fields :
  status ∈ [200; 400; 404; 500] -> answers request (JsonResponse status (pq_version request) fields).
Proof using H1.
  intros Hs. unfold JsonResponse. destruct (object_dump None fields) as [text|e] eqn:E; cbn.
  - by repeat split; eauto.
  - split; [by apply law_dump in E|by exists fields].
Qed.

Lemma price_request_fits pricer request response :
  price_request pricer request = Ok response -> response_fits request response.
Proof using H1.
  unfold price_request. destruct (document_parse _) as [body|]; [|done]. cbn [mbind result_bind].
  destruct (ParseRequest body) as [parsed|]; [|done]. cbn [mbind result_bind]. destruct (Price pricer parsed) as [priced|]; [|done].
  cbn [mbind result_bind]. intros E. pose proof (JsonResponse_answers 200 request (ToJson parsed priced) ltac:(repeat constructor)) as Ha.
  by rewrite E in Ha.
Qed.

(** Every request that was read is answered, whatever is wrong with it, unless the text of the answer cannot be
    written, or the device has no memory for the paths. *)
Lemma HandleRequest_answers pricer request :
  HandleRequest boost_what pricer request = Throw Undefined \/ answers request (HandleRequest boost_what pricer request).
Proof using H1.
  unfold HandleRequest. destruct (_ && _); [right; apply JsonResponse_answers; repeat constructor|].
  destruct (_ || _); [right; apply JsonResponse_answers; repeat constructor|].
  destruct (price_request pricer request) as [response|e] eqn:E; [right; by apply price_request_fits in E|].
  destruct e; try (by left); right; apply JsonResponse_answers; repeat constructor.
Qed.

(** Where it is the contract or the paths that are wrong, the client learns which. *)
Lemma refused_contract pricer request body parsed message :
  pq_method request = "POST" -> pq_target request = "/price" -> document_parse (pq_body request) = Ok body ->
  ParseRequest body = Ok parsed -> Price pricer parsed = Throw (InvalidArgument message) ->
  HandleRequest boost_what pricer request = JsonResponse 400 (pq_version request) [("error", FieldText message)].
Proof using.
  intros Em Et Eb Ep Ec. unfold HandleRequest, price_request. rewrite Em, Et, Eb. cbn [mbind result_bind]. rewrite Ep.
  cbn [mbind result_bind]. by rewrite Ec.
Qed.

(** The message of a parse error quotes what was read.  Where that is not UTF-8, writing the answer throws in the
    handler, and the service ends with the code 1: the connections that follow get nothing. *)
Lemma malformed_body_ends_server (device : MetalDevice) request message e connections arguments host port net sent printed :
  MetalMonteCarlo (Some device) = Ok device ->
  pq_method request = "POST" -> pq_target request = "/price" ->
  document_parse (pq_body request) = Throw (JsonException message) ->
  object_dump None [("error", FieldText message)] = Throw (JsonException e) ->
  arguments = [] \/ arguments = ["serve"; host; port] /\ (exists z, ParsePort port = Ok z) ->
  (forall address z n, exists n', tcp_listen address z n = (inr tt, n')) ->
  exists h, pricer_main boost_what stod (Some device) arguments (Some request :: connections) (MkPricerHost net sent printed)
    = (Ok (Some 1), h) /\ ph_sent h = sent.
Proof using.
  intros Ed Em Et Eb Ex Ha Hl. unfold pricer_main. rewrite Ed.
  assert (HandleRequest boost_what device request = Throw (JsonException e)) as Eh.
  { unfold HandleRequest, price_request. rewrite Em, Et, Eb. cbn. unfold JsonResponse. by rewrite Ex. }
  assert (forall address z, exists h, Serve boost_what device address z (Some request :: connections) (MkPricerHost net sent printed)
    = (Throw (JsonException e), h) /\ ph_sent h = sent) as Hs.
  { intros address z. destruct (Hl address z net) as [n' El]. exists (MkPricerHost n' sent printed). split; [|done].
    unfold Serve, mbind, prog_bind. cbn [ph_net]. rewrite El. cbn [serve_all]. unfold mbind, prog_bind, lift. by rewrite Eh. }
  destruct Ha as [->|[-> [z Ez]]].
  - destruct (Hs "127.0.0.1" 18081) as (h & Er & Eq). exists h. split; [|exact Eq].
    unfold catch_all, mbind, prog_bind, lift. cbn -[Serve bool_decide].
    rewrite bool_decide_eq_false_2, bool_decide_eq_true_2 by done. cbn -[Serve]. by rewrite Er.
  - destruct (Hs host z) as (h & Er & Eq). exists h. split; [|exact Eq].
    unfold catch_all, mbind, prog_bind, lift. cbn -[Serve ParsePort bool_decide].
    rewrite bool_decide_eq_false_2, bool_decide_eq_true_2 by done. cbn -[Serve ParsePort]. by rewrite Ez, Er.
Qed.
End Answers.

(** ** The command line *)

(** [price] prints the document of the price and ends with 0, or prints nothing and ends with 1. *)
Lemma price_command {N} `{Sockets N} `{PricerJson} `{Libm} boost_what stod device arguments connections (h : PricerHost (N := N)) :
  arguments !! 0%nat = Some "price" ->
  pricer_main boost_what stod device arguments connections h =
    match MetalMonteCarlo device ≫= fun pricer => ParseCliRequest stod arguments ≫= fun request =>
      Price pricer request ≫= fun priced => object_dump (Some 2) (ToJson request priced) with
    | Ok text => (Ok (Some 0), MkPricerHost (ph_net h) (ph_sent h) (ph_printed h ++ [text]))
    | Throw Undefined => (Throw Undefined, h)
    | Throw _ => (Ok (Some 1), h)
    end.
Proof.
  intros E. unfold pricer_main, catch_all, lift, mbind, prog_bind, result_bind. rewrite E. cbn [default].
  destruct (MetalMonteCarlo device) as [pricer|[]]; try done. rewrite bool_decide_eq_true_2 by done.
  destruct (ParseCliRequest stod arguments) as [request|[]]; try done. destruct (Price pricer request) as [priced|[]]; try done.
  by destruct (object_dump (Some 2) _) as [text|[]].
Qed.

Lemma stoull_bounds text v parsed : stoull text = Ok (v, parsed) -> 0 <= v < 2 ^ 64.
Proof.
  intros E. apply stoull_Ok in E as (front & rest & _ & (spaces & sign & digits & _ & _ & _ & _ & Hd & Hv & ->) & _).
  case_bool_decide; [apply Z.mod_pos_bound; lia|]. split; [by apply decimal_value_nonneg|done].
Qed.

Lemma stoul_bounds text v : stoul text = Ok v -> 0 <= v < 2 ^ 64.
Proof.
  unfold stoul. destruct (stoull text) as [[z parsed]|[]] eqn:E; try done. intros [= <-]. by apply stoull_bounds in E.
Qed.

(** A port that is accepted is one; what is written with a sign or in too many digits is refused. *)
Lemma ParsePort_bounds value port : ParsePort value = Ok port -> 0 <= port < 2 ^ 16 /\ stoul value = Ok port.
Proof.
  unfold ParsePort. destruct (stoul value) as [z|] eqn:E; [|done]. cbn [mbind result_bind].
  destruct (_ <? _) eqn:Ez; [done|]. intros [= <-]. apply Z.ltb_ge in Ez. apply stoul_bounds in E as E'. split; [lia|done].
Qed.

(** What the command asks for, the simulation can be asked for: the paths fit a [std::size_t], the seed 32 bits. *)
Lemma ParseCliRequest_bounds stod arguments request :
  ParseCliRequest stod arguments = Ok request ->
  0 <= pr_paths request < 2 ^ 64 /\ 0 <= pr_seed request < 2 ^ 32 /\ (length arguments = 8 \/ length arguments = 9)%nat.
Proof.
  intros E. destruct arguments as [|? [|? [|? [|? [|? [|? [|? [|paths [|seed [|]]]]]]]]]]; try done.
  all: unfold ParseCliRequest in E; cbn [lookup list_lookup] in E; invert_bind; cbn [pr_paths pr_seed].
  all: destruct (stoull paths) as [[z parsed]|] eqn:Ep; [|done]; apply stoull_bounds in Ep; injection Hb5 as <-.
  - split; [exact Ep|]. split; [lia|by left].
  - split; [exact Ep|]. split; [|by right]. destruct (stoul seed); [|done]. injection Hb6 as <-. by apply Z.mod_pos_bound.
Qed.

Example negative_port : ParsePort "-1" = Throw (InvalidArgument "port must be between 0 and 65535").
Proof. vm_compute. reflexivity. Qed.
